(* ===== verification/_CoqProject ===== *)
-Q . S2P
Prelude.v
Packet.v
Codec.v
CodecProofs.v
CodecTheorems.v
Subscription.v
SubscriptionProofs.v
SubscriptionTheorems.v
SubscriptionCount.v
Metrics.v
Messages.v
OfflineQueue.v
Storage.v
StorageProofs.v
Retain.v
Session.v
SessionProofs.v
SessionTheorems.v
Qos.v
QosProofs.v
QosTheorems.v
Router.v
RouterTheorems.v
Lifecycle.v
LifecycleTheorems.v
RestartTheorems.v
SweepTheorems.v
NetAddr.v
IpFilter.v
IpFilterTheorems.v
Limiter.v
LimiterTheorems.v
Security.v
Auth.v
Plugin.v
PluginTheorems.v
Forward.v
WsStream.v
WsTheorems.v
Config.v
Loader.v
ConfigTheorems.v
Handlers.v
HandlersProofs.v
HandlersTheorems.v
Utils.v
Logging.v
Heartbeat.v
Connection.v
ConnectionTheorems.v
LoopTheorems.v
Listeners.v
Admin.v
AdminTheorems.v
Dashboard.v
DashboardTheorems.v
TlsLoad.v
Start.v
SnCodec.v
SnCodecTheorems.v
SnGateway.v
SnTheorems.v
System.v
SystemExec.v
SystemProofs.v
SystemGateway.v
SystemInvariant.v
SystemTheorems.v
SystemMoves.v
SystemSpec.v
SystemDelivery.v
SystemShutdown.v
Threads.v
Interleave.v
InterleaveTree.v
InterleaveProofs.v
InterleaveTheorems.v
InterleaveDelivery.v
StartTheorems.v
