(* ===== verification/Prelude.v ===== *)
(** * LumenMQ: a verification development of the MQTT broker

    LumenMQ (under src/) is an MQTT 3.1.1 / 5.0 broker in Rust.  This library is
    a shallow embedding of its core in Rocq with the theorems that make it
    correct.  This root file holds what all the others share; each other file
    models one component, or proves its properties.

    ** The program

    A connection ([broker/mod.rs], [handle_connection]) passes the security guard
    ([security/]), has its bytes decoded by the codec ([codec/]), is
    authenticated ([broker/auth.rs]) and registered with the session manager
    ([broker/session.rs]), which hands over the messages that waited for the
    client ([broker/store_msg.rs]).  Each packet goes through the handlers of
    [broker/mod.rs]: a PUBLISH passes the guards and the plugins ([plugin/]), is
    deduplicated ([broker/qos.rs]), and is routed ([broker/router.rs]) over the
    subscription tree ([broker/subscription.rs]) to the channels of connected
    clients or the offline queues of the others; retained messages
    ([broker/retain.rs]), snapshots and offline messages are also written to a
    sled database ([storage/mod.rs]), from which a restarted broker recovers.
    Counters are kept in one global ([monitor/metrics.rs]).  In front of all this
    stand the listeners ([net/]: TCP, TLS, WebSocket, and the MQTT-SN gateway with
    its own protocol over UDP), beside it a sweeper of expired sessions and an HTTP
    admin API ([admin/mod.rs]); [main.rs] loads and validates the configuration
    ([config/]) and starts what it enables.

    ** Files

    - [Prelude]: results, machine integers and their wrap-around, bytes, UTF-8,
      strings and their splitting, big-endian encoding, record update, hints.
    - [Packet], [Codec]: the types of [codec/packet.rs] and [utils/error.rs]; every
      decoder and encoder of [codec/v3.rs], with the reader as a state and
      error monad.  [CodecProofs]: what each writer writes its reader reads.
      [CodecTheorems]: round trips of packets and of byte streams cut into
      chunks, the invariants of decoded packets, progress and exits of loops.
    - [Subscription]: trie, reverse index and shared groups, [validate_filter],
      [topic_matches_filter].  [SubscriptionProofs], [SubscriptionTheorems]:
      refinement of an abstract table of (client, filter, QoS), exactness of the
      trie walk, the round robin of shared groups.
    - [Metrics]: the counters with their 64-bit wrap-around, the snapshot and the
      Prometheus text.
    - [Messages]: messages between components, instants in nanoseconds, addresses.
    - [OfflineQueue]: the bounded queue with TTL and its exact contents.
    - [Storage], [StorageProofs]: the database operations over the interfaces
      [Sled] and [Json]; offline messages come back in order and per client.
    - [Retain]: the retained messages, and their recovery.
    - [Session], [SessionProofs], [SessionTheorems]: the session table over the
      interface [Mpsc]; its invariant under any sequence of operations,
      takeover by epochs, replay and expiry.
    - [Qos], [QosProofs], [QosTheorems]: packet identifiers, the inflight table
      as a step relation, the retry schedule.
    - [Router], [RouterTheorems]: who receives a publication, and how often.
    - [Lifecycle], [LifecycleTheorems], [RestartTheorems]: snapshots, cleanup,
      the publication of a will, recovery at start.  [SweepTheorems]: the expiry sweeper.
    - [NetAddr]: the address parser and printer of Rust's standard library.
      [IpFilter], [IpFilterTheorems]: CIDR rules and their bit tries against direct
      comparison of bits.
    - [Limiter], [Security]: token buckets in binary64, the per-IP counter, the
      guard and its connection limit.  [LimiterTheorems]: the floating-point bucket
      against one of integers, and the bounds on what a client may publish.
    - [Auth]: accounts and anonymous access, characterised exactly.
    - [Plugin], [PluginTheorems]: topic ACL, payload filter, forwarder and the
      protection of internal addresses.  [Forward]: the forwarder's task.
    - [WsStream], [WsTheorems]: the byte stream over WebSocket frames; the bytes
      read are the payloads of the binary frames, however the reads are sized.
    - [Config], [Loader], [ConfigTheorems]: every section of [config/settings.rs]
      with its defaults, [validate] against its contract and with its first error,
      the merge of files and environment variables.
    - [Handlers], [HandlersProofs], [HandlersTheorems]: [handle_packet] and its
      handlers as a state and error monad over the broker and the connection;
      totality, invariants, and the effect of PUBLISH and SUBSCRIBE.
    - [Utils], [Logging]: identifiers ([utils/time.rs]) and the log's writer and
      set-up ([monitor/log.rs]).
    - [Heartbeat]: the timer of [net/heartbeat.rs] and the times of its ticks.
    - [Connection], [ConnectionTheorems]: a connection from admission to close as a
      function of a script of events; the accounting of connections, and the
      keep-alive with that timer ([net/conn_context.rs]).  [LoopTheorems]: what the
      main loop routes of its client's QoS 2 messages (each at most once), and which
      of its ends publish the last will.
    - [Listeners]: the accept loops of the three stream servers.
    - [Admin], [AdminTheorems]: the routes, handlers and token check of the admin API
      and the dashboard's socket; who may write, what a deletion removes, what a
      manual publication does, that the reports agree with the tables.
    - [Dashboard], [DashboardTheorems]: the script of the dashboard's page
      ([admin/dashboard.rs]): the session table read back from its markup, the
      numbers with their rounding, the charts, the badge and the one socket that is
      open or about to be.
    - [SnCodec], [SnCodecTheorems]: the datagrams of the MQTT-SN gateway
      ([net/mqtt_sn.rs]) and their round trip.  [SnGateway], [SnTheorems]: its
      clients, topic registries, handlers and tasks as a step function on events;
      the invariant of its reachable states, and what happens to messages of
      registered topics in both directions.
    - [TlsLoad], [Start], [StartTheorems]: the certificates, and [main.rs]: which
      services a configuration starts, and that the broker they share satisfies
      the premises of the system's theorems.
    - [System]: the whole process as a step relation with labels: listeners,
      connections with their channels, the gateway with its forwarders, sweeper,
      admin requests, dashboards and the shutdown, interleaved on one broker.
      [SystemExec] computes its runs.  [SystemProofs], [SystemGateway],
      [SystemInvariant], [SystemMoves]: what each step keeps and what it moves.
      [SystemTheorems]: the invariant of every reachable state.  [SystemSpec]: the
      abstract post office, which the process refines.  [SystemDelivery]: a
      message accepted from one client is written to the socket of another, across
      any interleaving.  [SystemShutdown]: the shutdown ends every connection and
      every service.
    - [Threads]: threads as programs whose actions are critical sections, pools of
      them under a schedule, and rules to reason about one thread among others.
      [Interleave]: publishing, subscribing, joining, leaving, removal and the
      sweeper as such programs, one action for each lock the source takes.
      [InterleaveTree], [InterleaveProofs]: what each section does to the tables.
      [InterleaveTheorems]: run without interruption the programs are the operations
      of the components, and no schedule makes a client lose or gain a subscription
      by what others do.  [InterleaveDelivery]: a publication reaches a subscriber
      under any schedule; the races as runs.

    ** Correspondence

    Pure functions are functions; methods on shared objects take and return the
    object ([DashMap], [HashMap] and [RwLock] contents are [gmap]s or records);
    [Result] is the type of the same name below, whose bind is Rust's [?].
    Integers are [Z] with their wrap-around written where the source wraps.
    Clocks are arguments: an operation that reads [Instant::now] takes [now].
    Iteration over a hash map is iteration over the [gmap]'s list of entries; no
    theorem depends on its order.  In [Interleave] the atomic step is the critical
    section: what the source does under one lock guard (of a [RwLock], or of the
    entry of a [DashMap]), the steps of different tasks in any order.  In [System] a step is the handling of one event by one task (an
    accepted socket, the first packet, one replayed message, one event of a main
    loop, a datagram, a forwarded message, a tick of the sweeper, an admin request),
    and any task may take the next one.  The branches of a [select!] are the events;
    where it is biased, the shutdown goes first.  Log lines are left out.

    Code outside the repository is a parameter with laws that state its documented
    behaviour: [Sled] and [SledLaws] (the database), [Json] and [JsonLaws]
    (serde_json), [Mpsc], [MpscLaws], [MpscRx] and [MpscRxLaws] (tokio's
    bounded channels), [TokioTime] and [TokioTimeLaws] (its timers), [UuidCrate] and
    [UuidLaws] (random identifiers), [LogEnv] (the tracing crates),
    [ForwardEnv] and [Http] (the HTTP client and its channel), [Sink] and [SinkLaws]
    (the framed writer), [Toml] (the toml crate), [Axum] and [AxumLaws] (routing and
    extractors of the HTTP server), [Rustls] and [RustlsLaws] (certificates),
    [Browser] and [BrowserLaws] (the text of a number in the page).
    Each has a concrete instance ([MapDb], [ListChan], [ListForward],
    [HandlerDemo], [DelayTimer], [TomlDemo], [AdminDemo], [TlsDemo], [PageDemo]) on which the
    witnesses of the theorems run.

    ** Loops, fuel and non-termination

    Loops over data are structural.  The decoders' loops carry the length of the
    remaining input as fuel; [parse_loops_exit] and [decode_progress] show that
    they never stop for lack of it.  [allocate_loop] has the source's own bound of
    65535 rounds, and [assign_loop] likewise.  The eviction loop of [enqueue] has as fuel the number of
    elements; if it has not ended after that many rounds it never does, and the
    result is [None]: [offline_queue_contents] shows that a capacity of at least
    one always suffices and [enqueue_zero_capacity_diverges] that zero never does,
    for any fuel.  [None] is passed on by everything that may enqueue, and
    [publish_delivers], [handle_packet_safe] and [system_invariant] prove that it
    does not occur in a broker with a positive limit.  [None] also stands for the
    end of the process: [interval] panics on a zero period, which aborts a release
    build, when [retry_interval_secs] is zero ([zero_retry_interval_aborts]); [System]
    has no next state there, and [connection_accounting] assumes another value.  The theorems on runs of
    [System] bound their length by [2 ^ 62] steps, so that the counter of epochs and
    the gauges do not wrap around.

    ** Not modelled

    Sockets and the framing of TLS and WebSocket, the accept loop of the HTTP
    server, the installation of signal handlers and the markup and style sheet of the
    dashboard's page are input and output around the modelled code, or have no effect
    on it; accessors and constructors that only store their arguments are projections
    and constructors.  In [System] the handling of one event is one step; what
    happens between the locks of one handler is the subject of [Interleave], for the
    operations on the shared tables (subscriptions, sessions, storage), and of the
    examples [cleanup_race], [check_then_connect_race], [delete_session_race] and
    [accept_race].  Iteration over a [DashMap], which locks shard by shard, is one
    section there.  Times are arguments of the steps of [System] without a
    relation between them; the bounds on time are those of the components
    ([keep_alive_enforced], [retry_schedule], [rate_limit_bounds]).  The delivery
    theorem of [System] says which steps are enabled; that they are taken is up to the
    scheduler of tokio, which is not part of the program.

    ** What does not hold

    Parts of the invariant hold as long as what breaks them does not happen: the
    gauge of current connections is exact without the MQTT-SN gateway, which counts
    sleeping and repeated clients wrongly ([sleeper_counted_twice],
    [repeated_connect_leaks]), and the per-IP counts until a reload turns their
    limit on or off ([reload_leaks_count]).  [main] does not wait for the connections
    ([main_leaves_connections]).  The validation lets two configurations pass
    with which the process does not go on: no room for offline messages
    ([zero_offline_capacity_valid]) and a retry interval of zero
    ([zero_retry_interval_valid]).  A message that a publisher puts into the offline
    queue of a session that is taken over at that moment is lost
    ([takeover_loses_message]), and a client that comes back while its old connection
    is being cleaned up can lose its new subscriptions
    ([leave_takes_new_subscription]). *)

From stdpp Require Export base tactics list gmap strings fin_maps.
From stdpp Require Import pretty.
From Stdlib Require Export Ascii.
From Stdlib Require Export ZArith Lia.

Open Scope Z_scope.
Set Default Proof Using "Type".

(** ** Results: Rust's [Result<A, E>]

    Both constructors keep Rust's names.  [Result E] is a monad, with stdpp's
    [x ← e; k] notation standing for Rust's [let x = e?; k]. *)

Inductive Result (E A : Type) : Type :=
  | Ok (a : A)
  | Err (e : E).
Arguments Ok {E A} a.
Arguments Err {E A} e.

#[export] Instance result_ret {E} : MRet (Result E) := λ A a, Ok a.
#[export] Instance result_bind {E} : MBind (Result E) := λ A B f r,
  match r with Ok a => f a | Err e => Err e end.
#[export] Instance result_fmap {E} : FMap (Result E) := λ A B f r,
  match r with Ok a => Ok (f a) | Err e => Err e end.

(** [r.is_ok()] *)
Definition is_ok {E A} (r : Result E A) : bool :=
  match r with Ok _ => true | Err _ => false end.

(** ** Stateful and fallible operations

    [SE S E A] is [&mut self -> Result<A, E>]: the state is threaded, also
    through errors, since the effects before an early return remain. *)

Definition SE (S E A : Type) : Type := S → Result E A * S.

#[export] Instance se_ret {S E} : MRet (SE S E) := λ A a s, (Ok a, s).
#[export] Instance se_bind {S E} : MBind (SE S E) := λ A B f m s,
  match m s with
  | (Ok a, s) => f a s
  | (Err e, s) => (Err e, s)
  end.
Definition se_lift {S E A} (r : Result E A) : SE S E A := λ s, (r, s).
Definition se_modify {S E} (f : S → S) : SE S E unit := λ s, (Ok tt, f s).

(** [r.map_err(f)] *)
Definition map_err {E F A} (f : E → F) (r : Result E A) : Result F A :=
  match r with Ok a => Ok a | Err e => Err (f e) end.

(** ** Record update

    [r <| f := v |>] is [r] with the field [f] replaced by [v] (a Rust
    assignment [r.f = v]).  A record type opts in with a [Settable] instance,
    its eta expansion; the setter of each projection is then computed. *)

Class Settable (R : Type) := eta_of : R → R.
Class Setter {R T : Type} (proj : R → T) := upd : (T → T) → R → R.

Ltac solve_setter :=
  match goal with
  | |- @Setter ?R ?T ?proj =>
      let f := fresh "f" in
      let x := fresh "x" in
      unfold Setter; intros f x;
      let e := eval hnf in (@eta_of R _ x) in
      match eval pattern (proj x) in e with
      | ?g _ => let b := eval cbv beta in (g (f (proj x))) in exact b
      end
  end.
#[export] Hint Extern 1 (Setter _) => solve_setter : typeclass_instances.

Arguments upd {R T} proj {_} _ _ /.

Declare Scope record_scope.
Delimit Scope record_scope with rec.
Open Scope record_scope.
Notation "x <| proj := v |>" := (upd proj (λ _, v) x)
  (at level 1, left associativity, format "x  <| proj  :=  v |>") : record_scope.
Notation "x <| proj ::= f |>" := (upd proj f x)
  (at level 1, left associativity, format "x  <| proj  ::=  f |>") : record_scope.

(** ** Machine integers

    A [w]-bit unsigned integer is a [Z] in [0 .. 2^w - 1]; the operations
    that can leave the range are written with the wrapping of the type. *)

Definition u8_max : Z := 255.
Definition u16_max : Z := 65535.
Definition u32_max : Z := 4294967295.
Definition u64_mod : Z := 18446744073709551616.

Definition is_u8 (z : Z) : bool := (0 <=? z) && (z <=? u8_max).
Definition is_u16 (z : Z) : bool := (0 <=? z) && (z <=? u16_max).
Definition is_u32 (z : Z) : bool := (0 <=? z) && (z <=? u32_max).

(** [x.wrapping_add(1)] on [u16], [fetch_add(1)] on [AtomicU64], and
    [fetch_add]/[fetch_sub] on [AtomicI64]. *)
Definition wrap_u16 (z : Z) : Z := z mod 65536.
Definition wrap_u64 (z : Z) : Z := z mod u64_mod.
Definition wrap_i64 (z : Z) : Z := (z + u64_mod / 2) mod u64_mod - u64_mod / 2.

(** [is_bytes]: every element of a byte buffer is an [u8]. *)
Definition is_bytes (l : list Z) : bool := forallb is_u8 l.

(** Truncating casts [x as u8], [x as u16]. *)
Definition as_u8 (z : Z) : Z := z mod 256.
Definition as_u16 (z : Z) : Z := z mod 65536.

(** [u16::from_be_bytes], [to_be_bytes], and the [u32]/[u64] analogues used
    by the codec and the storage keys. *)
Definition u16_from_be_bytes (hi lo : Z) : Z := hi * 256 + lo.
Definition u16_to_be_bytes (v : Z) : list Z := [(v / 256) mod 256; v mod 256].
Definition u32_from_be_bytes (a b c d : Z) : Z :=
  ((a * 256 + b) * 256 + c) * 256 + d.
Definition u32_to_be_bytes (v : Z) : list Z :=
  [(v / 16777216) mod 256; (v / 65536) mod 256; (v / 256) mod 256; v mod 256].

(** The [n] big-endian bytes of an [8n]-bit integer ([u64::to_be_bytes]). *)
Fixpoint be_bytes (n : nat) (v : Z) : list Z :=
  match n with
  | O => []
  | S n => (v / 256 ^ Z.of_nat n) mod 256 :: be_bytes n v
  end.
Definition u64_to_be_bytes (v : Z) : list Z := be_bytes 8 v.

(** The lexicographic order on byte sequences. *)
Fixpoint lex_ltb (a b : list Z) : bool :=
  match a, b with
  | _, [] => false
  | [], _ :: _ => true
  | x :: a, y :: b => (x <? y) || ((x =? y) && lex_ltb a b)
  end.
Definition lex_lt (a b : list Z) : Prop := lex_ltb a b = true.

(** ** Byte strings

    A Rust [&str] or [String] is a UTF-8 byte sequence.  It is modelled by
    [string], whose characters are 8-bit, one per byte; [&[u8]], [Vec<u8>],
    [Bytes] and [BytesMut] are lists of [Z].  [as_bytes] is [str::as_bytes]. *)

Definition byte_of_ascii (c : Ascii.ascii) : Z := Z.of_N (Ascii.N_of_ascii c).
Definition ascii_of_byte (b : Z) : Ascii.ascii := Ascii.ascii_of_N (Z.to_N b).

Fixpoint as_bytes (s : string) : list Z :=
  match s with
  | EmptyString => []
  | String c s => byte_of_ascii c :: as_bytes s
  end.

Fixpoint string_of_bytes (l : list Z) : string :=
  match l with
  | [] => EmptyString
  | b :: l => String (ascii_of_byte b) (string_of_bytes l)
  end.

(** [str::len] (bytes) and [str::is_empty]. *)
Definition str_len (s : string) : Z := Z.of_nat (String.length s).
Definition str_is_empty (s : string) : bool :=
  match s with EmptyString => true | _ => false end.

(** [s.contains(c)] for a one-byte character. *)
Fixpoint str_contains (c : Ascii.ascii) (s : string) : bool :=
  match s with
  | EmptyString => false
  | String d s => Ascii.eqb c d || str_contains c s
  end.

(** [s.split(c).collect()]: the segments between the separators; splitting the
    empty string gives one empty segment, as in Rust. *)
Fixpoint str_split (c : Ascii.ascii) (s : string) : list string :=
  match s with
  | EmptyString => [""%string]
  | String d s =>
      if Ascii.eqb c d then ""%string :: str_split c s
      else match str_split c s with
           | [] => [String d ""]
           | seg :: segs => String d seg :: segs
           end
  end.

(** The inverse of [str_split]: segments joined by the separator. *)
Fixpoint str_join (c : Ascii.ascii) (segs : list string) : string :=
  match segs with
  | [] => ""
  | [seg] => seg
  | seg :: segs => (seg ++ String c (str_join c segs))%string
  end.

(** [s.split_once(c)]: the parts before and after the first separator. *)
Fixpoint str_split_once (c : Ascii.ascii) (s : string) : option (string * string) :=
  match s with
  | EmptyString => None
  | String d s =>
      if Ascii.eqb c d then Some (""%string, s)
      else match str_split_once c s with
           | Some (a, b) => Some (String d a, b)
           | None => None
           end
  end.

Definition slash : Ascii.ascii := "/"%char.

(** ** UTF-8 validity: [std::str::from_utf8]

    The well-formed byte sequences of the Unicode standard (table 3-7), which
    is the set the Rust standard library accepts: no overlong form, no
    surrogate, nothing above U+10FFFF. *)

Definition in_range (lo hi b : Z) : bool := (lo <=? b) && (b <=? hi).
Definition is_cont (b : Z) : bool := in_range 128 191 b.

Fixpoint valid_utf8 (l : list Z) : bool :=
  match l with
  | [] => true
  | b0 :: l0 =>
      if in_range 0 127 b0 then valid_utf8 l0
      else match l0 with
      | [] => false
      | b1 :: l1 =>
          if in_range 194 223 b0 then is_cont b1 && valid_utf8 l1
          else match l1 with
          | [] => false
          | b2 :: l2 =>
              if in_range 224 239 b0 then
                (if b0 =? 224 then in_range 160 191 b1
                 else if b0 =? 237 then in_range 128 159 b1
                 else is_cont b1)
                && is_cont b2 && valid_utf8 l2
              else match l2 with
              | [] => false
              | b3 :: l3 =>
                  in_range 240 244 b0
                  && (if b0 =? 240 then in_range 144 191 b1
                      else if b0 =? 244 then in_range 128 143 b1
                      else is_cont b1)
                  && is_cont b2 && is_cont b3 && valid_utf8 l3
              end
          end
      end
  end.

(** [std::str::from_utf8(raw).map(|s| s.to_string())] *)
Definition from_utf8 (raw : list Z) : option string :=
  if valid_utf8 raw then Some (string_of_bytes raw) else None.

(** The invariant of the type [String]. *)
Definition is_str (s : string) : bool := valid_utf8 (as_bytes s).

(** ** Formatting: [format!("{}", n)] and [format!("{:02x}", n)] *)

Definition fmt_Z (n : Z) : string := pretty n.
Definition hex_digit (d : Z) : Ascii.ascii :=
  if d <? 10 then ascii_of_byte (48 + d) else ascii_of_byte (87 + d).
Fixpoint hex_digits (fuel : nat) (n : Z) (acc : string) : string :=
  match fuel with
  | O => acc
  | S fuel =>
      let acc := String (hex_digit (n mod 16)) acc in
      if n / 16 =? 0 then acc else hex_digits fuel (n / 16) acc
  end.
Definition fmt_02x (n : Z) : string :=
  let s := hex_digits 16 n "" in
  if (String.length s <? 2)%nat then String "0"%char s else s.

(** Boolean conjunctions, in the hypotheses and in the goal. *)
Ltac destruct_andb :=
  repeat match goal with
  | H : _ && _ = true |- _ => apply andb_prop in H; destruct H
  end.
Ltac split_andb :=
  repeat match goal with |- _ && _ = true => apply andb_true_intro; split end.

(** [lia] with division and modulo by constants. *)
Ltac div_mod_lia := Z.to_euclidean_division_equations; lia.

(** ** Lemmas: booleans, ranges, lists *)

Lemma is_u8_spec z : is_u8 z = true ↔ 0 ≤ z < 256.
Proof. unfold is_u8, u8_max. lia. Qed.
Lemma is_u16_spec z : is_u16 z = true ↔ 0 ≤ z < 65536.
Proof. unfold is_u16, u16_max. lia. Qed.
Lemma is_u32_spec z : is_u32 z = true ↔ 0 ≤ z < 4294967296.
Proof. unfold is_u32, u32_max. lia. Qed.

Lemma Z_gtb_false a b : a ≤ b → (a >? b) = false.
Proof. rewrite Z.gtb_ltb, Z.ltb_ge. done. Qed.
Lemma Z_gtb_true a b : b < a → (a >? b) = true.
Proof. rewrite Z.gtb_ltb, Z.ltb_lt. done. Qed.
Lemma Z_ltb_false a b : b ≤ a → (a <? b) = false.
Proof. by rewrite Z.ltb_ge. Qed.

(** A property of a byte (or of any small range) by evaluation. *)
Lemma Z_range_forall (n : nat) (P : Z → bool) :
  forallb (λ i, P (Z.of_nat i)) (seq 0 n) = true →
  ∀ z, 0 ≤ z < Z.of_nat n → P z = true.
Proof.
  intros H z Hz. rewrite forallb_forall in H.
  specialize (H (Z.to_nat z)). rewrite Z2Nat.id in H by lia.
  apply H, in_seq. lia.
Qed.

Lemma is_bytes_app l k : is_bytes (l ++ k) = is_bytes l && is_bytes k.
Proof. apply forallb_app. Qed.

Lemma is_bytes_elem l i b : is_bytes l = true → l !! i = Some b → 0 ≤ b < 256.
Proof.
  unfold is_bytes. rewrite forallb_forall. intros H Hi.
  apply is_u8_spec, H. by eapply list_elem_of_In, list_elem_of_lookup_2.
Qed.

Lemma is_bytes_take n l : is_bytes l = true → is_bytes (take n l) = true.
Proof.
  intros H. rewrite <- (take_drop n l), is_bytes_app in H.
  by apply andb_prop in H as [? _].
Qed.

Lemma is_bytes_drop n l : is_bytes l = true → is_bytes (drop n l) = true.
Proof.
  intros H. rewrite <- (take_drop n l), is_bytes_app in H.
  by apply andb_prop in H as [_ ?].
Qed.

(** The last [n] elements of a list. *)
Definition last_n {A} (n : nat) (l : list A) : list A := drop (length l - n) l.

Lemma length_last_n {A} n (l : list A) : length (last_n n l) = Nat.min n (length l).
Proof. unfold last_n. rewrite length_drop. lia. Qed.

Lemma last_n_all {A} n (l : list A) : (length l ≤ n)%nat → last_n n l = l.
Proof. intros H. unfold last_n. replace (length l - n)%nat with 0%nat by lia. done. Qed.

Lemma last_n_app_r {A} n (l k : list A) :
  (length k ≤ n)%nat → last_n n (l ++ k) = last_n (n - length k) l ++ k.
Proof.
  intros H. unfold last_n. rewrite length_app, drop_app.
  replace (length l + length k - n - length l)%nat with 0%nat by lia.
  rewrite drop_0. do 2 f_equal. lia.
Qed.

Lemma last_n_app_l {A} n (l k : list A) :
  (n ≤ length k)%nat → last_n n (l ++ k) = last_n n k.
Proof.
  intros H. unfold last_n. rewrite length_app, drop_app_ge by lia. f_equal. lia.
Qed.

(** ** Lemmas: strings and their bytes *)

Lemma ascii_of_byte_of_ascii c : ascii_of_byte (byte_of_ascii c) = c.
Proof.
  unfold ascii_of_byte, byte_of_ascii. rewrite N2Z.id. apply ascii_N_embedding.
Qed.

Lemma byte_of_ascii_of_byte b : 0 ≤ b < 256 → byte_of_ascii (ascii_of_byte b) = b.
Proof.
  intros H. unfold ascii_of_byte, byte_of_ascii.
  rewrite N_ascii_embedding by lia. lia.
Qed.

Lemma byte_of_ascii_range c : 0 ≤ byte_of_ascii c < 256.
Proof. unfold byte_of_ascii. pose proof (N_ascii_bounded c). lia. Qed.

Lemma string_of_as_bytes s : string_of_bytes (as_bytes s) = s.
Proof. induction s; simpl; [done|]. by rewrite ascii_of_byte_of_ascii, IHs. Qed.

Lemma as_bytes_of_bytes l : is_bytes l = true → as_bytes (string_of_bytes l) = l.
Proof.
  induction l as [|b l IH]; simpl; [done|]. intros [Hb Hl]%andb_prop.
  apply is_u8_spec in Hb. by rewrite byte_of_ascii_of_byte, IH.
Qed.

Lemma as_bytes_is_bytes s : is_bytes (as_bytes s) = true.
Proof.
  induction s as [|c s IH]; simpl; [done|]. rewrite IH, andb_true_r.
  apply is_u8_spec, byte_of_ascii_range.
Qed.

Lemma string_app_assoc (a b c : string) : a +:+ b +:+ c = (a +:+ b) +:+ c.
Proof. induction a as [|x a IH]; [done|]. exact (f_equal (String x) IH). Qed.

Lemma string_app_nil (a : string) : a +:+ "" = a.
Proof. induction a as [|x a IH]; [done|]. exact (f_equal (String x) IH). Qed.

Lemma length_as_bytes s : length (as_bytes s) = String.length s.
Proof. induction s; simpl; congruence. Qed.

Lemma str_len_as_bytes s : str_len s = Z.of_nat (length (as_bytes s)).
Proof. unfold str_len. by rewrite length_as_bytes. Qed.

Lemma str_len_nonneg s : 0 ≤ str_len s.
Proof. unfold str_len. lia. Qed.

Lemma from_utf8_as_bytes s : is_str s = true → from_utf8 (as_bytes s) = Some s.
Proof. unfold from_utf8, is_str. intros ->. by rewrite string_of_as_bytes. Qed.

Lemma from_utf8_is_str raw s :
  is_bytes raw = true → from_utf8 raw = Some s → is_str s = true ∧ as_bytes s = raw.
Proof.
  unfold from_utf8, is_str. intros Hraw. destruct (valid_utf8 raw) eqn:E; [|done].
  intros [= <-]. by rewrite as_bytes_of_bytes.
Qed.

(** Splitting and joining. *)

Lemma str_split_nonempty c s : str_split c s ≠ [].
Proof.
  destruct s as [|d s]; simpl; [done|].
  destruct (Ascii.eqb c d); [done|]. by destruct (str_split c s).
Qed.

Lemma str_join_split c s : str_join c (str_split c s) = s.
Proof.
  induction s as [|d s IH]; [done|]. cbn [str_split].
  pose proof (str_split_nonempty c s) as Hne.
  destruct (Ascii.eqb_spec c d) as [->|_].
  - destruct (str_split d s) as [|seg segs]; [done|]. cbn [str_join] in *.
    by rewrite <- IH.
  - destruct (str_split c s) as [|seg segs]; [done|].
    destruct segs; cbn [str_join] in *; by rewrite <- IH.
Qed.

Lemma str_split_inj c s1 s2 : str_split c s1 = str_split c s2 → s1 = s2.
Proof.
  intros H. by rewrite <- (str_join_split c s1), H, str_join_split.
Qed.

(** No segment contains the separator, and joining such segments and
    splitting again is the identity. *)
Lemma str_split_no_sep c s seg : seg ∈ str_split c s → str_contains c seg = false.
Proof.
  revert seg. induction s as [|d s IH]; intros seg; cbn [str_split].
  { by intros ->%list_elem_of_singleton. }
  destruct (Ascii.eqb_spec c d) as [->|Hne].
  { intros [->|?]%elem_of_cons; [done|auto]. }
  pose proof (str_split_nonempty c s).
  destruct (str_split c s) as [|g gs]; [done|].
  intros [->|Hin]%elem_of_cons.
  - simpl. destruct (Ascii.eqb_spec c d); [done|]. apply IH. by left.
  - apply IH. by right.
Qed.

Lemma str_split_app_sep c seg s :
  str_contains c seg = false →
  str_split c (seg ++ String c s) = seg :: str_split c s.
Proof.
  induction seg as [|d seg IH]; intros H.
  - change ("" +:+ String c s) with (String c s). cbn [str_split].
    by rewrite Ascii.eqb_refl.
  - change (String d seg +:+ String c s) with (String d (seg +:+ String c s)).
    cbn [str_split str_contains] in *. apply orb_false_iff in H as [Hd Hs].
    by rewrite Hd, IH.
Qed.

Lemma str_split_no_sep_id c seg :
  str_contains c seg = false → str_split c seg = [seg].
Proof.
  induction seg as [|d seg IH]; cbn [str_split str_contains]; [done|].
  intros [Hd Hs]%orb_false_iff. by rewrite Hd, IH.
Qed.

Lemma str_split_join c segs :
  segs ≠ [] → Forall (λ seg, str_contains c seg = false) segs →
  str_split c (str_join c segs) = segs.
Proof.
  intros Hne Hall. induction segs as [|seg segs IH]; [done|].
  inversion Hall as [|? ? Hseg Hsegs]; subst.
  destruct segs as [|seg' segs]; cbn [str_join].
  - by apply str_split_no_sep_id.
  - rewrite str_split_app_sep by done. f_equal. by apply IH.
Qed.

(** ** Lemmas: big-endian integers and the lexicographic order *)

Lemma length_be_bytes n v : length (be_bytes n v) = n.
Proof. induction n; simpl; congruence. Qed.

Lemma lex_lt_irrefl a : ¬ lex_lt a a.
Proof.
  unfold lex_lt. induction a as [|x a IH]; simpl; [done|].
  rewrite Z.ltb_irrefl, Z.eqb_refl. done.
Qed.

Lemma lex_lt_trans a b c : lex_lt a b → lex_lt b c → lex_lt a c.
Proof.
  unfold lex_lt. revert b c. induction a as [|x a IH]; intros [|y b] [|z c]; simpl; try done.
  rewrite !orb_true_iff, !andb_true_iff, !Z.ltb_lt, !Z.eqb_eq.
  intros [?|[-> ?]] [?|[-> ?]]; [left; lia|left; lia|left; lia|right; eauto].
Qed.

Lemma lex_lt_app_l p a b : lex_lt (p ++ a) (p ++ b) ↔ lex_lt a b.
Proof.
  unfold lex_lt. induction p as [|x p IH]; simpl; [done|].
  by rewrite Z.ltb_irrefl, Z.eqb_refl.
Qed.

Lemma be_bytes_lt n v w :
  0 ≤ v < w → w < 256 ^ Z.of_nat n → lex_lt (be_bytes n v) (be_bytes n w).
Proof.
  intros Hv Hw.
  enough (∀ v w, 0 ≤ v mod 256 ^ Z.of_nat n < w mod 256 ^ Z.of_nat n →
            lex_lt (be_bytes n v) (be_bytes n w)) as H.
  { apply H. rewrite !Z.mod_small by lia. lia. }
  clear. induction n as [|n IH]; intros v w H; unfold lex_lt in *; simpl.
  { rewrite !Z.mod_1_r in H. lia. }
  set (P := 256 ^ Z.of_nat n) in *.
  assert (HP : 0 < P) by (apply Z.pow_pos_nonneg; lia).
  replace (256 ^ Z.of_nat (S n)) with (P * 256) in H
    by (unfold P; rewrite Nat2Z.inj_succ, Z.pow_succ_r by lia; lia).
  rewrite !Z.rem_mul_r in H by lia.
  pose proof (Z.mod_pos_bound v P HP). pose proof (Z.mod_pos_bound w P HP).
  apply orb_true_iff. destruct (Z.lt_trichotomy ((v / P) mod 256) ((w / P) mod 256)) as [?|[E|?]].
  - left. by apply Z.ltb_lt.
  - right. rewrite E, Z.eqb_refl. simpl. apply IH. lia.
  - nia.
Qed.

Lemma be_bytes_inj n v w :
  0 ≤ v < 256 ^ Z.of_nat n → 0 ≤ w < 256 ^ Z.of_nat n → be_bytes n v = be_bytes n w → v = w.
Proof.
  intros Hv Hw E. destruct (Z.lt_trichotomy v w) as [Hlt|[?|Hlt]]; [|done|]; exfalso.
  - pose proof (be_bytes_lt n v w ltac:(lia) ltac:(lia)) as H. rewrite E in H.
    by apply lex_lt_irrefl in H.
  - pose proof (be_bytes_lt n w v ltac:(lia) ltac:(lia)) as H. rewrite E in H.
    by apply lex_lt_irrefl in H.
Qed.
