(* ===== verification/Packet.v ===== *)
(** * Errors and packets

    The data model shared by every component: the error types of
    [src/utils/error.rs] and the MQTT packets of [src/codec/packet.rs].  Each
    Rust enum is an inductive type in a module of the same name, so that a
    constructor reads as in the source ([CodecError.MalformedBody],
    [PacketType.Publish]). *)

From S2P Require Import Prelude.

(** ** [src/utils/error.rs] *)

Module CodecError.
Inductive CodecError :=
  | Incomplete
  | InvalidPacketType (v : Z)
  | InvalidFlags (ptype flags : Z)
  | InvalidProtocol (s : string)
  | InvalidRemainingLength (n : Z)
  | MalformedUtf8
  | MalformedBody (s : string)
  | UnsupportedVersion (v : Z).
End CodecError.
Abbreviation CodecError := CodecError.CodecError.

Module AuthError.
Inductive AuthError :=
  | BadCredentials
  | UnauthorizedClientId
  | AnonymousForbidden
  | TooManyConnections.
End AuthError.
Abbreviation AuthError := AuthError.AuthError.

(** [std::io::Error] is carried as its message. *)
Module BrokerError.
Inductive BrokerError :=
  | Codec (e : CodecError)
  | Io (msg : string)
  | ConnectionClosed (s : string)
  | ConnectionReset
  | HeartbeatTimeout (client : string)
  | PacketTooLarge (size limit : Z)
  | Session (s : string)
  | Subscription (s : string)
  | InvalidTopic (s : string)
  | InvalidClientId
  | InvalidQos (q : Z)
  | Auth (e : AuthError)
  | Config (s : string)
  | Storage (s : string)
  | RateLimited (s : string)
  | Other (s : string).
End BrokerError.
Abbreviation BrokerError := BrokerError.BrokerError.

(** [pub type BrokerResult<T> = Result<T, BrokerError>] *)
Abbreviation BrokerResult := (Result BrokerError).

#[export] Instance codec_error_eq_dec : EqDecision CodecError.
Proof. solve_decision. Defined.
#[export] Instance auth_error_eq_dec : EqDecision AuthError.
Proof. solve_decision. Defined.
#[export] Instance broker_error_eq_dec : EqDecision BrokerError.
Proof. solve_decision. Defined.

(** [Display], from the [#[error]] attributes. *)
Definition fmt_CodecError (e : CodecError) : string :=
  match e with
  | CodecError.Incomplete => "incomplete packet: need more bytes"
  | CodecError.InvalidPacketType v => "invalid packet type: " +:+ fmt_Z v
  | CodecError.InvalidFlags t f => "invalid flags: type=" +:+ fmt_Z t +:+ " flags=0x" +:+ fmt_02x f
  | CodecError.InvalidProtocol s => "invalid protocol name/level: " +:+ s
  | CodecError.InvalidRemainingLength n => "invalid remaining length: " +:+ fmt_Z n
  | CodecError.MalformedUtf8 => "malformed utf8 string"
  | CodecError.MalformedBody s => "malformed packet body: " +:+ s
  | CodecError.UnsupportedVersion v => "unsupported protocol version: " +:+ fmt_Z v
  end.

Definition fmt_AuthError (e : AuthError) : string :=
  match e with
  | AuthError.BadCredentials => "authentication failed: bad credentials"
  | AuthError.UnauthorizedClientId => "authentication failed: client id not authorized"
  | AuthError.AnonymousForbidden => "authentication failed: anonymous not allowed"
  | AuthError.TooManyConnections => "authentication failed: too many connections"
  end.

Definition fmt_BrokerError (e : BrokerError) : string :=
  match e with
  | BrokerError.Codec e => "codec error: " +:+ fmt_CodecError e
  | BrokerError.Io msg => "io error: " +:+ msg
  | BrokerError.ConnectionClosed s => "connection closed: " +:+ s
  | BrokerError.ConnectionReset => "connection reset by peer"
  | BrokerError.HeartbeatTimeout c => "heartbeat timeout: client " +:+ c +:+ " keep-alive expired"
  | BrokerError.PacketTooLarge n limit =>
      "packet too large: " +:+ fmt_Z n +:+ " bytes exceeds limit " +:+ fmt_Z limit
  | BrokerError.Session s => "session error: " +:+ s
  | BrokerError.Subscription s => "subscription error: " +:+ s
  | BrokerError.InvalidTopic s => "topic invalid: " +:+ s
  | BrokerError.InvalidClientId => "client id empty or too long"
  | BrokerError.InvalidQos q => "qos invalid: " +:+ fmt_Z q
  | BrokerError.Auth e => "auth error: " +:+ fmt_AuthError e
  | BrokerError.Config s => "config error: " +:+ s
  | BrokerError.Storage s => "storage error: " +:+ s
  | BrokerError.RateLimited s => "rate limited: " +:+ s
  | BrokerError.Other s => s
  end.

(** ** [src/codec/packet.rs] *)

(** The packet type, the high nibble of the fixed header. *)
Module PacketType.
Inductive PacketType :=
  | Connect | Connack | Publish | Puback | Pubrec | Pubrel | Pubcomp
  | Subscribe | Suback | Unsubscribe | Unsuback | Pingreq | Pingresp
  | Disconnect.

Definition from_u8 (v : Z) : Result CodecError PacketType :=
  match v with
  | 1 => Ok Connect
  | 2 => Ok Connack
  | 3 => Ok Publish
  | 4 => Ok Puback
  | 5 => Ok Pubrec
  | 6 => Ok Pubrel
  | 7 => Ok Pubcomp
  | 8 => Ok Subscribe
  | 9 => Ok Suback
  | 10 => Ok Unsubscribe
  | 11 => Ok Unsuback
  | 12 => Ok Pingreq
  | 13 => Ok Pingresp
  | 14 => Ok Disconnect
  | other => Err (CodecError.InvalidPacketType other)
  end.

(** The [repr(u8)] discriminants, [ptype as u8]. *)
Definition as_u8 (t : PacketType) : Z :=
  match t with
  | Connect => 1 | Connack => 2 | Publish => 3 | Puback => 4 | Pubrec => 5
  | Pubrel => 6 | Pubcomp => 7 | Subscribe => 8 | Suback => 9
  | Unsubscribe => 10 | Unsuback => 11 | Pingreq => 12 | Pingresp => 13
  | Disconnect => 14
  end.
End PacketType.
Abbreviation PacketType := PacketType.PacketType.

Module QoS.
Inductive QoS := AtMostOnce | AtLeastOnce | ExactlyOnce.

Definition from_u8 (v : Z) : Result CodecError QoS :=
  match v with
  | 0 => Ok AtMostOnce
  | 1 => Ok AtLeastOnce
  | 2 => Ok ExactlyOnce
  | other => Err (CodecError.MalformedBody ("invalid qos " +:+ fmt_Z other))
  end.

Definition as_u8 (q : QoS) : Z :=
  match q with AtMostOnce => 0 | AtLeastOnce => 1 | ExactlyOnce => 2 end.

(** The derived [Ord]: comparison of the discriminants, and [std::cmp::min]. *)
Definition ltb (a b : QoS) : bool := as_u8 a <? as_u8 b.
Definition min (a b : QoS) : QoS := if ltb b a then b else a.
Definition max (a b : QoS) : QoS := if ltb a b then b else a.
End QoS.
Abbreviation QoS := QoS.QoS.

#[export] Instance packet_type_eq_dec : EqDecision PacketType.
Proof. solve_decision. Defined.
#[export] Instance qos_eq_dec : EqDecision QoS.
Proof. solve_decision. Defined.

(** The CONNECT flag byte ([bitflags! struct ConnectFlags]). *)
Module ConnectFlags.
Definition CLEAN_SESSION : Z := 2.
Definition WILL_FLAG : Z := 4.
Definition WILL_QOS_0 : Z := 0.
Definition WILL_QOS_1 : Z := 8.
Definition WILL_QOS_2 : Z := 16.
Definition WILL_QOS_MASK : Z := 24.
Definition WILL_RETAIN : Z := 32.
Definition PASSWORD : Z := 64.
Definition USERNAME : Z := 128.
(** The union of the declared flags, what [from_bits_truncate] keeps. *)
Definition all_bits : Z := 254.
Definition from_bits_truncate (b : Z) : Z := Z.land b all_bits.
Definition contains (flags f : Z) : bool := Z.land flags f =? f.
End ConnectFlags.

Definition MQTT_3_1_1_LEVEL : Z := 4.
Definition MQTT_3_1_LEVEL : Z := 3.
Definition MQTT_5_LEVEL : Z := 5.

Record ConnectProperties := mkConnectProperties {
  session_expiry_interval : option Z;
}.

Record LastWill := mkLastWill {
  will_topic : string;
  will_message : list Z;
  will_qos : QoS;
  will_retain : bool;
}.

Record Connect := mkConnect {
  c_protocol_level : Z;
  c_keep_alive : Z;
  c_client_id : string;
  c_clean_session : bool;
  c_will : option LastWill;
  c_username : option string;
  c_password : option (list Z);
  c_properties : option ConnectProperties;
}.

Record Connack := mkConnack {
  ca_session_present : bool;
  ca_return_code : Z;
  ca_protocol_level : Z;
}.

Record Publish := mkPublish {
  p_dup : bool;
  p_qos : QoS;
  p_retain : bool;
  p_topic : string;
  p_packet_id : option Z;
  p_payload : list Z;
}.

Record SubscribeTopic := mkSubscribeTopic {
  st_topic_filter : string;
  st_qos : QoS;
}.

Record Subscribe := mkSubscribe {
  s_packet_id : Z;
  s_topics : list SubscribeTopic;
}.

Record Suback := mkSuback {
  sa_packet_id : Z;
  sa_return_codes : list Z;
}.

Record Unsubscribe := mkUnsubscribe {
  u_packet_id : Z;
  u_topic_filters : list string;
}.

(** The packet enum; the payload records keep the source's field names with
    a prefix, and the constructors a [P] prefix ([Packet::Connect(c)] is
    [PConnect c]). *)
Inductive Packet :=
  | PConnect (c : Connect)
  | PConnack (c : Connack)
  | PPublish (p : Publish)
  | PPuback (id : Z)
  | PPubrec (id : Z)
  | PPubrel (id : Z)
  | PPubcomp (id : Z)
  | PSubscribe (s : Subscribe)
  | PSuback (s : Suback)
  | PUnsubscribe (u : Unsubscribe)
  | PUnsuback (id : Z)
  | PPingreq
  | PPingresp
  | PDisconnect.

Definition packet_type (p : Packet) : PacketType :=
  match p with
  | PConnect _ => PacketType.Connect
  | PConnack _ => PacketType.Connack
  | PPublish _ => PacketType.Publish
  | PPuback _ => PacketType.Puback
  | PPubrec _ => PacketType.Pubrec
  | PPubrel _ => PacketType.Pubrel
  | PPubcomp _ => PacketType.Pubcomp
  | PSubscribe _ => PacketType.Subscribe
  | PSuback _ => PacketType.Suback
  | PUnsubscribe _ => PacketType.Unsubscribe
  | PUnsuback _ => PacketType.Unsuback
  | PPingreq => PacketType.Pingreq
  | PPingresp => PacketType.Pingresp
  | PDisconnect => PacketType.Disconnect
  end.

Module connack_code.
Definition ACCEPTED : Z := 0.
Definition BAD_PROTOCOL_VERSION : Z := 1.
Definition IDENTIFIER_REJECTED : Z := 2.
Definition SERVER_UNAVAILABLE : Z := 3.
Definition BAD_USERNAME_PASSWORD : Z := 4.
Definition NOT_AUTHORIZED : Z := 5.
End connack_code.

Module suback_code.
Definition MAX_QOS_0 : Z := 0.
Definition MAX_QOS_1 : Z := 1.
Definition MAX_QOS_2 : Z := 2.
Definition FAILURE : Z := 128.
End suback_code.

(** The convenience constructors ([Connack::accepted], [accepted_5] of
    packet.rs and [connack_accepted], [connack_error] of v3.rs). *)
Definition connack_accepted_3 (session_present : bool) : Connack :=
  mkConnack session_present 0 MQTT_3_1_1_LEVEL.
Definition connack_accepted_5 (session_present : bool) : Connack :=
  mkConnack session_present 0 MQTT_5_LEVEL.
Definition connack_accepted (session_present : bool) : Packet :=
  PConnack (connack_accepted_3 session_present).
Definition connack_error (code : Z) : Packet :=
  PConnack (mkConnack false code MQTT_3_1_1_LEVEL).

(** ** Ordering of [QoS] *)

Lemma QoS_as_u8_inj (a b : QoS) : QoS.as_u8 a = QoS.as_u8 b → a = b.
Proof. by destruct a, b. Qed.

Lemma QoS_min_spec (a b : QoS) :
  QoS.as_u8 (QoS.min a b) = Z.min (QoS.as_u8 a) (QoS.as_u8 b).
Proof. by destruct a, b. Qed.

Lemma QoS_max_spec (a b : QoS) :
  QoS.as_u8 (QoS.max a b) = Z.max (QoS.as_u8 a) (QoS.as_u8 b).
Proof. by destruct a, b. Qed.

Lemma PacketType_from_as_u8 (t : PacketType) :
  PacketType.from_u8 (PacketType.as_u8 t) = Ok t.
Proof. by destruct t. Qed.

Lemma QoS_from_as_u8 (q : QoS) : QoS.from_u8 (QoS.as_u8 q) = Ok q.
Proof. by destruct q. Qed.
