(* ===== verification/Codec.v ===== *)
(** * The MQTT codec, [src/codec/v3.rs]

    [MqttCodec] with its [decode] and [encode], the fixed header, the body
    reader and one decoder and encoder per packet.  The buffer [src] of
    [decode] is threaded: [decode] returns the result and the buffer it leaves,
    so that framing over a byte stream can be stated. *)

From S2P Require Import Prelude Packet.

(** [MqttCodec { max_packet_size }] *)
Record MqttCodec := mkMqttCodec { max_packet_size : Z }.

Definition MqttCodec_default : MqttCodec := mkMqttCodec (1024 * 1024).

(** ** Fixed header: the remaining length *)

(** [decode_remaining_length]: [l] is [src[idx..]], so that [idx >= src.len()]
    is the empty list and [src[idx]] its head. *)
Fixpoint decode_remaining_length_loop (l : list Z) (multiplier value : Z) (idx : nat)
    : Result CodecError (option (Z * nat)) :=
  match l with
  | [] => Ok None
  | byte :: l =>
      if multiplier >? 128 * 128 * 128 then
        Err (CodecError.InvalidRemainingLength value)
      else
        let value := value + Z.land byte 127 * multiplier in
        let idx := S idx in
        if Z.land byte 128 =? 0 then Ok (Some (value, idx))
        else decode_remaining_length_loop l (multiplier * 128) value idx
  end.

Definition decode_remaining_length (src : list Z)
    : Result CodecError (option (Z * nat)) :=
  decode_remaining_length_loop (drop 1 src) 1 0 1.

(** [encode_remaining_length]: a [usize] has at most ten groups of seven bits,
    so ten iterations reach [value == 0]. *)
Fixpoint encode_remaining_length_loop (fuel : nat) (value : Z) (dst : list Z) : list Z :=
  match fuel with
  | O => dst
  | S fuel =>
      let byte := value mod 128 in
      let value := value / 128 in
      let byte := if value >? 0 then Z.lor byte 128 else byte in
      let dst := dst ++ [byte] in
      if value =? 0 then dst else encode_remaining_length_loop fuel value dst
  end.

Definition encode_remaining_length (value : Z) (dst : list Z) : list Z :=
  encode_remaining_length_loop 10 value dst.

(** ** The body reader *)

Record Reader := mkReader { buf : list Z; pos : nat }.

(** A read: [&mut self -> Result<A, CodecError>]. *)
Definition RM (A : Type) : Type := Reader → Result CodecError (A * Reader).

#[export] Instance rm_ret : MRet RM := λ A a r, Ok (a, r).
#[export] Instance rm_bind : MBind RM := λ A B f m r,
  match m r with Ok (a, r) => f a r | Err e => Err e end.

(** [e?] for a result that does not touch the reader. *)
Definition lift {A} (x : Result CodecError A) : RM A := λ r,
  match x with Ok a => Ok (a, r) | Err e => Err e end.
Definition fail {A} (e : CodecError) : RM A := λ _, Err e.

Definition reader_new (b : list Z) : Reader := mkReader b 0.

Definition remaining (r : Reader) : nat := (length (buf r) - pos r)%nat.
Definition get_remaining : RM nat := λ r, Ok (remaining r, r).

(** [self.buf[i]]; every use is guarded, so the default is never read. *)
Definition byte_at (l : list Z) (i : nat) : Z := default 0 (l !! i).

Definition read_u8 : RM Z := λ r,
  if (length (buf r) <=? pos r)%nat then
    Err (CodecError.MalformedBody "unexpected eof reading u8")
  else Ok (byte_at (buf r) (pos r), mkReader (buf r) (S (pos r))).

Definition read_u16 : RM Z := λ r,
  if (remaining r <? 2)%nat then
    Err (CodecError.MalformedBody "unexpected eof reading u16")
  else Ok (u16_from_be_bytes (byte_at (buf r) (pos r)) (byte_at (buf r) (S (pos r))),
           mkReader (buf r) (pos r + 2)).

Definition read_bytes (n : nat) : RM (list Z) := λ r,
  if (remaining r <? n)%nat then
    Err (CodecError.MalformedBody
           ("unexpected eof reading " +:+ fmt_Z (Z.of_nat n) +:+ " bytes"))
  else Ok (take n (drop (pos r) (buf r)), mkReader (buf r) (pos r + n)).

Definition read_string : RM string :=
  len ← read_u16;
  raw ← read_bytes (Z.to_nat len);
  match from_utf8 raw with
  | Some s => mret s
  | None => fail CodecError.MalformedUtf8
  end.

Definition read_binary : RM (list Z) :=
  len ← read_u16;
  read_bytes (Z.to_nat len).

(** [read_vbi]: the overflow test stops the loop after the fourth byte, so four
    iterations are enough and the last branch is never reached. *)
Fixpoint read_vbi_loop (fuel : nat) (multiplier value : Z) : RM Z :=
  match fuel with
  | O => fail (CodecError.MalformedBody "vbi overflow")
  | S fuel =>
      byte ← read_u8;
      let value := value + Z.land byte 127 * multiplier in
      if Z.land byte 128 =? 0 then mret value
      else
        let multiplier := multiplier * 128 in
        if multiplier >? 128 * 128 * 128 then
          fail (CodecError.MalformedBody "vbi overflow")
        else read_vbi_loop fuel multiplier value
  end.

Definition read_vbi : RM Z := read_vbi_loop 4 1 0.

Definition skip (n : nat) : RM unit := _ ← read_bytes n; mret tt.

(** ** MQTT 5.0 properties *)

Module prop_id.
Definition SESSION_EXPIRY_INTERVAL : Z := 17.
End prop_id.

Definition skip_string_or_binary : RM unit :=
  len ← read_u16; skip (Z.to_nat len).

Definition skip_string_pair : RM unit :=
  _ ← skip_string_or_binary; skip_string_or_binary.

Definition skip_property_value (id : Z) : RM unit :=
  match id with
  | 0x01 | 0x17 | 0x19 | 0x22 | 0x23 | 0x26 | 0x27 | 0x28 => _ ← read_u8; mret tt
  | 0x13 | 0x1E | 0x1F | 0x21 => _ ← read_u16; mret tt
  | 0x02 | 0x11 | 0x18 | 0x25 => _ ← read_bytes 4; mret tt
  | 0x0B => _ ← read_vbi; mret tt
  | 0x03 | 0x08 | 0x0C | 0x12 | 0x15 | 0x1A | 0x1C | 0x1D => skip_string_or_binary
  | 0x09 | 0x16 => skip_string_or_binary
  | 0x24 => skip_string_pair
  | _ => fail (CodecError.MalformedBody ("unknown mqtt5 property id 0x" +:+ fmt_02x id))
  end.

(** One property: the body of the [while r.pos < end] loop. *)
Definition parse_property (props : ConnectProperties) : RM ConnectProperties :=
  id ← read_vbi;
  if id =? prop_id.SESSION_EXPIRY_INTERVAL then
    n ← get_remaining;
    if (n <? 4)%nat then
      fail (CodecError.MalformedBody "session expiry interval truncated")
    else
      raw ← read_bytes 4;
      mret (mkConnectProperties
              (Some (u32_from_be_bytes (byte_at raw 0) (byte_at raw 1)
                       (byte_at raw 2) (byte_at raw 3))))
  else _ ← skip_property_value id; mret props.

(** The loop.  Every iteration reads at least the byte of the property
    identifier, so [props_len] iterations are enough. *)
Fixpoint parse_properties_loop (fuel : nat) (end_ : nat) (props : ConnectProperties)
    : RM ConnectProperties := λ r,
  if (pos r <? end_)%nat then
    match fuel with
    | O => Ok (props, r)
    | S fuel =>
        (props ← parse_property props; parse_properties_loop fuel end_ props) r
    end
  else Ok (props, r).

Definition parse_connect_properties (props_len : nat) : RM ConnectProperties := λ r,
  let props := mkConnectProperties None in
  let end_ := (pos r + props_len)%nat in
  if (props_len =? 0)%nat then Ok (props, r)
  else parse_properties_loop props_len end_ props r.

(** ** Packet decoders *)

Definition validate_flags (ptype : PacketType) (flags : Z) : Result CodecError unit :=
  let check expected :=
    if negb (flags =? expected) then
      Err (CodecError.InvalidFlags (PacketType.as_u8 ptype) flags)
    else Ok tt in
  match ptype with
  | PacketType.Pubrel | PacketType.Subscribe | PacketType.Unsubscribe => check 2
  | PacketType.Connect | PacketType.Connack | PacketType.Puback | PacketType.Pubrec
  | PacketType.Pubcomp | PacketType.Suback | PacketType.Unsuback
  | PacketType.Pingreq | PacketType.Pingresp | PacketType.Disconnect => check 0
  | PacketType.Publish => Ok tt
  end.

Definition validate_packet_id (pid : Z) : Result CodecError Z :=
  if pid =? 0 then Err (CodecError.MalformedBody "packet id must not be zero")
  else Ok pid.

Definition decode_connect_properties (protocol_level : Z)
    : RM (option ConnectProperties) :=
  if protocol_level =? MQTT_5_LEVEL then
    props_len ← read_vbi;
    n ← get_remaining;
    if (n <? Z.to_nat props_len)%nat then
      fail (CodecError.MalformedBody "connect properties truncated")
    else
      props ← parse_connect_properties (Z.to_nat props_len);
      mret (Some props)
  else mret None.

Definition decode_will (protocol_level connect_flags_byte : Z)
    : RM (option LastWill) :=
  let flags := ConnectFlags.from_bits_truncate connect_flags_byte in
  if ConnectFlags.contains flags ConnectFlags.WILL_FLAG then
    will_qos ← (match Z.shiftr (Z.land connect_flags_byte ConnectFlags.WILL_QOS_MASK) 3 with
                | 0 => mret QoS.AtMostOnce
                | 1 => mret QoS.AtLeastOnce
                | 2 => mret QoS.ExactlyOnce
                | other => fail (CodecError.MalformedBody
                                   ("invalid will qos " +:+ fmt_Z other))
                end);
    _ ← (if protocol_level =? MQTT_5_LEVEL then
           will_props_len ← read_vbi;
           n ← get_remaining;
           if (n <? Z.to_nat will_props_len)%nat then
             fail (CodecError.MalformedBody "will properties truncated")
           else skip (Z.to_nat will_props_len)
         else mret tt);
    topic ← read_string;
    message ← read_binary;
    mret (Some (mkLastWill topic message will_qos
                  (ConnectFlags.contains flags ConnectFlags.WILL_RETAIN)))
  else mret None.

Definition decode_connect : RM Packet :=
  protocol_name ← read_string;
  if negb (bool_decide (protocol_name = "MQTT"))
     && negb (bool_decide (protocol_name = "MQIsdp")) then
    fail (CodecError.InvalidProtocol
            ("unknown protocol name '" +:+ protocol_name +:+ "'"))
  else
  protocol_level ← read_u8;
  if negb (protocol_level =? MQTT_3_1_1_LEVEL)
     && negb (protocol_level =? MQTT_3_1_LEVEL)
     && negb (protocol_level =? MQTT_5_LEVEL) then
    fail (CodecError.UnsupportedVersion protocol_level)
  else
  connect_flags_byte ← read_u8;
  let flags := ConnectFlags.from_bits_truncate connect_flags_byte in
  keep_alive ← read_u16;
  properties ← decode_connect_properties protocol_level;
  client_id ← read_string;
  let clean_session := ConnectFlags.contains flags ConnectFlags.CLEAN_SESSION in
  will ← decode_will protocol_level connect_flags_byte;
  username ← (if ConnectFlags.contains flags ConnectFlags.USERNAME then
                s ← read_string; mret (Some s)
              else mret None);
  password ← (if ConnectFlags.contains flags ConnectFlags.PASSWORD then
                b ← read_binary; mret (Some b)
              else mret None);
  mret (PConnect (mkConnect protocol_level keep_alive client_id clean_session
                    will username password properties)).

Definition decode_connack : RM Packet :=
  flags_byte ← read_u8;
  let session_present := negb (Z.land flags_byte 1 =? 0) in
  return_code ← read_u8;
  n ← get_remaining;
  protocol_level ← (if (0 <? n)%nat then
                      props_len ← read_vbi;
                      n ← get_remaining;
                      if (n <? Z.to_nat props_len)%nat then
                        fail (CodecError.MalformedBody "connack properties truncated")
                      else
                        _ ← skip (Z.to_nat props_len);
                        mret MQTT_5_LEVEL
                    else mret MQTT_3_1_1_LEVEL);
  mret (PConnack (mkConnack session_present return_code protocol_level)).

(** [validate_packet_id(r.read_u16()?)?] *)
Definition read_packet_id : RM Z := id ← read_u16; lift (validate_packet_id id).

Definition decode_publish (flags : Z) : RM Packet :=
  let dup := negb (Z.land flags 8 =? 0) in
  qos ← lift (QoS.from_u8 (Z.shiftr (Z.land flags 6) 1));
  let retain := negb (Z.land flags 1 =? 0) in
  if bool_decide (qos = QoS.AtMostOnce) && dup then
    fail (CodecError.MalformedBody "DUP=1 is invalid for QoS0 PUBLISH")
  else
  topic ← read_string;
  packet_id ← (if negb (bool_decide (qos = QoS.AtMostOnce)) then
                 id ← read_packet_id; mret (Some id)
               else mret None);
  n ← get_remaining;
  payload ← read_bytes n;
  mret (PPublish (mkPublish dup qos retain topic packet_id payload)).

(** The loops [while r.remaining() > 0 { v.push(item) }] of SUBSCRIBE, SUBACK
    and UNSUBSCRIBE, with the vector [acc] they fill.  Every iteration consumes
    a byte, so [remaining] iterations are enough. *)
Fixpoint read_to_end {A} (item : RM A) (fuel : nat) (acc : list A) : RM (list A) := λ r,
  if (0 <? remaining r)%nat then
    match fuel with
    | O => Ok (acc, r)
    | S fuel => (x ← item; read_to_end item fuel (acc ++ [x])) r
    end
  else Ok (acc, r).

Definition read_subscribe_topic : RM SubscribeTopic :=
  topic_filter ← read_string;
  qos_byte ← read_u8;
  qos ← lift (QoS.from_u8 (Z.land qos_byte 3));
  mret (mkSubscribeTopic topic_filter qos).

Definition decode_subscribe : RM Packet :=
  packet_id ← read_packet_id;
  n ← get_remaining;
  topics ← read_to_end read_subscribe_topic n [];
  match topics with
  | [] => fail (CodecError.MalformedBody "subscribe with no topic")
  | _ => mret (PSubscribe (mkSubscribe packet_id topics))
  end.

Definition decode_suback : RM Packet :=
  packet_id ← read_packet_id;
  n ← get_remaining;
  return_codes ← read_to_end read_u8 n [];
  mret (PSuback (mkSuback packet_id return_codes)).

Definition decode_unsubscribe : RM Packet :=
  packet_id ← read_packet_id;
  n ← get_remaining;
  topic_filters ← read_to_end read_string n [];
  match topic_filters with
  | [] => fail (CodecError.MalformedBody "unsubscribe with no topic")
  | _ => mret (PUnsubscribe (mkUnsubscribe packet_id topic_filters))
  end.

Definition decode_packet_body (ptype : PacketType) (flags : Z) : RM Packet :=
  match ptype with
  | PacketType.Connect => decode_connect
  | PacketType.Connack => decode_connack
  | PacketType.Publish => decode_publish flags
  | PacketType.Puback => id ← read_packet_id; mret (PPuback id)
  | PacketType.Pubrec => id ← read_packet_id; mret (PPubrec id)
  | PacketType.Pubrel =>
      _ ← lift (validate_flags ptype flags);
      id ← read_packet_id; mret (PPubrel id)
  | PacketType.Pubcomp => id ← read_packet_id; mret (PPubcomp id)
  | PacketType.Subscribe => _ ← lift (validate_flags ptype flags); decode_subscribe
  | PacketType.Suback => decode_suback
  | PacketType.Unsubscribe => _ ← lift (validate_flags ptype flags); decode_unsubscribe
  | PacketType.Unsuback => id ← read_packet_id; mret (PUnsuback id)
  | PacketType.Pingreq => _ ← lift (validate_flags ptype flags); mret PPingreq
  | PacketType.Pingresp => _ ← lift (validate_flags ptype flags); mret PPingresp
  | PacketType.Disconnect => _ ← lift (validate_flags ptype flags); mret PDisconnect
  end.

Definition decode_packet (first : Z) (payload : list Z) : Result CodecError Packet :=
  ptype ← PacketType.from_u8 (Z.shiftr first 4);
  let flags := Z.land first 15 in
  '(p, _) ← decode_packet_body ptype flags (reader_new payload);
  Ok p.

(** ** [impl Decoder for MqttCodec]: result and the buffer left in [src] *)

Definition decode (self : MqttCodec) (src : list Z)
    : Result CodecError (option Packet) * list Z :=
  if (length src <? 2)%nat then (Ok None, src)
  else
    match decode_remaining_length src with
    | Err e => (Err e, src)
    | Ok None => (Ok None, src)
    | Ok (Some (remaining_len, header_len)) =>
        let total := Z.of_nat header_len + remaining_len in
        if total >? max_packet_size self then
          (Err (CodecError.MalformedBody
                  ("packet length " +:+ fmt_Z total +:+ " exceeds max "
                     +:+ fmt_Z (max_packet_size self))), src)
        else if Z.of_nat (length src) <? total then (Ok None, src)
        else
          let frame := take (Z.to_nat total) src in
          let src := drop (Z.to_nat total) src in
          match decode_packet (byte_at frame 0) (drop header_len frame) with
          | Ok packet => (Ok (Some packet), src)
          | Err e => (Err e, src)
          end
    end.

(** ** Packet encoders

    The output buffer [out] is threaded; an encoder that fails drops it (the
    body buffer of [encode] is local). *)

Definition put_string (out : list Z) (s : string) : Result CodecError (list Z) :=
  if str_len s >? u16_max then
    Err (CodecError.MalformedBody
           ("string too long: " +:+ fmt_Z (str_len s) +:+ " bytes (max "
              +:+ fmt_Z u16_max +:+ ")"))
  else Ok (out ++ u16_to_be_bytes (str_len s) ++ as_bytes s).

Definition put_binary (out : list Z) (b : list Z) : Result CodecError (list Z) :=
  if Z.of_nat (length b) >? u16_max then
    Err (CodecError.MalformedBody
           ("binary too long: " +:+ fmt_Z (Z.of_nat (length b)) +:+ " bytes (max "
              +:+ fmt_Z u16_max +:+ ")"))
  else Ok (out ++ u16_to_be_bytes (Z.of_nat (length b)) ++ b).

(** The CONNECT flag byte built by [encode_connect]. *)
Definition connect_flags (c : Connect) : Z :=
  let flags := 0 in
  let flags := if c_clean_session c then Z.lor flags ConnectFlags.CLEAN_SESSION
               else flags in
  let flags :=
    match c_will c with
    | Some will =>
        let flags := Z.lor flags ConnectFlags.WILL_FLAG in
        let flags := Z.lor flags
                       (match will_qos will with
                        | QoS.AtMostOnce => ConnectFlags.WILL_QOS_0
                        | QoS.AtLeastOnce => ConnectFlags.WILL_QOS_1
                        | QoS.ExactlyOnce => ConnectFlags.WILL_QOS_2
                        end) in
        if will_retain will then Z.lor flags ConnectFlags.WILL_RETAIN else flags
    | None => flags
    end in
  let flags := match c_username c with
               | Some _ => Z.lor flags ConnectFlags.USERNAME
               | None => flags
               end in
  match c_password c with
  | Some _ => Z.lor flags ConnectFlags.PASSWORD
  | None => flags
  end.

(** The MQTT 5.0 property section of CONNECT. *)
Definition put_connect_properties (c : Connect) (out : list Z) : list Z :=
  if c_protocol_level c =? MQTT_5_LEVEL then
    let props_body :=
      match c_properties c with
      | Some p =>
          match session_expiry_interval p with
          | Some sei => 0x11 :: u32_to_be_bytes sei
          | None => []
          end
      | None => []
      end in
    encode_remaining_length (Z.of_nat (length props_body)) out ++ props_body
  else out.

Definition encode_connect (c : Connect) (out : list Z) : Result CodecError (list Z) :=
  out ← put_string out "MQTT";
  let out := out ++ [c_protocol_level c] in
  let out := out ++ [connect_flags c] in
  let out := out ++ u16_to_be_bytes (c_keep_alive c) in
  let out := put_connect_properties c out in
  out ← put_string out (c_client_id c);
  out ← (match c_will c with
         | Some will =>
             let out := if c_protocol_level c =? MQTT_5_LEVEL
                        then encode_remaining_length 0 out else out in
             out ← put_string out (will_topic will);
             put_binary out (will_message will)
         | None => Ok out
         end);
  out ← (match c_username c with
         | Some u => put_string out u
         | None => Ok out
         end);
  match c_password c with
  | Some p => put_binary out p
  | None => Ok out
  end.

(** [encode_publish] returns the flags of the fixed header. *)
Definition publish_flags (p : Publish) : Z :=
  let flags := 0 in
  let flags := if p_dup p then Z.lor flags 8 else flags in
  let flags := Z.lor flags (Z.shiftl (Z.land (QoS.as_u8 (p_qos p)) 3) 1) in
  if p_retain p then Z.lor flags 1 else flags.

Definition encode_publish (p : Publish) (out : list Z)
    : Result CodecError (Z * list Z) :=
  out ← put_string out (p_topic p);
  let out := match p_packet_id p with
             | Some id => out ++ u16_to_be_bytes id
             | None => out
             end in
  let out := out ++ p_payload p in
  Ok (publish_flags p, out).

Fixpoint put_topics (topics : list SubscribeTopic) (out : list Z)
    : Result CodecError (list Z) :=
  match topics with
  | [] => Ok out
  | t :: topics =>
      out ← put_string out (st_topic_filter t);
      put_topics topics (out ++ [QoS.as_u8 (st_qos t)])
  end.

Definition encode_subscribe (s : Subscribe) (out : list Z)
    : Result CodecError (list Z) :=
  put_topics (s_topics s) (out ++ u16_to_be_bytes (s_packet_id s)).

Fixpoint put_filters (fs : list string) (out : list Z) : Result CodecError (list Z) :=
  match fs with
  | [] => Ok out
  | f :: fs => out ← put_string out f; put_filters fs out
  end.

Definition encode_unsubscribe (u : Unsubscribe) (out : list Z)
    : Result CodecError (list Z) :=
  put_filters (u_topic_filters u) (out ++ u16_to_be_bytes (u_packet_id u)).

Definition encode_packet_body (p : Packet) (out : list Z)
    : Result CodecError (PacketType * Z * list Z) :=
  match p with
  | PConnect c =>
      out ← encode_connect c out; Ok (PacketType.Connect, 0, out)
  | PConnack c =>
      let out := out ++ [if ca_session_present c then 1 else 0] in
      let out := out ++ [ca_return_code c] in
      let out := if ca_protocol_level c =? MQTT_5_LEVEL
                 then encode_remaining_length 0 out else out in
      Ok (PacketType.Connack, 0, out)
  | PPublish p =>
      '(flags, out) ← encode_publish p out; Ok (PacketType.Publish, flags, out)
  | PPuback id => Ok (PacketType.Puback, 0, out ++ u16_to_be_bytes id)
  | PPubrec id => Ok (PacketType.Pubrec, 0, out ++ u16_to_be_bytes id)
  | PPubrel id => Ok (PacketType.Pubrel, 2, out ++ u16_to_be_bytes id)
  | PPubcomp id => Ok (PacketType.Pubcomp, 0, out ++ u16_to_be_bytes id)
  | PSubscribe s =>
      out ← encode_subscribe s out; Ok (PacketType.Subscribe, 2, out)
  | PSuback s =>
      Ok (PacketType.Suback, 0,
          out ++ u16_to_be_bytes (sa_packet_id s) ++ sa_return_codes s)
  | PUnsubscribe u =>
      out ← encode_unsubscribe u out; Ok (PacketType.Unsubscribe, 2, out)
  | PUnsuback id => Ok (PacketType.Unsuback, 0, out ++ u16_to_be_bytes id)
  | PPingreq => Ok (PacketType.Pingreq, 0, out)
  | PPingresp => Ok (PacketType.Pingresp, 0, out)
  | PDisconnect => Ok (PacketType.Disconnect, 0, out)
  end.

(** [impl Encoder<Packet> for MqttCodec]: the buffer [dst] on success. *)
Definition encode (item : Packet) (dst : list Z) : Result CodecError (list Z) :=
  '(ptype, flags, body) ← encode_packet_body item [];
  let body_len := Z.of_nat (length body) in
  if body_len >? 0x0FFFFFFF then Err (CodecError.InvalidRemainingLength body_len)
  else
    let first_byte := Z.lor (Z.shiftl (PacketType.as_u8 ptype) 4) (Z.land flags 15) in
    let dst := dst ++ [first_byte] in
    let dst := encode_remaining_length body_len dst in
    Ok (dst ++ body).
