(* ===== verification/CodecProofs.v ===== *)
(** * The codec: correctness

    Well-formed packets, the round trip through the wire format, framing over
    a byte stream, and the type soundness of [decode].  A decoder is specified
    by [reads m bs a] (it consumes exactly [bs] and returns [a], whatever
    follows) and by [reads_all] (the same at the end of the frame); the two
    compose along the reader monad. *)

From S2P Require Import Prelude Packet Codec.

(** ** Well-formed packets

    The first group of conditions are invariants of the Rust types ([u8],
    [u16], [u32], UTF-8 [String]); the second are the protocol rules that
    [decode] enforces. *)

Definition wf_string (s : string) : bool := is_str s && (str_len s <=? u16_max).
Definition wf_binary (b : list Z) : bool :=
  is_bytes b && (Z.of_nat (length b) <=? u16_max).
Definition wf_packet_id (id : Z) : bool := is_u16 id && negb (id =? 0).
Definition opt_all {A} (f : A → bool) (o : option A) : bool :=
  match o with Some a => f a | None => true end.

Definition wf_will (w : LastWill) : bool :=
  wf_string (will_topic w) && wf_binary (will_message w).

Definition wf_properties (level : Z) (p : option ConnectProperties) : bool :=
  match p with
  | Some p => (level =? MQTT_5_LEVEL) && opt_all is_u32 (session_expiry_interval p)
  | None => negb (level =? MQTT_5_LEVEL)
  end.

Definition wf_connect (c : Connect) : bool :=
  ((c_protocol_level c =? MQTT_3_1_LEVEL) || (c_protocol_level c =? MQTT_3_1_1_LEVEL)
   || (c_protocol_level c =? MQTT_5_LEVEL))
  && is_u16 (c_keep_alive c) && wf_string (c_client_id c)
  && opt_all wf_will (c_will c) && opt_all wf_string (c_username c)
  && opt_all wf_binary (c_password c)
  && wf_properties (c_protocol_level c) (c_properties c).

Definition wf_connack (c : Connack) : bool :=
  is_u8 (ca_return_code c)
  && ((ca_protocol_level c =? MQTT_3_1_1_LEVEL) || (ca_protocol_level c =? MQTT_5_LEVEL)).

Definition wf_publish (p : Publish) : bool :=
  wf_string (p_topic p) && is_bytes (p_payload p)
  && match p_qos p, p_packet_id p with
     | QoS.AtMostOnce, None => negb (p_dup p)
     | QoS.AtMostOnce, Some _ => false
     | _, Some id => wf_packet_id id
     | _, None => false
     end.

Definition wf_topic (t : SubscribeTopic) : bool := wf_string (st_topic_filter t).

Definition wf_packet (p : Packet) : bool :=
  match p with
  | PConnect c => wf_connect c
  | PConnack c => wf_connack c
  | PPublish p => wf_publish p
  | PPuback id | PPubrec id | PPubrel id | PPubcomp id | PUnsuback id => wf_packet_id id
  | PSubscribe s =>
      wf_packet_id (s_packet_id s) && forallb wf_topic (s_topics s)
      && negb (bool_decide (s_topics s = []))
  | PSuback s => wf_packet_id (sa_packet_id s) && is_bytes (sa_return_codes s)
  | PUnsubscribe u =>
      wf_packet_id (u_packet_id u) && forallb wf_string (u_topic_filters u)
      && negb (bool_decide (u_topic_filters u = []))
  | PPingreq | PPingresp | PDisconnect => true
  end.

#[export] Instance SubscribeTopic_eq_dec : EqDecision SubscribeTopic.
Proof. solve_decision. Defined.

(** ** Reading what was written *)

(** A reader positioned after [pre], with [rest] to come. *)
Definition at_ (pre rest : list Z) : Reader := mkReader (pre ++ rest) (length pre).

Definition reads {A} (m : RM A) (bs : list Z) (a : A) : Prop :=
  ∀ pre rest, m (at_ pre (bs ++ rest)) = Ok (a, at_ (pre ++ bs) rest).

Definition reads_all {A} (m : RM A) (bs : list Z) (a : A) : Prop :=
  ∀ pre, m (at_ pre bs) = Ok (a, at_ (pre ++ bs) []).

(** The bytes [put_string] and [put_binary] append, and the variable byte
    integer [encode_remaining_length] appends. *)
Definition string_bytes (s : string) : list Z := u16_to_be_bytes (str_len s) ++ as_bytes s.
Definition binary_bytes (b : list Z) : list Z :=
  u16_to_be_bytes (Z.of_nat (length b)) ++ b.
Definition vbi_bytes (n : Z) : list Z := encode_remaining_length n [].

Lemma at_app pre bs rest : at_ pre (bs ++ rest) = mkReader ((pre ++ bs) ++ rest) (length pre).
Proof. unfold at_. by rewrite <- app_assoc. Qed.

Lemma remaining_at pre rest : remaining (at_ pre rest) = length rest.
Proof. unfold remaining, at_; simpl. rewrite length_app. lia. Qed.

Lemma byte_at_at pre b rest : byte_at (pre ++ b :: rest) (length pre) = b.
Proof. unfold byte_at. by rewrite list_lookup_middle. Qed.

Lemma byte_at_at_S pre a b rest : byte_at (pre ++ a :: b :: rest) (S (length pre)) = b.
Proof.
  change (a :: b :: rest) with ([a] ++ b :: rest). rewrite app_assoc.
  replace (S (length pre)) with (length (pre ++ [a])) by (rewrite length_app; simpl; lia).
  apply byte_at_at.
Qed.

Lemma reads_ret {A} (a : A) : reads (mret a) [] a.
Proof. intros pre rest. by rewrite app_nil_r. Qed.

Lemma reads_bind {A B} (m : RM A) (f : A → RM B) bs1 bs2 a b :
  reads m bs1 a → reads (f a) bs2 b → reads (m ≫= f) (bs1 ++ bs2) b.
Proof.
  intros Hm Hf pre rest. unfold mbind, rm_bind.
  rewrite <- app_assoc, Hm, Hf. by rewrite <- app_assoc.
Qed.

Lemma reads_all_bind {A B} (m : RM A) (f : A → RM B) bs1 bs2 a b :
  reads m bs1 a → reads_all (f a) bs2 b → reads_all (m ≫= f) (bs1 ++ bs2) b.
Proof.
  intros Hm Hf pre. unfold mbind, rm_bind. by rewrite Hm, Hf, <- app_assoc.
Qed.

Lemma reads_reads_all {A} (m : RM A) bs a : reads m bs a → reads_all m bs a.
Proof. intros H pre. specialize (H pre []). by rewrite app_nil_r in H. Qed.

Lemma reads_bind_nil {A B} (m : RM A) (f : A → RM B) bs a b :
  reads m [] a → reads (f a) bs b → reads (m ≫= f) bs b.
Proof. apply (reads_bind m f []). Qed.

Lemma reads_all_bind_nil {A B} (m : RM A) (f : A → RM B) bs a b :
  reads m [] a → reads_all (f a) bs b → reads_all (m ≫= f) bs b.
Proof. apply (reads_all_bind m f []). Qed.

(** The last read, followed by a pure result. *)
Lemma reads_last {A B} (m : RM A) (f : A → RM B) bs a b :
  reads m bs a → f a = mret b → reads (m ≫= f) bs b.
Proof.
  intros Hm Hf. rewrite <- (app_nil_r bs). eapply reads_bind; [done|].
  rewrite Hf. apply reads_ret.
Qed.

Lemma reads_lift {A} (x : Result CodecError A) a : x = Ok a → reads (lift x) [] a.
Proof. intros -> pre rest. unfold lift. by rewrite app_nil_r. Qed.

Lemma reads_u8 b : reads read_u8 [b] b.
Proof.
  intros pre rest. unfold read_u8, at_; simpl.
  rewrite (proj2 (Nat.leb_gt _ _)) by (rewrite length_app; simpl; lia).
  rewrite byte_at_at, length_app, <- app_assoc. simpl. by rewrite Nat.add_1_r.
Qed.

Lemma u16_be_bytes v :
  0 ≤ v < 65536 → u16_from_be_bytes ((v / 256) mod 256) (v mod 256) = v.
Proof.
  intros H. unfold u16_from_be_bytes.
  div_mod_lia.
Qed.

Lemma reads_u16 v : 0 ≤ v < 65536 → reads read_u16 (u16_to_be_bytes v) v.
Proof.
  intros Hv pre rest. unfold read_u16. rewrite remaining_at.
  unfold at_, u16_to_be_bytes. cbn [app length buf pos].
  rewrite (proj2 (Nat.ltb_ge _ _)), byte_at_at, byte_at_at_S, u16_be_bytes by lia.
  by rewrite length_app, <- app_assoc.
Qed.

Lemma reads_bytes bs : reads (read_bytes (length bs)) bs bs.
Proof.
  intros pre rest. unfold read_bytes. rewrite remaining_at, length_app.
  rewrite (proj2 (Nat.ltb_ge _ _)) by lia. unfold at_; cbn [buf pos].
  rewrite drop_app_length, take_app_length, length_app, <- app_assoc. done.
Qed.

Lemma reads_bytes_n n bs : n = length bs → reads (read_bytes n) bs bs.
Proof. intros ->. apply reads_bytes. Qed.

Lemma reads_string s : wf_string s = true → reads read_string (string_bytes s) s.
Proof.
  intros [Hs Hl]%andb_prop. apply Z.leb_le in Hl.
  pose proof (str_len_nonneg s).
  unfold read_string, string_bytes.
  eapply reads_bind; [apply reads_u16; unfold u16_max in *; lia|].
  eapply reads_last; [apply reads_bytes_n; rewrite str_len_as_bytes; lia|].
  by rewrite from_utf8_as_bytes.
Qed.

Lemma reads_binary b : wf_binary b = true → reads read_binary (binary_bytes b) b.
Proof.
  intros [Hs Hl]%andb_prop. apply Z.leb_le in Hl.
  unfold read_binary, binary_bytes.
  eapply reads_bind; [apply reads_u16; unfold u16_max in *; lia|].
  apply reads_bytes_n. lia.
Qed.

Lemma reads_packet_id id :
  wf_packet_id id = true → reads read_packet_id (u16_to_be_bytes id) id.
Proof.
  intros [H16 H0]%andb_prop. apply is_u16_spec in H16.
  rewrite <- (app_nil_r (u16_to_be_bytes id)). unfold read_packet_id.
  eapply reads_bind; [by apply reads_u16|]. apply reads_lift.
  unfold validate_packet_id. by rewrite (proj1 (negb_true_iff _) H0).
Qed.

Lemma reads_guard {A} (n : nat) (e : CodecError) (k : RM A) bs a :
  (n ≤ length bs)%nat → reads k bs a →
  reads (m ← get_remaining; if (m <? n)%nat then fail e else k) bs a.
Proof.
  intros Hn Hk pre rest. unfold mbind, rm_bind, get_remaining.
  rewrite remaining_at, length_app, (proj2 (Nat.ltb_ge _ _)) by lia. apply Hk.
Qed.

Create HintDb codec.
#[export] Hint Resolve reads_ret reads_u8 reads_string reads_binary reads_packet_id
  reads_bytes : codec.

(** ** Variable byte integers *)

Lemma vbi_last_byte b : 0 ≤ b < 128 → Z.land b 127 = b ∧ Z.land b 128 = 0.
Proof.
  intros Hb. pose proof (Z_range_forall 128
    (λ b, (Z.land b 127 =? b) && (Z.land b 128 =? 0)) eq_refl b ltac:(lia)) as H.
  cbv beta in H. lia.
Qed.

Lemma vbi_more_byte b :
  0 ≤ b < 128 → Z.land (Z.lor b 128) 127 = b ∧ Z.land (Z.lor b 128) 128 = 128.
Proof.
  intros Hb. pose proof (Z_range_forall 128
    (λ b, (Z.land (Z.lor b 128) 127 =? b) && (Z.land (Z.lor b 128) 128 =? 128))
    eq_refl b ltac:(lia)) as H.
  cbv beta in H. lia.
Qed.

Lemma encode_loop_app fuel v dst :
  encode_remaining_length_loop fuel v dst
  = dst ++ encode_remaining_length_loop fuel v [].
Proof.
  revert v dst. induction fuel as [|fuel IH]; intros v dst; simpl.
  { by rewrite app_nil_r. }
  destruct (_ =? 0); [done|]. rewrite IH. symmetry. rewrite IH. by rewrite app_assoc.
Qed.

Lemma encode_remaining_length_app v dst :
  encode_remaining_length v dst = dst ++ vbi_bytes v.
Proof. apply encode_loop_app. Qed.

(** One step of the encoder: the last group, or a group and the rest. *)
Lemma encode_loop_small fuel v :
  0 ≤ v < 128 → encode_remaining_length_loop (S fuel) v [] = [v].
Proof.
  intros Hv. simpl. rewrite Z.div_small, Z.mod_small by lia. done.
Qed.

Lemma encode_loop_big fuel v :
  128 ≤ v → encode_remaining_length_loop (S fuel) v []
            = Z.lor (v mod 128) 128 :: encode_remaining_length_loop fuel (v / 128) [].
Proof.
  intros Hv. cbn -[Z.div Z.modulo Z.lor].
  assert (0 < v / 128) by (apply Z.div_str_pos; lia).
  rewrite (proj2 (Z.eqb_neq _ _)) by lia.
  replace (v / 128 >? 0) with true by lia. by rewrite encode_loop_app.
Qed.

Lemma pow128_S (k : nat) : 128 ^ Z.of_nat (S k) = 128 * 128 ^ Z.of_nat k.
Proof. rewrite Nat2Z.inj_succ, Z.pow_succ_r by lia. done. Qed.

Lemma pow128_pos (k : nat) : 0 < 128 ^ Z.of_nat k.
Proof. apply Z.pow_pos_nonneg; lia. Qed.

Lemma div128_bound v P : 0 ≤ v < 128 * P → 0 ≤ v / 128 < P.
Proof. intros H. split; [apply Z.div_pos|apply Z.div_lt_upper_bound]; lia. Qed.

Lemma decode_encode_loop (k fuel : nat) v m val idx rest :
  0 ≤ v < 128 ^ Z.of_nat (S k) → (k < fuel)%nat →
  0 < m → m * 128 ^ Z.of_nat k ≤ 128 ^ 3 →
  let enc := encode_remaining_length_loop fuel v [] in
  decode_remaining_length_loop (enc ++ rest) m val idx
  = Ok (Some (val + v * m, (idx + length enc)%nat)).
Proof.
  revert fuel v m val idx. induction k as [|k IH]; intros fuel v m val idx Hv Hf Hm Hb;
    (destruct fuel as [|fuel]; [lia|]); rewrite pow128_S in Hv; intros enc; subst enc.
  - simpl in Hv, Hb. rewrite encode_loop_small by lia. cbn [app decode_remaining_length_loop].
    replace (m >? 128 * 128 * 128) with false by lia.
    destruct (vbi_last_byte v) as [-> ->]; [lia|]. simpl. do 3 f_equal. lia.
  - destruct (Z.lt_ge_cases v 128) as [Hs|Hs].
    { rewrite encode_loop_small by lia. cbn [app decode_remaining_length_loop].
      rewrite pow128_S in Hb. pose proof (pow128_pos k).
      replace (m >? 128 * 128 * 128) with false by nia.
      destruct (vbi_last_byte v) as [-> ->]; [lia|]. simpl. do 3 f_equal. lia. }
    rewrite encode_loop_big by lia. cbn [app decode_remaining_length_loop].
    pose proof (pow128_pos k). rewrite pow128_S in Hb.
    replace (m >? 128 * 128 * 128) with false by nia.
    destruct (vbi_more_byte (v mod 128)) as [-> ->]; [div_mod_lia|].
    change (128 =? 0) with false. cbn iota.
    rewrite IH; [|by apply div128_bound|lia|lia|nia].
    do 2 f_equal. cbn [length]. f_equal; [|lia].
    pose proof (Z.div_mod v 128). nia.
Qed.

Lemma decode_remaining_length_vbi first v rest :
  0 ≤ v ≤ 0x0FFFFFFF →
  decode_remaining_length (first :: vbi_bytes v ++ rest)
  = Ok (Some (v, S (length (vbi_bytes v)))).
Proof.
  intros Hv. unfold decode_remaining_length, vbi_bytes, encode_remaining_length.
  cbn [drop]. rewrite drop_0, (decode_encode_loop 3) by lia. do 3 f_equal. lia.
Qed.

Lemma reads_vbi_loop (k fuel fuel' : nat) v m val :
  0 ≤ v < 128 ^ Z.of_nat (S k) → (k < fuel)%nat → (k < fuel')%nat →
  0 < m → m * 128 ^ Z.of_nat k ≤ 128 ^ 3 →
  reads (read_vbi_loop fuel' m val) (encode_remaining_length_loop fuel v []) (val + v * m).
Proof.
  revert fuel fuel' v m val.
  induction k as [|k IH]; intros fuel fuel' v m val Hv Hf Hf' Hm Hb;
    (destruct fuel as [|fuel]; [lia|]); (destruct fuel' as [|fuel']; [lia|]);
    rewrite pow128_S in Hv; cbn [read_vbi_loop].
  - simpl in Hv. rewrite encode_loop_small by lia.
    change [v] with ([v] ++ []). eapply reads_bind; [apply reads_u8|]. cbv beta zeta.
    destruct (vbi_last_byte v) as [-> ->]; [lia|]. apply reads_ret.
  - pose proof (pow128_pos k). rewrite pow128_S in Hb.
    destruct (Z.lt_ge_cases v 128) as [Hs|Hs].
    { rewrite encode_loop_small by lia.
      change [v] with ([v] ++ []). eapply reads_bind; [apply reads_u8|]. cbv beta zeta.
      destruct (vbi_last_byte v) as [-> ->]; [lia|]. apply reads_ret. }
    rewrite encode_loop_big by lia. set (x := encode_remaining_length_loop _ _ _).
    change (Z.lor (v mod 128) 128 :: x) with ([Z.lor (v mod 128) 128] ++ x).
    eapply reads_bind; [apply reads_u8|]. cbv beta zeta.
    destruct (vbi_more_byte (v mod 128)) as [-> ->]; [div_mod_lia|].
    change (128 =? 0) with false. cbn iota.
    replace (m * 128 >? 128 * 128 * 128) with false by nia.
    replace (val + v * m) with (val + v mod 128 * m + v / 128 * (m * 128))
      by (pose proof (Z.div_mod v 128); nia).
    apply IH; [by apply div128_bound|lia|lia|lia|nia].
Qed.

Lemma reads_vbi v : 0 ≤ v ≤ 0x0FFFFFFF → reads read_vbi (vbi_bytes v) v.
Proof.
  intros Hv. replace v with (0 + v * 1) at 2 by lia.
  unfold read_vbi, vbi_bytes, encode_remaining_length.
  apply (reads_vbi_loop 3); simpl; lia.
Qed.

(** ** CONNECT *)

Lemma put_string_ok out s :
  wf_string s = true → put_string out s = Ok (out ++ string_bytes s).
Proof.
  intros [_ Hl]%andb_prop. unfold put_string.
  replace (str_len s >? u16_max) with false by lia. done.
Qed.

Lemma put_binary_ok out b :
  wf_binary b = true → put_binary out b = Ok (out ++ binary_bytes b).
Proof.
  intros [_ Hl]%andb_prop. unfold put_binary.
  replace (Z.of_nat (length b) >? u16_max) with false by lia. done.
Qed.

Lemma bind_ok {E A B} (x : Result E A) (f : A → Result E B) a :
  x = Ok a → x ≫= f = f a.
Proof. by intros ->. Qed.

Lemma wf_MQTT : wf_string "MQTT" = true.
Proof. done. Qed.

#[export] Hint Resolve wf_MQTT put_string_ok put_binary_ok : codec.

Definition props_bytes (c : Connect) : list Z := put_connect_properties c [].

Definition will_bytes (level : Z) (w : option LastWill) : list Z :=
  match w with
  | Some w => (if level =? MQTT_5_LEVEL then [0] else [])
              ++ string_bytes (will_topic w) ++ binary_bytes (will_message w)
  | None => []
  end.

Definition opt_bytes {A} (f : A → list Z) (o : option A) : list Z :=
  match o with Some a => f a | None => [] end.

Definition connect_bytes (c : Connect) : list Z :=
  string_bytes "MQTT" ++ [c_protocol_level c] ++ [connect_flags c]
  ++ u16_to_be_bytes (c_keep_alive c) ++ props_bytes c
  ++ string_bytes (c_client_id c) ++ will_bytes (c_protocol_level c) (c_will c)
  ++ opt_bytes string_bytes (c_username c) ++ opt_bytes binary_bytes (c_password c).

Lemma put_connect_properties_app c out :
  put_connect_properties c out = out ++ props_bytes c.
Proof.
  unfold props_bytes, put_connect_properties. destruct (_ =? _).
  - by rewrite !encode_remaining_length_app, <- app_assoc.
  - by rewrite app_nil_r.
Qed.

Lemma encode_connect_ok c out :
  wf_connect c = true → encode_connect c out = Ok (out ++ connect_bytes c).
Proof.
  unfold wf_connect. intros H. destruct_andb.
  unfold encode_connect, connect_bytes.
  erewrite bind_ok by auto with codec. cbv beta zeta.
  rewrite put_connect_properties_app. erewrite bind_ok by auto with codec. cbv beta.
  destruct (c_will c) as [w|]; [|]; simpl in *; unfold wf_will in *; destruct_andb.
  - rewrite encode_remaining_length_app.
    erewrite (bind_ok (_ ≫= _)); [|erewrite bind_ok by auto with codec; auto with codec].
    destruct (c_username c) as [u|], (c_password c) as [p|]; simpl in *;
      try (erewrite bind_ok by auto with codec); rewrite ?put_binary_ok by done;
      destruct (c_protocol_level c =? MQTT_5_LEVEL); simpl;
      by rewrite <- ?app_assoc, ?app_nil_r.
  - destruct (c_username c) as [u|], (c_password c) as [p|]; simpl in *;
      try (erewrite bind_ok by auto with codec); rewrite ?put_binary_ok by done;
      by rewrite <- ?app_assoc, ?app_nil_r.
Qed.

(** The flag byte determines the optional parts. *)
Lemma connect_flags_spec c :
  let flags := ConnectFlags.from_bits_truncate (connect_flags c) in
  ConnectFlags.contains flags ConnectFlags.CLEAN_SESSION = c_clean_session c ∧
  ConnectFlags.contains flags ConnectFlags.WILL_FLAG = bool_decide (is_Some (c_will c)) ∧
  ConnectFlags.contains flags ConnectFlags.USERNAME = bool_decide (is_Some (c_username c)) ∧
  ConnectFlags.contains flags ConnectFlags.PASSWORD = bool_decide (is_Some (c_password c)) ∧
  (∀ w, c_will c = Some w →
     Z.shiftr (Z.land (connect_flags c) ConnectFlags.WILL_QOS_MASK) 3 = QoS.as_u8 (will_qos w) ∧
     ConnectFlags.contains flags ConnectFlags.WILL_RETAIN = will_retain w) ∧
  0 ≤ connect_flags c < 256.
Proof.
  unfold connect_flags.
  destruct (c_clean_session c), (c_will c) as [[wt wm [] []]|], (c_username c), (c_password c);
    cbn; split_and!; try done; try lia; intros w; (done || by intros [= <-]).
Qed.

Lemma u32_be_bytes v :
  0 ≤ v < 4294967296 →
  u32_from_be_bytes ((v / 16777216) mod 256) ((v / 65536) mod 256)
    ((v / 256) mod 256) (v mod 256) = v.
Proof. intros H. unfold u32_from_be_bytes. div_mod_lia. Qed.

(** Running a read on a reader that holds what it reads. *)
Lemma reads_run {A B} (m : RM A) (f : A → RM B) bs a pre rest :
  reads m bs a → (m ≫= f) (at_ pre (bs ++ rest)) = f a (at_ (pre ++ bs) rest).
Proof. intros Hm. unfold mbind, rm_bind. by rewrite Hm. Qed.

Lemma reads_session_expiry sei props :
  is_u32 sei = true →
  reads (parse_property props) (0x11 :: u32_to_be_bytes sei)
    (mkConnectProperties (Some sei)).
Proof.
  intros Hs%is_u32_spec. unfold parse_property.
  change (0x11 :: u32_to_be_bytes sei) with (vbi_bytes 17 ++ u32_to_be_bytes sei).
  eapply reads_bind; [apply reads_vbi; lia|].
  change (17 =? prop_id.SESSION_EXPIRY_INTERVAL) with true. cbv iota.
  apply reads_guard; [done|]. eapply reads_last; [by apply reads_bytes_n|].
  pose proof (u32_be_bytes sei Hs) as E.
  change (let raw := u32_to_be_bytes sei in
          u32_from_be_bytes (byte_at raw 0) (byte_at raw 1) (byte_at raw 2)
            (byte_at raw 3) = sei) in E.
  cbv zeta in E. by rewrite E.
Qed.

Lemma reads_properties_section sei :
  is_u32 sei = true →
  reads (parse_connect_properties 5) (0x11 :: u32_to_be_bytes sei)
    (mkConnectProperties (Some sei)).
Proof.
  intros Hs pre rest. unfold parse_connect_properties.
  cbn [Nat.eqb parse_properties_loop]. unfold at_ at 1 2; cbn [pos].
  rewrite (proj2 (Nat.ltb_lt _ _)) by lia.
  rewrite (reads_run _ _ _ _ _ _ (reads_session_expiry sei _ Hs)).
  cbn [parse_properties_loop]. unfold at_ at 1; cbn [pos].
  rewrite (proj2 (Nat.ltb_ge _ _)); [done|]. rewrite length_app. cbn. lia.
Qed.

Lemma vbi_small n : 0 ≤ n < 128 → vbi_bytes n = [n].
Proof. apply encode_loop_small. Qed.

Lemma reads_connect_properties c :
  wf_properties (c_protocol_level c) (c_properties c) = true →
  reads (decode_connect_properties (c_protocol_level c)) (props_bytes c) (c_properties c).
Proof.
  unfold wf_properties, decode_connect_properties, props_bytes, put_connect_properties.
  destruct (c_properties c) as [[sei]|]; cbn [session_expiry_interval].
  2:{ intros H. rewrite (proj1 (negb_true_iff _) H). apply reads_ret. }
  intros [-> Hs]%andb_prop. rewrite encode_remaining_length_app. cbn [app].
  eapply reads_bind. { apply reads_vbi. destruct sei; simpl; lia. }
  apply reads_guard; [lia|]. rewrite Nat2Z.id, <- (app_nil_r (match sei with _ => _ end)).
  eapply reads_bind; [|apply reads_ret]. destruct sei as [sei|]; cbn [length u32_to_be_bytes].
  - by apply reads_properties_section.
  - intros pre rest. unfold parse_connect_properties. cbn. by rewrite app_nil_r.
Qed.

Lemma reads_skip bs : reads (skip (length bs)) bs tt.
Proof.
  unfold skip. eapply reads_last; [apply reads_bytes|done].
Qed.

Lemma reads_will c :
  opt_all wf_will (c_will c) = true →
  reads (decode_will (c_protocol_level c) (connect_flags c))
    (will_bytes (c_protocol_level c) (c_will c)) (c_will c).
Proof.
  destruct (connect_flags_spec c) as (_ & Hw & _ & _ & Hq & _).
  unfold decode_will, will_bytes. rewrite Hw. cbv zeta.
  destruct (c_will c) as [w|] eqn:E; [|intros _; apply reads_ret].
  intros [Ht Hm]%andb_prop. rewrite bool_decide_true by eauto.
  destruct (Hq w eq_refl) as [-> ->].
  eapply (reads_bind_nil _ _ _ (will_qos w)).
  { destruct (will_qos w); apply reads_ret. }
  eapply (reads_bind _ _ _ _ tt).
  { destruct (_ =? _); [|apply reads_ret].
    change [0] with (vbi_bytes 0 ++ []).
    eapply reads_bind; [apply reads_vbi; lia|].
    apply reads_guard; [done|]. apply (reads_skip []). }
  eapply reads_bind; [by apply reads_string|].
  eapply reads_last; [by apply reads_binary|]. by destruct w.
Qed.

Lemma reads_opt {A} (b : bool) (m : RM A) (f : A → list Z) (o : option A) :
  b = bool_decide (is_Some o) → (∀ a, o = Some a → reads m (f a) a) →
  reads (if b then a ← m; mret (Some a) else mret None) (opt_bytes f o) o.
Proof.
  intros -> Hm. destruct o as [a|]; cbn [opt_bytes].
  2:{ rewrite bool_decide_false by (by intros [??]). apply reads_ret. }
  rewrite bool_decide_true by eauto.
  eapply reads_last; [by apply Hm|done].
Qed.

Lemma reads_connect c :
  wf_connect c = true → reads decode_connect (connect_bytes c) (PConnect c).
Proof.
  unfold wf_connect. intros H. destruct_andb.
  destruct (connect_flags_spec c) as (Hc & _ & Hu & Hp & _ & _).
  unfold decode_connect, connect_bytes.
  eapply reads_bind; [by apply reads_string|].
  cbn [bool_decide negb andb].
  eapply (reads_bind _ _ [_]); [apply reads_u8|].
  replace (negb (c_protocol_level c =? MQTT_3_1_1_LEVEL)
     && negb (c_protocol_level c =? MQTT_3_1_LEVEL)
     && negb (c_protocol_level c =? MQTT_5_LEVEL)) with false
    by (symmetry; destruct (c_protocol_level c =? MQTT_3_1_1_LEVEL),
         (c_protocol_level c =? MQTT_3_1_LEVEL), (c_protocol_level c =? MQTT_5_LEVEL); done).
  eapply (reads_bind _ _ [_]); [apply reads_u8|]. cbv beta zeta.
  eapply reads_bind; [by apply reads_u16, is_u16_spec|].
  eapply reads_bind; [by apply reads_connect_properties|].
  eapply reads_bind; [by apply reads_string|].
  eapply reads_bind; [by apply reads_will|].
  eapply reads_bind; [apply reads_opt; [done|]|].
  { intros u Hu'. rewrite Hu' in *. by apply reads_string. }
  eapply reads_last; [apply reads_opt; [done|]|].
  { intros u Hu'. rewrite Hu' in *. by apply reads_binary. }
  rewrite Hc. by destruct c.
Qed.

(** ** The other packets *)

Lemma reads_get_remaining {A} (k : nat → RM A) bs a :
  reads_all (k (length bs)) bs a → reads_all (n ← get_remaining; k n) bs a.
Proof.
  intros Hk pre. unfold mbind, rm_bind, get_remaining. by rewrite remaining_at.
Qed.

Lemma reads_to_end {A} (item : RM A) (f : A → list Z) (P : A → bool) :
  (∀ x, P x = true → reads item (f x) x ∧ f x ≠ []) →
  ∀ xs fuel acc, forallb P xs = true → (length xs ≤ fuel)%nat →
  reads_all (read_to_end item fuel acc) (concat (map f xs)) (acc ++ xs).
Proof.
  intros Hitem xs. induction xs as [|x xs IH]; intros fuel acc Hp Hf pre.
  - rewrite !app_nil_r. destruct fuel; simpl; rewrite remaining_at; done.
  - simpl in Hp, Hf. apply andb_prop in Hp as [Hx Hxs]. destruct (Hitem x Hx) as [Hr Hne].
    destruct fuel as [|fuel]; [lia|]. cbn [read_to_end map concat].
    rewrite remaining_at, length_app. destruct (f x) as [|b fx] eqn:Efx; [done|].
    cbn [length Nat.add Nat.ltb Nat.leb]. rewrite <- Efx in *.
    rewrite (reads_run _ _ _ _ _ _ Hr), IH by (done || lia). by rewrite <- !app_assoc.
Qed.

Lemma length_concat_map_ge {A} (f : A → list Z) xs :
  Forall (λ x, f x ≠ []) xs → (length xs ≤ length (concat (map f xs)))%nat.
Proof.
  induction 1 as [|x xs Hx _ IH]; simpl; [done|]. rewrite length_app.
  destruct (f x); simpl; [done|lia].
Qed.

(** Reading a vector to the end of the frame. *)
Lemma reads_all_items {A} (item : RM A) (f : A → list Z) (P : A → bool) xs :
  (∀ x, P x = true → reads item (f x) x ∧ f x ≠ []) → forallb P xs = true →
  reads_all (read_to_end item (length (concat (map f xs))) []) (concat (map f xs)) xs.
Proof.
  intros Hitem Hp. apply (reads_to_end item f P Hitem xs _ []); [done|].
  apply length_concat_map_ge. rewrite forallb_forall in Hp.
  apply Forall_forall. intros x Hx%list_elem_of_In. by apply Hitem, Hp.
Qed.

Definition topic_bytes (t : SubscribeTopic) : list Z :=
  string_bytes (st_topic_filter t) ++ [QoS.as_u8 (st_qos t)].

Lemma reads_subscribe_topic t :
  wf_topic t = true → reads read_subscribe_topic (topic_bytes t) t ∧ topic_bytes t ≠ [].
Proof.
  intros Ht. split; [|by destruct (string_bytes (st_topic_filter t)) eqn:E; unfold topic_bytes; rewrite E].
  unfold read_subscribe_topic, topic_bytes.
  eapply reads_bind; [by apply reads_string|].
  rewrite <- (app_nil_r [_]). eapply reads_bind; [apply reads_u8|].
  eapply (reads_bind _ _ [] [] (st_qos t)); [apply reads_lift|].
  - by destruct (st_qos t).
  - destruct t. apply reads_ret.
Qed.

Lemma put_topics_ok ts out :
  forallb wf_topic ts = true → put_topics ts out = Ok (out ++ concat (map topic_bytes ts)).
Proof.
  revert out. induction ts as [|t ts IH]; intros out; cbn [put_topics map concat forallb].
  - by rewrite app_nil_r.
  - intros [Ht Hts]%andb_prop. rewrite put_string_ok by done. cbn [mbind result_bind].
    rewrite IH by done. unfold topic_bytes. by rewrite <- !app_assoc.
Qed.

Lemma put_filters_ok fs out :
  forallb wf_string fs = true → put_filters fs out = Ok (out ++ concat (map string_bytes fs)).
Proof.
  revert out. induction fs as [|t ts IH]; intros out; cbn [put_filters map concat forallb].
  - by rewrite app_nil_r.
  - intros [Ht Hts]%andb_prop. rewrite put_string_ok by done. cbn [mbind result_bind].
    rewrite IH by done. by rewrite <- !app_assoc.
Qed.

Lemma reads_publish p :
  wf_publish p = true →
  reads_all (decode_publish (publish_flags p))
    (string_bytes (p_topic p) ++ opt_bytes u16_to_be_bytes (p_packet_id p) ++ p_payload p)
    (PPublish p).
Proof.
  unfold wf_publish. intros [[Ht Hp]%andb_prop Hq]%andb_prop.
  destruct p as [dup qos retain topic pid payload]; cbn [p_dup p_qos p_topic p_packet_id p_payload] in *.
  assert (Hflags : negb (Z.land (publish_flags (mkPublish dup qos retain topic pid payload)) 8 =? 0) = dup
    ∧ QoS.from_u8 (Z.shiftr (Z.land (publish_flags (mkPublish dup qos retain topic pid payload)) 6) 1) = Ok qos
    ∧ negb (Z.land (publish_flags (mkPublish dup qos retain topic pid payload)) 1 =? 0) = retain)
    by (by destruct dup, qos, retain).
  destruct Hflags as (Hd & Hqs & Hr). unfold decode_publish. rewrite Hd, Hr, Hqs. cbv zeta.
  eapply reads_all_bind_nil; [by apply reads_lift|].
  replace (bool_decide (qos = QoS.AtMostOnce) && dup) with false
    by (by destruct qos, pid, dup).
  eapply reads_all_bind; [by apply reads_string|].
  eapply reads_all_bind; [apply reads_opt|].
  - by destruct qos, pid.
  - intros id ->. apply reads_packet_id. by destruct qos.
  - apply reads_get_remaining, reads_reads_all.
    eapply reads_last; [apply reads_bytes|done].
Qed.

Lemma reads_connack c :
  wf_connack c = true →
  reads_all decode_connack
    ([if ca_session_present c then 1 else 0] ++ [ca_return_code c]
     ++ if ca_protocol_level c =? MQTT_5_LEVEL then [0] else []) (PConnack c).
Proof.
  intros [_ Hl]%andb_prop. unfold decode_connack.
  eapply reads_all_bind; [apply reads_u8|]. cbv zeta.
  eapply reads_all_bind; [apply reads_u8|]. apply reads_get_remaining.
  replace (negb (Z.land (if ca_session_present c then 1 else 0) 1 =? 0))
    with (ca_session_present c) by (by destruct (ca_session_present c)).
  rewrite <- (app_nil_r (if _ =? _ then _ else _)).
  destruct c as [sp rc lvl]; cbn [ca_session_present ca_return_code ca_protocol_level] in *.
  eapply (reads_all_bind _ _ _ _ lvl); [|apply reads_reads_all, reads_ret].
  destruct (lvl =? MQTT_5_LEVEL) eqn:E5; cbn [length app Nat.ltb Nat.leb].
  - apply Z.eqb_eq in E5 as ->. change [0] with (vbi_bytes 0 ++ []).
    eapply reads_bind; [apply reads_vbi; lia|]. apply reads_guard; [done|].
    eapply (reads_bind _ _ [] []); [apply (reads_skip [])|apply reads_ret].
  - rewrite orb_false_r in Hl. apply Z.eqb_eq in Hl as ->. apply reads_ret.
Qed.

(** ** Round trip of a body, and of a frame *)

Lemma reads_all_id (m : RM Z) (f : Z → Packet) id :
  reads m (u16_to_be_bytes id) id →
  reads_all (id ← m; mret (f id)) (u16_to_be_bytes id) (f id).
Proof. intros Hm. apply reads_reads_all. by eapply reads_last. Qed.

Lemma wf_nonempty {A} (l : list A) (b : bool) `{!Decision (l = [])} :
  b && negb (bool_decide (l = [])) = true → b = true ∧ l ≠ [].
Proof.
  intros [? H]%andb_prop. split; [done|].
  by apply negb_true_iff, bool_decide_eq_false in H.
Qed.

(** What [encode_packet_body] writes is what [decode_packet_body] reads. *)
(** The body of a packet that is written is read back. *)
Definition body_ok (p : Packet) : Prop :=
  ∃ flags body, encode_packet_body p [] = Ok (packet_type p, flags, body)
    ∧ 0 ≤ flags < 16
    ∧ reads_all (decode_packet_body (packet_type p) flags) body p.

Lemma subscribe_body s : wf_packet (PSubscribe s) = true → body_ok (PSubscribe s).
Proof.
  unfold body_ok.
  cbn [wf_packet packet_type encode_packet_body decode_packet_body]. intros Hwf.
  apply wf_nonempty in Hwf as [[Hid Hts]%andb_prop Hne].
  unfold encode_subscribe. rewrite put_topics_ok by done.
  eexists _, _. split_and!; [done..|]. eapply reads_all_bind_nil; [by apply reads_lift|].
  unfold decode_subscribe. eapply reads_all_bind; [by apply reads_packet_id|].
  apply reads_get_remaining. intros pre. unfold mbind, rm_bind.
  rewrite (reads_all_items _ topic_bytes wf_topic (s_topics s) reads_subscribe_topic) by done.
  destruct s as [id [|t ts]]; done.
Qed.

Lemma suback_body s : wf_packet (PSuback s) = true → body_ok (PSuback s).
Proof.
  unfold body_ok.
  cbn [wf_packet packet_type encode_packet_body decode_packet_body]. intros Hwf.
  apply andb_prop in Hwf as [Hid Hrc].
  exists 0, (u16_to_be_bytes (sa_packet_id s) ++ sa_return_codes s).
  split_and!; [done..|]. unfold decode_suback.
  eapply reads_all_bind; [by apply reads_packet_id|].
  apply reads_get_remaining. intros pre. unfold mbind, rm_bind.
  assert (Hu8 : ∀ b, is_u8 b = true → reads read_u8 [b] b ∧ [b] ≠ [])
    by (intros b _; split; [apply reads_u8|done]).
  pose proof (reads_all_items read_u8 (λ b, [b]) is_u8 (sa_return_codes s) Hu8 Hrc) as Hr.
  assert (Hc : concat (map (λ b, [b]) (sa_return_codes s)) = sa_return_codes s)
    by (clear; induction (sa_return_codes s); simpl; congruence).
  rewrite Hc in Hr. rewrite Hr. by destruct s.
Qed.

Lemma unsubscribe_body u : wf_packet (PUnsubscribe u) = true → body_ok (PUnsubscribe u).
Proof.
  unfold body_ok.
  cbn [wf_packet packet_type encode_packet_body decode_packet_body]. intros Hwf.
  apply wf_nonempty in Hwf as [[Hid Hts]%andb_prop Hne].
  unfold encode_unsubscribe. rewrite put_filters_ok by done.
  eexists _, _. split_and!; [done..|]. eapply reads_all_bind_nil; [by apply reads_lift|].
  unfold decode_unsubscribe. eapply reads_all_bind; [by apply reads_packet_id|].
  apply reads_get_remaining. intros pre. unfold mbind, rm_bind.
  assert (Hstr : ∀ s, wf_string s = true → reads read_string (string_bytes s) s ∧ string_bytes s ≠ [])
    by (intros s Hs; split; [by apply reads_string|done]).
  rewrite (reads_all_items _ string_bytes wf_string (u_topic_filters u) Hstr) by done.
  destruct u as [id [|t ts]]; done.
Qed.

Lemma body_roundtrip p : wf_packet p = true → body_ok p.
Proof.
  destruct p as [c|c|p|id|id|id|id|s|s|u|id| | |]; [..|apply subscribe_body|apply suback_body|apply unsubscribe_body| | | |];
    unfold body_ok; cbn [wf_packet packet_type encode_packet_body decode_packet_body]; intros Hwf.
  - rewrite encode_connect_ok by done. eexists _, _. split_and!; [done..|].
    by apply reads_reads_all, reads_connect.
  - exists 0, ([if ca_session_present c then 1 else 0] ++ [ca_return_code c]
                ++ if ca_protocol_level c =? MQTT_5_LEVEL then [0] else []).
    rewrite encode_remaining_length_app.
    split_and!; [by destruct (_ =? MQTT_5_LEVEL)|done..|by apply reads_connack].
  - exists (publish_flags p).
    exists (string_bytes (p_topic p) ++ opt_bytes u16_to_be_bytes (p_packet_id p) ++ p_payload p).
    pose proof (andb_prop _ _ Hwf) as [[Ht _]%andb_prop _].
    unfold encode_publish. rewrite put_string_ok by done. cbn [mbind result_bind app].
    assert (0 ≤ publish_flags p < 16) by (unfold publish_flags; by destruct (p_dup p), (p_qos p), (p_retain p)).
    split_and!; [|lia..|by apply reads_publish].
    destruct (p_packet_id p); simpl; by rewrite <- ?app_assoc.
  - eexists _, _. split_and!; [done..|]. by apply reads_all_id, reads_packet_id.
  - eexists _, _. split_and!; [done..|]. by apply reads_all_id, reads_packet_id.
  - eexists _, _. split_and!; [done..|]. eapply reads_all_bind_nil; [by apply reads_lift|].
    by apply reads_all_id, reads_packet_id.
  - eexists _, _. split_and!; [done..|]. by apply reads_all_id, reads_packet_id.
  - eexists _, _. split_and!; [done..|]. by apply reads_all_id, reads_packet_id.
  - eexists _, _. split_and!; [done..|]. by apply reads_reads_all, reads_ret.
  - eexists _, _. split_and!; [done..|]. by apply reads_reads_all, reads_ret.
  - eexists _, _. split_and!; [done..|]. by apply reads_reads_all, reads_ret.
Qed.

Lemma first_byte_spec t flags :
  0 ≤ flags < 16 →
  let first := Z.lor (Z.shiftl (PacketType.as_u8 t) 4) (Z.land flags 15) in
  Z.shiftr first 4 = PacketType.as_u8 t ∧ Z.land first 15 = flags.
Proof.
  intros Hf. pose proof (Z_range_forall 16 (λ flags,
    let first := Z.lor (Z.shiftl (PacketType.as_u8 t) 4) (Z.land flags 15) in
    (Z.shiftr first 4 =? PacketType.as_u8 t) && (Z.land first 15 =? flags))
    ltac:(by destruct t) flags ltac:(lia)) as H.
  cbv beta zeta in *. lia.
Qed.

Lemma decode_packet_roundtrip p flags body :
  0 ≤ flags < 16 →
  reads_all (decode_packet_body (packet_type p) flags) body p →
  decode_packet (Z.lor (Z.shiftl (PacketType.as_u8 (packet_type p)) 4) (Z.land flags 15)) body
  = Ok p.
Proof.
  intros Hf Hr. unfold decode_packet.
  destruct (first_byte_spec (packet_type p) flags Hf) as [-> ->].
  rewrite PacketType_from_as_u8. cbn [mbind result_bind]. cbv zeta.
  specialize (Hr []). unfold at_ in Hr. cbn [app length] in Hr.
  unfold reader_new. by rewrite Hr.
Qed.

(** A frame: one byte, the remaining length, the body. *)
Definition frame_of (first : Z) (body : list Z) : list Z :=
  first :: vbi_bytes (Z.of_nat (length body)) ++ body.

Lemma vbi_bytes_nonempty v : vbi_bytes v ≠ [].
Proof.
  unfold vbi_bytes, encode_remaining_length. generalize 9%nat; intros n.
  cbn [encode_remaining_length_loop]. destruct (_ =? 0); [done|].
  by rewrite encode_loop_app.
Qed.

Lemma decode_frame self first body rest :
  Z.of_nat (length body) ≤ 0x0FFFFFFF →
  Z.of_nat (length (frame_of first body)) ≤ max_packet_size self →
  decode self (frame_of first body ++ rest)
  = (match decode_packet first body with Ok p => Ok (Some p) | Err e => Err e end, rest).
Proof.
  intros Hb Hm. unfold decode.
  pose proof (vbi_bytes_nonempty (Z.of_nat (length body))) as Hne.
  remember (vbi_bytes (Z.of_nat (length body))) as v eqn:Ev.
  assert (Hlen : length (frame_of first body) = (S (length v) + length body)%nat)
    by (unfold frame_of; rewrite <- Ev; simpl; rewrite length_app; lia).
  replace (length (frame_of first body ++ rest) <? 2)%nat with false.
  2:{ symmetry. apply Nat.ltb_ge. rewrite length_app, Hlen. destruct v; simpl; [done|lia]. }
  unfold frame_of at 1. rewrite <- app_comm_cons, <- app_assoc.
  rewrite decode_remaining_length_vbi by lia. rewrite <- Ev.
  rewrite Hlen in Hm.
  rewrite Z_gtb_false, Z_ltb_false by (rewrite ?length_app, ?Hlen; lia).
  replace (Z.to_nat (Z.of_nat (S (length v)) + Z.of_nat (length body)))
    with (length (frame_of first body)) by lia.
  cbv zeta. rewrite take_app_length, drop_app_length.
  unfold frame_of. rewrite <- Ev. cbn [byte_at lookup list_lookup drop].
  rewrite drop_app_length. unfold byte_at; cbn. by destruct (decode_packet _ _).
Qed.

Lemma encode_frame p dst :
  wf_packet p = true →
  ∃ first body, decode_packet first body = Ok p ∧
    encode p dst = if Z.of_nat (length body) >? 0x0FFFFFFF
                   then Err (CodecError.InvalidRemainingLength (Z.of_nat (length body)))
                   else Ok (dst ++ frame_of first body).
Proof.
  intros Hwf. destruct (body_roundtrip p Hwf) as (flags & body & He & Hf & Hr).
  eexists _, body. split; [by apply decode_packet_roundtrip|].
  unfold encode. rewrite He. cbn [mbind result_bind].
  destruct (_ >? _); [done|]. rewrite encode_remaining_length_app.
  unfold frame_of. by rewrite <- !app_assoc.
Qed.
