(* ===== verification/CodecTheorems.v ===== *)
(** * The codec: what [decode] and [encode] promise

    The theorems on [src/codec/v3.rs] seen from outside: the round trip, the
    typing of decoded packets, the framing of a byte stream cut at arbitrary
    points, and the bounds of the length field.  The type soundness proof is a
    small Hoare logic over the reader monad. *)

From S2P Require Import Prelude Packet Codec CodecProofs.

(** ** Streams

    The loop a [Framed] transport runs around [decode]: decode until the buffer
    holds no whole packet, or until an error.  Every packet takes at least two
    bytes, so [length buf] iterations reach the end. *)

Record Stream := mkStream {
  str_packets : list Packet;        (* the packets delivered, in order *)
  str_error : option CodecError;    (* the error that ended the stream *)
  str_buf : list Z;                 (* the bytes not consumed *)
}.

Fixpoint drain (fuel : nat) (self : MqttCodec) (st : Stream) : Stream :=
  match fuel with
  | O => st
  | S fuel =>
      match str_error st with
      | Some _ => st
      | None =>
          match decode self (str_buf st) with
          | (Ok (Some p), rest) =>
              drain fuel self (mkStream (str_packets st ++ [p]) None rest)
          | (Ok None, rest) => mkStream (str_packets st) None rest
          | (Err e, rest) => mkStream (str_packets st) (Some e) rest
          end
      end
  end.

(** The arrival of a chunk of bytes. *)
Definition feed (self : MqttCodec) (st : Stream) (chunk : list Z) : Stream :=
  let buf := str_buf st ++ chunk in
  drain (S (length buf)) self (mkStream (str_packets st) (str_error st) buf).

Definition stream_new : Stream := mkStream [] None [].

(** Encoding a list of packets into one buffer. *)
Fixpoint encode_all (ps : list Packet) (dst : list Z) : Result CodecError (list Z) :=
  match ps with
  | [] => Ok dst
  | p :: ps => dst ← encode p dst; encode_all ps dst
  end.

(** ** A Hoare logic for the reader *)

Definition reader_ok (r : Reader) : Prop :=
  is_bytes (buf r) = true ∧ (pos r ≤ length (buf r))%nat.

(** Whenever [m] returns, the reader has moved forward inside its buffer and
    the result satisfies [Q]. *)
Definition hoare {A} (m : RM A) (Q : A → Prop) : Prop :=
  ∀ r a r', reader_ok r → m r = Ok (a, r') →
    reader_ok r' ∧ buf r' = buf r ∧ (pos r ≤ pos r')%nat ∧ Q a.

(** The same, for reads that consume at least a byte. *)
Definition progress {A} (m : RM A) : Prop :=
  ∀ r a r', reader_ok r → m r = Ok (a, r') → (pos r < pos r')%nat.

Lemma hoare_ret {A} (a : A) (Q : A → Prop) : Q a → hoare (mret a) Q.
Proof. intros HQ r b r' Hr [= <- <-]. auto. Qed.

Lemma hoare_fail {A} e (Q : A → Prop) : hoare (fail e) Q.
Proof. by intros r a r' _. Qed.

Lemma hoare_lift {A} (x : Result CodecError A) (Q : A → Prop) :
  (∀ a, x = Ok a → Q a) → hoare (lift x) Q.
Proof. intros HQ r a r' Hr. unfold lift. destruct x; [|done]. intros [= -> ->]. auto. Qed.

Lemma hoare_bind {A B} (m : RM A) (f : A → RM B) P Q :
  hoare m P → (∀ a, P a → hoare (f a) Q) → hoare (m ≫= f) Q.
Proof.
  intros Hm Hf r b r' Hr. unfold mbind, rm_bind.
  destruct (m r) as [[a r1]|] eqn:E; [|done]. intros Eb.
  destruct (Hm _ _ _ Hr E) as (Hr1 & Hb1 & Hp1 & HP).
  destruct (Hf a HP _ _ _ Hr1 Eb) as (Hr2 & Hb2 & Hp2 & HQ).
  split_and!; [done|congruence|lia|done].
Qed.

Lemma hoare_if {A} (b : bool) (m1 m2 : RM A) Q :
  (b = true → hoare m1 Q) → (b = false → hoare m2 Q) → hoare (if b then m1 else m2) Q.
Proof. destruct b; auto. Qed.

Lemma hoare_get_remaining : hoare get_remaining (λ _, True).
Proof. intros r a r' Hr [= <- <-]. auto. Qed.

Lemma byte_at_is_u8 l i : is_bytes l = true → is_u8 (byte_at l i) = true.
Proof.
  intros Hl. unfold byte_at. destruct (l !! i) eqn:E; [|done].
  by eapply is_u8_spec, is_bytes_elem.
Qed.

Lemma hoare_u8 : hoare read_u8 (λ b, is_u8 b = true) ∧ progress read_u8.
Proof.
  split; intros r a r' [Hb Hp]; unfold read_u8;
    (destruct (Nat.leb_spec (length (buf r)) (pos r)); [done|]); intros [= <- <-].
  - simpl. repeat split; [done|simpl; lia|lia|by apply byte_at_is_u8].
  - simpl; lia.
Qed.

Lemma hoare_u16 : hoare read_u16 (λ b, is_u16 b = true) ∧ progress read_u16.
Proof.
  split; intros r a r' [Hb Hp]; unfold read_u16, remaining;
    (destruct (Nat.ltb_spec (length (buf r) - pos r) 2); [done|]); intros [= <- <-].
  - simpl. repeat split; [done|simpl; lia|lia|]. apply is_u16_spec. unfold u16_from_be_bytes.
    pose proof (proj1 (is_u8_spec _) (byte_at_is_u8 (buf r) (pos r) Hb)).
    pose proof (proj1 (is_u8_spec _) (byte_at_is_u8 (buf r) (S (pos r)) Hb)). lia.
  - simpl; lia.
Qed.

Lemma hoare_bytes n :
  hoare (read_bytes n) (λ l, is_bytes l = true ∧ length l = n).
Proof.
  intros r a r' [Hb Hp]. unfold read_bytes, remaining.
  destruct (Nat.ltb_spec (length (buf r) - pos r) n); [done|]. intros [= <- <-]. simpl.
  repeat split; [done|simpl; lia|lia| |].
  - by apply is_bytes_take, is_bytes_drop.
  - rewrite length_take, length_drop. lia.
Qed.

Lemma progress_bind {A B} (m : RM A) (f : A → RM B) P Q :
  hoare m P → progress m → (∀ a, P a → hoare (f a) Q) → progress (m ≫= f).
Proof.
  intros Hm Hpm Hf r b r' Hr. unfold mbind, rm_bind.
  destruct (m r) as [[a r1]|] eqn:E; [|done]. intros Eb.
  destruct (Hm _ _ _ Hr E) as (Hr1 & _ & _ & HP).
  destruct (Hf a HP _ _ _ Hr1 Eb) as (_ & _ & Hp2 & _).
  pose proof (Hpm _ _ _ Hr E). lia.
Qed.

Lemma hoare_weaken {A} (m : RM A) (P Q : A → Prop) :
  (∀ a, P a → Q a) → hoare m P → hoare m Q.
Proof. intros HPQ Hm r a r' Hr E. destruct (Hm _ _ _ Hr E) as (?&?&?&?). auto. Qed.

Lemma hoare_string_rest len :
  is_u16 len = true →
  hoare (raw ← read_bytes (Z.to_nat len);
         match from_utf8 raw with Some s => mret s | None => fail CodecError.MalformedUtf8 end)
    (λ s, wf_string s = true).
Proof.
  intros Hlen%is_u16_spec. eapply hoare_bind; [apply hoare_bytes|].
  intros raw [Hraw Hl]. destruct (from_utf8 raw) as [s|] eqn:E; [|apply hoare_fail].
  apply hoare_ret. destruct (from_utf8_is_str _ _ Hraw E) as [Hs Hb].
  unfold wf_string. rewrite Hs, str_len_as_bytes, Hb, Hl. apply Z.leb_le. unfold u16_max. lia.
Qed.

Lemma hoare_string : hoare read_string (λ s, wf_string s = true) ∧ progress read_string.
Proof.
  split; [eapply hoare_bind|eapply progress_bind];
    try apply hoare_u16; apply hoare_string_rest.
Qed.

Lemma hoare_binary : hoare read_binary (λ b, wf_binary b = true).
Proof.
  eapply hoare_bind; [apply hoare_u16|]. intros len Hlen%is_u16_spec.
  eapply hoare_weaken; [|apply hoare_bytes]. intros b [Hb Hl]. unfold wf_binary.
  rewrite Hb, Hl. apply Z.leb_le. unfold u16_max. lia.
Qed.

Lemma hoare_skip n : hoare (skip n) (λ _, True).
Proof. eapply hoare_bind; [apply hoare_bytes|]. intros. by apply hoare_ret. Qed.

Lemma hoare_packet_id : hoare read_packet_id (λ id, wf_packet_id id = true).
Proof.
  eapply hoare_bind; [apply hoare_u16|]. intros id Hid. apply hoare_lift.
  unfold validate_packet_id, wf_packet_id. intros a. destruct (id =? 0) eqn:E; [done|].
  intros [= <-]. by rewrite Hid, E.
Qed.

(** A reader never fails to move forward on a variable byte integer, and its
    value fits the 28 bits of four groups. *)
Lemma land_127_bound b : 0 ≤ Z.land b 127 ≤ 127.
Proof.
  pose proof (Z.land_ones b 7 ltac:(lia)) as E. change (Z.ones 7) with 127 in E.
  rewrite E. pose proof (Z.mod_pos_bound b (2 ^ 7) ltac:(lia)). lia.
Qed.

Lemma hoare_vbi_loop fuel m val :
  0 ≤ val < m → m * 128 ^ Z.of_nat fuel ≤ 128 ^ 4 →
  hoare (read_vbi_loop fuel m val) (λ v, 0 ≤ v < 128 ^ 4)
  ∧ progress (read_vbi_loop fuel m val).
Proof.
  revert m val. induction fuel as [|fuel IH]; intros m val Hv Hb; cbn [read_vbi_loop].
  { split; [apply hoare_fail|by intros ???]. }
  rewrite pow128_S in Hb. pose proof (pow128_pos fuel).
  assert (Hk : ∀ b, is_u8 b = true →
    hoare (let value := val + Z.land b 127 * m in
      if Z.land b 128 =? 0 then mret value
      else let multiplier := m * 128 in
        if multiplier >? 128 * 128 * 128 then fail (CodecError.MalformedBody "vbi overflow")
        else read_vbi_loop fuel multiplier value) (λ v, 0 ≤ v < 128 ^ 4)).
  { intros b _. pose proof (land_127_bound b). cbv zeta.
    apply hoare_if; intros _; [apply hoare_ret; nia|].
    apply hoare_if; intros _; [apply hoare_fail|]. apply IH; nia. }
  split; [eapply hoare_bind|eapply progress_bind]; try apply hoare_u8; done.
Qed.

Lemma hoare_vbi : hoare read_vbi (λ v, 0 ≤ v < 128 ^ 4) ∧ progress read_vbi.
Proof. apply hoare_vbi_loop; simpl; lia. Qed.

Lemma hoare_skip_or_binary : hoare skip_string_or_binary (λ _, True).
Proof. eapply hoare_bind; [apply hoare_u16|]. intros. apply hoare_skip. Qed.

#[export] Hint Resolve hoare_ret hoare_fail hoare_get_remaining hoare_bytes hoare_binary
  hoare_skip hoare_packet_id hoare_skip_or_binary hoare_lift : codec.
#[export] Hint Extern 1 (hoare read_u8 _) => apply hoare_u8 : codec.
#[export] Hint Extern 1 (hoare read_u16 _) => apply hoare_u16 : codec.
#[export] Hint Extern 1 (hoare read_string _) => apply hoare_string : codec.
#[export] Hint Extern 1 (hoare read_vbi _) => apply hoare_vbi : codec.

(** One step of a decoder: a bind whose first read has a rule, or a test. *)
Ltac hoare_step :=
  match goal with
  | |- hoare (_ ≫= _) _ => eapply hoare_bind; [solve [eauto with codec]|]; intros ??; cbv beta in *
  | |- hoare (if _ then fail _ else _) _ => apply hoare_if; intros ?; [apply hoare_fail|]
  | |- hoare (if _ then _ else _) _ => apply hoare_if; intros ?
  | |- hoare (let x := _ in _) _ => cbv zeta
  | |- hoare (fail _) _ => apply hoare_fail
  end.

Lemma hoare_skip_property_value id : hoare (skip_property_value id) (λ _, True).
Proof.
  unfold skip_property_value, skip_string_pair.
  repeat case_match; eauto with codec; repeat hoare_step; eauto with codec.
Qed.

Definition props_ok (p : ConnectProperties) : Prop :=
  opt_all is_u32 (session_expiry_interval p) = true.

Lemma u32_from_bytes_ok raw :
  is_bytes raw = true →
  is_u32 (u32_from_be_bytes (byte_at raw 0) (byte_at raw 1) (byte_at raw 2) (byte_at raw 3))
  = true.
Proof.
  intros H. apply is_u32_spec. unfold u32_from_be_bytes.
  pose proof (λ i, proj1 (is_u8_spec _) (byte_at_is_u8 raw i H)) as Hb.
  pose proof (Hb 0%nat). pose proof (Hb 1%nat). pose proof (Hb 2%nat). pose proof (Hb 3%nat).
  lia.
Qed.

Lemma hoare_property props :
  props_ok props → hoare (parse_property props) props_ok ∧ progress (parse_property props).
Proof.
  intros Hp.
  assert (Hk : ∀ id, 0 ≤ id < 128 ^ 4 →
    hoare (if id =? prop_id.SESSION_EXPIRY_INTERVAL then
             n ← get_remaining;
             if (n <? 4)%nat then
               fail (CodecError.MalformedBody "session expiry interval truncated")
             else
               raw ← read_bytes 4;
               mret (mkConnectProperties
                 (Some (u32_from_be_bytes (byte_at raw 0) (byte_at raw 1)
                          (byte_at raw 2) (byte_at raw 3))))
           else _ ← skip_property_value id; mret props) props_ok).
  { intros id _. apply hoare_if; intros _.
    - repeat hoare_step. apply hoare_ret. unfold props_ok; simpl.
      apply u32_from_bytes_ok. tauto.
    - eapply hoare_bind; [apply hoare_skip_property_value|]. intros. by apply hoare_ret. }
  split; [eapply hoare_bind|eapply progress_bind]; try apply hoare_vbi; done.
Qed.

Lemma hoare_properties_loop fuel end_ props :
  props_ok props → hoare (parse_properties_loop fuel end_ props) props_ok.
Proof.
  revert props. induction fuel as [|fuel IH]; intros props Hp r a r' Hr; simpl.
  - destruct (_ <? _)%nat; intros [= <- <-]; auto.
  - destruct (_ <? _)%nat; [|intros [= <- <-]; auto].
    apply (hoare_bind (parse_property props) _ props_ok props_ok); [|apply IH|done].
    by apply hoare_property.
Qed.

Lemma hoare_connect_properties level :
  hoare (decode_connect_properties level) (λ p, wf_properties level p = true).
Proof.
  unfold decode_connect_properties. apply hoare_if; intros E.
  - do 3 hoare_step. eapply (hoare_bind _ _ props_ok).
    + intros r p r' Hr. unfold parse_connect_properties.
      destruct (_ =? 0)%nat; [intros [= <- <-]; destruct Hr; split_and!; done|].
      by apply hoare_properties_loop.
    + intros p Hp. apply hoare_ret. unfold wf_properties. by rewrite E, Hp.
  - apply hoare_ret. unfold wf_properties. by rewrite E.
Qed.

Lemma hoare_will level flags :
  hoare (decode_will level flags) (λ w, opt_all wf_will w = true).
Proof.
  unfold decode_will. cbv zeta. apply hoare_if; intros _; [|by apply hoare_ret].
  eapply (hoare_bind _ _ (λ _, True)).
  { repeat case_match; eauto with codec. }
  intros qos _. eapply (hoare_bind _ _ (λ _, True)).
  { apply hoare_if; intros _; [|by apply hoare_ret]. repeat hoare_step. apply hoare_skip. }
  intros _ _. repeat hoare_step. apply hoare_ret. simpl. unfold wf_will. simpl.
  by apply andb_true_intro.
Qed.

Lemma hoare_opt {A} (b : bool) (m : RM A) (f : A → bool) :
  hoare m (λ a, f a = true) →
  hoare (if b then a ← m; mret (Some a) else mret None) (λ o, opt_all f o = true).
Proof.
  intros Hm. apply hoare_if; intros _; [|by apply hoare_ret].
  eapply hoare_bind; [done|]. intros. by apply hoare_ret.
Qed.

Lemma hoare_connect : hoare decode_connect (λ p, wf_packet p = true).
Proof.
  unfold decode_connect. repeat hoare_step.
  eapply hoare_bind; [apply hoare_connect_properties|]. intros props Hprops.
  hoare_step. cbv zeta.
  eapply hoare_bind; [apply hoare_will|]. intros will Hwill. cbv beta in *.
  eapply hoare_bind; [apply hoare_opt, hoare_string|]. intros u Hu.
  eapply hoare_bind; [apply hoare_opt, hoare_binary|]. intros pw Hpw.
  apply hoare_ret. cbn. unfold wf_connect. cbn.
  cbv beta in *. rewrite Hprops, Hwill, Hu, Hpw, !andb_true_r.
  split_andb; [|done..]. revert H2.
  destruct (_ =? MQTT_3_1_LEVEL), (_ =? MQTT_3_1_1_LEVEL), (_ =? MQTT_5_LEVEL); done.
Qed.

Lemma hoare_connack : hoare decode_connack (λ p, wf_packet p = true).
Proof.
  unfold decode_connack. do 3 hoare_step.
  eapply (hoare_bind _ _ (λ l, l = MQTT_5_LEVEL ∨ l = MQTT_3_1_1_LEVEL)).
  - apply hoare_if; intros _; [|apply hoare_ret; by right].
    repeat hoare_step. apply hoare_ret. by left.
  - intros l Hl. apply hoare_ret. cbn. unfold wf_connack; cbn. apply andb_true_intro.
    split; [done|]. by destruct Hl as [-> | ->].
Qed.

Lemma hoare_publish flags : hoare (decode_publish flags) (λ p, wf_packet p = true).
Proof.
  unfold decode_publish. cbv zeta.
  eapply (hoare_bind _ _ (λ _, True)); [by apply hoare_lift|]. intros qos _.
  do 2 hoare_step.
  eapply (hoare_bind _ _ (λ o, match o with Some id => qos ≠ QoS.AtMostOnce ∧ wf_packet_id id = true
                                          | None => qos = QoS.AtMostOnce end)).
  { apply hoare_if; intros Hq; [|by apply hoare_ret, (bool_decide_eq_true _), negb_false_iff].
    hoare_step. apply hoare_ret. split; [|done].
    by apply negb_true_iff, bool_decide_eq_false in Hq. }
  intros o Ho. do 2 hoare_step. apply hoare_ret. cbn. unfold wf_publish; cbn.
  destruct_and?. split_andb; try done.
  destruct o as [id|]; [destruct Ho; by destruct qos|]. subst qos.
  by destruct (negb _).
Qed.

Lemma hoare_to_end {A} (item : RM A) (f : A → bool) fuel acc :
  hoare item (λ a, f a = true) → forallb f acc = true →
  hoare (read_to_end item fuel acc) (λ l, forallb f l = true).
Proof.
  intros Hi. revert acc. induction fuel as [|fuel IH]; intros acc Hacc r a r' Hr; simpl.
  - destruct (_ <? _)%nat; intros [= <- <-]; auto.
  - destruct (_ <? _)%nat; [|intros [= <- <-]; auto].
    apply (hoare_bind item _ (λ a, f a = true) (λ l, forallb f l = true)); [done| |done].
    intros x Hx. apply IH. rewrite forallb_app, Hacc. simpl. by rewrite Hx.
Qed.

Lemma hoare_subscribe_topic : hoare read_subscribe_topic (λ t, wf_topic t = true).
Proof.
  unfold read_subscribe_topic. do 2 hoare_step.
  eapply (hoare_bind _ _ (λ _, True)); [by apply hoare_lift|]. intros q _. by apply hoare_ret.
Qed.

Lemma hoare_packet_body ptype flags :
  hoare (decode_packet_body ptype flags) (λ p, wf_packet p = true).
Proof.
  destruct ptype; cbn [decode_packet_body];
    try (eapply (hoare_bind _ _ (λ _, True)); [by apply hoare_lift|]; intros _ _);
    auto using hoare_connect, hoare_connack, hoare_publish with codec;
    try (hoare_step; by apply hoare_ret).
  - unfold decode_subscribe. do 2 hoare_step.
    eapply hoare_bind; [by apply (hoare_to_end _ _ _ _ hoare_subscribe_topic)|]. intros ts Hts.
    destruct ts as [|t ts]; [apply hoare_fail|]. apply hoare_ret. cbn [wf_packet].
    rewrite bool_decide_false by done. split_andb; done.
  - unfold decode_suback. do 2 hoare_step.
    eapply hoare_bind; [by apply (hoare_to_end _ _ _ _ (proj1 hoare_u8))|]. intros ts Hts.
    apply hoare_ret. by apply andb_true_intro.
  - unfold decode_unsubscribe. do 2 hoare_step.
    eapply hoare_bind; [by apply (hoare_to_end _ _ _ _ (proj1 hoare_string))|]. intros ts Hts.
    destruct ts as [|t ts]; [apply hoare_fail|]. apply hoare_ret. cbn [wf_packet].
    rewrite bool_decide_false by done. split_andb; done.
Qed.

Lemma decode_packet_wf first payload p :
  is_bytes payload = true → decode_packet first payload = Ok p → wf_packet p = true.
Proof.
  intros Hb. unfold decode_packet. destruct (PacketType.from_u8 _) as [t|]; [|done].
  cbn [mbind result_bind]. cbv zeta. destruct (decode_packet_body _ _ _) as [[q r]|] eqn:E; [|done].
  intros [= <-]. eapply hoare_packet_body; [|done]. split; simpl; [done|lia].
Qed.

(** ** The loops run to their exit condition *)

Lemma read_to_end_exit {A} (item : RM A) P fuel acc r l r' :
  hoare item P → progress item → reader_ok r → (remaining r ≤ fuel)%nat →
  read_to_end item fuel acc r = Ok (l, r') → remaining r' = 0%nat.
Proof.
  intros Hi Hp. revert acc r. induction fuel as [|fuel IH]; intros acc r Hr Hf; cbn [read_to_end].
  - destruct (Nat.ltb_spec 0 (remaining r)); intros [= <- <-]; lia.
  - destruct (Nat.ltb_spec 0 (remaining r)); [|intros [= <- <-]; lia].
    unfold mbind, rm_bind. destruct (item r) as [[x r1]|] eqn:E; [|done].
    destruct (Hi _ _ _ Hr E) as (Hr1 & Hb1 & _). pose proof (Hp _ _ _ Hr E).
    apply IH; [done|]. unfold remaining in *. rewrite Hb1. lia.
Qed.

Lemma properties_loop_exit fuel end_ props r p r' :
  props_ok props → reader_ok r → (end_ ≤ pos r + fuel)%nat →
  parse_properties_loop fuel end_ props r = Ok (p, r') → (end_ ≤ pos r')%nat.
Proof.
  revert props r. induction fuel as [|fuel IH]; intros props r Hp Hr Hf; cbn [parse_properties_loop].
  - destruct (Nat.ltb_spec (pos r) end_); intros [= <- <-]; lia.
  - destruct (Nat.ltb_spec (pos r) end_); [|intros [= <- <-]; lia].
    unfold mbind, rm_bind. destruct (parse_property props r) as [[x r1]|] eqn:E; [|done].
    destruct (hoare_property props Hp) as [Hh Hpr].
    destruct (Hh _ _ _ Hr E) as (Hr1 & _ & _ & Hx). pose proof (Hpr _ _ _ Hr E).
    apply IH; [done..|]. lia.
Qed.

(** ** The length field *)

Lemma decode_rl_loop_bounds l k m val idx v h :
  (k ≤ 4)%nat → m * 128 ^ Z.of_nat k = 128 ^ 4 → 0 ≤ val < m →
  decode_remaining_length_loop l m val idx = Ok (Some (v, h)) →
  0 ≤ v < 128 ^ 4 ∧ (S idx ≤ h ≤ idx + k)%nat ∧ (h ≤ idx + length l)%nat.
Proof.
  revert k m val idx. induction l as [|b l IH]; intros k m val idx Hk Hm Hv; simpl; [done|].
  destruct (m >? 128 * 128 * 128) eqn:Em; [done|].
  destruct k as [|k]; [simpl in Hm; lia|]. rewrite pow128_S in Hm. pose proof (pow128_pos k).
  pose proof (land_127_bound b).
  destruct (_ =? 0); [intros [= <- <-]; split_and!; (nia || lia)|].
  intros E. apply (IH k) in E as (Hv' & Hh & Hl); [|lia|nia|nia].
  split_and!; (lia || nia).
Qed.

Lemma decode_rl_bounds src v h :
  decode_remaining_length src = Ok (Some (v, h)) →
  0 ≤ v ≤ 268435455 ∧ (2 ≤ h ≤ 5)%nat ∧ (h ≤ length src)%nat.
Proof.
  intros H. destruct src as [|b src]; [done|]. unfold decode_remaining_length in H.
  cbn [drop] in H. rewrite drop_0 in H.
  apply (decode_rl_loop_bounds src 4) in H; simpl in *; lia.
Qed.

Lemma decode_rl_loop_app l k m val idx res :
  decode_remaining_length_loop l m val idx = res → res ≠ Ok None →
  decode_remaining_length_loop (l ++ k) m val idx = res.
Proof.
  revert m val idx. induction l as [|b l IH]; intros m val idx; simpl; [by intros <-|].
  destruct (_ >? _); [done|]. destruct (_ =? 0); [done|]. apply IH.
Qed.

Lemma decode_rl_app src more res :
  decode_remaining_length src = res → res ≠ Ok None →
  decode_remaining_length (src ++ more) = res.
Proof.
  unfold decode_remaining_length. destruct src as [|b src]; [by intros <-|].
  cbn [drop app]. rewrite !drop_0. apply decode_rl_loop_app.
Qed.

(** ** [decode] on a prefix of the stream *)

(** Appending bytes changes nothing but the rest once [decode] has answered. *)
Lemma decode_app self src more res rest :
  decode self src = (res, rest) → res ≠ Ok None →
  decode self (src ++ more) = (res, rest ++ more).
Proof.
  unfold decode. intros H Hres.
  destruct (Nat.ltb_spec (length src) 2); [congruence|].
  rewrite (proj2 (Nat.ltb_ge _ _)) by (rewrite length_app; lia).
  destruct (decode_remaining_length src) as [[[v h]|]|e] eqn:E; [|congruence|].
  2:{ injection H as <- <-. by rewrite (decode_rl_app _ _ _ E). }
  rewrite (decode_rl_app _ _ _ E) by done.
  destruct (_ >? _); [by injection H as <- <-|].
  destruct (Z.ltb_spec (Z.of_nat (length src)) (Z.of_nat h + v)); [congruence|].
  rewrite Z_ltb_false by (rewrite length_app; lia). cbv zeta in *.
  rewrite take_app_le, drop_app_le by lia.
  destruct (decode_packet _ _); by injection H as <- <-.
Qed.

Lemma decode_none self src rest : decode self src = (Ok None, rest) → rest = src.
Proof.
  unfold decode. destruct (_ <? _)%nat; [congruence|].
  destruct (decode_remaining_length src) as [[[v h]|]|e]; try congruence.
  destruct (_ >? _); [congruence|]. destruct (_ <? _); [congruence|]. cbv zeta.
  by destruct (decode_packet _ _).
Qed.

Lemma decode_some self src p rest :
  decode self src = (Ok (Some p), rest) →
  ∃ n, (2 ≤ n ≤ length src)%nat ∧ Z.of_nat n ≤ max_packet_size self ∧ rest = drop n src
       ∧ ∃ h, decode_packet (byte_at (take n src) 0) (drop h (take n src)) = Ok p.
Proof.
  unfold decode. destruct (_ <? _)%nat; [congruence|].
  destruct (decode_remaining_length src) as [[[v h]|]|e] eqn:E; try congruence.
  apply decode_rl_bounds in E.
  destruct (Z.gtb_spec (Z.of_nat h + v) (max_packet_size self)); [congruence|].
  destruct (Z.ltb_spec (Z.of_nat (length src)) (Z.of_nat h + v)); [congruence|]. cbv zeta.
  destruct (decode_packet _ _) eqn:Ed; [|congruence]. intros [= <- <-].
  exists (Z.to_nat (Z.of_nat h + v)). split_and!; [lia..|done|]. by exists h.
Qed.

(** ** Draining a buffer *)

Lemma drain_error fuel self ps e buf :
  drain fuel self (mkStream ps (Some e) buf) = mkStream ps (Some e) buf.
Proof. by destruct fuel. Qed.

Lemma drain_fuel self f1 f2 st :
  (length (str_buf st) < f1)%nat → (length (str_buf st) < f2)%nat →
  drain f1 self st = drain f2 self st.
Proof.
  revert f2 st. induction f1 as [|f1 IH]; intros f2 st H1 H2; [lia|].
  destruct f2 as [|f2]; [lia|]. cbn [drain]. destruct (str_error st); [done|].
  destruct (decode self (str_buf st)) as [[[p|]|e] rest] eqn:E; [|done..].
  apply decode_some in E as (n & Hn & _ & -> & _).
  apply IH; simpl; rewrite length_drop; lia.
Qed.

Lemma drain_done self fuel st st' :
  (length (str_buf st) < fuel)%nat → drain fuel self st = st' → str_error st' = None →
  decode self (str_buf st') = (Ok None, str_buf st').
Proof.
  revert st. induction fuel as [|fuel IH]; intros st Hf; [lia|]. cbn [drain].
  destruct (str_error st) eqn:Ee; [by intros <- ?; congruence|].
  destruct (decode self (str_buf st)) as [[[p|]|e] rest] eqn:E.
  - apply IH. simpl. apply decode_some in E as (n & Hn & _ & -> & _). rewrite length_drop. lia.
  - intros <- _. simpl. by apply decode_none in E as Er; subst.
  - by intros <-.
Qed.

(** More bytes at the end of the buffer. *)
Definition extend (st : Stream) (more : list Z) : Stream :=
  mkStream (str_packets st) (str_error st) (str_buf st ++ more).

Lemma drain_step f self ps buf :
  drain (S f) self (mkStream ps None buf) =
  match decode self buf with
  | (Ok (Some p), rest) => drain f self (mkStream (ps ++ [p]) None rest)
  | (Ok None, rest) => mkStream ps None rest
  | (Err e, rest) => mkStream ps (Some e) rest
  end.
Proof. done. Qed.

Lemma drain_extend self f1 f2 f3 st more :
  (length (str_buf st) < f1)%nat → (length (str_buf st ++ more) < f2)%nat →
  (length (str_buf (drain f1 self st) ++ more) < f3)%nat →
  drain f3 self (extend (drain f1 self st) more) = drain f2 self (extend st more).
Proof.
  revert f2 st. induction f1 as [|f1 IH]; intros f2 [ps [e|] buf] H1 H2; [lia..| |].
  { intros _. rewrite drain_error. unfold extend; simpl. by rewrite !drain_error. }
  cbn [str_buf] in *. rewrite drain_step. destruct f2 as [|f2]; [lia|].
  unfold extend at 2; cbn [str_packets str_error str_buf]. rewrite drain_step.
  destruct (decode self buf) as [[[p|]|e] rest] eqn:E.
  - rewrite (decode_app _ _ more _ _ E) by done.
    apply decode_some in E as (n & Hn & _ & -> & _). rewrite length_app in H2.
    apply (IH f2 (mkStream (ps ++ [p]) None _)); cbn [str_buf];
      rewrite ?length_app, length_drop; lia.
  - apply decode_none in E as Er; subst rest. intros H3. rewrite <- drain_step.
    apply drain_fuel; cbn in *; lia.
  - intros _. rewrite (decode_app _ _ more _ _ E) by done. apply drain_error.
Qed.

Lemma feed_feed self st a b : feed self (feed self st a) b = feed self st (a ++ b).
Proof.
  destruct st as [ps err buf]. unfold feed. cbn [str_buf str_packets str_error].
  rewrite app_assoc. set (st1 := mkStream ps err (buf ++ a)).
  apply (drain_extend self _ _ _ st1 b); subst st1; cbn; lia.
Qed.

Lemma foldl_feed self st chunks :
  foldl (feed self) (feed self st []) chunks = feed self st (concat chunks).
Proof.
  induction chunks as [|c chunks IH] using rev_ind; [done|].
  rewrite foldl_snoc, IH, feed_feed, concat_app. simpl. by rewrite app_nil_r.
Qed.

(** One packet at the head of the buffer. *)
Lemma feed_packet self ps p buf rest :
  decode self buf = (Ok (Some p), rest) →
  feed self (mkStream ps None []) buf = feed self (mkStream (ps ++ [p]) None []) rest.
Proof.
  intros E. unfold feed. cbn [str_buf str_packets str_error app]. rewrite drain_step, E.
  apply decode_some in E as (n & Hn & _ & -> & _).
  apply drain_fuel; simpl; rewrite length_drop; lia.
Qed.

(** The frame does not depend on the buffer it is appended to. *)
Lemma encode_app p dst : encode p dst = (w ← encode p []; Ok (dst ++ w)).
Proof.
  unfold encode. destruct (encode_packet_body p []) as [[[t fl] bd]|]; [|done].
  cbn [mbind result_bind]. destruct (_ >? _); [done|]. cbn [mbind result_bind].
  rewrite !encode_remaining_length_app. cbn [app]. by rewrite <- !app_assoc.
Qed.

(** The frames of a list of packets, one after the other. *)
Lemma encode_all_frames self ps dst wire :
  forallb wf_packet ps = true →
  (∀ p w, p ∈ ps → encode p [] = Ok w → Z.of_nat (length w) ≤ max_packet_size self) →
  encode_all ps dst = Ok wire →
  ∃ frames, wire = dst ++ concat frames
    ∧ Forall2 (λ p f, ∀ rest, decode self (f ++ rest) = (Ok (Some p), rest)) ps frames.
Proof.
  revert dst. induction ps as [|p ps IH]; intros dst Hwf Hmax; cbn [encode_all].
  { intros [= <-]. exists []. cbn [concat]. split; [by rewrite app_nil_r|constructor]. }
  cbn [forallb] in Hwf. apply andb_prop in Hwf as [Hp Hps].
  destruct (encode_frame p [] Hp) as (first & body & Hd & He).
  rewrite encode_app. destruct (encode p []) as [w|] eqn:Ew; [|done]. cbn [mbind result_bind].
  intros Hall. apply IH in Hall as (frames & -> & HF); [|done|].
  2:{ intros q u Hq. apply Hmax. by right. }
  exists (w :: frames). rewrite <- app_assoc. split; [done|]. constructor; [|done].
  intros rest. specialize (Hmax p w ltac:(left) Ew).
  destruct (Z.gtb_spec (Z.of_nat (length body)) 0x0FFFFFFF); [done|].
  injection He as ->. rewrite decode_frame by lia. by rewrite Hd.
Qed.

Lemma feed_frames self ps0 ps frames :
  Forall2 (λ p f, ∀ rest, decode self (f ++ rest) = (Ok (Some p), rest)) ps frames →
  feed self (mkStream ps0 None []) (concat frames) = mkStream (ps0 ++ ps) None [].
Proof.
  intros HF. revert ps0. induction HF as [|p f ps frames Hp _ IH]; intros ps0.
  - by rewrite app_nil_r.
  - cbn [concat]. rewrite (feed_packet _ _ _ _ _ (Hp _)), IH. by rewrite <- app_assoc.
Qed.

(** ** Theorems *)

(** C9: round trip through the wire format.  For every well-formed packet
    [encode] either appends one frame to the buffer, or reports that the body
    exceeds the 28-bit length field; and from a frame that is not longer than the
    decoder's [max_packet_size] (which [encode] does not look at) [decode] gives the
    packet back and leaves the bytes that follow untouched. *)
Theorem codec_roundtrip self p dst :
  wf_packet p = true →
  match encode p dst with
  | Ok out =>
      ∃ frame, out = dst ++ frame ∧
        (Z.of_nat (length frame) ≤ max_packet_size self →
         ∀ rest, decode self (frame ++ rest) = (Ok (Some p), rest))
  | Err e => ∃ n, e = CodecError.InvalidRemainingLength n ∧ 0x0FFFFFFF < n
  end.
Proof.
  intros Hwf. destruct (encode_frame p dst Hwf) as (first & body & Hd & ->).
  destruct (Z.gtb_spec (Z.of_nat (length body)) 0x0FFFFFFF); [eauto|].
  exists (frame_of first body). split; [done|]. intros Hm rest.
  rewrite decode_frame by done. by rewrite Hd.
Qed.

Definition sample_connect : Packet :=
  PConnect (mkConnect 5 60 "dev" true
              (Some (mkLastWill "t" [1; 2] QoS.AtLeastOnce true))
              (Some "u"%string) (Some [7]) (Some (mkConnectProperties (Some 3600)))).
Definition sample_publish : Packet :=
  PPublish (mkPublish true QoS.ExactlyOnce false "a/b" (Some 258) [104; 105]).

Lemma codec_roundtrip_witness :
  wf_packet sample_connect = true ∧
  match encode sample_connect [0] with
  | Ok out =>
      ∃ frame, out = [0] ++ frame ∧
        (Z.of_nat (length frame) ≤ max_packet_size MqttCodec_default →
         ∀ rest, decode MqttCodec_default (frame ++ rest) = (Ok (Some sample_connect), rest))
  | Err e => ∃ n, e = CodecError.InvalidRemainingLength n ∧ 0x0FFFFFFF < n
  end.
Proof. split; [reflexivity|]. apply codec_roundtrip. reflexivity. Defined.

(** C30: type soundness of [decode].  Whatever bytes arrive, a decoded packet is
    well formed: strings are UTF-8 and at most 65535 bytes, packet identifiers
    are non-zero [u16]s and are present exactly for QoS 1 and 2, SUBSCRIBE and
    UNSUBSCRIBE carry a topic; the bytes consumed are a frame of at most
    [max_packet_size], and the rest is a suffix of the input. *)
Theorem decode_wf self src p rest :
  is_bytes src = true → decode self src = (Ok (Some p), rest) →
  wf_packet p = true ∧ ∃ frame, src = frame ++ rest ∧
    2 ≤ Z.of_nat (length frame) ≤ max_packet_size self.
Proof.
  intros Hb (n & Hn & Hm & -> & h & Hd)%decode_some. split.
  - eapply decode_packet_wf; [|done]. by apply is_bytes_drop, is_bytes_take.
  - exists (take n src). rewrite take_drop, length_take. split; [done|lia].
Qed.

Lemma decode_wf_witness :
  wf_packet (PPuback 258) = true ∧ ∃ frame, [64; 2; 1; 2; 9] = frame ++ [9] ∧
    2 ≤ Z.of_nat (length frame) ≤ max_packet_size MqttCodec_default.
Proof. apply decode_wf; vm_compute; reflexivity. Defined.

(** Framing does not depend on how the stream is cut.  Feeding the chunks
    of a byte stream one by one delivers the same packets, the same error and
    the same unread bytes as feeding their concatenation. *)
Theorem stream_chunking self chunks :
  foldl (feed self) stream_new chunks = feed self stream_new (concat chunks).
Proof. apply (foldl_feed self stream_new). Qed.

(** C29: end to end over a stream.  Well-formed packets encoded one after the
    other into a buffer, each of them without error and in a frame not longer than
    the receiver's [max_packet_size], and received in chunks of any size are
    delivered exactly, in order, with no error and no byte left over. *)
Theorem stream_roundtrip self ps wire chunks :
  forallb wf_packet ps = true →
  (∀ p w, p ∈ ps → encode p [] = Ok w → Z.of_nat (length w) ≤ max_packet_size self) →
  encode_all ps [] = Ok wire → concat chunks = wire →
  foldl (feed self) stream_new chunks = mkStream ps None [].
Proof.
  intros Hwf Hmax Hall <-.
  destruct (encode_all_frames self ps [] _ Hwf Hmax Hall) as (frames & Heq & HF).
  rewrite (foldl_feed self stream_new). cbn [app] in Heq. rewrite Heq. by apply (feed_frames self []).
Qed.

Lemma stream_roundtrip_witness :
  foldl (feed MqttCodec_default) stream_new
    [[192]; []; [0; 64; 2; 1]; [2]] = mkStream [PPingreq; PPuback 258] None [].
Proof.
  apply stream_roundtrip with (wire := [192; 0; 64; 2; 1; 2]).
  - reflexivity.
  - intros p w Hp. apply elem_of_cons in Hp as [-> | ->%list_elem_of_singleton];
      intros E; vm_compute in E; injection E as <-; vm_compute; discriminate.
  - reflexivity.
  - reflexivity.
Defined.

(** Progress and stability of [decode].  [Ok None] leaves the buffer as it
    is; any other answer is final (more input changes only the bytes left
    over), and a packet consumes at least two bytes, so that the transport loop
    terminates: after it, the buffer holds no whole packet or the stream has
    failed. *)
Theorem decode_progress self src :
  let '(res, rest) := decode self src in
  match res with
  | Ok None => rest = src
  | Ok (Some _) => (length rest + 2 ≤ length src)%nat
  | Err _ => True
  end ∧
  (res ≠ Ok None → ∀ more, decode self (src ++ more) = (res, rest ++ more)) ∧
  (∀ ps, let st := feed self (mkStream ps None []) src in
         str_error st = None → decode self (str_buf st) = (Ok None, str_buf st)).
Proof.
  destruct (decode self src) as [res rest] eqn:E. split_and!.
  - destruct res as [[p|]|e]; [|by eapply decode_none|done].
    apply decode_some in E as (n & Hn & _ & -> & _). rewrite length_drop. lia.
  - intros Hres more. by apply decode_app.
  - intros ps st. eapply drain_done; [|done]. simpl. lia.
Qed.

(** the length field.  An accepted remaining length fits 28 bits and its
    header takes two to five bytes of the buffer; the encoder's bytes are read
    back as the value, whatever follows. *)
Theorem remaining_length_bounds src v h :
  decode_remaining_length src = Ok (Some (v, h)) →
  0 ≤ v ≤ 0x0FFFFFFF ∧ (2 ≤ h ≤ 5)%nat ∧ (h ≤ length src)%nat ∧
  ∀ first rest, ∃ h', decode_remaining_length
    (encode_remaining_length v [first] ++ rest) = Ok (Some (v, h')).
Proof.
  intros (Hv & Hh & Hl)%decode_rl_bounds. split_and!; [lia..|].
  intros first rest. rewrite encode_remaining_length_app, <- app_assoc.
  eexists. by apply decode_remaining_length_vbi.
Qed.

Lemma remaining_length_bounds_witness :
  0 ≤ 321 ≤ 0x0FFFFFFF ∧ (2 ≤ 3 ≤ 5)%nat ∧ (3 ≤ 4)%nat ∧
  ∀ first rest, ∃ h', decode_remaining_length
    (encode_remaining_length 321 [first] ++ rest) = Ok (Some (321, h')).
Proof. apply (remaining_length_bounds [48; 193; 2; 7]). reflexivity. Defined.

(** the parsing loops finish.  With the fuel the decoders give them, the
    item loop of SUBSCRIBE, SUBACK and UNSUBSCRIBE stops only when the body is
    exhausted, and the MQTT 5 property loop only at or after the end of the
    section. *)
Theorem parse_loops_exit r :
  reader_ok r →
  (∀ l r', read_to_end read_subscribe_topic (remaining r) [] r = Ok (l, r') → remaining r' = 0%nat)
  ∧ (∀ l r', read_to_end read_u8 (remaining r) [] r = Ok (l, r') → remaining r' = 0%nat)
  ∧ (∀ l r', read_to_end read_string (remaining r) [] r = Ok (l, r') → remaining r' = 0%nat)
  ∧ (∀ n p r', parse_connect_properties n r = Ok (p, r') → (pos r + n ≤ pos r')%nat).
Proof.
  intros Hr. split_and!; intros *.
  - eapply read_to_end_exit; [apply hoare_subscribe_topic| |done..].
    eapply progress_bind; [apply hoare_string..|]. intros s _. cbv beta.
    eapply (hoare_bind _ _ (λ _, True)); [by eapply hoare_weaken, hoare_u8|]. intros.
    eapply (hoare_bind _ _ (λ _, True)); [by apply hoare_lift|]. intros.
    by apply (hoare_ret _ (λ _, True)).
  - eapply read_to_end_exit; [apply hoare_u8..|done|done].
  - eapply read_to_end_exit; [apply hoare_string..|done|done].
  - unfold parse_connect_properties. destruct (Nat.eqb_spec n 0) as [->|_].
    + intros [= <- <-]. lia.
    + apply properties_loop_exit; [done..|lia].
Qed.

Lemma parse_loops_exit_witness :
  read_to_end read_u8 3 [] (mkReader [9; 0; 1; 128] 1) = Ok ([0; 1; 128], mkReader [9; 0; 1; 128] 4)
  ∧ remaining (mkReader [9; 0; 1; 128] 4) = 0%nat.
Proof.
  assert (Hr : reader_ok (mkReader [9; 0; 1; 128] 1)) by (split; [reflexivity|simpl; lia]).
  split; [reflexivity|].
  apply (proj1 (proj2 (parse_loops_exit _ Hr)) [0; 1; 128]). reflexivity.
Defined.

(** A property whose value runs past the declared section is accepted: the
    reader ends after [end], inside the fields that follow. *)
Lemma properties_overrun :
  ∃ p r', parse_connect_properties 2 (mkReader [31; 0; 0; 3; 97; 98; 99] 0) = Ok (p, r')
    ∧ (2 < pos r')%nat.
Proof. eexists _, _. split; [vm_compute; reflexivity|]. simpl. lia. Qed.
