(* ===== verification/Subscription.v ===== *)
(** * The subscription tree, [src/broker/subscription.rs]

    A trie of filter segments with [+] and [#] children, a reverse index from
    clients to their subscriptions, and the shared groups with their round-robin
    counters.  The three locks of the source are taken one after the other by
    every operation; an operation is a function on the three tables.

    A Rust [HashMap] is a [gmap]; where the source iterates over one, the model
    iterates over [map_to_list], one of the orders the source may take, and the
    theorems do not depend on it. *)

From stdpp Require Import sorting.
From S2P Require Import Prelude Packet.

(** Ordering of Rust strings: [str::cmp] is lexicographic on bytes. *)
Definition str_le (a b : string) : Prop := String.leb a b = true.

Definition SHARE_PREFIX : string := "$share".

(** ** Data *)

Inductive Node := mkNode {
  children : gmap string Node;
  plus_child : option Node;
  hash_child : option Node;
  subscribers : gmap string QoS;
}.

Definition Node_default : Node := mkNode ∅ None None ∅.

#[export] Instance Node_settable : Settable Node :=
  λ n, mkNode (children n) (plus_child n) (hash_child n) (subscribers n).

Record SharedEntry := mkSharedEntry {
  members : gmap string QoS;
  rr_counter : Z;
}.

#[export] Instance SharedEntry_settable : Settable SharedEntry :=
  λ e, mkSharedEntry (members e) (rr_counter e).

Definition SharedEntry_default : SharedEntry := mkSharedEntry ∅ 0.

Record SubscriptionTree := mkSubscriptionTree {
  root : Node;
  reverse : gmap string (list (string * QoS));
  shared : gmap (string * string) SharedEntry;
}.

#[export] Instance SubscriptionTree_settable : Settable SubscriptionTree :=
  λ t, mkSubscriptionTree (root t) (reverse t) (shared t).

Definition SubscriptionTree_new : SubscriptionTree :=
  mkSubscriptionTree Node_default ∅ ∅.

(** ** Filters *)

(** [s.splitn(n, c).collect()] *)
Fixpoint str_splitn (n : nat) (c : Ascii.ascii) (s : string) : list string :=
  match n with
  | O => []
  | S O => [s]
  | S n =>
      match str_split_once c s with
      | Some (a, b) => a :: str_splitn n c b
      | None => [s]
      end
  end.

Definition parse_shared_filter (filter : string) : option (string * string) :=
  match str_splitn 3 slash filter with
  | [seg0; seg1; seg2] =>
      if bool_decide (seg0 = SHARE_PREFIX) && negb (str_is_empty seg1)
      then Some (seg1, seg2) else None
  | _ => None
  end.

(** The loop of [validate_filter]: [i] is the index of the segment, [count] the
    number of segments. *)
Fixpoint validate_segs (filter : string) (segs : list string) (i count : nat)
    : BrokerResult unit :=
  match segs with
  | [] => Ok tt
  | seg :: segs =>
      if str_contains "#"%char seg && negb (bool_decide (seg = "#"%string)) then
        Err (BrokerError.InvalidTopic ("invalid '#' in filter '" +:+ filter +:+ "'"))
      else if bool_decide (seg = "#"%string) && negb (i =? count - 1)%nat then
        Err (BrokerError.InvalidTopic ("'#' must be last level in '" +:+ filter +:+ "'"))
      else if str_contains "+"%char seg && negb (bool_decide (seg = "+"%string)) then
        Err (BrokerError.InvalidTopic ("invalid '+' in filter '" +:+ filter +:+ "'"))
      else validate_segs filter segs (S i) count
  end.

Definition validate_filter (filter : string) : BrokerResult unit :=
  if str_is_empty filter then Err (BrokerError.InvalidTopic "empty topic filter")
  else validate_segs filter (str_split slash filter) 0 (length (str_split slash filter)).

(** The loop of [topic_matches_filter]: [ts] and [fs] are the segments from
    [ti] and [fi] on. *)
Fixpoint match_segs (ts fs : list string) : bool :=
  match ts, fs with
  | t :: ts', f :: fs' =>
      if bool_decide (f = "#"%string) then true
      else if bool_decide (f = "+"%string) || bool_decide (f = t) then match_segs ts' fs'
      else false
  | [], [] => true
  | [], [f] => bool_decide (f = "#"%string)
  | _, _ => false
  end.

Definition topic_matches_filter (topic filter : string) : bool :=
  if str_is_empty topic || str_is_empty filter then false
  else match_segs (str_split slash topic) (str_split slash filter).

(** ** The trie *)

(** [child_for_segment_mut]: the mutable borrow of the child, created when
    absent, is the function [k] applied to it. *)
Definition child_for_segment_mut (node : Node) (seg : string) (k : Node → Node) : Node :=
  if bool_decide (seg = "+"%string) then
    node <| plus_child := Some (k (default Node_default (plus_child node))) |>
  else if bool_decide (seg = "#"%string) then
    node <| hash_child := Some (k (default Node_default (hash_child node))) |>
  else
    node <| children ::= <[seg := k (default Node_default (children node !! seg))]> |>.

(** The descent of [subscribe] and its insertion at the last node. *)
Fixpoint insert_path (segments : list string) (client_id : string) (qos : QoS)
    (node : Node) : Node :=
  match segments with
  | [] => node <| subscribers ::= <[client_id := qos]> |>
  | seg :: segments =>
      child_for_segment_mut node seg (insert_path segments client_id qos)
  end.

(** Pushing the subscribers of a node to the output vector. *)
Definition push_subscribers (subs : gmap string QoS) (out : list (string * QoS))
    : list (string * QoS) := out ++ map_to_list subs.

Fixpoint collect_matches (node : Node) (segs : list string) (out : list (string * QoS))
    : list (string * QoS) :=
  let out := match hash_child node with
             | Some hash => push_subscribers (subscribers hash) out
             | None => out
             end in
  match segs with
  | [] => push_subscribers (subscribers node) out
  | seg :: segs =>
      let out := match children node !! seg with
                 | Some child => collect_matches child segs out
                 | None => out
                 end in
      match plus_child node with
      | Some plus => collect_matches plus segs out
      | None => out
      end
  end.

Definition node_is_empty (node : Node) : bool :=
  bool_decide (subscribers node = ∅)
  && bool_decide (dom (children node) = ∅)
  && match plus_child node with None => true | Some _ => false end
  && match hash_child node with None => true | Some _ => false end.

(** [remove_recursive]: whether a subscriber was removed, and the node left. *)
Fixpoint remove_recursive (node : Node) (segs : list string) (client_id : string)
    : bool * Node :=
  match segs with
  | [] => (bool_decide (is_Some (subscribers node !! client_id)),
           node <| subscribers ::= delete client_id |>)
  | seg :: segs =>
      if bool_decide (seg = "+"%string) then
        match plus_child node with
        | None => (false, node)
        | Some c =>
            let '(removed, c) := remove_recursive c segs client_id in
            (removed, node <| plus_child :=
               if removed && node_is_empty c then None else Some c |>)
        end
      else if bool_decide (seg = "#"%string) then
        match hash_child node with
        | None => (false, node)
        | Some c =>
            let '(removed, c) := remove_recursive c segs client_id in
            (removed, node <| hash_child :=
               if removed && node_is_empty c then None else Some c |>)
        end
      else
        match children node !! seg with
        | None => (false, node)
        | Some c =>
            let '(removed, c) := remove_recursive c segs client_id in
            let should_prune := removed && node_is_empty c in
            (removed, node <| children ::=
               if should_prune then delete seg else <[seg := c]> |>)
        end
  end.

Fixpoint remove_all (node : Node) (client_id : string) : Node :=
  mkNode ((λ c, remove_all c client_id) <$> children node)
         ((λ c, remove_all c client_id) <$> plus_child node)
         ((λ c, remove_all c client_id) <$> hash_child node)
         (delete client_id (subscribers node)).

Fixpoint count_subscribers (node : Node) : nat :=
  let n := size (subscribers node) in
  let n := map_fold (λ _ c n, (n + count_subscribers c)%nat) n (children node) in
  let n := match plus_child node with
           | Some c => (n + count_subscribers c)%nat
           | None => n
           end in
  match hash_child node with
  | Some c => (n + count_subscribers c)%nat
  | None => n
  end.

(** ** The reverse index *)

(** [if let Some(slot) = list.iter_mut().find(|(f, _)| f == filter)
    { slot.1 = qos } else { list.push((filter, qos)) }] *)
Fixpoint set_or_push (list : list (string * QoS)) (filter : string) (qos : QoS)
    : List.list (string * QoS) :=
  match list with
  | [] => [(filter, qos)]
  | (f, q) :: list =>
      if bool_decide (f = filter) then (f, qos) :: list
      else (f, q) :: set_or_push list filter qos
  end.

Definition reverse_add (rev : gmap string (list (string * QoS)))
    (client_id filter : string) (qos : QoS) : gmap string (list (string * QoS)) :=
  <[client_id := set_or_push (default [] (rev !! client_id)) filter qos]> rev.

Definition reverse_remove (rev : gmap string (list (string * QoS)))
    (client_id filter : string) : gmap string (list (string * QoS)) :=
  match rev !! client_id with
  | Some list =>
      let list := List.filter (λ e, negb (bool_decide (e.1 = filter))) list in
      match list with
      | [] => delete client_id rev
      | _ => <[client_id := list]> rev
      end
  | None => rev
  end.

(** ** [SubscriptionTree] *)

(** An error leaves the tree as it is. *)
Definition subscribe (self : SubscriptionTree) (client_id filter : string) (qos : QoS)
    : BrokerResult SubscriptionTree :=
  match parse_shared_filter filter with
  | Some (group, real_filter) =>
      _ ← validate_filter real_filter;
      let entry := default SharedEntry_default (shared self !! (group, real_filter)) in
      let entry := entry <| members ::= <[client_id := qos]> |> in
      let self := self <| shared ::= <[(group, real_filter) := entry]> |> in
      Ok (self <| reverse ::= λ rev, reverse_add rev client_id filter qos |>)
  | None =>
      _ ← validate_filter filter;
      let segments := str_split slash filter in
      let self := self <| root ::= insert_path segments client_id qos |> in
      Ok (self <| reverse ::= λ rev, reverse_add rev client_id filter qos |>)
  end.

(** [unsubscribe] always answers [Ok(removed)]. *)
Definition unsubscribe (self : SubscriptionTree) (client_id filter : string)
    : bool * SubscriptionTree :=
  let finish (removed : bool) (self : SubscriptionTree) :=
    (removed, if removed
              then self <| reverse ::= λ rev, reverse_remove rev client_id filter |>
              else self) in
  match parse_shared_filter filter with
  | Some (group, real_filter) =>
      match shared self !! (group, real_filter) with
      | Some entry =>
          let removed := bool_decide (is_Some (members entry !! client_id)) in
          let entry := entry <| members ::= delete client_id |> in
          finish removed
            (self <| shared ::= if removed && bool_decide (members entry = ∅)
                                then delete (group, real_filter)
                                else <[(group, real_filter) := entry]> |>)
      | None => finish false self
      end
  | None =>
      let segments := str_split slash filter in
      let '(removed, root') := remove_recursive (root self) segments client_id in
      finish removed (self <| root := root' |>)
  end.

(** One key of the second phase of [unsubscribe_all]. *)
Definition remove_shared_member (client_id : string)
    (shared : gmap (string * string) SharedEntry) (k : string * string)
    : gmap (string * string) SharedEntry :=
  match shared !! k with
  | Some entry =>
      let entry := entry <| members ::= delete client_id |> in
      if bool_decide (members entry = ∅) then delete k shared else <[k := entry]> shared
  | None => shared
  end.

Definition shared_keys (client_id : string) (shared : gmap (string * string) SharedEntry)
    : list (string * string) :=
  omap (λ ke : (string * string) * SharedEntry,
          if bool_decide (is_Some (members ke.2 !! client_id)) then Some ke.1 else None)
       (map_to_list shared).

Definition unsubscribe_all (self : SubscriptionTree) (client_id : string)
    : SubscriptionTree :=
  let self := self <| root ::= λ r, remove_all r client_id |> in
  let self := self <| shared ::= λ sh,
                foldl (remove_shared_member client_id) sh (shared_keys client_id sh) |> in
  self <| reverse ::= delete client_id |>.

(** The de-duplication of [matches]: the largest QoS of each client. *)
Definition best_insert (best : gmap string QoS) (e : string * QoS) : gmap string QoS :=
  match best !! e.1 with
  | Some q => if QoS.ltb q e.2 then <[e.1 := e.2]> best else best
  | None => <[e.1 := e.2]> best
  end.

Definition matches (self : SubscriptionTree) (topic : string) : list (string * QoS) :=
  if str_is_empty topic then []
  else
    let segments := str_split slash topic in
    let out := collect_matches (root self) segments [] in
    let best := foldl best_insert ∅ out in
    map_to_list best.

(** [members.sort_by(|a, b| a.0.cmp(b.0))] on the members of a group. *)
Definition key_le (a b : string * QoS) : Prop := str_le a.1 b.1.
#[export] Instance key_le_dec : RelDecision key_le.
Proof. intros a b. unfold key_le, str_le. apply _. Defined.

Definition sorted_members (e : SharedEntry) : list (string * QoS) :=
  merge_sort key_le (map_to_list (members e)).

(** The member a group selects for its counter value, and the counter after
    the [fetch_add]. *)
Definition select_member (e : SharedEntry) : option (string * QoS) :=
  let ms := sorted_members e in
  let counter := rr_counter e in
  ms !! Z.to_nat (counter mod Z.of_nat (length ms)).

Definition bump_counter (e : SharedEntry) : SharedEntry :=
  e <| rr_counter ::= λ c, wrap_u64 (c + 1) |>.

(** One iteration of the loop over the groups. *)
Definition shared_step (topic : string)
    (st : gmap (string * string) SharedEntry * list (string * QoS))
    (ke : (string * string) * SharedEntry)
    : gmap (string * string) SharedEntry * list (string * QoS) :=
  let '(sh, selected) := st in
  let '((group, filter), entry) := ke in
  if negb (topic_matches_filter topic filter) then st
  else if bool_decide (members entry = ∅) then st
  else (<[(group, filter) := bump_counter entry]> sh,
        match select_member entry with
        | Some m => selected ++ [m]
        | None => selected
        end).

Definition matches_shared (self : SubscriptionTree) (topic : string)
    : SubscriptionTree * list (string * QoS) :=
  if str_is_empty topic then (self, [])
  else
    let '(sh, selected) :=
      foldl (shared_step topic) (shared self, []) (map_to_list (shared self)) in
    (self <| shared := sh |>, selected).

Definition shared_count (sh : gmap (string * string) SharedEntry) : nat :=
  map_fold (λ _ e n, (n + size (members e))%nat) 0%nat sh.

Definition subscriber_count (self : SubscriptionTree) : nat :=
  (count_subscribers (root self) + shared_count (shared self))%nat.

Definition subscription_counts (self : SubscriptionTree) : nat * nat :=
  (count_subscribers (root self), shared_count (shared self)).

Definition subscriptions_of (self : SubscriptionTree) (client_id : string)
    : list (string * QoS) :=
  default [] (reverse self !! client_id).
