(* ===== verification/SubscriptionProofs.v ===== *)
(** * The subscription tree: correctness

    The trie, the reverse index and the shared table implement one abstract
    table from (client, filter) to QoS: [sub_lookup] reads it off the tree,
    [tree_inv] is the invariant that ties the three tables together, and the
    theorems say that every operation is the corresponding update of the
    abstract table and that topic matching is a query on it. *)

From stdpp Require Import sorting.
From S2P Require Import Prelude Packet Subscription.

(** ** The abstract table *)

Definition get_child (node : Node) (seg : string) : option Node :=
  if bool_decide (seg = "+"%string) then plus_child node
  else if bool_decide (seg = "#"%string) then hash_child node
  else children node !! seg.

(** The subscribers stored at a path of segments. *)
Fixpoint sub_at (node : Node) (segs : list string) : gmap string QoS :=
  match segs with
  | [] => subscribers node
  | seg :: segs =>
      match get_child node seg with Some c => sub_at c segs | None => ∅ end
  end.

Definition sub_lookup (t : SubscriptionTree) (c f : string) : option QoS :=
  match parse_shared_filter f with
  | Some k => e ← shared t !! k; members e !! c
  | None => sub_at (root t) (str_split slash f) !! c
  end.

(** The abstract specification of the component: a table and its commands. *)
Inductive SubCmd :=
  | CSubscribe (client filter : string) (qos : QoS)
  | CUnsubscribe (client filter : string)
  | CUnsubscribeAll (client : string).

Inductive SubResp := RSubscribed (r : BrokerResult unit) | RRemoved (b : bool) | RDone.

Abbreviation SubTable := (gmap (string * string) QoS).

(** The error of [subscribe]: that of the filter without its share prefix. *)
Definition filter_error (f : string) : BrokerResult unit :=
  match parse_shared_filter f with
  | Some (_, rf) => validate_filter rf
  | None => validate_filter f
  end.

Definition spec_step (m : SubTable) (cmd : SubCmd) : SubTable * SubResp :=
  match cmd with
  | CSubscribe c f q =>
      match filter_error f with
      | Ok _ => (<[(c, f) := q]> m, RSubscribed (Ok tt))
      | Err e => (m, RSubscribed (Err e))
      end
  | CUnsubscribe c f =>
      (delete (c, f) m, RRemoved (bool_decide (is_Some (m !! (c, f)))))
  | CUnsubscribeAll c => (filter (λ kv, kv.1.1 ≠ c) m, RDone)
  end.

Definition tree_step (t : SubscriptionTree) (cmd : SubCmd) : SubscriptionTree * SubResp :=
  match cmd with
  | CSubscribe c f q =>
      match subscribe t c f q with
      | Ok t => (t, RSubscribed (Ok tt))
      | Err e => (t, RSubscribed (Err e))
      end
  | CUnsubscribe c f => let '(b, t) := unsubscribe t c f in (t, RRemoved b)
  | CUnsubscribeAll c => (unsubscribe_all t c, RDone)
  end.

(** Running a sequence of commands, with the responses. *)
Fixpoint run {S} (step : S → SubCmd → S * SubResp) (s : S) (cmds : list SubCmd)
    : S * list SubResp :=
  match cmds with
  | [] => (s, [])
  | cmd :: cmds =>
      let '(s, r) := step s cmd in
      let '(s, rs) := run step s cmds in (s, r :: rs)
  end.

(** ** Well-formed tries: no wildcard among the named children *)

Inductive node_wf : Node → Prop :=
  | node_wf_intro node :
      children node !! "+"%string = None → children node !! "#"%string = None →
      (∀ seg c, get_child node seg = Some c → node_wf c) → node_wf node.

(** [#] only as the last segment. *)
Fixpoint hash_last (fs : list string) : bool :=
  match fs with
  | [] => true
  | f :: fs => (negb (bool_decide (f = "#"%string)) || bool_decide (fs = [])) && hash_last fs
  end.

(** Matching, with [#] only in the last place: the relation the trie walks. *)
Fixpoint fmatch (ts fs : list string) : bool :=
  match fs with
  | [] => bool_decide (ts = [])
  | f :: fs =>
      if bool_decide (f = "#"%string) then bool_decide (fs = [])
      else match ts with
           | [] => false
           | t :: ts => (bool_decide (f = "+"%string) || bool_decide (f = t)) && fmatch ts fs
           end
  end.

(** The reverse index lists exactly the entries of a table, once each. *)
Definition index_inv (rev : gmap string (list (string * QoS)))
    (look : string → string → option QoS) : Prop :=
  (∀ c f q, (f, q) ∈ default [] (rev !! c) ↔ look c f = Some q)
  ∧ (∀ c, NoDup (default [] (rev !! c)).*1)
  ∧ (∀ c, rev !! c ≠ Some []).

Record tree_inv (t : SubscriptionTree) : Prop := {
  inv_wf : node_wf (root t);
  inv_paths segs c q : sub_at (root t) segs !! c = Some q →
    ∃ f, segs = str_split slash f ∧ validate_filter f = Ok tt ∧ parse_shared_filter f = None;
  inv_shared g rf e : shared t !! (g, rf) = Some e →
    members e ≠ ∅ ∧ validate_filter rf = Ok tt ∧ 0 ≤ rr_counter e < u64_mod ∧
    ∃ f, parse_shared_filter f = Some (g, rf);
  inv_index : index_inv (reverse t) (sub_lookup t);
}.

(** ** The trie as a map from paths *)

Definition set_child (node : Node) (seg : string) (o : option Node) : Node :=
  if bool_decide (seg = "+"%string) then node <| plus_child := o |>
  else if bool_decide (seg = "#"%string) then node <| hash_child := o |>
  else node <| children ::= match o with Some c => <[seg := c]> | None => delete seg end |>.

Ltac seg_cases :=
  repeat match goal with
  | |- context [bool_decide (?s = ?l)] => destruct (bool_decide_reflect (s = l))
  | H : context [bool_decide (?s = ?l)] |- _ => destruct (bool_decide_reflect (s = l))
  end.

Lemma get_set_child node seg o seg' :
  get_child (set_child node seg o) seg' = if decide (seg' = seg) then o else get_child node seg'.
Proof.
  unfold get_child, set_child. destruct (decide (seg' = seg)) as [->|Hne].
  - seg_cases; try done. simpl. destruct o; by simplify_map_eq.
  - seg_cases; try done; try congruence; simpl; destruct o; by simplify_map_eq.
Qed.

Lemma subscribers_set_child node seg o : subscribers (set_child node seg o) = subscribers node.
Proof. unfold set_child. by seg_cases. Qed.

Lemma child_for_segment_mut_set node seg k :
  child_for_segment_mut node seg k
  = set_child node seg (Some (k (default Node_default (get_child node seg)))).
Proof. unfold child_for_segment_mut, set_child, get_child. by seg_cases. Qed.

Lemma remove_recursive_cons node seg segs c :
  remove_recursive node (seg :: segs) c =
  match get_child node seg with
  | None => (false, node)
  | Some ch =>
      let '(r, ch) := remove_recursive ch segs c in
      (r, set_child node seg (if r && node_is_empty ch then None else Some ch))
  end.
Proof.
  unfold get_child, set_child. cbn [remove_recursive]. seg_cases; [done..|].
  destruct (children node !! seg) as [ch|]; [|done].
  destruct (remove_recursive ch segs c) as [r ch']. by destruct (r && node_is_empty ch').
Qed.

Lemma sub_at_default segs : sub_at Node_default segs = ∅.
Proof. destruct segs as [|seg segs]; [done|]. simpl. unfold get_child. by seg_cases. Qed.

Lemma sub_at_child node seg segs :
  sub_at node (seg :: segs) = sub_at (default Node_default (get_child node seg)) segs.
Proof. simpl. destruct (get_child node seg); [done|]. symmetry. apply sub_at_default. Qed.

Lemma sub_at_set_child node seg o seg' segs :
  sub_at (set_child node seg o) (seg' :: segs) =
  if decide (seg' = seg) then sub_at (default Node_default o) segs
  else sub_at node (seg' :: segs).
Proof. rewrite !sub_at_child, get_set_child. by destruct (decide (seg' = seg)). Qed.

Lemma sub_at_insert_path segs c q node segs' :
  sub_at (insert_path segs c q node) segs' =
  if decide (segs' = segs) then <[c := q]> (sub_at node segs) else sub_at node segs'.
Proof.
  revert node segs'. induction segs as [|seg segs IH]; intros node segs'; cbn [insert_path].
  - by destruct segs'.
  - rewrite child_for_segment_mut_set. destruct segs' as [|seg' segs'].
    { cbn [sub_at]. by rewrite subscribers_set_child. }
    rewrite sub_at_set_child. cbn [from_option id]. destruct (decide (seg' = seg)) as [->|Hne].
    + rewrite IH, <- !sub_at_child. destruct (decide (segs' = segs)) as [->|Hne].
      * by rewrite decide_True.
      * by rewrite decide_False by congruence.
    + rewrite decide_False by congruence. done.
Qed.

Lemma node_is_empty_sub_at node segs : node_is_empty node = true → sub_at node segs = ∅.
Proof.
  unfold node_is_empty. intros H. destruct_andb.
  repeat match goal with H : bool_decide _ = true |- _ => apply bool_decide_eq_true in H end.
  destruct segs as [|seg segs]; [done|]. simpl.
  enough (get_child node seg = None) as -> by done.
  unfold get_child. destruct (plus_child node), (hash_child node); try done. seg_cases; try done.
  apply not_elem_of_dom. set_solver.
Qed.

Lemma remove_recursive_spec segs node c r node' :
  remove_recursive node segs c = (r, node') →
  r = bool_decide (is_Some (sub_at node segs !! c)) ∧
  ∀ segs', sub_at node' segs' =
    if decide (segs' = segs) then delete c (sub_at node segs) else sub_at node segs'.
Proof.
  revert node r node'. induction segs as [|seg segs IH]; intros node r node'.
  - cbn [remove_recursive]. intros [= <- <-]. split; [done|]. by intros [|seg' segs'].
  - rewrite remove_recursive_cons. cbn [sub_at]. destruct (get_child node seg) as [ch|] eqn:Ech.
    2:{ intros [= <- <-]. split; [done|]. intros segs'.
        destruct (decide (segs' = seg :: segs)) as [->|]; [|done].
        rewrite sub_at_child, Ech. cbn [from_option id]. by rewrite sub_at_default, delete_empty. }
    destruct (remove_recursive ch segs c) as [r' ch'] eqn:E. intros [= <- <-].
    apply IH in E as [-> Hch]. split; [done|].
    set (o := if _ && _ then None else _).
    assert (Ho : ∀ segs', sub_at (default Node_default o) segs' = sub_at ch' segs').
    { intros segs'. subst o. destruct (_ && node_is_empty ch') eqn:Ee; [|done].
      apply andb_prop in Ee as [_ Ee]. cbn [from_option].
      by rewrite sub_at_default, node_is_empty_sub_at. }
    clearbody o. intros [|seg' segs'].
    { cbn [sub_at]. by rewrite subscribers_set_child. }
    rewrite sub_at_set_child, Ho, Hch. destruct (decide (seg' = seg)) as [->|Hne].
    + rewrite sub_at_child, Ech. cbn [from_option id].
      destruct (decide (segs' = segs)) as [->|]; [by rewrite decide_True|].
      by rewrite decide_False by congruence.
    + by rewrite decide_False by congruence.
Qed.

Lemma remove_all_eq node c :
  remove_all node c =
  mkNode ((λ n, remove_all n c) <$> children node) ((λ n, remove_all n c) <$> plus_child node)
         ((λ n, remove_all n c) <$> hash_child node) (delete c (subscribers node)).
Proof. by destruct node. Qed.

Lemma get_child_remove_all node c seg :
  get_child (remove_all node c) seg = (λ n, remove_all n c) <$> get_child node seg.
Proof.
  rewrite remove_all_eq. unfold get_child. seg_cases; [done..|]. cbn [children].
  apply lookup_fmap.
Qed.

Lemma sub_at_remove_all segs node c :
  sub_at (remove_all node c) segs = delete c (sub_at node segs).
Proof.
  revert node. induction segs as [|seg segs IH]; intros node; cbn [sub_at].
  - by rewrite remove_all_eq.
  - rewrite get_child_remove_all. destruct (get_child node seg); simpl; [apply IH|].
    by rewrite delete_empty.
Qed.

(** ** Well-formedness is preserved *)

Lemma node_wf_default : node_wf Node_default.
Proof. constructor; [done..|]. intros seg c. unfold get_child. by seg_cases. Qed.

Lemma node_wf_set_child node seg o :
  node_wf node → (∀ c, o = Some c → node_wf c) → node_wf (set_child node seg o).
Proof.
  intros Hn Ho. inversion Hn as [? Hp Hh Hc]; subst. constructor.
  1,2: unfold set_child; seg_cases; simpl; try done; destruct o; by simplify_map_eq.
  intros seg' c'. rewrite get_set_child. destruct (decide (seg' = seg)); eauto.
Qed.

Lemma node_wf_child node seg :
  node_wf node → node_wf (default Node_default (get_child node seg)).
Proof.
  intros Hn. inversion Hn as [? _ _ Hc]; subst.
  destruct (get_child node seg) eqn:E; simpl; eauto using node_wf_default.
Qed.

Lemma node_wf_insert_path segs c q node : node_wf node → node_wf (insert_path segs c q node).
Proof.
  revert node. induction segs as [|seg segs IH]; intros node Hn; cbn [insert_path].
  - inversion Hn as [? Hp Hh Hc]; subst. constructor; [done..|]. intros seg ch.
    specialize (Hc seg ch). unfold get_child in *. by seg_cases.
  - rewrite child_for_segment_mut_set. apply node_wf_set_child; [done|].
    intros ch [= <-]. apply IH, node_wf_child, Hn.
Qed.

Lemma node_wf_remove segs node c : node_wf node → node_wf (remove_recursive node segs c).2.
Proof.
  revert node. induction segs as [|seg segs IH]; intros node Hn.
  - inversion Hn as [? Hp Hh Hc]; subst. constructor; [done..|]. intros seg ch.
    specialize (Hc seg ch). unfold get_child in *. by seg_cases.
  - rewrite remove_recursive_cons. pose proof (node_wf_child node seg Hn) as Hch.
    destruct (get_child node seg) as [ch|]; [|done]. cbn [from_option id] in Hch.
    specialize (IH ch Hch). destruct (remove_recursive ch segs c) as [r ch']. simpl in *.
    apply node_wf_set_child; [done|]. intros n. by destruct (r && _); intros [= <-].
Qed.

Lemma node_wf_remove_all node c : node_wf node → node_wf (remove_all node c).
Proof.
  induction 1 as [node Hp Hh _ IH]. constructor.
  1,2: rewrite remove_all_eq; simpl; rewrite lookup_fmap; by rewrite ?Hp, ?Hh.
  intros seg ch. rewrite get_child_remove_all.
  destruct (get_child node seg) eqn:E; simpl; [|done]. intros [= <-]. eauto.
Qed.

(** ** Matching *)

Lemma elem_of_push c q subs out :
  (c, q) ∈ push_subscribers subs out ↔ (c, q) ∈ out ∨ subs !! c = Some q.
Proof. unfold push_subscribers. by rewrite elem_of_app, elem_of_map_to_list. Qed.

Lemma elem_of_hash node out c q :
  (c, q) ∈ (match hash_child node with
            | Some hash => push_subscribers (subscribers hash) out
            | None => out
            end) ↔
  (c, q) ∈ out ∨ sub_at node ["#"%string] !! c = Some q.
Proof.
  cbn [sub_at]. unfold get_child. simpl. destruct (hash_child node); simpl.
  - by rewrite elem_of_push.
  - rewrite lookup_empty. split; [by left|by intros [?|?]].
Qed.

Lemma lookup_sub_at_cons node seg fs c q :
  sub_at node (seg :: fs) !! c = Some q ↔
  ∃ ch, get_child node seg = Some ch ∧ sub_at ch fs !! c = Some q.
Proof.
  cbn [sub_at]. destruct (get_child node seg) as [ch|]; [naive_solver|].
  rewrite lookup_empty. naive_solver.
Qed.

Lemma elem_of_collect segs node out c q :
  node_wf node →
  (c, q) ∈ collect_matches node segs out ↔
  (c, q) ∈ out ∨ ∃ fs, fmatch segs fs = true ∧ sub_at node fs !! c = Some q.
Proof.
  revert node out. induction segs as [|t segs IH]; intros node out Hn;
    cbn [collect_matches]; cbv zeta.
  - rewrite elem_of_push, elem_of_hash. split.
    + intros [[?|H]|H]; [by left|right..]; [by exists ["#"%string]|by exists []].
    + intros [?|(fs & Hm & Hs)]; [by left; left|].
      destruct fs as [|f fs]; [by right|]. left; right. cbn [fmatch] in Hm.
      destruct (bool_decide_reflect (f = "#"%string)) as [->|]; [|done].
      by apply bool_decide_eq_true in Hm as ->.
  - inversion Hn as [? Hp Hh Hc]; subst.
    assert (Hopt : ∀ o out, (∀ ch, o = Some ch → node_wf ch) →
      (c, q) ∈ (match o with Some ch => collect_matches ch segs out | None => out end) ↔
      (c, q) ∈ out ∨ ∃ ch fs, o = Some ch ∧ fmatch segs fs = true ∧ sub_at ch fs !! c = Some q).
    { intros [ch|] out' Ho; [rewrite IH by auto|]; naive_solver. }
    rewrite !Hopt, elem_of_hash;
      [|intros ch Hch; apply (Hc t); unfold get_child; seg_cases; congruence
       |intros ch Hch; by apply (Hc "+"%string)].
    split.
    + intros [[[?|H]|(ch & fs & Hch & Hm & Hs)]|(ch & fs & Hch & Hm & Hs)]; [by left|right..].
      * by exists ["#"%string].
      * exists (t :: fs). rewrite lookup_sub_at_cons. cbn [fmatch]. unfold get_child.
        seg_cases; try congruence. eauto.
      * exists ("+"%string :: fs). rewrite lookup_sub_at_cons. cbn [fmatch].
        split; [done|]. by exists ch.
    + intros [?|(fs & Hm & Hs)]; [by do 3 left|]. destruct fs as [|f fs]; [done|].
      cbn [fmatch] in Hm. destruct (bool_decide_reflect (f = "#"%string)) as [->|Hnh].
      { apply bool_decide_eq_true in Hm as ->. by left; left; right. }
      apply andb_prop in Hm as [Hf Hm]. apply lookup_sub_at_cons in Hs as (ch & Hch & Hs).
      destruct (bool_decide_reflect (f = "+"%string)) as [->|Hnp]; [by right; eauto|].
      apply bool_decide_eq_true in Hf as ->. left; right. exists ch, fs.
      unfold get_child in Hch. by rewrite !bool_decide_false in Hch by done.
Qed.

Lemma match_segs_fmatch ts fs : hash_last fs = true → match_segs ts fs = fmatch ts fs.
Proof.
  revert ts. induction fs as [|f fs IH]; intros ts; cbn [hash_last]; [by destruct ts|].
  intros [Hf Hfs]%andb_prop. destruct ts as [|t ts]; cbn [match_segs fmatch].
  - destruct fs; cbn [fmatch]; by seg_cases.
  - destruct (bool_decide_reflect (f = "#"%string)) as [->|].
    + by destruct (bool_decide (fs = [])).
    + rewrite IH by done. by destruct (_ || _).
Qed.

Lemma validate_segs_hash_last flt segs i count :
  (i + length segs = count)%nat → validate_segs flt segs i count = Ok tt → hash_last segs = true.
Proof.
  revert i. induction segs as [|seg segs IH]; intros i Hi; [done|].
  cbn [validate_segs hash_last length] in *.
  destruct (str_contains "#"%char seg && _); [done|].
  destruct (bool_decide (seg = "#"%string) && negb _) eqn:E2; [done|].
  destruct (str_contains "+"%char seg && _); [done|]. intros H. rewrite (IH (S i) ltac:(lia) H).
  rewrite andb_true_r. destruct (bool_decide (seg = "#"%string)); [|done].
  simpl in *. apply negb_false_iff, Nat.eqb_eq in E2. apply bool_decide_eq_true.
  destruct segs; [done|]. simpl in *. lia.
Qed.

Lemma validate_filter_ok f :
  validate_filter f = Ok tt → f ≠ ""%string ∧ hash_last (str_split slash f) = true.
Proof.
  unfold validate_filter. destruct f as [|a f]; [done|]. cbn [str_is_empty]. intros H.
  split; [done|]. by apply (validate_segs_hash_last _ _ 0) in H.
Qed.

Lemma topic_matches_fmatch topic f :
  topic ≠ ""%string → validate_filter f = Ok tt →
  topic_matches_filter topic f = fmatch (str_split slash topic) (str_split slash f).
Proof.
  intros Ht [Hf Hh]%validate_filter_ok. unfold topic_matches_filter.
  destruct topic; [done|]. destruct f; [done|]. by apply match_segs_fmatch.
Qed.

(** ** The largest QoS of a client *)

Definition qos_le (a b : QoS) : Prop := QoS.as_u8 a ≤ QoS.as_u8 b.

Lemma best_insert_lookup best e c q :
  best_insert best e !! c = Some q ↔
  if decide (c = e.1)
  then match best !! c with
       | Some q0 => q = QoS.max q0 e.2
       | None => q = e.2
       end
  else best !! c = Some q.
Proof.
  destruct e as [c' q']. unfold best_insert, QoS.max. cbn [fst snd].
  destruct (decide (c = c')) as [->|Hne].
  - destruct (best !! c') as [q0|] eqn:E; [destruct (QoS.ltb q0 q')|];
      rewrite ?lookup_insert_eq, ?E; naive_solver.
  - destruct (best !! c') as [q0|]; [destruct (QoS.ltb q0 q')|];
      by rewrite ?lookup_insert_ne by done.
Qed.

Lemma best_fold out c q :
  foldl best_insert ∅ out !! c = Some q ↔
  (c, q) ∈ out ∧ ∀ q', (c, q') ∈ out → qos_le q' q.
Proof.
  revert q. induction out as [|[c' q'] out IH] using rev_ind; intros q.
  { cbn [foldl]. rewrite lookup_empty. split; [done|]. by intros [?%elem_of_nil _]. }
  rewrite foldl_snoc, best_insert_lookup. cbn [fst snd].
  setoid_rewrite elem_of_app. setoid_rewrite list_elem_of_singleton.
  destruct (decide (c = c')) as [->|Hne].
  2:{ rewrite IH. naive_solver. }
  unfold qos_le in *. destruct (foldl best_insert ∅ out !! c') as [q0|].
  - destruct (proj1 (IH q0) eq_refl) as [Hin Hmax]. pose proof (QoS_max_spec q0 q'). split.
    + intros ->. split.
      * unfold QoS.max. destruct (QoS.ltb q0 q'); auto.
      * intros q1 [Hq1|[= ->]]; [apply Hmax in Hq1|]; lia.
    + intros [Hq Hle]. apply QoS_as_u8_inj. rewrite QoS_max_spec.
      pose proof (Hle q0 (or_introl Hin)). pose proof (Hle q' (or_intror eq_refl)).
      destruct Hq as [Hq|[= ->]]; [apply Hmax in Hq|]; lia.
  - assert (Hno : ∀ q1, (c', q1) ∉ out).
    { intros q1 Hq1.
      assert (∃ q2, (c', q2) ∈ out ∧ ∀ q', (c', q') ∈ out → QoS.as_u8 q' ≤ QoS.as_u8 q2) as (q2 & Hq2).
      { clear -Hq1. destruct (decide ((c', QoS.ExactlyOnce) ∈ out)).
        { exists QoS.ExactlyOnce. split; [done|]. intros [] _; simpl; lia. }
        destruct (decide ((c', QoS.AtLeastOnce) ∈ out)).
        { exists QoS.AtLeastOnce. split; [done|]. intros [] ?; simpl; (done || lia). }
        exists QoS.AtMostOnce. destruct q1; [|done..]. split; [done|].
        intros [] ?; simpl; (done || lia). }
      by apply IH in Hq2. }
    split; [intros ->; split; [by right|]|].
    + intros q1 [Hq1|[= ->]]; [by apply Hno in Hq1|lia].
    + intros [[Hq|[= ->]] _]; [by apply Hno in Hq|done].
Qed.

(** ** The reverse index *)

Lemma elem_of_set_or_push l f q f' q' :
  NoDup l.*1 →
  (f', q') ∈ set_or_push l f q ↔
  (f' = f ∧ q' = q) ∨ (f' ≠ f ∧ (f', q') ∈ l).
Proof.
  induction l as [|[f0 q0] l IH]; cbn [set_or_push fmap list_fmap fst].
  { rewrite list_elem_of_singleton, elem_of_nil. naive_solver. }
  rewrite NoDup_cons. intros [Hf0 Hnd]. case_bool_decide as E; subst.
  - rewrite !elem_of_cons. split; [|naive_solver].
    intros [[= -> ->]|Hin]; [by left|]. right. split; [|by right].
    intros ->. apply Hf0. by apply (list_elem_of_fmap_2 fst _ _ Hin).
  - rewrite !elem_of_cons, IH by done. naive_solver.
Qed.

Lemma fst_set_or_push l f q x : x ∈ (set_or_push l f q).*1 ↔ x = f ∨ x ∈ l.*1.
Proof.
  induction l as [|[f0 q0] l IH]; cbn [set_or_push fmap list_fmap fst].
  - rewrite list_elem_of_singleton, elem_of_nil. naive_solver.
  - case_bool_decide; subst; cbn [fmap list_fmap fst]; rewrite !elem_of_cons, ?IH; naive_solver.
Qed.

Lemma NoDup_set_or_push l f q : NoDup l.*1 → NoDup (set_or_push l f q).*1.
Proof.
  induction l as [|[f0 q0] l IH]; cbn [set_or_push fmap list_fmap fst].
  { intros _. apply NoDup_singleton. }
  rewrite NoDup_cons. intros [Hf0 Hnd]. case_bool_decide; subst; cbn [fmap list_fmap fst];
    apply NoDup_cons; [done|]. split; [|by apply IH]. rewrite fst_set_or_push. naive_solver.
Qed.

Lemma index_ext rev look look' :
  (∀ c f, look c f = look' c f) → index_inv rev look → index_inv rev look'.
Proof. intros Hl (H1 & H2). split; [|done]. intros c f q. by rewrite H1, Hl. Qed.

Lemma index_add rev look c f q :
  index_inv rev look →
  index_inv (reverse_add rev c f q)
    (λ c' f', if decide (c' = c ∧ f' = f) then Some q else look c' f').
Proof.
  intros (Hr & Hnd & Hne). unfold reverse_add. split_and!; intros c';
    destruct (decide (c' = c)) as [->|Hc]; rewrite ?lookup_insert_eq, ?lookup_insert_ne by done.
  - intros f' q'. cbn [from_option id]. rewrite elem_of_set_or_push, Hr by done.
    destruct (decide (c = c ∧ f' = f)); naive_solver.
  - intros f' q'. rewrite Hr, decide_False by naive_solver. done.
  - by apply NoDup_set_or_push.
  - done.
  - intros [= H]. by destruct (default [] (rev !! c)) as [|[]]; simpl in H; repeat case_bool_decide.
  - done.
Qed.

Lemma elem_of_retain (l : list (string * QoS)) f f' q' :
  (f', q') ∈ List.filter (λ e, negb (bool_decide (e.1 = f))) l ↔ f' ≠ f ∧ (f', q') ∈ l.
Proof.
  rewrite !list_elem_of_In, filter_In. cbn [fst]. case_bool_decide; naive_solver.
Qed.

Lemma NoDup_retain (l : list (string * QoS)) (P : string * QoS → bool) :
  NoDup l.*1 → NoDup (List.filter P l).*1.
Proof.
  induction l as [|[f0 q0] l IH]; [done|]. cbn [List.filter fmap list_fmap fst].
  rewrite NoDup_cons. intros [Hf Hnd]. destruct (P _); [|by apply IH].
  cbn [fmap list_fmap fst]. apply NoDup_cons. split; [|by apply IH].
  rewrite list_elem_of_fmap. intros ([f1 q1] & -> & Hin). apply Hf.
  rewrite list_elem_of_In, filter_In, <- list_elem_of_In in Hin.
  by apply (list_elem_of_fmap_2 fst _ _ (proj1 Hin)).
Qed.

Lemma index_remove rev look c f :
  index_inv rev look →
  index_inv (reverse_remove rev c f)
    (λ c' f', if decide (c' = c ∧ f' = f) then None else look c' f').
Proof.
  intros (Hr & Hnd & Hne). unfold reverse_remove.
  assert (Hl : ∀ l, rev !! c = Some l → (∀ f' q', (f', q') ∈ l ↔ look c f' = Some q') ∧ NoDup l.*1).
  { intros l E. split; [intros f' q'; specialize (Hr c f' q')|specialize (Hnd c)];
      by rewrite E in *. }
  destruct (rev !! c) as [l|] eqn:E.
  2:{ split_and!; [|done..]. intros c' f' q'. rewrite Hr.
      destruct (decide (c' = c ∧ f' = f)) as [[-> ->]|]; [|done].
      rewrite <- Hr, E. cbn [from_option]. by rewrite elem_of_nil. }
  destruct (Hl l eq_refl) as [Hlk Hln]. set (l' := List.filter _ l).
  assert (Hl' : ∀ f' q', (f', q') ∈ l' ↔
            (if decide (c = c ∧ f' = f) then None else look c f') = Some q').
  { intros f' q'. unfold l'. rewrite elem_of_retain, Hlk.
    destruct (decide (c = c ∧ f' = f)); naive_solver. }
  assert (Hn' : NoDup l'.*1) by by apply NoDup_retain.
  clearbody l'. destruct l' as [|e l'];
    split_and!; intros c'; destruct (decide (c' = c)) as [->|Hc];
    rewrite ?lookup_delete_eq, ?lookup_insert_eq, ?lookup_delete_ne, ?lookup_insert_ne by done;
    try done; intros f' q'; rewrite Hr, decide_False by naive_solver; done.
Qed.

Lemma index_remove_all rev look c :
  index_inv rev look →
  index_inv (delete c rev) (λ c' f', if decide (c' = c) then None else look c' f').
Proof.
  intros (Hr & Hnd & Hne).
  split_and!; intros c'; destruct (decide (c' = c)) as [->|Hc];
    rewrite ?lookup_delete_eq, ?lookup_delete_ne by done; try done.
  - intros f q. cbn [from_option]. by rewrite elem_of_nil.
  - apply NoDup_nil_2.
Qed.

(** ** Shared groups *)

(** A group without one of its members; an empty group disappears. *)
Definition drop_member (c : string) (e : SharedEntry) : option SharedEntry :=
  let e := e <| members ::= delete c |> in
  if bool_decide (members e = ∅) then None else Some e.

Lemma remove_shared_member_lookup c sh k k' :
  remove_shared_member c sh k !! k' =
  if decide (k' = k) then sh !! k ≫= drop_member c else sh !! k'.
Proof.
  unfold remove_shared_member, drop_member. destruct (sh !! k) as [e|] eqn:E; simpl.
  - destruct (decide (k' = k)) as [->|]; case_bool_decide; by simplify_map_eq.
  - by destruct (decide (k' = k)) as [->|].
Qed.

Lemma drop_member_idem c e e' : drop_member c e = Some e' → drop_member c e' = Some e'.
Proof.
  unfold drop_member. cbn. case_bool_decide; [done|]. intros [= <-]. cbn.
  by rewrite delete_delete_eq, bool_decide_false.
Qed.

Lemma foldl_remove_shared c keys sh k :
  foldl (remove_shared_member c) sh keys !! k =
  if decide (k ∈ keys) then sh !! k ≫= drop_member c else sh !! k.
Proof.
  revert sh. induction keys as [|k0 keys IH]; intros sh; cbn [foldl].
  { by rewrite decide_False by apply not_elem_of_nil. }
  rewrite IH, remove_shared_member_lookup. destruct (decide (k = k0)) as [->|Hne].
  - rewrite (decide_True (P := k0 ∈ k0 :: keys)) by left.
    destruct (decide (k0 ∈ keys)); [|done]. destruct (sh !! k0) as [e0|]; [|done]. simpl.
    destruct (drop_member c e0) eqn:E; [|done]. simpl. by eapply drop_member_idem.
  - destruct (decide (k ∈ keys)) as [Hin|Hin].
    + by rewrite decide_True by (by right).
    + rewrite decide_False; [done|]. rewrite elem_of_cons. naive_solver.
Qed.

Lemma elem_of_shared_keys c sh k :
  k ∈ shared_keys c sh ↔ ∃ e, sh !! k = Some e ∧ is_Some (members e !! c).
Proof.
  unfold shared_keys. rewrite list_elem_of_omap. split.
  - intros ([k' e] & Hin & H). apply elem_of_map_to_list in Hin. cbn in H.
    case_bool_decide; [|done]. naive_solver.
  - intros (e & He & Hc). exists (k, e). rewrite elem_of_map_to_list. split; [done|].
    cbn. by rewrite bool_decide_true.
Qed.

(** Members of the groups after a client has left them all. *)
Lemma shared_after_leave c sh k e' :
  (∀ k e, sh !! k = Some e → members e ≠ ∅) →
  foldl (remove_shared_member c) sh (shared_keys c sh) !! k = Some e' →
  ∃ e, sh !! k = Some e ∧ members e' = delete c (members e) ∧ rr_counter e' = rr_counter e
       ∧ members e' ≠ ∅.
Proof.
  intros Hne. rewrite foldl_remove_shared. destruct (decide _) as [Hin|Hnin].
  - destruct (sh !! k) as [e|]; [|done]. simpl. unfold drop_member. cbn.
    case_bool_decide; [done|]. intros [= <-]. by exists e.
  - intros He. exists e'. split_and!; [done| |done|by eauto].
    rewrite delete_id; [done|]. apply eq_None_not_Some. intros Hs.
    apply Hnin, elem_of_shared_keys. eauto.
Qed.

Lemma shared_leave_lookup c sh k c' :
  (e ← foldl (remove_shared_member c) sh (shared_keys c sh) !! k; members e !! c') =
  if decide (c' = c) then None else e ← sh !! k; members e !! c'.
Proof.
  rewrite foldl_remove_shared. destruct (decide (k ∈ _)) as [Hin|Hnin].
  - destruct (sh !! k) as [e|] eqn:E; simpl; [|by destruct (decide (c' = c))].
    unfold drop_member. cbn. case_bool_decide as Hem; simpl.
    + destruct (decide (c' = c)) as [->|]; [done|].
      by rewrite <- (lookup_delete_ne _ c c'), Hem, lookup_empty by done.
    + destruct (decide (c' = c)) as [->|]; by simplify_map_eq.
  - destruct (decide (c' = c)) as [->|]; [|done].
    destruct (sh !! k) as [e|] eqn:E; [|done]. simpl. apply eq_None_not_Some. intros Hs.
    apply Hnin, elem_of_shared_keys. eauto.
Qed.

(** ** Parsing of shared filters *)

Lemma str_split_once_spec c s a b :
  str_split_once c s = Some (a, b) → s = (a ++ String c b)%string.
Proof.
  revert a. induction s as [|d s IH]; intros a; cbn [str_split_once]; [done|].
  destruct (Ascii.eqb_spec c d) as [->|]; [by intros [= <- <-]|].
  destruct (str_split_once c s) as [[a' b']|]; [|done]. intros [= <- <-].
  by rewrite (IH a').
Qed.

Lemma parse_shared_filter_spec f g rf :
  parse_shared_filter f = Some (g, rf) →
  f = (SHARE_PREFIX ++ String slash (g ++ String slash rf))%string.
Proof.
  unfold parse_shared_filter. cbn [str_splitn].
  destruct (str_split_once slash f) as [[a b]|] eqn:E1; [|done].
  destruct (str_split_once slash b) as [[a' b']|] eqn:E2; [|done].
  destruct (bool_decide_reflect (a = SHARE_PREFIX)) as [->|]; [|done].
  destruct (negb _); [|done]. intros [= <- <-].
  by rewrite (str_split_once_spec _ _ _ _ E1), (str_split_once_spec _ _ _ _ E2).
Qed.

Lemma parse_shared_filter_inj f f' k :
  parse_shared_filter f = Some k → parse_shared_filter f' = Some k → f = f'.
Proof.
  destruct k as [g rf]. intros H%parse_shared_filter_spec H'%parse_shared_filter_spec. congruence.
Qed.
