(* ===== verification/SubscriptionTheorems.v ===== *)
(** * The subscription tree: theorems

    Refinement of the abstract table by the tree, topic matching as a query on
    it, and the round-robin selection of shared groups. *)

From stdpp Require Import sorting.
From S2P Require Import Prelude Packet Subscription SubscriptionProofs.

(** An update at one client of one filter, by cases on the client asked for. *)
Ltac client_cases c' c :=
  destruct (decide (c' = c)) as [->|?];
  [rewrite decide_True by done|rewrite decide_False by naive_solver]; by simplify_map_eq.

(** ** Each operation updates the abstract table *)

Lemma tree_inv_new : tree_inv SubscriptionTree_new.
Proof.
  constructor; simpl.
  - apply node_wf_default.
  - intros segs c q. rewrite sub_at_default. by rewrite lookup_empty.
  - intros g rf e. by rewrite lookup_empty.
  - split_and!; intros c; rewrite lookup_empty; simpl; [|apply NoDup_nil_2|done].
    intros f q. rewrite elem_of_nil. unfold sub_lookup. simpl.
    destruct (parse_shared_filter f); rewrite ?lookup_empty, ?sub_at_default; done.
Qed.

Lemma subscribe_lookup t c f q t' c' f' :
  subscribe t c f q = Ok t' →
  sub_lookup t' c' f' = if decide (c' = c ∧ f' = f) then Some q else sub_lookup t c' f'.
Proof.
  unfold subscribe, sub_lookup. destruct (parse_shared_filter f) as [[g rf]|] eqn:Ef.
  - destruct (validate_filter rf); [|done]. intros [= <-]. cbn.
    destruct (parse_shared_filter f') as [k|] eqn:Ef'.
    2:{ rewrite decide_False; [done|]. naive_solver. }
    destruct (decide (k = (g, rf))) as [->|Hk].
    + assert (f' = f) as -> by (by eapply parse_shared_filter_inj). simplify_map_eq.
      destruct (decide (c' = c)) as [->|Hc].
      * rewrite decide_True by done. by simplify_map_eq.
      * rewrite decide_False by naive_solver. simplify_map_eq.
        by destruct (shared t !! (g, rf)) as [e|]; cbn; rewrite ?lookup_empty.
    + rewrite decide_False by naive_solver. by simplify_map_eq.
  - destruct (validate_filter f); [|done]. intros [= <-]. cbn.
    destruct (parse_shared_filter f') as [k|] eqn:Ef'.
    { rewrite decide_False; [done|]. naive_solver. }
    rewrite sub_at_insert_path. destruct (decide (_ = _)) as [Hs%str_split_inj|Hs].
    + subst f'. client_cases c' c.
    + rewrite decide_False; [done|]. naive_solver.
Qed.

Lemma subscribe_inv t c f q t' : tree_inv t → subscribe t c f q = Ok t' → tree_inv t'.
Proof.
  intros [Hwf Hp Hs Hi] Hsub. pose proof (λ c' f', subscribe_lookup _ _ _ _ _ c' f' Hsub) as Hl.
  revert Hsub. unfold subscribe.
  destruct (parse_shared_filter f) as [[g rf]|] eqn:Ef.
  - destruct (validate_filter rf) as [[]|] eqn:Ev; [|done]. intros [= <-].
    constructor; cbn; [done..| |].
    + intros g' rf' e. destruct (decide ((g', rf') = (g, rf))) as [[= -> ->]|Hne].
      2:{ rewrite lookup_insert_ne by done. apply Hs. }
      rewrite lookup_insert_eq. intros [= <-]. cbn.
      split; [|split; [done|split; [|eauto]]].
      * apply insert_non_empty.
      * destruct (shared t !! (g, rf)) as [e|] eqn:E; cbn; [by eapply Hs|done].
    + eapply index_ext; [intros c' f'; symmetry; apply Hl|]. by apply index_add.
  - destruct (validate_filter f) as [[]|] eqn:Ev; [|done]. intros [= <-].
    constructor; cbn; [by apply node_wf_insert_path| |done|].
    + intros segs c' q'. rewrite sub_at_insert_path.
      destruct (decide (segs = _)) as [->|]; [by exists f|apply Hp].
    + eapply index_ext; [intros c' f'; symmetry; apply Hl|]. by apply index_add.
Qed.

Lemma subscribe_result t c f q :
  match subscribe t c f q with Ok _ => Ok tt | Err e => Err e end = filter_error f.
Proof.
  unfold subscribe, filter_error. destruct (parse_shared_filter f) as [[g rf]|].
  - by destruct (validate_filter rf) as [[]|].
  - by destruct (validate_filter f) as [[]|].
Qed.

Lemma unsubscribe_spec t c f b t' :
  unsubscribe t c f = (b, t') →
  b = bool_decide (is_Some (sub_lookup t c f)) ∧
  (∀ c' f', sub_lookup t' c' f' =
     if decide (c' = c ∧ f' = f) then None else sub_lookup t c' f').
Proof.
  unfold unsubscribe, sub_lookup.
  destruct (parse_shared_filter f) as [[g rf]|] eqn:Ef.
  - destruct (shared t !! (g, rf)) as [e|] eqn:Ee.
    2:{ intros [= <- <-]. split; [done|]. intros c' f'.
        destruct (decide (c' = c ∧ f' = f)) as [[-> ->]|]; [|done]. by rewrite Ef, Ee. }
    intros [= <- <-]. split; [done|]. intros c' f'.
    set (sh := if _ && bool_decide (_ = ∅) then delete (g, rf) else _).
    match goal with |- (match _ with Some k => e ← shared ?t1 !! k; _ | None => sub_at (root ?t2) _ !! _ end) = _ =>
      assert (shared t1 = sh (shared t)) as -> by (by destruct (bool_decide _));
      assert (root t2 = root t) as -> by (by destruct (bool_decide _)) end.
    destruct (parse_shared_filter f') as [k|] eqn:Ef'.
    2:{ rewrite decide_False; [done|]. naive_solver. }
    destruct (decide (k = (g, rf))) as [->|Hk].
    + assert (f' = f) as -> by (by eapply parse_shared_filter_inj). rewrite Ee. simpl.
      assert (Hm : (e ← sh (shared t) !! (g, rf); members e !! c') = delete c (members e) !! c').
      { subst sh. destruct (_ && _) eqn:Eb; simplify_map_eq; [|done].
        apply andb_prop in Eb as [_ ->%bool_decide_eq_true]. done. }
      rewrite Hm. client_cases c' c.
    + rewrite decide_False by naive_solver. subst sh.
      by destruct (_ && _); simplify_map_eq.
  - destruct (remove_recursive (root t) (str_split slash f) c) as [r node] eqn:E.
    apply remove_recursive_spec in E as [-> Hs]. intros [= <- <-]. split; [done|].
    intros c' f'.
    match goal with |- (match _ with Some k => e ← shared ?t1 !! k; _ | None => sub_at (root ?t2) _ !! _ end) = _ =>
      assert (shared t1 = shared t) as -> by (by destruct (bool_decide _));
      assert (root t2 = node) as -> by (by destruct (bool_decide _)) end.
    destruct (parse_shared_filter f') as [k|] eqn:Ef'.
    { rewrite decide_False; [done|]. naive_solver. }
    rewrite Hs. destruct (decide (_ = _)) as [Hss%str_split_inj|Hss].
    + subst f'. client_cases c' c.
    + rewrite decide_False; [done|]. naive_solver.
Qed.

(** The reverse index after [unsubscribe]: updated when something was removed,
    and rightly left alone otherwise. *)
Lemma index_unsubscribe rev look c f (b : bool) :
  index_inv rev look → b = bool_decide (is_Some (look c f)) →
  index_inv (if b then reverse_remove rev c f else rev)
    (λ c' f', if decide (c' = c ∧ f' = f) then None else look c' f').
Proof.
  intros Hi ->. case_bool_decide as Hs; [by apply index_remove|].
  eapply index_ext; [|done]. intros c' f'.
  destruct (decide (c' = c ∧ f' = f)) as [[-> ->]|]; [|done]. by apply eq_None_not_Some.
Qed.

(** The groups that remain after a client leaves one of them. *)
Lemma leave_group_ok (sh : gmap (string * string) SharedEntry) k e c
    (Q : string * string → Z → Prop) :
  (∀ k e, sh !! k = Some e → members e ≠ ∅ ∧ Q k (rr_counter e)) → sh !! k = Some e →
  let e' := e <| members ::= delete c |> in
  ∀ k' e0,
    (if bool_decide (is_Some (members e !! c)) && bool_decide (members e' = ∅)
     then delete k else <[k := e']>) sh !! k' = Some e0 →
    members e0 ≠ ∅ ∧ Q k' (rr_counter e0).
Proof.
  intros Hok He e' k' e0. destruct (Hok _ _ He) as [Hm HQ].
  destruct (decide (k' = k)) as [->|Hne].
  - destruct (bool_decide_reflect (is_Some (members e !! c))) as [Hs|Hs];
      [destruct (bool_decide_reflect (members e' = ∅)) as [Hem|Hem]|]; cbn [andb];
      rewrite ?lookup_delete_eq, ?lookup_insert_eq; [done|intros [= <-]..].
    + by split.
    + split; [|done]. subst e'. cbn. by rewrite delete_id by (by apply eq_None_not_Some).
  - destruct (_ && _); rewrite ?lookup_delete_ne, ?lookup_insert_ne by done; apply Hok.
Qed.

Lemma unsubscribe_inv t c f b t' :
  tree_inv t → unsubscribe t c f = (b, t') → tree_inv t'.
Proof.
  intros [Hwf Hp Hs Hi] Hu. destruct (unsubscribe_spec _ _ _ _ _ Hu) as [Hb Hl].
  pose proof (index_unsubscribe _ _ c f b Hi Hb) as Hi'.
  apply (index_ext _ _ (sub_lookup t')) in Hi'; [|intros; by rewrite Hl].
  clear Hl Hb. revert Hu. unfold unsubscribe.
  destruct (parse_shared_filter f) as [[g rf]|] eqn:Ef.
  - destruct (shared t !! (g, rf)) as [e|] eqn:Ee.
    2:{ intros [= <- <-]. by constructor. }
    pose proof (leave_group_ok (shared t) (g, rf) e c
      (λ k n, validate_filter k.2 = Ok tt ∧ 0 ≤ n < u64_mod ∧ ∃ f, parse_shared_filter f = Some k)
      ltac:(intros [] ? ?; by apply Hs) Ee) as Hg.
    intros [= <- <-]. destruct (bool_decide (is_Some (members e !! c))); constructor; cbn in *; try done;
      intros g' rf' e0 He0; by apply (Hg (g', rf')).
  - destruct (remove_recursive (root t) (str_split slash f) c) as [r node] eqn:E.
    pose proof (node_wf_remove (str_split slash f) _ c Hwf) as Hwf'. rewrite E in Hwf'.
    apply remove_recursive_spec in E as [_ Hsub]. intros [= <- <-].
    assert (Hp' : ∀ segs c0 q, sub_at node segs !! c0 = Some q → ∃ f, segs = str_split slash f ∧
      validate_filter f = Ok tt ∧ parse_shared_filter f = None).
    { intros segs c0 q. rewrite Hsub. destruct (decide _) as [->|]; [|apply Hp].
      rewrite lookup_delete_Some. intros [_ ?]. by eapply Hp. }
    destruct r; by constructor.
Qed.

Lemma unsubscribe_all_lookup t c c' f' :
  sub_lookup (unsubscribe_all t c) c' f' =
  if decide (c' = c) then None else sub_lookup t c' f'.
Proof.
  unfold sub_lookup, unsubscribe_all. cbn. destruct (parse_shared_filter f') as [k|].
  - apply shared_leave_lookup.
  - rewrite sub_at_remove_all. destruct (decide (c' = c)) as [->|]; by simplify_map_eq.
Qed.

Lemma unsubscribe_all_inv t c : tree_inv t → tree_inv (unsubscribe_all t c).
Proof.
  intros [Hwf Hp Hs Hi]. constructor; cbn.
  - by apply node_wf_remove_all.
  - intros segs c' q. rewrite sub_at_remove_all, lookup_delete_Some. intros [_ ?]. by eapply Hp.
  - intros g rf e He. apply shared_after_leave in He as (e0 & He0 & Hm & Hr & Hne).
    2:{ intros [??] ? ?. by eapply Hs. }
    rewrite Hr. split; [done|]. by eapply Hs.
  - eapply index_ext; [|by apply index_remove_all]. intros c' f'.
    symmetry. apply unsubscribe_all_lookup.
Qed.

(** ** Refinement *)

Definition refines (t : SubscriptionTree) (m : SubTable) : Prop :=
  tree_inv t ∧ ∀ c f, sub_lookup t c f = m !! (c, f).

Lemma tree_step_refines t m cmd :
  refines t m →
  let '(t', r) := tree_step t cmd in
  let '(m', r') := spec_step m cmd in refines t' m' ∧ r = r'.
Proof.
  intros [Hinv Hl]. destruct cmd as [c f q|c f|c]; cbn [tree_step spec_step].
  - pose proof (subscribe_result t c f q) as Hr.
    destruct (subscribe t c f q) as [t'|e] eqn:E; rewrite <- Hr; [|done].
    split; [|done]. split; [by eapply subscribe_inv|]. intros c' f'.
    rewrite (subscribe_lookup _ _ _ _ _ _ _ E), Hl.
    destruct (decide (c' = c ∧ f' = f)) as [[-> ->]|]; [by simplify_map_eq|].
    rewrite lookup_insert_ne by naive_solver. done.
  - destruct (unsubscribe t c f) as [b t'] eqn:E.
    destruct (unsubscribe_spec _ _ _ _ _ E) as [Hb Hl']. split; [|by rewrite Hb, Hl].
    split; [by eapply unsubscribe_inv|]. intros c' f'. rewrite Hl', Hl.
    destruct (decide (c' = c ∧ f' = f)) as [[-> ->]|]; [by simplify_map_eq|].
    rewrite lookup_delete_ne by naive_solver. done.
  - split; [|done]. split; [by apply unsubscribe_all_inv|]. intros c' f'.
    rewrite unsubscribe_all_lookup, Hl. destruct (decide (c' = c)) as [->|Hne].
    + symmetry. apply map_lookup_filter_None. right. naive_solver.
    + symmetry. destruct (m !! (c', f')) as [q|] eqn:E.
      * by apply map_lookup_filter_Some.
      * apply map_lookup_filter_None. by left.
Qed.

Lemma run_refines cmds t m :
  refines t m →
  let '(t', rs) := run tree_step t cmds in
  let '(m', rs') := run spec_step m cmds in refines t' m' ∧ rs = rs'.
Proof.
  revert t m. induction cmds as [|cmd cmds IH]; intros t m Hr; cbn [run]; [done|].
  pose proof (tree_step_refines t m cmd Hr) as H.
  destruct (tree_step t cmd) as [t1 r], (spec_step m cmd) as [m1 r']. destruct H as [H1 ->].
  specialize (IH t1 m1 H1).
  destruct (run tree_step t1 cmds) as [t2 rs], (run spec_step m1 cmds) as [m2 rs'].
  destruct IH as [? ->]. done.
Qed.

(** ** Round-robin selection *)

Lemma sorted_members_perm e : sorted_members e ≡ₚ map_to_list (members e).
Proof. apply merge_sort_Permutation. Qed.

Lemma length_sorted_members e : length (sorted_members e) = size (members e).
Proof. by rewrite sorted_members_perm, length_map_to_list. Qed.

Lemma size_pos_nonempty (m : gmap string QoS) : m ≠ ∅ → (0 < size m)%nat.
Proof. intros H. apply map_size_non_empty_iff in H. lia. Qed.

Lemma select_member_Some e :
  members e ≠ ∅ → ∃ m, select_member e = Some m ∧ members e !! m.1 = Some m.2.
Proof.
  intros Hne%size_pos_nonempty. unfold select_member. rewrite length_sorted_members.
  destruct (lookup_lt_is_Some_2 (sorted_members e)
    (Z.to_nat (rr_counter e mod Z.of_nat (size (members e))))) as [m Hm].
  { rewrite length_sorted_members. pose proof (Z.mod_pos_bound (rr_counter e) (Z.of_nat (size (members e)))).
    lia. }
  exists m. split; [done|]. apply list_elem_of_lookup_2 in Hm.
  rewrite sorted_members_perm in Hm. destruct m. by apply elem_of_map_to_list in Hm.
Qed.

(** What one group contributes to a publication. *)
Definition group_pick (topic : string) (ke : (string * string) * SharedEntry)
    : option (string * QoS) :=
  if topic_matches_filter topic ke.1.2 && negb (bool_decide (members ke.2 = ∅))
  then select_member ke.2 else None.

Definition group_bump (topic : string) (k : string * string) (e : SharedEntry) : SharedEntry :=
  if topic_matches_filter topic k.2 && negb (bool_decide (members e = ∅))
  then bump_counter e else e.

Lemma shared_step_eq topic st k e :
  st.1 !! k = Some e →
  shared_step topic st (k, e) =
  (<[k := group_bump topic k e]> st.1, st.2 ++ option_list (group_pick topic (k, e))).
Proof.
  destruct st as [sh sel], k as [g f]. cbn [fst]. intros He. unfold shared_step, group_bump, group_pick. cbn [fst snd].
  destruct (topic_matches_filter topic f); cbn [negb andb];
    [destruct (bool_decide (members e = ∅)); cbn [negb]|]; cbn [option_list];
    rewrite ?insert_id, ?app_nil_r by done; [done| |done].
  destruct (select_member e); cbn [option_list]; by rewrite ?app_nil_r.
Qed.

Lemma shared_fold topic l sh sel :
  NoDup l.*1 → (∀ k e, (k, e) ∈ l → sh !! k = Some e) →
  let '(sh', sel') := foldl (shared_step topic) (sh, sel) l in
  sel' = sel ++ omap (group_pick topic) l ∧
  ∀ k, sh' !! k = if decide (k ∈ l.*1) then group_bump topic k <$> sh !! k else sh !! k.
Proof.
  revert sh sel. induction l as [|[k e] l IH]; intros sh sel Hnd Hl; cbn [foldl].
  { split; [by rewrite app_nil_r|]. intros k. by rewrite decide_False by apply not_elem_of_nil. }
  cbn [fmap list_fmap fst] in Hnd. apply NoDup_cons in Hnd as [Hk Hnd].
  rewrite shared_step_eq by (apply Hl; left). cbn [fst snd].
  set (sh1 := <[k := group_bump topic k e]> sh). specialize (IH sh1 (sel ++ option_list (group_pick topic (k, e))) Hnd).
  destruct (foldl _ _ l) as [sh' sel']. destruct IH as [-> Hsh'].
  { intros k' e' Hin. subst sh1. rewrite lookup_insert_ne; [apply Hl; by right|].
    intros ->. apply Hk. by apply (list_elem_of_fmap_2 fst _ _ Hin). }
  split.
  - rewrite <- app_assoc. f_equal. cbn [omap list_omap].
    by destruct (group_pick topic (k, e)).
  - intros k'. rewrite Hsh'. subst sh1. cbn [fmap list_fmap fst].
    destruct (decide (k' = k)) as [->|Hne].
    + rewrite (decide_False (P := k ∈ l.*1)) by done. rewrite decide_True by left.
      rewrite lookup_insert_eq, (Hl k e) by left. done.
    + rewrite lookup_insert_ne by done. destruct (decide (k' ∈ l.*1)) as [Hin|Hin].
      * by rewrite decide_True by (by right).
      * rewrite decide_False; [done|]. rewrite elem_of_cons. naive_solver.
Qed.

Lemma matches_shared_eq t topic :
  topic ≠ ""%string →
  (matches_shared t topic).2 = omap (group_pick topic) (map_to_list (shared t)) ∧
  root (matches_shared t topic).1 = root t ∧ reverse (matches_shared t topic).1 = reverse t ∧
  ∀ k, shared (matches_shared t topic).1 !! k = group_bump topic k <$> shared t !! k.
Proof.
  intros Ht. unfold matches_shared. destruct topic as [|a s]; [done|]. cbn [str_is_empty].
  set (topic := String a s) in *.
  pose proof (shared_fold topic (map_to_list (shared t)) (shared t) []
    (NoDup_fst_map_to_list _) ltac:(intros k e; apply elem_of_map_to_list)) as H.
  destruct (foldl _ _ _) as [sh' sel']. destruct H as [-> Hsh']. cbn.
  split_and!; [done..|]. intros k. rewrite Hsh'. destruct (decide _) as [_|Hn]; [done|].
  destruct (shared t !! k) eqn:E; [|done]. exfalso. apply Hn.
  apply elem_of_map_to_list in E. by apply (list_elem_of_fmap_2 fst _ _ E).
Qed.

(** Matching moves the groups' counters and nothing else. *)
Lemma matches_shared_inv t topic :
  tree_inv t →
  tree_inv (matches_shared t topic).1 ∧
  ∀ c f, sub_lookup (matches_shared t topic).1 c f = sub_lookup t c f.
Proof.
  intros Hinv. destruct (decide (topic = ""%string)) as [->|Ht]; [done|].
  destruct (matches_shared_eq t topic Ht) as (_ & Hr & Hrev & Hsh).
  assert (Hb : ∀ k e, members (group_bump topic k e) = members e ∧
                (0 ≤ rr_counter e < u64_mod → 0 ≤ rr_counter (group_bump topic k e) < u64_mod)).
  { intros k e. unfold group_bump. case_match; [|done]. split; [done|]. intros _. cbn.
    apply Z.mod_pos_bound. unfold u64_mod. lia. }
  assert (Hl : ∀ c f, sub_lookup (matches_shared t topic).1 c f = sub_lookup t c f).
  { intros c f. unfold sub_lookup. destruct (parse_shared_filter f) as [k|]; [|by rewrite Hr].
    rewrite Hsh. destruct (shared t !! k) as [e|]; [|done]. cbn. by rewrite (proj1 (Hb k e)). }
  split; [|done]. destruct Hinv as [Hwf Hp Hs Hi]. constructor.
  - by rewrite Hr.
  - intros segs c q. rewrite Hr. apply Hp.
  - intros g rf e. rewrite Hsh. destruct (shared t !! (g, rf)) as [e0|] eqn:E; [|done]. intros [= <-].
    destruct (Hs _ _ _ E) as (H1 & H2 & H3 & H4). destruct (Hb (g, rf) e0) as [Hm Hc].
    rewrite Hm. split; [done|]. split; [done|]. split; [by apply Hc|done].
  - rewrite Hrev. by eapply index_ext; [intros; symmetry; apply Hl|].
Qed.

Lemma members_iter_bump i e : members (Nat.iter i bump_counter e) = members e.
Proof. induction i; simpl; [done|]. by rewrite <- IHi. Qed.

Lemma counter_iter_bump i e :
  0 ≤ rr_counter e → rr_counter e + Z.of_nat i < u64_mod →
  rr_counter (Nat.iter i bump_counter e) = rr_counter e + Z.of_nat i.
Proof.
  intros H0. induction i as [|i IH]; intros Hi; simpl Nat.iter.
  { simpl. lia. }
  cbn. rewrite IH by lia. unfold wrap_u64. rewrite Z.mod_small; lia.
Qed.

(** The entry of a group after [i] publications on a topic it matches. *)
Lemma matches_shared_iter t topic k e i :
  topic ≠ ""%string → topic_matches_filter topic k.2 = true → members e ≠ ∅ →
  shared t !! k = Some e →
  shared (Nat.iter i (λ t, (matches_shared t topic).1) t) !! k = Some (Nat.iter i bump_counter e).
Proof.
  intros Ht Hm Hne He. induction i as [|i IH]; [done|]. simpl Nat.iter.
  destruct (matches_shared_eq (Nat.iter i (λ t, (matches_shared t topic).1) t) topic Ht)
    as (_ & _ & _ & ->).
  rewrite IH. simpl. unfold group_bump. by rewrite Hm, members_iter_bump, bool_decide_false.
Qed.

(** The selections of [n] consecutive publications are a rotation of the
    sorted members. *)
Lemma select_rotate e i :
  members e ≠ ∅ → 0 ≤ rr_counter e → rr_counter e + Z.of_nat i < u64_mod →
  (i < size (members e))%nat →
  select_member (Nat.iter i bump_counter e)
  = rotate (Z.to_nat (rr_counter e)) (sorted_members e) !! i.
Proof.
  intros Hne H0 Hi Hlt. unfold select_member.
  assert (Hs : sorted_members (Nat.iter i bump_counter e) = sorted_members e)
    by (unfold sorted_members; by rewrite members_iter_bump).
  rewrite Hs, counter_iter_bump by lia.
  rewrite lookup_rotate_r by (rewrite length_sorted_members; lia).
  unfold rotate_nat_add. f_equal. f_equal. by rewrite Z2Nat.id by lia.
Qed.

(** The selections of a publication, with the group of each. *)
Definition group_picks (topic : string) (l : list ((string * string) * SharedEntry))
    : list ((string * string) * (string * QoS)) :=
  omap (λ ke, (λ m, (ke.1, m)) <$> group_pick topic ke) l.

Lemma group_picks_snd topic l : (group_picks topic l).*2 = omap (group_pick topic) l.
Proof.
  induction l as [|ke l IH]; [done|]. unfold group_picks. cbn [omap list_omap].
  fold (group_picks topic l). destruct (group_pick topic ke); cbn; by rewrite ?IH.
Qed.

Lemma elem_of_group_picks topic l k m :
  (k, m) ∈ group_picks topic l ↔
  ∃ e, (k, e) ∈ l ∧ topic_matches_filter topic k.2 = true ∧ members e ≠ ∅
       ∧ select_member e = Some m.
Proof.
  unfold group_picks. rewrite list_elem_of_omap. split.
  - intros ([k0 e0] & Hin & Hg). unfold group_pick in Hg. cbn [fst snd] in Hg.
    destruct (topic_matches_filter topic k0.2) eqn:Em; [|done].
    destruct (bool_decide_reflect (members e0 = ∅)); [done|]. cbn [negb andb] in Hg.
    destruct (select_member e0) eqn:Es; simplify_eq/=. eauto.
  - intros (e & Hin & Hm & Hne & Hsm). exists (k, e). split; [done|].
    unfold group_pick. cbn [fst snd]. by rewrite Hm, bool_decide_false, Hsm.
Qed.

Lemma group_picks_nodup topic l : NoDup l.*1 → NoDup (group_picks topic l).*1.
Proof.
  induction l as [|[k e] l IH]; [done|]. cbn [fmap list_fmap fst]. rewrite NoDup_cons.
  intros [Hk Hnd]. unfold group_picks. cbn [omap list_omap]. fold (group_picks topic l).
  destruct (group_pick topic (k, e)); cbn; [|by apply IH]. apply NoDup_cons.
  split; [|by apply IH]. rewrite list_elem_of_fmap. intros ([k' m'] & -> & Hin).
  apply elem_of_group_picks in Hin as (e' & Hin & _). apply Hk.
  by apply (list_elem_of_fmap_2 fst _ _ Hin).
Qed.

(** ** Theorems *)

(** C1: refinement.  Any sequence of subscribe, unsubscribe and unsubscribe_all
    commands gives, on the trie, the reverse index and the shared table
    together, the responses of the one abstract table from (client, filter) to
    QoS; afterwards the tree represents that table and its reverse index lists
    exactly each client's subscriptions, once each. *)
Theorem subscription_refinement cmds :
  let '(t, rs) := run tree_step SubscriptionTree_new cmds in
  let '(m, rs') := run spec_step ∅ cmds in
  rs = rs' ∧
  (∀ c f, sub_lookup t c f = m !! (c, f)) ∧
  (∀ c f q, (f, q) ∈ subscriptions_of t c ↔ m !! (c, f) = Some q) ∧
  (∀ c, NoDup (subscriptions_of t c).*1).
Proof.
  pose proof (run_refines cmds SubscriptionTree_new ∅) as H.
  destruct (run tree_step _ cmds) as [t rs], (run spec_step _ cmds) as [m rs'].
  destruct H as [[Hinv Hl] ->].
  { split; [apply tree_inv_new|]. intros c f. rewrite lookup_empty. unfold sub_lookup.
    destruct (parse_shared_filter f); simpl; by rewrite ?sub_at_default, ?lookup_empty. }
  destruct (inv_index t Hinv) as (Hr & Hnd & _).
  split_and!; [done|done| |done]. intros c f q. by rewrite <- Hl, <- Hr.
Qed.

(** The trie walk alone: what [matches] answers depends on the trie. *)
Lemma matches_spec t topic :
  node_wf (root t) →
  (∀ segs c q, sub_at (root t) segs !! c = Some q →
     ∃ f, segs = str_split slash f ∧ validate_filter f = Ok tt ∧ parse_shared_filter f = None) →
  topic ≠ ""%string →
  (∀ c q, (c, q) ∈ matches t topic ↔
     (∃ f, parse_shared_filter f = None ∧ sub_lookup t c f = Some q
           ∧ topic_matches_filter topic f = true)
     ∧ (∀ f q', parse_shared_filter f = None → sub_lookup t c f = Some q' →
                topic_matches_filter topic f = true → qos_le q' q))
  ∧ NoDup (matches t topic).*1.
Proof.
  intros Hwf Hp Ht.
  assert (Hq : ∀ c q, (c, q) ∈ collect_matches (root t) (str_split slash topic) [] ↔
    ∃ f, parse_shared_filter f = None ∧ sub_lookup t c f = Some q
         ∧ topic_matches_filter topic f = true).
  { intros c q. rewrite elem_of_collect, elem_of_nil by done. split.
    - intros [[]|(fs & Hm & Hs)]. destruct (Hp _ _ _ Hs) as (f & -> & Hv & Hsh).
      exists f. unfold sub_lookup. rewrite Hsh. by rewrite topic_matches_fmatch.
    - intros (f & Hsh & Hs & Hm). right. exists (str_split slash f).
      unfold sub_lookup in Hs. rewrite Hsh in Hs. split; [|done].
      destruct (Hp _ _ _ Hs) as (f' & ->%str_split_inj & Hv & _).
      by rewrite <- topic_matches_fmatch. }
  unfold matches. destruct topic as [|a s]; [done|]. cbn [str_is_empty].
  split; [|apply NoDup_fst_map_to_list].
  intros c q. rewrite elem_of_map_to_list, best_fold, Hq. naive_solver.
Qed.

(** C13: [matches] is exactly the query "clients with a matching plain
    subscription, at the largest of their QoS": the trie walk agrees with
    [topic_matches_filter] on every stored filter, and each client appears
    once. *)
Theorem matches_correct t topic :
  tree_inv t → topic ≠ ""%string →
  (∀ c q, (c, q) ∈ matches t topic ↔
     (∃ f, parse_shared_filter f = None ∧ sub_lookup t c f = Some q
           ∧ topic_matches_filter topic f = true)
     ∧ (∀ f q', parse_shared_filter f = None → sub_lookup t c f = Some q' →
                topic_matches_filter topic f = true → qos_le q' q))
  ∧ NoDup (matches t topic).*1.
Proof. intros [Hwf Hp _ _]. by apply matches_spec. Qed.

Definition ok_tree (r : BrokerResult SubscriptionTree) : SubscriptionTree :=
  match r with Ok t => t | Err _ => SubscriptionTree_new end.

(** A tree for the witnesses: two overlapping plain subscriptions and a group. *)
Definition sample_tree : SubscriptionTree :=
  let t := ok_tree (subscribe SubscriptionTree_new "c1" "a/+/c" QoS.AtLeastOnce) in
  let t := ok_tree (subscribe t "c1" "a/#" QoS.AtMostOnce) in
  let t := ok_tree (subscribe t "c2" "$share/g/a/#" QoS.ExactlyOnce) in
  ok_tree (subscribe t "c3" "$share/g/a/#" QoS.AtMostOnce).

Lemma ok_tree_subscribe t c f q : tree_inv t → tree_inv (ok_tree (subscribe t c f q)).
Proof.
  intros Ht. destruct (subscribe t c f q) eqn:E; simpl; [by eapply subscribe_inv|apply tree_inv_new].
Qed.

Lemma sample_tree_inv : tree_inv sample_tree.
Proof. unfold sample_tree. cbv zeta. do 4 apply ok_tree_subscribe. apply tree_inv_new. Qed.

Lemma matches_correct_witness :
  matches sample_tree "a/b/c" = [("c1"%string, QoS.AtLeastOnce)] ∧
  NoDup (matches sample_tree "a/b/c").*1.
Proof.
  split; [vm_compute; reflexivity|].
  apply (matches_correct sample_tree "a/b/c" sample_tree_inv). discriminate.
Defined.

(** Every matching shared group delivers to exactly one of its members, and
    the publication changes only the counters of those groups: the abstract
    table and the invariant are kept. *)
Theorem matches_shared_correct t topic :
  tree_inv t → topic ≠ ""%string →
  let '(t', selected) := matches_shared t topic in
  (∃ picks, selected = picks.*2 ∧ NoDup picks.*1 ∧
     ∀ k m, (k, m) ∈ picks ↔ ∃ e, shared t !! k = Some e ∧
       topic_matches_filter topic k.2 = true ∧ select_member e = Some m) ∧
  (∀ k e, shared t !! k = Some e → ∃ m, select_member e = Some m ∧ members e !! m.1 = Some m.2) ∧
  tree_inv t' ∧ ∀ c f, sub_lookup t' c f = sub_lookup t c f.
Proof.
  intros [Hwf Hp Hs Hi] Ht. destruct (matches_shared t topic) as [t' sel] eqn:E.
  destruct (matches_shared_eq t topic Ht) as (Hsel & Hr & Hrev & Hsh).
  rewrite E in *. cbn [fst snd] in *.
  assert (Hl : ∀ c f, sub_lookup t' c f = sub_lookup t c f).
  { intros c f. unfold sub_lookup. rewrite Hr. destruct (parse_shared_filter f) as [k|]; [|done].
    rewrite Hsh. destruct (shared t !! k) as [e|]; [|done]. simpl. unfold group_bump.
    by destruct (_ && _). }
  split_and!; [| | |done].
  - exists (group_picks topic (map_to_list (shared t))). split_and!.
    + by rewrite group_picks_snd.
    + apply group_picks_nodup, NoDup_fst_map_to_list.
    + intros k m. rewrite elem_of_group_picks. split.
      * intros (e & Hin & Hm & _ & Hsm). apply elem_of_map_to_list in Hin. eauto.
      * intros (e & He & Hm & Hsm). exists e. rewrite elem_of_map_to_list.
        destruct k as [g rf]. destruct (Hs _ _ _ He) as [Hne _]. done.
  - intros [g rf] e He. apply select_member_Some. by eapply Hs.
  - constructor; [by rewrite Hr|by rewrite Hr| |].
    + intros g rf e'. rewrite Hsh. destruct (shared t !! (g, rf)) as [e|] eqn:He; [|done].
      intros [= <-]. destruct (Hs _ _ _ He) as (Hne & Hv & Hc & Hf). unfold group_bump.
      destruct (_ && _); [|done]. split_and!; try done; cbn;
        apply Z.mod_pos_bound; unfold u64_mod; lia.
    + rewrite Hrev. eapply index_ext; [|done]. intros. by rewrite Hl.
Qed.

Lemma matches_shared_correct_witness :
  (matches_shared sample_tree "a").2 = [("c2"%string, QoS.ExactlyOnce)] ∧
  tree_inv (matches_shared sample_tree "a").1.
Proof.
  split; [vm_compute; reflexivity|].
  pose proof (matches_shared_correct sample_tree "a" sample_tree_inv ltac:(discriminate)) as H.
  destruct (matches_shared sample_tree "a") as [t' sel]. exact (proj1 (proj2 (proj2 H))).
Defined.

(** C34: round robin.  Over as many consecutive publications as a matching group
    has members (while its 64-bit counter does not wrap), each member is
    selected exactly once. *)
Theorem shared_round_robin t topic k e :
  tree_inv t → topic ≠ ""%string → topic_matches_filter topic k.2 = true →
  shared t !! k = Some e → rr_counter e + Z.of_nat (size (members e)) ≤ u64_mod →
  ∃ picks, picks ≡ₚ map_to_list (members e) ∧
    ∀ i, (i < size (members e))%nat →
      let ti := Nat.iter i (λ t, (matches_shared t topic).1) t in
      ∃ m ei, picks !! i = Some m ∧ shared ti !! k = Some ei ∧ select_member ei = Some m
              ∧ m ∈ (matches_shared ti topic).2.
Proof.
  intros [_ _ Hs _] Ht Hm He Hw. destruct k as [g rf]. destruct (Hs _ _ _ He) as (Hne & _ & Hc & _).
  exists (rotate (Z.to_nat (rr_counter e)) (sorted_members e)). split.
  { rewrite <- sorted_members_perm. unfold rotate. rewrite Permutation_app_comm. by rewrite take_drop. }
  intros i Hi ti.
  pose proof (matches_shared_iter t topic (g, rf) e i Ht Hm Hne He) as Hti. fold ti in Hti.
  pose proof (select_rotate e i Hne ltac:(lia) ltac:(lia) Hi) as Hsel.
  destruct (select_member_Some (Nat.iter i bump_counter e)) as (m & Hsm & _).
  { by rewrite members_iter_bump. }
  exists m, (Nat.iter i bump_counter e). split_and!; [congruence|done|done|].
  destruct (matches_shared_eq ti topic Ht) as (-> & _). apply list_elem_of_omap.
  exists ((g, rf), Nat.iter i bump_counter e). rewrite elem_of_map_to_list. split; [done|].
  unfold group_pick. cbn [fst snd] in *. by rewrite Hm, members_iter_bump, bool_decide_false.
Qed.

Lemma shared_round_robin_witness :
  let e := mkSharedEntry (<["c2"%string := QoS.ExactlyOnce]> (<["c3"%string := QoS.AtMostOnce]> ∅)) 0 in
  ∃ picks, picks ≡ₚ map_to_list (members e) ∧
    ∀ i, (i < size (members e))%nat →
      let ti := Nat.iter i (λ t, (matches_shared t "a/x").1) sample_tree in
      ∃ m ei, picks !! i = Some m ∧ shared ti !! ("g"%string, "a/#"%string) = Some ei
              ∧ select_member ei = Some m ∧ m ∈ (matches_shared ti "a/x").2.
Proof.
  apply (shared_round_robin sample_tree "a/x" ("g"%string, "a/#"%string)).
  - exact sample_tree_inv.
  - discriminate.
  - vm_compute; reflexivity.
  - vm_compute; reflexivity.
  - vm_compute; discriminate.
Defined.
