(* ===== verification/SubscriptionCount.v ===== *)
(** * Counting subscriptions

    The recursive counts of the subscription tree are the number of entries of
    the abstract table. *)

From S2P Require Import Prelude Packet Subscription SubscriptionProofs SubscriptionTheorems.

(** ** Counted predicates *)

(** [P] holds of exactly [n] values. *)
Definition counted {A} (P : A → Prop) (n : nat) : Prop :=
  ∃ l : list A, NoDup l ∧ (∀ x, x ∈ l ↔ P x) ∧ length l = n.

Section Counted.
Context {A : Type}.
Implicit Types P Q : A → Prop.

Lemma counted_unique P n m : counted P n → counted P m → n = m.
Proof.
  intros (l & Hl & Hx & <-) (k & Hk & Hy & <-). apply Permutation_length, NoDup_Permutation; [done..|].
  intros x. by rewrite Hx, Hy.
Qed.

Lemma counted_ext P Q n : (∀ x, P x ↔ Q x) → counted P n → counted Q n.
Proof. intros H (l & Hl & Hx & Hn). exists l. split; [done|]. split; [|done]. intros x. by rewrite Hx, H. Qed.

Lemma counted_none P : (∀ x, ¬ P x) → counted P 0.
Proof.
  intros H. exists []. split; [constructor|]. split; [|done]. intros x. split; [by intros ?%not_elem_of_nil|by intros ?%H].
Qed.

Lemma counted_or P Q n m :
  (∀ x, P x → Q x → False) → counted P n → counted Q m → counted (λ x, P x ∨ Q x) (n + m).
Proof.
  intros Hd (l & Hl & Hx & <-) (k & Hk & Hy & <-). exists (l ++ k). split; [|split].
  - apply NoDup_app. split; [done|]. split; [|done]. intros x ?%Hx ?%Hy. by eapply Hd.
  - intros x. by rewrite elem_of_app, Hx, Hy.
  - apply length_app.
Qed.
End Counted.

(** The image under a function that is injective on the predicate. *)
Lemma counted_map {A B} (f : A → B) (P : A → Prop) n :
  (∀ x y, P x → P y → f x = f y → x = y) → counted P n → counted (λ y, ∃ x, y = f x ∧ P x) n.
Proof.
  intros Hinj (l & Hl & Hx & <-). exists (map f l). split; [|split; [|apply length_map]].
  - assert (Hin : ∀ x, x ∈ l → P x) by (intros x; by rewrite Hx). clear Hx.
    induction Hl as [|x l Hx Hl IH]; cbn; constructor.
    + intros (y & E & Hy)%list_elem_of_fmap. apply Hinj in E; [by subst|apply Hin; by left|apply Hin; by right].
    + apply IH. intros y Hy. apply Hin. by right.
  - intros y. rewrite list_elem_of_fmap. split; intros (x & E & Hp); exists x; (split; [done|]); by apply Hx.
Qed.

Lemma counted_keys {K V} `{Countable K} (m : gmap K V) : counted (λ k, is_Some (m !! k)) (size m).
Proof.
  exists (map_to_list m).*1. split; [apply NoDup_fst_map_to_list|]. split; [|by rewrite length_fmap, length_map_to_list].
  intros k. rewrite list_elem_of_fmap. split.
  - intros ([k' v] & -> & Hv%elem_of_map_to_list). by exists v.
  - intros [v Hv]. exists (k, v). split; [done|]. by apply elem_of_map_to_list.
Qed.

(** A sum over a map counts the pairs of a key and something of its value. *)
Lemma counted_map_fold {K V B} `{Countable K} (m : gmap K V) (count : V → nat) (P : V → B → Prop) :
  (∀ k v, m !! k = Some v → counted (P v) (count v)) →
  counted (λ kb : K * B, ∃ v, m !! kb.1 = Some v ∧ P v kb.2) (map_fold (λ _ v n, (n + count v)%nat) 0%nat m).
Proof.
  apply (map_fold_weak_ind (λ n m, (∀ k v, m !! k = Some v → counted (P v) (count v)) →
    counted (λ kb : K * B, ∃ v, m !! kb.1 = Some v ∧ P v kb.2) n)); clear m.
  { intros _. apply counted_none. by intros [k b] (v & [=] & _). }
  intros k v m n Hk IH Hc. assert (Hv : counted (P v) (count v)) by (apply (Hc k); apply lookup_insert_eq).
  eapply (counted_ext (λ kb, (∃ v, m !! kb.1 = Some v ∧ P v kb.2) ∨ ∃ b, kb = (k, b) ∧ P v b)).
  - intros [i b]. cbn. destruct (decide (i = k)) as [->|Hne].
    + rewrite lookup_insert_eq. naive_solver.
    + rewrite lookup_insert_ne by done. naive_solver.
  - apply counted_or; [intros [i b]; cbn; naive_solver| |].
    + apply IH. intros i v' Hi. apply (Hc i). rewrite lookup_insert_ne; [done|]. by intros ->; rewrite Hk in Hi.
    + apply counted_map; [naive_solver|done].
Qed.

(** ** The trie *)

Definition at_path (node : Node) (pc : list string * string) : Prop := is_Some (sub_at node pc.1 !! pc.2).

(** What is stored under a child, as seen from its parent. *)
Definition under (seg : string) (child : option Node) (pc : list string * string) : Prop :=
  ∃ c p, child = Some c ∧ pc.1 = seg :: p ∧ at_path c (p, pc.2).

Lemma counted_under seg child n :
  (∀ c, child = Some c → counted (at_path c) (n c)) →
  counted (under seg child) (match child with Some c => n c | None => 0%nat end).
Proof.
  intros Hc. destruct child as [c|]; [|apply counted_none; by intros [p d] (? & ? & ? & _)].
  eapply counted_ext; [|apply (counted_map (λ pc, (seg :: pc.1, pc.2)) (at_path c)), (Hc c eq_refl)].
  - intros [p d]. split.
    + intros ([p' d'] & [= -> ->] & H). by exists c, p'.
    + intros (c' & p' & [= <-] & Hp & H). cbn in Hp. exists (p', d). by subst.
  - intros [p d] [p' d'] _ _ [= -> ->]. done.
Qed.

Lemma counted_children (m : gmap string Node) (n : Node → nat) :
  (∀ seg c, m !! seg = Some c → counted (at_path c) (n c)) →
  counted (λ pc, ∃ seg, under seg (m !! seg) pc) (map_fold (λ _ c k, (k + n c)%nat) 0%nat m).
Proof.
  intros Hc. eapply counted_ext; [|apply (counted_map (λ x : string * (list string * string), (x.1 :: x.2.1, x.2.2))),
    (counted_map_fold m n at_path Hc)].
  - intros [p d]. split.
    + intros ([seg [p' d']] & [= -> ->] & c & Hm & H). exists seg, c, p'. done.
    + intros (seg & c & p' & Hm & Hp & H). cbn in Hp. exists (seg, (p', d)). subst. split; [done|]. by exists c.
  - intros [s [p d]] [s' [p' d']] _ _ [= -> -> ->]. done.
Qed.

Lemma count_subscribers_eq node :
  count_subscribers node =
  (size (subscribers node) + map_fold (λ _ c k, (k + count_subscribers c)%nat) 0%nat (children node)
   + match plus_child node with Some c => count_subscribers c | None => 0 end
   + match hash_child node with Some c => count_subscribers c | None => 0 end)%nat.
Proof.
  destruct node as [ch p h subs]. cbn [count_subscribers subscribers children plus_child hash_child].
  set (f := λ (_ : string) c n, _).
  assert (E : map_fold f (size subs) ch = (size subs + map_fold f 0 ch)%nat).
  { rewrite <-(map_fold_comm_acc f (Nat.add (size subs))) by (intros; unfold f; lia). by rewrite Nat.add_0_r. }
  rewrite E.
  destruct p, h; lia.
Qed.

Lemma count_trie node : node_wf node → counted (at_path node) (count_subscribers node).
Proof.
  induction 1 as [node Hp Hh _ IH]. rewrite count_subscribers_eq.
  eapply (counted_ext (λ pc, ((pc.1 = [] ∧ is_Some (subscribers node !! pc.2)
     ∨ (∃ seg, under seg (children node !! seg) pc)) ∨ under "+" (plus_child node) pc) ∨ under "#" (hash_child node) pc)).
  - intros [[|seg p] d]; unfold at_path, under; cbn [fst snd sub_at].
    { split; [|naive_solver]. by intros [[[[_ ?]|(? & ? & ? & ? & ? & _)]|(? & ? & ? & ? & _)]|(? & ? & ? & ? & _)]. }
    unfold get_child. split.
    + intros [[[[? _]|(s & c & p' & Hc & [= <- <-] & H)]|(c & p' & Hc & [= -> <-] & H)]|(c & p' & Hc & [= -> <-] & H)];
        [done| | |].
      * rewrite !bool_decide_false by congruence. by rewrite Hc.
      * rewrite bool_decide_true by done. by rewrite Hc.
      * rewrite bool_decide_false, bool_decide_true by done. by rewrite Hc.
    + intros H. seg_cases; subst.
      * left. right. destruct (plus_child node) as [c|]; [|by destruct H]. by exists c, p.
      * right. destruct (hash_child node) as [c|]; [|by destruct H]. by exists c, p.
      * left. left. right. exists seg. destruct (children node !! seg) as [c|]; [|by destruct H]. by exists c, p.
  - assert (Hget : ∀ seg c, children node !! seg = Some c → get_child node seg = Some c).
    { intros seg c Hc. unfold get_child. rewrite !bool_decide_false by congruence. done. }
    unfold under. repeat apply counted_or.
    + intros [p d]; cbn; naive_solver.
    + intros [p d]; cbn. naive_solver.
    + intros [p d]; cbn. naive_solver.
    + eapply counted_ext; [|apply (counted_map (λ d, ([], d)) (λ d, is_Some (subscribers node !! d))), counted_keys; naive_solver].
      intros [p d]. cbn. naive_solver.
    + apply counted_children. intros seg c Hc. apply (IH seg). auto.
    + apply counted_under. intros c Hc. apply (IH "+"). unfold get_child. by rewrite bool_decide_true.
    + apply counted_under. intros c Hc. apply (IH "#"). unfold get_child. by rewrite bool_decide_false, bool_decide_true.
Qed.

(** ** The tree *)

(** The subscriptions without and with a share group. *)
Definition normal_entry (t : SubscriptionTree) (cf : string * string) : Prop :=
  parse_shared_filter cf.2 = None ∧ is_Some (sub_lookup t cf.1 cf.2).
Definition shared_entry (t : SubscriptionTree) (cf : string * string) : Prop :=
  parse_shared_filter cf.2 ≠ None ∧ is_Some (sub_lookup t cf.1 cf.2).

Lemma counted_normal t : tree_inv t → counted (normal_entry t) (count_subscribers (root t)).
Proof.
  intros Hi. pose proof (count_trie (root t) (inv_wf t Hi)) as Hc.
  eapply counted_ext; [|apply (counted_map (λ pc, (pc.2, str_join slash pc.1)) (at_path (root t))), Hc].
  - intros [c f]. unfold normal_entry, sub_lookup. cbn. split.
    + intros ([p d] & [= -> ->] & Hx). destruct Hx as [q Hq]. cbn in Hq.
      destruct (inv_paths t Hi _ _ _ Hq) as (f & -> & _ & Hf). rewrite str_join_split, Hf. eauto.
    + intros [Hf Hs]. rewrite Hf in Hs. exists (str_split slash f, c). cbn. by rewrite str_join_split.
  - intros [p d] [p' d'] [q Hq] [q' Hq'] [= -> E]. cbn in Hq, Hq'. f_equal.
    destruct (inv_paths t Hi _ _ _ Hq) as (f & -> & _), (inv_paths t Hi _ _ _ Hq') as (f' & -> & _).
    rewrite !str_join_split in E. by subst.
Qed.

(** The filter of a group, from the key of the shared table. *)
Definition share_name (k : string * string) : string :=
  (SHARE_PREFIX ++ String slash (k.1 ++ String slash k.2))%string.

Lemma share_name_parse f k : parse_shared_filter f = Some k → f = share_name k.
Proof. destruct k. apply parse_shared_filter_spec. Qed.

(** The keys of the shared table are filters. *)
Lemma shared_key t k e : tree_inv t → shared t !! k = Some e → parse_shared_filter (share_name k) = Some k.
Proof.
  intros Hi He. destruct k as [g rf]. destruct (inv_shared t Hi _ _ _ He) as (_ & _ & _ & f & Hf).
  by rewrite <-(share_name_parse _ _ Hf).
Qed.

Lemma counted_shared t : tree_inv t → counted (shared_entry t) (shared_count (shared t)).
Proof.
  intros Hi. set (P := λ kc : string * string * string, ∃ e, shared t !! kc.1 = Some e ∧ is_Some (members e !! kc.2)).
  eapply counted_ext; [|apply (counted_map (λ kc : string * string * string, (kc.2, share_name kc.1)) P),
    (counted_map_fold (shared t) (λ e, size (members e)) (λ e c, is_Some (members e !! c)) (λ _ e _, counted_keys (members e)))].
  - intros [c f]. unfold shared_entry, sub_lookup. cbn. split.
    + intros ([k d] & [= -> ->] & e & He & Hm). cbn in *. rewrite (shared_key _ _ _ Hi He), He. done.
    + intros [Hne Hs]. destruct (parse_shared_filter f) as [k|] eqn:Hf; [|done].
      destruct (shared t !! k) as [e|] eqn:He; [|by destruct Hs].
      exists (k, c). rewrite (share_name_parse _ _ Hf). split; [done|]. by exists e.
  - intros [k c] [k' c'] (e & He & _) (e' & He' & _) E.
    apply (f_equal fst) in E as Hc. apply (f_equal snd) in E as Hk. cbn in *. subst c'. f_equal.
    apply (shared_key _ _ _ Hi) in He, He'. rewrite Hk in He. congruence.
Qed.

(** The counts of the tree are those of the table it implements. *)
Lemma refines_counts t m :
  refines t m →
  subscription_counts t = (size (filter (λ kv, parse_shared_filter kv.1.2 = None) m),
                           size (filter (λ kv, parse_shared_filter kv.1.2 ≠ None) m)) ∧
  subscriber_count t = size m.
Proof.
  intros [Hi Hl]. pose proof (counted_normal t Hi) as Hn. pose proof (counted_shared t Hi) as Hs.
  assert (Hf : ∀ (P : (string * string) * QoS → Prop) `{!∀ x, Decision (P x)} (R : string * string → Prop) n,
            (∀ k q, P (k, q) ↔ R k) → counted (λ cf, R cf ∧ is_Some (sub_lookup t cf.1 cf.2)) n → n = size (filter P m)).
  { intros P HP R n HR Hc. eapply counted_unique; [exact Hc|].
    eapply counted_ext; [|apply counted_keys]. intros [c f]. cbn. rewrite Hl. unfold is_Some.
    setoid_rewrite map_lookup_filter_Some. setoid_rewrite HR. naive_solver. }
  split.
  - unfold subscription_counts. f_equal.
    + by apply (Hf _ _ (λ cf, parse_shared_filter cf.2 = None)).
    + by apply (Hf _ _ (λ cf, parse_shared_filter cf.2 ≠ None)).
  - eapply counted_unique; [|apply counted_keys]. unfold subscriber_count.
    eapply counted_ext; [|apply counted_or; [|exact Hn|exact Hs]].
    + intros [c f]. unfold normal_entry, shared_entry. cbn. rewrite Hl. destruct (parse_shared_filter f); naive_solver.
    + unfold normal_entry, shared_entry. naive_solver.
Qed.
