(* ===== verification/Metrics.v ===== *)
(** * Runtime metrics, [src/monitor/metrics.rs]

    The counters of the global [METRICS], their increments with the wrapping of
    [AtomicU64] and [AtomicI64], the snapshot, and the Prometheus text. *)

From S2P Require Import Prelude.

Record Metrics := mkMetrics {
  connections_total : Z;
  connections_current : Z;
  connections_pending : Z;
  disconnect_count : Z;
  messages_received : Z;
  messages_sent : Z;
  publish_received : Z;
  publish_by_qos : list Z;
  messages_dropped : Z;
  subscribe_count : Z;
  unsubscribe_count : Z;
  subscriptions_current : Z;
  shared_subscriptions_current : Z;
  sessions_total : Z;
  sessions_offline : Z;
  sessions_expired : Z;
  storage_writes : Z;
  storage_reads : Z;
  retained_stored : Z;
  security_rejected : Z;
  plugin_rejected : Z;
  forward_dropped : Z;
}.

#[export] Instance Metrics_settable : Settable Metrics :=
  λ m, mkMetrics (connections_total m) (connections_current m) (connections_pending m)
         (disconnect_count m) (messages_received m) (messages_sent m)
         (publish_received m) (publish_by_qos m) (messages_dropped m)
         (subscribe_count m) (unsubscribe_count m) (subscriptions_current m)
         (shared_subscriptions_current m) (sessions_total m) (sessions_offline
         m) (sessions_expired m) (storage_writes m) (storage_reads m)
         (retained_stored m) (security_rejected m) (plugin_rejected m)
         (forward_dropped m).

Definition METRICS : Metrics :=
  mkMetrics 0 0 0 0 0 0 0 [0; 0; 0] 0 0 0 0 0 0 0 0 0 0 0 0 0 0.

(** [fetch_add(1)] and [fetch_sub(1)] of the two atomic types. *)
Definition add_u64 (z : Z) : Z := wrap_u64 (z + 1).
Definition add_i64 (z : Z) : Z := wrap_i64 (z + 1).
Definition sub_i64 (z : Z) : Z := wrap_i64 (z - 1).

Definition inc_connections (m : Metrics) : Metrics :=
  m <| connections_total ::= add_u64 |> <| connections_current ::= add_i64 |>.
Definition dec_connections (m : Metrics) : Metrics := m <| connections_current ::= sub_i64 |>.
Definition inc_pending (m : Metrics) : Metrics := m <| connections_pending ::= add_i64 |>.
Definition dec_pending (m : Metrics) : Metrics := m <| connections_pending ::= sub_i64 |>.
Definition pending_connections (m : Metrics) : Z := connections_pending m.
Definition inc_publish (m : Metrics) : Metrics :=
  m <| publish_received ::= add_u64 |> <| messages_received ::= add_u64 |>.
Definition inc_publish_qos (m : Metrics) (qos_level : Z) : Metrics :=
  match (match qos_level with 0 => Some 0%nat | 1 => Some 1%nat | 2 => Some 2%nat | _ => None end) with
  | Some idx => m <| publish_by_qos ::= alter add_u64 idx |>
  | None => m
  end.
Definition inc_sent (m : Metrics) : Metrics := m <| messages_sent ::= add_u64 |>.
Definition inc_message_dropped (m : Metrics) : Metrics := m <| messages_dropped ::= add_u64 |>.
Definition inc_subscribe (m : Metrics) : Metrics := m <| subscribe_count ::= add_u64 |>.
Definition inc_unsubscribe (m : Metrics) : Metrics := m <| unsubscribe_count ::= add_u64 |>.
Definition inc_disconnect (m : Metrics) : Metrics := m <| disconnect_count ::= add_u64 |>.
Definition inc_sessions_expired (m : Metrics) : Metrics := m <| sessions_expired ::= add_u64 |>.
Definition inc_storage_write (m : Metrics) : Metrics := m <| storage_writes ::= add_u64 |>.
Definition inc_storage_read (m : Metrics) : Metrics := m <| storage_reads ::= add_u64 |>.
Definition inc_retained_stored (m : Metrics) : Metrics := m <| retained_stored ::= add_u64 |>.
Definition inc_security_rejected (m : Metrics) : Metrics := m <| security_rejected ::= add_u64 |>.
Definition inc_plugin_rejected (m : Metrics) : Metrics := m <| plugin_rejected ::= add_u64 |>.
Definition inc_forward_dropped (m : Metrics) : Metrics := m <| forward_dropped ::= add_u64 |>.
Definition set_subscriptions (m : Metrics) (n : Z) : Metrics := m <| subscriptions_current := n |>.
Definition set_shared_subscriptions (m : Metrics) (n : Z) : Metrics := m <| shared_subscriptions_current := n |>.
Definition set_sessions_total (m : Metrics) (n : Z) : Metrics := m <| sessions_total := n |>.
Definition set_sessions_offline (m : Metrics) (n : Z) : Metrics := m <| sessions_offline := n |>.

(** [MetricsSnapshot], its fields prefixed with [ms_]. *)
Record MetricsSnapshot := mkMetricsSnapshot {
  ms_connections_total : Z;
  ms_connections_current : Z;
  ms_connections_pending : Z;
  ms_disconnect_count : Z;
  ms_messages_received : Z;
  ms_messages_sent : Z;
  ms_publish_received : Z;
  ms_publish_qos0 : Z;
  ms_publish_qos1 : Z;
  ms_publish_qos2 : Z;
  ms_messages_dropped : Z;
  ms_subscribe_count : Z;
  ms_unsubscribe_count : Z;
  ms_subscriptions_current : Z;
  ms_shared_subscriptions_current : Z;
  ms_sessions_total : Z;
  ms_sessions_offline : Z;
  ms_sessions_expired : Z;
  ms_storage_writes : Z;
  ms_storage_reads : Z;
  ms_retained_stored : Z;
  ms_security_rejected : Z;
  ms_plugin_rejected : Z;
  ms_forward_dropped : Z;
}.

(** [self.publish_by_qos[i]]; the array has three cells. *)
Definition qos_cell (m : Metrics) (i : nat) : Z := default 0 (publish_by_qos m !! i).

Definition snapshot (m : Metrics) : MetricsSnapshot :=
  mkMetricsSnapshot
    (connections_total m) (connections_current m) (connections_pending m)
    (disconnect_count m) (messages_received m) (messages_sent m)
    (publish_received m) (qos_cell m 0) (qos_cell m 1) (qos_cell m 2)
    (messages_dropped m) (subscribe_count m) (unsubscribe_count m)
    (subscriptions_current m) (shared_subscriptions_current m) (sessions_total
    m) (sessions_offline m) (sessions_expired m) (storage_writes m)
    (storage_reads m) (retained_stored m) (security_rejected m)
    (plugin_rejected m) (forward_dropped m).

(** The newline character. *)
Definition nl : string := String (ascii_of_byte 10) "".

Definition push_metric (out name help : string) (value : Z) (kind : string) : string :=
  let out := out +:+ ("# HELP " +:+ name +:+ " " +:+ help +:+ nl) in
  let out := out +:+ ("# TYPE " +:+ name +:+ " " +:+ kind +:+ nl) in
  out +:+ (name +:+ " " +:+ fmt_Z value +:+ nl).

(** [x.max(0) as u64] of a gauge. *)
Definition gauge (z : Z) : Z := Z.max z 0.

Definition prometheus_text (m : Metrics) : string :=
  let s := snapshot m in
  let out := ""%string in
  let out := push_metric out "lumenmq_connections_total"
    "Cumulative connections since start" (ms_connections_total s) "counter" in
  let out := push_metric out "lumenmq_connections_current"
    "Current online connections" (gauge (ms_connections_current s)) "gauge" in
  let out := push_metric out "lumenmq_connections_pending"
    "Half-open connections (accepted, not yet authenticated)" (gauge (ms_connections_pending s)) "gauge" in
  let out := push_metric out "lumenmq_disconnect_total"
    "Cumulative disconnects" (ms_disconnect_count s) "counter" in
  let out := push_metric out "lumenmq_messages_received_total"
    "Cumulative inbound messages" (ms_messages_received s) "counter" in
  let out := push_metric out "lumenmq_messages_sent_total"
    "Cumulative outbound messages delivered" (ms_messages_sent s) "counter" in
  let out := push_metric out "lumenmq_publish_received_total"
    "Cumulative inbound PUBLISH" (ms_publish_received s) "counter" in
  let out := push_metric out "lumenmq_publish_qos0_total"
    "Inbound PUBLISH at QoS0" (ms_publish_qos0 s) "counter" in
  let out := push_metric out "lumenmq_publish_qos1_total"
    "Inbound PUBLISH at QoS1" (ms_publish_qos1 s) "counter" in
  let out := push_metric out "lumenmq_publish_qos2_total"
    "Inbound PUBLISH at QoS2" (ms_publish_qos2 s) "counter" in
  let out := push_metric out "lumenmq_messages_dropped_total"
    "Outbound messages dropped (backpressure/channel full)" (ms_messages_dropped s) "counter" in
  let out := push_metric out "lumenmq_subscribe_total"
    "Cumulative SUBSCRIBE packets" (ms_subscribe_count s) "counter" in
  let out := push_metric out "lumenmq_unsubscribe_total"
    "Cumulative UNSUBSCRIBE packets" (ms_unsubscribe_count s) "counter" in
  let out := push_metric out "lumenmq_subscriptions_current"
    "Current non-shared subscriptions" (gauge (ms_subscriptions_current s)) "gauge" in
  let out := push_metric out "lumenmq_shared_subscriptions_current"
    "Current shared subscription members" (gauge (ms_shared_subscriptions_current s)) "gauge" in
  let out := push_metric out "lumenmq_sessions_total"
    "Current total sessions (online + offline retained)" (gauge (ms_sessions_total s)) "gauge" in
  let out := push_metric out "lumenmq_sessions_offline"
    "Current offline retained sessions" (gauge (ms_sessions_offline s)) "gauge" in
  let out := push_metric out "lumenmq_sessions_expired_total"
    "Sessions cleaned up due to session_expiry" (ms_sessions_expired s) "counter" in
  let out := push_metric out "lumenmq_storage_writes_total"
    "Offline message writes to storage" (ms_storage_writes s) "counter" in
  let out := push_metric out "lumenmq_storage_reads_total"
    "Offline message reads from storage" (ms_storage_reads s) "counter" in
  let out := push_metric out "lumenmq_retained_stored_total"
    "Cumulative retained messages stored" (ms_retained_stored s) "counter" in
  let out := push_metric out "lumenmq_security_rejected_total"
    "Connections/messages rejected by security middleware" (ms_security_rejected s) "counter" in
  let out := push_metric out "lumenmq_plugin_rejected_total"
    "Publishes/subscribes rejected by plugin middleware" (ms_plugin_rejected s) "counter" in
  let out := push_metric out "lumenmq_forward_dropped_total"
    "HTTP forwarder messages dropped (queue full)" (ms_forward_dropped s) "counter" in
  out.
