(* ===== verification/Messages.v ===== *)
(** * Messages and addresses shared by the broker's components

    [OutboundPublish] and [build_publish] of [src/broker/router.rs],
    [WillMessage] of [src/broker/auth.rs], [DeliveryOutcome] and
    [delivery_qos] of [src/broker/session.rs], the standard library's
    addresses, and time. *)

From S2P Require Import Prelude Packet.

(** ** Time

    An [Instant] is a number of nanoseconds on the monotonic clock, a
    [Duration] a non-negative number of nanoseconds.  An operation that reads
    the clock takes the instant it reads as an argument. *)

Abbreviation Instant := Z (only parsing).
Abbreviation Duration := Z (only parsing).

(** [now.duration_since(t)], which saturates at zero. *)
Definition duration_since (now t : Instant) : Duration := Z.max 0 (now - t).

Definition nanos_per_sec : Z := 1000000000.
(** [Duration::from_secs] and [as_secs]. *)
Definition from_secs (s : Z) : Duration := s * nanos_per_sec.
Definition as_secs (d : Duration) : Z := d / nanos_per_sec.

(** ** Addresses: [std::net::IpAddr] and [SocketAddr] *)

Inductive IpAddr :=
  | V4 (bits : Z)    (* 32 bits, most significant octet first *)
  | V6 (bits : Z).   (* 128 bits *)

Record SocketAddr := mkSocketAddr { sa_ip : IpAddr; sa_port : Z }.

#[export] Instance IpAddr_eq_dec : EqDecision IpAddr.
Proof. solve_decision. Defined.
#[export] Instance IpAddr_countable : Countable IpAddr.
Proof.
  refine (inj_countable' (λ a, match a with V4 z => inl z | V6 z => inr z end)
                         (λ s, match s with inl z => V4 z | inr z => V6 z end) _).
  by intros [].
Defined.
#[export] Instance SocketAddr_eq_dec : EqDecision SocketAddr.
Proof. solve_decision. Defined.
#[export] Instance SocketAddr_countable : Countable SocketAddr.
Proof.
  refine (inj_countable' (λ a, (sa_ip a, sa_port a)) (λ p, mkSocketAddr p.1 p.2) _).
  by intros [].
Defined.

(** ** Messages *)

Record OutboundPublish := mkOutboundPublish {
  ob_topic : string;
  ob_payload : list Z;
  ob_qos : QoS;
  ob_retain : bool;
}.

Record WillMessage := mkWillMessage {
  wm_topic : string;
  wm_message : list Z;
  wm_qos : QoS;
  wm_retain : bool;
}.

#[export] Instance OutboundPublish_eq_dec : EqDecision OutboundPublish.
Proof. solve_decision. Defined.
#[export] Instance WillMessage_eq_dec : EqDecision WillMessage.
Proof. solve_decision. Defined.

(** [impl From<&LastWill> for WillMessage] *)
Definition WillMessage_from (w : LastWill) : WillMessage :=
  mkWillMessage (will_topic w) (will_message w) (will_qos w) (will_retain w).

(** [Router::build_publish] *)
Definition build_publish (req : OutboundPublish) (packet_id : option Z) : Packet :=
  PPublish (mkPublish false (ob_qos req) (ob_retain req) (ob_topic req) packet_id
              (ob_payload req)).

Module DeliveryOutcome.
Inductive DeliveryOutcome := Sent | Enqueued | ChannelFull | Dropped | NoSession.
End DeliveryOutcome.
Abbreviation DeliveryOutcome := DeliveryOutcome.DeliveryOutcome.

#[export] Instance DeliveryOutcome_eq_dec : EqDecision DeliveryOutcome.
Proof. solve_decision. Defined.

Definition delivery_qos (pub_qos sub_qos : QoS) : QoS :=
  match pub_qos, sub_qos with
  | QoS.AtMostOnce, _ | _, QoS.AtMostOnce => QoS.AtMostOnce
  | QoS.AtLeastOnce, _ | _, QoS.AtLeastOnce => QoS.AtLeastOnce
  | QoS.ExactlyOnce, QoS.ExactlyOnce => QoS.ExactlyOnce
  end.

Lemma delivery_qos_min a b : delivery_qos a b = QoS.min a b.
Proof. by destruct a, b. Qed.
