(* ===== verification/OfflineQueue.v ===== *)
(** * Offline message queues, [src/broker/store_msg.rs]

    A bounded FIFO of time-stamped messages: expired messages are evicted from
    the front on every access, and the oldest message makes room for a new
    one.  [enqueue] runs a [while] loop; its model takes fuel and answers
    [None] when the loop has not ended. *)

From stdpp Require Import sorting.
From S2P Require Import Prelude Packet Messages.

Record OfflineMessage := mkOfflineMessage {
  om_payload : OutboundPublish;
  enqueued_at : Instant;
}.

Record OfflineQueue := mkOfflineQueue {
  inner : list OfflineMessage;
  max_messages : nat;
  ttl : Duration;
}.

#[export] Instance OfflineQueue_settable : Settable OfflineQueue :=
  λ q, mkOfflineQueue (inner q) (max_messages q) (ttl q).

Definition queue_new (max_messages : nat) (ttl : Duration) : OfflineQueue :=
  mkOfflineQueue [] max_messages ttl.

(** [evict_expired_locked] *)
Fixpoint evict_expired_locked (ttl : Duration) (q : list OfflineMessage) (now : Instant)
    : list OfflineMessage :=
  match q with
  | [] => []
  | front :: q' =>
      if duration_since now (enqueued_at front) >=? ttl
      then evict_expired_locked ttl q' now
      else q
  end.

(** [while q.len() >= self.max_messages { q.pop_front(); }]: popping an empty
    queue changes nothing and the loop goes on. *)
Fixpoint evict_capacity (fuel : nat) (max : nat) (q : list OfflineMessage)
    : option (list OfflineMessage) :=
  if (max <=? length q)%nat then
    match fuel with
    | O => None
    | S fuel => evict_capacity fuel max (drop 1 q)
    end
  else Some q.

(** Every iteration shortens a non-empty queue, so [length q] iterations reach
    the exit of the loop whenever it is reachable. *)
Definition enqueue (self : OfflineQueue) (msg : OutboundPublish) (now : Instant)
    : option OfflineQueue :=
  let q := evict_expired_locked (ttl self) (inner self) now in
  q ← evict_capacity (length q) (max_messages self) q;
  Some (self <| inner := q ++ [mkOfflineMessage msg now] |>).

Definition drain (self : OfflineQueue) (now : Instant)
    : list OutboundPublish * OfflineQueue :=
  let q := evict_expired_locked (ttl self) (inner self) now in
  (map om_payload q, self <| inner := [] |>).

Definition len (self : OfflineQueue) (now : Instant) : nat * OfflineQueue :=
  let q := evict_expired_locked (ttl self) (inner self) now in
  (length q, self <| inner := q |>).

Definition is_empty (self : OfflineQueue) (now : Instant) : bool * OfflineQueue :=
  let '(n, self) := len self now in ((n =? 0)%nat, self).

Definition clear (self : OfflineQueue) : OfflineQueue := self <| inner := [] |>.

(** Enqueuing a sequence of messages, each at its instant. *)
Fixpoint enqueue_all (self : OfflineQueue) (ms : list (OutboundPublish * Instant))
    : option OfflineQueue :=
  match ms with
  | [] => Some self
  | (m, now) :: ms => self ← enqueue self m now; enqueue_all self ms
  end.

(** ** Capacity *)

Lemma evict_capacity_ok fuel max q :
  (0 < max)%nat → (length q ≤ fuel)%nat →
  evict_capacity fuel max q = Some (last_n (max - 1) q).
Proof.
  intros Hmax. revert q. induction fuel as [|fuel IH]; intros q Hf; cbn [evict_capacity];
    destruct (Nat.leb_spec max (length q)); try lia.
  - by rewrite last_n_all by lia.
  - rewrite IH by (rewrite length_drop; lia). f_equal. unfold last_n.
    rewrite length_drop, drop_drop. f_equal. lia.
  - by rewrite last_n_all by lia.
Qed.

(** With a capacity of zero the loop never ends. *)
Lemma evict_capacity_zero fuel q : evict_capacity fuel 0 q = None.
Proof. revert q. induction fuel; intros q; cbn; auto. Qed.

Lemma enqueue_eq self msg now :
  (0 < max_messages self)%nat →
  enqueue self msg now = Some (self <| inner :=
    last_n (max_messages self - 1) (evict_expired_locked (ttl self) (inner self) now)
    ++ [mkOfflineMessage msg now] |>).
Proof. intros H. unfold enqueue. by rewrite evict_capacity_ok by lia. Qed.

(** ** Expiry *)

Definition expired (ttl : Duration) (now : Instant) (m : OfflineMessage) : bool :=
  duration_since now (enqueued_at m) >=? ttl.

(** Messages are stamped by a monotonic clock: oldest first. *)
Definition older (a b : OfflineMessage) : Prop := enqueued_at a ≤ enqueued_at b.
Abbreviation stamped := (StronglySorted older).

Lemma expired_mono ttl now now' a b :
  now ≤ now' → older a b → expired ttl now b = true → expired ttl now' a = true.
Proof. unfold expired, older, duration_since. lia. Qed.

(** Eviction removes a prefix of expired messages. *)
Lemma evict_expired_split ttl q now :
  ∃ e, q = e ++ evict_expired_locked ttl q now ∧ Forall (λ m, expired ttl now m = true) e.
Proof.
  induction q as [|m q (e & Hq & He)]; cbn [evict_expired_locked]; [by exists []|].
  destruct (_ >=? _) eqn:E; [|by exists []]. exists (m :: e). split; [by rewrite Hq at 1|].
  by constructor.
Qed.

Lemma evict_expired_length ttl q now : (length (evict_expired_locked ttl q now) ≤ length q)%nat.
Proof. destruct (evict_expired_split ttl q now) as (e & H & _). rewrite H at 2. rewrite length_app. lia. Qed.

(** On a stamped queue it removes exactly the expired messages. *)
Lemma evict_expired_filter ttl q now :
  stamped q → evict_expired_locked ttl q now = List.filter (λ m, negb (expired ttl now m)) q.
Proof.
  induction 1 as [|m q Hq IH Hm]; cbn [evict_expired_locked List.filter]; [done|].
  fold (expired ttl now m). destruct (expired ttl now m) eqn:E; cbn [negb]; [done|]. f_equal.
  clear Hq IH. induction Hm as [|b q Hb _ IHq]; [done|]. cbn [List.filter].
  destruct (expired ttl now b) eqn:Eb; cbn [negb]; [|by rewrite <- IHq].
  by rewrite (expired_mono ttl now now m b (Z.le_refl _) Hb Eb) in E.
Qed.

(** The queue against the whole history [msgs]: it is a suffix, within its
    capacity, and what it has lost has expired or was displaced by newer
    messages that fill it. *)
Definition tracks (max : nat) (ttl : Duration) (t : Instant) (msgs q : list OfflineMessage) : Prop :=
  ∃ pre, msgs = pre ++ q ∧ (length q ≤ max)%nat ∧
    (Forall (λ m, expired ttl t m = true) pre ∨ length q = max).

Lemma Forall_expired_mono ttl t t' l :
  t ≤ t' → Forall (λ m, expired ttl t m = true) l → Forall (λ m, expired ttl t' m = true) l.
Proof.
  intros Ht H. eapply Forall_impl; [exact H|]. intros m.
  apply (expired_mono ttl t t' m m Ht). apply Z.le_refl.
Qed.

Lemma tracks_enqueue max ttl t t' msgs q m :
  (0 < max)%nat → t ≤ t' → stamped msgs → tracks max ttl t msgs q →
  tracks max ttl t' (msgs ++ [m]) (last_n (max - 1) (evict_expired_locked ttl q t') ++ [m]).
Proof.
  intros Hmax Ht Hst (pre & -> & Hlen & Hpre).
  destruct (evict_expired_split ttl q t') as (e & Hq & He).
  set (q1 := evict_expired_locked ttl q t') in *. clearbody q1. subst q.
  exists (pre ++ e ++ take (length q1 - (max - 1)) q1). split_and!.
  - unfold last_n. rewrite <- !app_assoc. do 2 f_equal.
    rewrite (app_assoc (take _ _)), take_drop. done.
  - rewrite length_app, length_last_n. simpl. lia.
  - rewrite length_app, length_last_n. cbn [length].
    destruct (Nat.le_gt_cases (max - 1) (length q1)) as [?|Hlt]; [right; lia|left].
    replace (length q1 - (max - 1))%nat with 0%nat by lia. rewrite take_0, app_nil_r.
    apply Forall_app. split; [|done]. destruct Hpre as [Hpre|Hfull].
    { by eapply Forall_expired_mono. }
    destruct e as [|e0 e]; [simpl in *; lia|].
    apply Forall_cons in He as [He0 _]. apply Forall_forall. intros p Hp.
    eapply (expired_mono ttl t' t' p e0); [lia| |done].
    by apply (StronglySorted_app_1_elem_of _ _ _ _ _ Hst); [|left].
Qed.

(** The history of a sequence of enqueues. *)
Definition history (ms : list (OutboundPublish * Instant)) : list OfflineMessage :=
  map (λ m, mkOfflineMessage m.1 m.2) ms.

Lemma enqueue_all_tracks max ttl0 t ms : ∀ q msgs,
  (0 < max)%nat → max_messages q = max → ttl q = ttl0 →
  stamped (msgs ++ history ms) → Forall (λ m, t ≤ m.2) ms →
  tracks max ttl0 t msgs (inner q) →
  ∃ q' t', enqueue_all q ms = Some q' ∧ max_messages q' = max ∧ ttl q' = ttl0 ∧
    (t' = t ∨ ∃ m, m ∈ ms ∧ t' = m.2) ∧ tracks max ttl0 t' (msgs ++ history ms) (inner q').
Proof.
  revert t. induction ms as [|[m tm] ms IH]; intros t q msgs Hmax Hm Httl Hst Ht Htr.
  { exists q, t. cbn. rewrite app_nil_r. split_and!; auto. }
  inversion Ht as [|? ? Htm Hms]; subst. simpl in Htm. cbn [enqueue_all].
  rewrite enqueue_eq by done. cbn [mbind option_bind].
  set (q1 := q <| inner := _ |>).
  assert (Hlater : Forall (λ m, tm ≤ m.2) ms).
  { apply StronglySorted_app_1_r in Hst. cbn in Hst. apply StronglySorted_inv in Hst as [_ Hle].
    clear -Hle. induction ms as [|m' ms IH]; [done|].
    inversion Hle as [|? ? H Hle']; subst. constructor; [exact H|by apply IH]. }
  assert (Htr1 : tracks (max_messages q) (ttl q) tm (msgs ++ [mkOfflineMessage m tm]) (inner q1)).
  { eapply tracks_enqueue; [done|exact Htm| |done]. by apply StronglySorted_app_1_l in Hst. }
  destruct (IH tm q1 (msgs ++ [mkOfflineMessage m tm])) as (q' & t' & Hq' & Hmx & Htl & Ht' & Htr');
    [done..|by rewrite <- app_assoc|done|done|].
  exists q', t'. rewrite <- app_assoc in Htr'. split_and!; try done.
  destruct Ht' as [->|(m' & Hin & ->)]; right; [exists (m, tm)|exists m']; split; try done; [left|by right].
Qed.

(** Messages that have left the queue have expired or were displaced. *)
Lemma tracks_filter max ttl t now msgs q :
  t ≤ now → tracks max ttl t msgs q →
  List.filter (λ m, negb (expired ttl now m)) q
  = List.filter (λ m, negb (expired ttl now m)) (last_n max msgs).
Proof.
  intros Ht (pre & -> & Hlen & [Hex|Hfull]).
  - rewrite last_n_app_r, List.filter_app by done.
    assert (Hd : Forall (λ m, expired ttl now m = true) (last_n (max - length q) pre)).
    { apply Forall_drop. by eapply Forall_expired_mono. }
    induction Hd as [|m l Hm _ IH]; [done|]. cbn [List.filter app]. by rewrite Hm.
  - rewrite last_n_app_l by lia. by rewrite last_n_all by lia.
Qed.

Lemma enqueue_all_drain max ttl0 ms now :
  (0 < max)%nat → StronglySorted (λ a b, a.2 ≤ b.2) ms → Forall (λ m, m.2 ≤ now) ms →
  ∃ q, enqueue_all (queue_new max ttl0) ms = Some q ∧ (length (inner q) ≤ max)%nat ∧
    drain q now =
      (map fst (List.filter (λ m, negb (duration_since now m.2 >=? ttl0)) (last_n max ms)),
       queue_new max ttl0).
Proof.
  intros Hmax Hs Hnow.
  assert (Hst : stamped (history ms)).
  { clear -Hs. induction Hs as [|m ms _ IH Hm]; cbn; constructor; [done|].
    clear -Hm. induction Hm; cbn; constructor; done. }
  set (t0 := match ms with [] => now | m :: _ => m.2 end).
  destruct (enqueue_all_tracks max ttl0 t0 ms (queue_new max ttl0) [])
    as (q & t' & Hq & Hm & Httl & Ht' & Htr); [done..| | |].
  { subst t0. destruct Hs as [|m ms _ Hm]; constructor; [lia|done]. }
  { exists []. split_and!; [done|simpl; lia|by left]. }
  assert (Hle : t' ≤ now).
  { destruct Ht' as [->|(m & Hin & ->)].
    - subst t0. destruct ms; [lia|]. by inversion Hnow.
    - by eapply Forall_forall in Hnow. }
  exists q. cbn [app] in Htr. split; [done|]. pose proof Htr as (pre & Hpre & Hlen & _).
  split; [done|]. unfold drain. f_equal; [|destruct q; cbn in *; by subst].
  rewrite Httl, evict_expired_filter.
  2:{ rewrite Hpre in Hst. by apply StronglySorted_app_1_r in Hst. }
  rewrite (tracks_filter max ttl0 t' now (history ms)) by done.
  assert (last_n max (history ms) = history (last_n max ms)) as ->.
  { unfold last_n, history. by rewrite length_map, skipn_map. }
  clear. induction (last_n max ms) as [|m l IH]; [done|].
  change (history (m :: l)) with (mkOfflineMessage m.1 m.2 :: history l).
  cbn [List.filter]. unfold expired at 1. cbn [enqueued_at].
  destruct (duration_since now m.2 >=? ttl0); cbn [negb map]; by rewrite IH.
Qed.

(** ** Theorems *)

(** Contents of an offline queue.  With a capacity of at least one, every
    enqueue returns; after any sequence of enqueues stamped by a monotonic
    clock, the queue holds at most its capacity, and [drain] returns, in order,
    exactly the messages among the last [max] that have not outlived the TTL,
    leaving the queue empty. *)
Theorem offline_queue_contents max ttl0 ms now :
  (0 < max)%nat → StronglySorted (λ a b, a.2 ≤ b.2) ms → Forall (λ m, m.2 ≤ now) ms →
  ∃ q, enqueue_all (queue_new max ttl0) ms = Some q ∧ (length (inner q) ≤ max)%nat ∧
    drain q now =
      (map fst (List.filter (λ m, negb (duration_since now m.2 >=? ttl0)) (last_n max ms)),
       queue_new max ttl0).
Proof. apply enqueue_all_drain. Qed.

Lemma offline_queue_contents_witness :
  let m s := mkOutboundPublish s [] QoS.AtLeastOnce false in
  ∃ q, enqueue_all (queue_new 2 10) [(m "a", 0); (m "b", 5); (m "c", 6)]%string = Some q ∧
    (length (inner q) ≤ 2)%nat ∧ drain q 15 = ([m "c"%string], queue_new 2 10).
Proof.
  apply (offline_queue_contents 2 10
    [(mkOutboundPublish "a" [] QoS.AtLeastOnce false, 0);
     (mkOutboundPublish "b" [] QoS.AtLeastOnce false, 5);
     (mkOutboundPublish "c" [] QoS.AtLeastOnce false, 6)] 15).
  - lia.
  - repeat constructor; simpl; lia.
  - repeat constructor; simpl; lia.
Defined.

(** a queue configured with a capacity of zero hangs: the eviction loop of
    [enqueue] has no exit, whatever the number of iterations. *)
Theorem enqueue_zero_capacity_diverges q msg now fuel :
  max_messages q = 0%nat →
  evict_capacity fuel (max_messages q) (evict_expired_locked (ttl q) (inner q) now) = None
  ∧ enqueue q msg now = None.
Proof. intros H. unfold enqueue. by rewrite H, !evict_capacity_zero. Qed.

Lemma enqueue_zero_capacity_diverges_witness :
  evict_capacity 1000 0 [] = None ∧
  enqueue (queue_new 0 10) (mkOutboundPublish "t" [] QoS.AtLeastOnce false) 0 = None.
Proof. apply (enqueue_zero_capacity_diverges (queue_new 0 10)). reflexivity. Defined.
