(* ===== verification/Storage.v ===== *)
(** * Persistent storage, [src/storage/mod.rs]

    Three key-value trees of an embedded database: retained messages, session
    snapshots and offline messages.  The database (sled) and the serializer
    (serde_json) are not part of the program: their operations are the
    parameters [Sled] and [Json], and what the program relies on is stated by
    [SledLaws] and [JsonLaws], which follow their documentation. *)

From stdpp Require Import sorting.
From S2P Require Import Prelude Packet Messages Metrics.

(** ** Parameters *)

(** Errors carry the text that [Display] prints. *)
Class Sled := {
  Tree : Type;
  Db : Type;
  sled_open : string → Result string Db;
  open_tree : Db → string → Result string Tree;
  db_flush : Db → Result string unit * Db;
  generate_id : Db → Result string Z * Db;
  tree_insert : Tree → list Z → list Z → Result string unit * Tree;
  tree_remove : Tree → list Z → Result string unit * Tree;
  tree_iter : Tree → list (Result string (list Z * list Z));
  scan_prefix : Tree → list Z → list (Result string (list Z * list Z));
}.

Class Json (A : Type) := {
  to_vec : A → Result string (list Z);
  from_slice : list Z → Result string A;
}.

(** Entries in the order of their keys. *)
Definition key_sorted (l : list (list Z * list Z)) : Prop :=
  StronglySorted (λ a b, lex_lt a.1 b.1) l.

(** A tree is an ordered map; [insert] and [remove] that succeed update it;
    iteration and prefix scans return its entries in key order; [generate_id]
    is monotonic. *)
Class SledLaws (S : Sled) := {
  kv : Tree → gmap (list Z) (list Z);
  next_id : Db → Z;
  insert_ok t k v t' : tree_insert t k v = (Ok tt, t') → kv t' = <[k := v]> (kv t);
  remove_ok t k t' : tree_remove t k = (Ok tt, t') → kv t' = delete k (kv t);
  iter_ok t items : tree_iter t = map Ok items →
    key_sorted items ∧ ∀ k v, (k, v) ∈ items ↔ kv t !! k = Some v;
  scan_ok t p items : scan_prefix t p = map Ok items →
    key_sorted items ∧ ∀ k v, (k, v) ∈ items ↔ p `prefix_of` k ∧ kv t !! k = Some v;
  id_ok d n d' : generate_id d = (Ok n, d') →
    0 ≤ next_id d ≤ n ∧ n < next_id d' ∧ n < u64_mod;
}.

(** Deserializing what was serialized gives the value back. *)
Class JsonLaws (A : Type) {J : Json A} :=
  json_roundtrip (a : A) b : to_vec a = Ok b → from_slice b = Ok a.

(** ** Data *)

Record RetainedMessage := mkRetainedMessage {
  rm_topic : string;
  rm_payload : list Z;
  rm_qos : QoS;
}.

Record SessionSnapshot := mkSessionSnapshot {
  ss_client_id : string;
  ss_subscriptions : list (string * QoS);
}.

Definition offline_key_prefix (client_id : string) : list Z :=
  let len := as_u16 (str_len client_id) in
  u16_to_be_bytes len ++ as_bytes client_id.

(** The key of a message: the prefix and the sequence number. *)
Definition offline_key (client_id : string) (seq : Z) : list Z :=
  offline_key_prefix client_id ++ u64_to_be_bytes seq.

Section Storage.
Context {S : Sled} {JR : Json RetainedMessage} {JS : Json SessionSnapshot}
  {JO : Json OutboundPublish}.

Record Storage := mkStorage {
  db : Db;
  retained : Tree;
  sessions : Tree;
  offline : Tree;
}.

#[export] Instance Storage_settable : Settable Storage :=
  λ s, mkStorage (db s) (retained s) (sessions s) (offline s).

(** The storage handle and the global counters. *)
Abbreviation StoreM := (SE (Storage * Metrics) BrokerError).

(** [.map_err(|e| BrokerError::Storage(format!("<label>: {e}")))] *)
Definition storage_err {A} (label : string) (r : Result string A) : BrokerResult A :=
  map_err (λ e, BrokerError.Storage (label +:+ ": " +:+ e)) r.

Definition on_retained {A} (f : Tree → A * Tree) : Storage → A * Storage :=
  λ s, let '(a, t) := f (retained s) in (a, s <| retained := t |>).
Definition on_sessions {A} (f : Tree → A * Tree) : Storage → A * Storage :=
  λ s, let '(a, t) := f (sessions s) in (a, s <| sessions := t |>).
Definition on_offline {A} (f : Tree → A * Tree) : Storage → A * Storage :=
  λ s, let '(a, t) := f (offline s) in (a, s <| offline := t |>).
Definition on_db {A} (f : Db → A * Db) : Storage → A * Storage :=
  λ s, let '(a, d) := f (db s) in (a, s <| db := d |>).

(** Running a database operation with its error label. *)
Definition run_db {A} (label : string) (op : Storage → Result string A * Storage) : StoreM A :=
  λ '(s, m), let '(r, s) := op s in (storage_err label r, (s, m)).
Definition metric (f : Metrics → Metrics) : StoreM unit := se_modify (λ '(s, m), (s, f m)).

Definition open (path : string) : BrokerResult Storage :=
  db ← storage_err "open sled" (sled_open path);
  retained ← storage_err "open retained tree" (open_tree db "retained");
  sessions ← storage_err "open sessions tree" (open_tree db "sessions");
  offline ← storage_err "open offline tree" (open_tree db "offline");
  Ok (mkStorage db retained sessions offline).

Definition flush : StoreM unit := run_db "flush" (on_db db_flush).

Definition save_retained (topic : string) (msg : RetainedMessage) : StoreM unit :=
  bytes ← se_lift (storage_err "serialize retained" (to_vec msg));
  run_db "write retained" (on_retained (λ t, tree_insert t (as_bytes topic) bytes)).

Definition delete_retained (topic : string) : StoreM unit :=
  run_db "remove retained" (on_retained (λ t, tree_remove t (as_bytes topic))).

(** The loop of [load_all_retained] and [load_all_sessions]: an I/O error stops
    it, a value that does not parse is skipped. *)
Fixpoint load_items {A} {J : Json A} (label : string)
    (items : list (Result string (list Z * list Z))) (out : list A) : BrokerResult (list A) :=
  match items with
  | [] => Ok out
  | item :: items =>
      '(_, v) ← storage_err label item;
      match from_slice v with
      | Ok m => load_items label items (out ++ [m])
      | Err _ => load_items label items out
      end
  end.

Definition load_all_retained (s : Storage) : BrokerResult (list RetainedMessage) :=
  load_items "scan retained" (tree_iter (retained s)) [].

Definition save_session (client_id : string) (snap : SessionSnapshot) : StoreM unit :=
  bytes ← se_lift (storage_err "serialize session" (to_vec snap));
  run_db "write session" (on_sessions (λ t, tree_insert t (as_bytes client_id) bytes)).

Definition delete_session (client_id : string) : StoreM unit :=
  run_db "remove session" (on_sessions (λ t, tree_remove t (as_bytes client_id))).

Definition load_all_sessions (s : Storage) : BrokerResult (list SessionSnapshot) :=
  load_items "scan sessions" (tree_iter (sessions s)) [].

Definition push_offline (client_id : string) (msg : OutboundPublish) : StoreM unit :=
  _ ← metric inc_storage_write;
  bytes ← se_lift (storage_err "serialize offline msg" (to_vec msg));
  seq ← run_db "generate offline seq" (on_db generate_id);
  let key := offline_key_prefix client_id ++ u64_to_be_bytes seq in
  run_db "insert offline msg" (on_offline (λ t, tree_insert t key bytes)).

(** The scan of [drain_offline]: the messages that parse and all the keys. *)
Definition drain_item (acc : list OutboundPublish * list (list Z))
    (item : Result string (list Z * list Z)) : list OutboundPublish * list (list Z) :=
  let '(msgs, keys) := acc in
  match item with
  | Ok (k, v) =>
      (match from_slice v with Ok m => msgs ++ [m] | Err _ => msgs end, keys ++ [k])
  | Err _ => (msgs, keys)
  end.

Fixpoint remove_keys (keys : list (list Z)) : StoreM unit :=
  match keys with
  | [] => mret tt
  | k :: keys =>
      _ ← run_db "remove offline" (on_offline (λ t, tree_remove t k));
      remove_keys keys
  end.

Definition scan_offline (prefix : list Z) : StoreM (list OutboundPublish * list (list Z)) :=
  λ '(s, m), (Ok (foldl drain_item ([], []) (scan_prefix (offline s) prefix)), (s, m)).

Definition drain_offline (client_id : string) : StoreM (list OutboundPublish) :=
  _ ← metric inc_storage_read;
  let prefix := offline_key_prefix client_id in
  '(msgs, keys) ← scan_offline prefix;
  _ ← remove_keys keys;
  mret msgs.

(** A sequence of pushes. *)
Fixpoint push_all (ms : list (string * OutboundPublish)) : StoreM unit :=
  match ms with
  | [] => mret tt
  | (c, m) :: ms => _ ← push_offline c m; push_all ms
  end.
End Storage.

Arguments Storage S : clear implicits.
Abbreviation StoreM := (SE (Storage _ * Metrics) BrokerError).
