(* ===== verification/StorageProofs.v ===== *)
(** * Persistent storage: correctness

    The offline tree represents a log of (client, sequence number, message):
    [push_offline] appends to it and [drain_offline] takes one client's
    messages, oldest first, leaving the others.  The proofs rest on the layout
    of the keys: big-endian sequence numbers sort in order, and the length
    prefix keeps clients apart. *)

From stdpp Require Import sorting.
From S2P Require Import Prelude Packet Messages Metrics Storage.

(** ** Keys *)

Lemma offline_prefix_inj c c' seq :
  str_len c ≤ u16_max → str_len c' ≤ u16_max →
  offline_key_prefix c `prefix_of` offline_key c' seq → c = c'.
Proof.
  unfold u16_max. intros Hc Hc' [rest Hr].
  unfold offline_key, offline_key_prefix, u16_to_be_bytes, as_u16 in Hr.
  pose proof (str_len_nonneg c). pose proof (str_len_nonneg c').
  rewrite !(Z.mod_small (str_len _) 65536) in Hr by lia.
  cbn [app] in Hr. injection Hr as H1 H2 Hr.
  assert (Hl : str_len c = str_len c') by div_mod_lia.
  rewrite !str_len_as_bytes in Hl. apply Nat2Z.inj in Hl.
  assert (Hb : as_bytes c' = as_bytes c).
  { apply (f_equal (take (length (as_bytes c)))) in Hr.
    rewrite take_app_length in Hr. by rewrite Hl, take_app_length in Hr. }
  by rewrite <- (string_of_as_bytes c), <- (string_of_as_bytes c'), Hb.
Qed.

Lemma offline_key_prefix_of c seq : offline_key_prefix c `prefix_of` offline_key c seq.
Proof. unfold offline_key. by apply prefix_app_r. Qed.

Lemma u64_mod_pow : u64_mod = 256 ^ Z.of_nat 8.
Proof. done. Qed.

Lemma offline_key_lt c a b :
  0 ≤ a < b → b < u64_mod → lex_lt (offline_key c a) (offline_key c b).
Proof.
  intros Ha Hb. apply lex_lt_app_l. apply be_bytes_lt; [done|]. by rewrite <- u64_mod_pow.
Qed.

Lemma offline_key_inj c c' a b :
  str_len c ≤ u16_max → str_len c' ≤ u16_max → 0 ≤ a < u64_mod → 0 ≤ b < u64_mod →
  offline_key c a = offline_key c' b → c = c' ∧ a = b.
Proof.
  intros Hc Hc' Ha Hb E. assert (c = c') as <-.
  { eapply offline_prefix_inj; [done..|]. rewrite <- E. apply offline_key_prefix_of. }
  split; [done|]. apply app_inv_head in E. apply (be_bytes_inj 8); [done..|exact E].
Qed.

(** ** Sorted entries *)

Lemma key_sorted_nodup l : key_sorted l → NoDup l.
Proof.
  induction 1 as [|e l _ IH Hl]; [apply NoDup_nil_2|]. apply NoDup_cons. split; [|done].
  intros Hin. rewrite Forall_forall in Hl. apply Hl in Hin. by apply lex_lt_irrefl in Hin.
Qed.

Lemma key_sorted_unique l1 l2 :
  key_sorted l1 → key_sorted l2 → (∀ e, e ∈ l1 ↔ e ∈ l2) → l1 = l2.
Proof.
  intros H1 H2 He. eapply StronglySorted_unique_strong; [|exact H1|exact H2|].
  - intros a b _ _ Hab Hba. exfalso. eapply lex_lt_irrefl, lex_lt_trans; [exact Hab|exact Hba].
  - apply NoDup_Permutation; [by apply key_sorted_nodup..|done].
Qed.

(** Loading entries that can all be read. *)
Lemma load_items_ok {A} {J : Json A} label items (out : list A) :
  load_items label (map Ok items) out
  = Ok (out ++ omap (λ e, match from_slice e.2 with Ok m => Some m | Err _ => None end) items).
Proof.
  revert out. induction items as [|[k v] items IH]; intros out; cbn; [by rewrite app_nil_r|].
  destruct (from_slice v) as [m|]; cbn; rewrite IH; by rewrite <- ?app_assoc.
Qed.

Section Proofs.
Context {S : Sled} {L : SledLaws S} {JR : Json RetainedMessage} {JS : Json SessionSnapshot}
  {JO : Json OutboundPublish} {LO : JsonLaws OutboundPublish}.

(** ** The log behind the offline tree *)

Abbreviation Entry := (string * Z * OutboundPublish)%type.
Abbreviation client_of := (λ e : Entry, e.1.1).
Abbreviation seq_of := (λ e : Entry, e.1.2).

Definition entry_ok (s : Storage S) (e : Entry) : Prop :=
  str_len (client_of e) ≤ u16_max ∧ 0 ≤ seq_of e < next_id (db s) ∧ seq_of e < u64_mod
  ∧ is_ok (to_vec e.2) = true.

Definition offline_log (log : list Entry) (s : Storage S) : Prop :=
  Forall (entry_ok s) log
  ∧ StronglySorted (λ a b, seq_of a < seq_of b) log
  ∧ ∀ k v, kv (offline s) !! k = Some v ↔
      ∃ e, e ∈ log ∧ k = offline_key (client_of e) (seq_of e) ∧ to_vec e.2 = Ok v.

Lemma offline_log_push log s m c msg s' m' :
  str_len c ≤ u16_max → offline_log log s →
  push_offline c msg (s, m) = (Ok tt, (s', m')) →
  ∃ seq, offline_log (log ++ [(c, seq, msg)]) s'.
Proof.
  intros Hc (Hok & Hst & Hkv).
  unfold push_offline, metric, se_modify, se_lift, run_db, on_db, on_offline, mbind, se_bind.
  destruct (to_vec msg) as [bytes|] eqn:Ev; [|done]. cbn.
  destruct (generate_id (db s)) as [[seq|] d'] eqn:Eg; [|done]. cbn.
  destruct (tree_insert _ _ _) as [[[]|] t'] eqn:Ei; [|done]. intros [= <- <-].
  apply id_ok in Eg as (Hn & Hlt & H64). apply insert_ok in Ei.
  exists seq. split_and!; cbn.
  - apply Forall_app. split.
    + eapply Forall_impl; [exact Hok|]. intros e (H1 & H2 & H3 & H4).
      unfold entry_ok. cbn in *. split_and!; (done || lia).
    + constructor; [|constructor]. unfold entry_ok. cbn. rewrite Ev. split_and!; (done || lia).
  - apply StronglySorted_app_2; [|done|repeat constructor].
    intros a b Ha ->%list_elem_of_singleton. rewrite Forall_forall in Hok.
    destruct (Hok a Ha) as (_ & ? & _). cbn. lia.
  - intros k v. rewrite Ei, lookup_insert_Some, Hkv. fold (offline_key c seq). split.
    + intros [[<- <-]|(Hne & e & He & -> & Hv)].
      * exists (c, seq, msg). split_and!; [|done|done]. apply elem_of_app. right. by left.
      * exists e. split_and!; [|done|done]. apply elem_of_app. by left.
    + intros (e & [He| ->%list_elem_of_singleton]%elem_of_app & -> & Hv); [right|left].
      2:{ cbn in *. rewrite Ev in Hv. by injection Hv. }
      split; [|eauto]. intros E. rewrite Forall_forall in Hok.
      destruct (Hok e He) as (Hce & Hse & H64e & _).
      apply offline_key_inj in E as [_ E]; [|done|done|lia|lia]. cbn in *. lia.
Qed.

(** The entries the scan of one client returns. *)
Definition entry_kv (e : Entry) : list Z * list Z :=
  (offline_key (client_of e) (seq_of e), match to_vec e.2 with Ok v => v | Err _ => [] end).

Definition of_client (c : string) (log : list Entry) : list Entry :=
  List.filter (λ e, bool_decide (client_of e = c)) log.
Definition not_of_client (c : string) (log : list Entry) : list Entry :=
  List.filter (λ e, negb (bool_decide (client_of e = c))) log.

Lemma elem_of_client c log e : e ∈ of_client c log ↔ e ∈ log ∧ client_of e = c.
Proof.
  unfold of_client. rewrite !list_elem_of_In, filter_In. by rewrite bool_decide_eq_true.
Qed.
Lemma elem_of_not_client c log e : e ∈ not_of_client c log ↔ e ∈ log ∧ client_of e ≠ c.
Proof.
  unfold not_of_client. rewrite !list_elem_of_In, filter_In, negb_true_iff.
  by rewrite bool_decide_eq_false.
Qed.

Lemma of_client_not_of_client c c' log :
  c' ≠ c → of_client c' (not_of_client c log) = of_client c' log.
Proof.
  intros Hne. unfold of_client, not_of_client. induction log as [|e log IH]; [done|]. cbn.
  destruct (bool_decide_reflect (e.1.1 = c)) as [->|]; cbn.
  - by rewrite (bool_decide_false (c = c')) by congruence.
  - by rewrite IH.
Qed.

Lemma scan_client log s c items :
  str_len c ≤ u16_max → offline_log log s →
  scan_prefix (offline s) (offline_key_prefix c) = map Ok items →
  items = map entry_kv (of_client c log).
Proof.
  intros Hc (Hok & Hst & Hkv) (Hs & Hitems)%scan_ok. rewrite Forall_forall in Hok.
  apply key_sorted_unique; [done| |].
  - clear Hkv Hitems Hs. induction Hst as [|e log _ IH Hlt]; [constructor|].
    assert (Hok' : ∀ e, e ∈ log → entry_ok s e) by (intros; apply Hok; by right).
    specialize (IH Hok'). unfold of_client in *. cbn [List.filter].
    case_bool_decide as Ec; [|done]. cbn [map]. constructor; [done|].
    apply Forall_map, Forall_forall. intros b [Hb Hbc]%elem_of_client.
    rewrite Forall_forall in Hlt. apply Hlt in Hb as Hlt'.
    destruct (Hok e ltac:(left)) as (_ & ? & _). destruct (Hok' b Hb) as (_ & _ & ? & _).
    cbn in *. rewrite Ec, Hbc. apply offline_key_lt; lia.
  - intros [k v]. rewrite Hitems, Hkv, list_elem_of_fmap. split.
    + intros [Hp (e & He & -> & Hv)]. exists e. unfold entry_kv. rewrite Hv. split; [done|].
      apply elem_of_client. split; [done|]. symmetry.
      apply (offline_prefix_inj _ _ (seq_of e)); [done| |done]. by apply Hok.
    + intros (e & E & [He <-]%elem_of_client). unfold entry_kv in E.
      destruct (Hok e He) as (_ & _ & _ & Hv). destruct (to_vec e.2) as [v'|] eqn:Ev; [|done].
      injection E as -> ->. split; [apply offline_key_prefix_of|]. eauto.
Qed.

Lemma drain_items (log : list Entry) msgs keys :
  (∀ e, e ∈ log → is_ok (to_vec e.2) = true) →
  foldl drain_item (msgs, keys) (map Ok (map entry_kv log))
  = (msgs ++ map snd log, keys ++ map fst (map entry_kv log)).
Proof.
  revert msgs keys. induction log as [|e log IH]; intros msgs keys Hok; cbn [map foldl].
  { by rewrite !app_nil_r. }
  unfold drain_item at 2. unfold entry_kv at 1.
  pose proof (Hok e ltac:(left)) as He. destruct (to_vec e.2) as [v|] eqn:Ev; [|done].
  rewrite (json_roundtrip _ _ Ev), IH by (intros; apply Hok; by right).
  by rewrite <- !app_assoc.
Qed.

Lemma remove_keys_ok keys s m s' m' :
  remove_keys keys (s, m) = (Ok tt, (s', m')) →
  m' = m ∧ db s' = db s ∧ retained s' = retained s ∧ sessions s' = sessions s ∧
  ∀ k, kv (offline s') !! k = if decide (k ∈ keys) then None else kv (offline s) !! k.
Proof.
  revert s. induction keys as [|k keys IH]; intros s; cbn [remove_keys].
  { intros [= <- <-]. by split_and!. }
  unfold mbind, se_bind, run_db at 1, on_offline at 1.
  destruct (tree_remove _ _) as [[[]|] t'] eqn:Er; [|done]. cbn. apply remove_ok in Er.
  intros (-> & Hd & Hr & Hse & Hk)%IH. split_and!; try done. cbn in Hk. intros k'.
  rewrite Hk, Er. destruct (decide (k' = k)) as [->|Hne].
  - rewrite lookup_delete_eq, (decide_True (P := k ∈ k :: keys)) by left.
    by destruct (decide (k ∈ keys)).
  - rewrite lookup_delete_ne by done. destruct (decide (k' ∈ keys)) as [Hin|Hin].
    + by rewrite decide_True by (by right).
    + rewrite decide_False; [done|]. rewrite elem_of_cons. naive_solver.
Qed.

Lemma StronglySorted_list_filter {A} (R : A → A → Prop) (P : A → bool) l :
  StronglySorted R l → StronglySorted R (List.filter P l).
Proof.
  induction 1 as [|a l _ IH Hl]; cbn; [constructor|]. destruct (P a); [|done].
  constructor; [done|]. rewrite Forall_forall in *. intros b Hb.
  apply list_elem_of_In, filter_In in Hb as [Hb _]. by apply Hl, list_elem_of_In.
Qed.

Lemma offline_log_drain log s m c items msgs s' m' :
  str_len c ≤ u16_max → offline_log log s →
  scan_prefix (offline s) (offline_key_prefix c) = map Ok items →
  drain_offline c (s, m) = (Ok msgs, (s', m')) →
  msgs = map snd (of_client c log) ∧ offline_log (not_of_client c log) s'.
Proof.
  intros Hc Hlog Hscan. pose proof (scan_client _ _ _ _ Hc Hlog Hscan) as Hitems.
  destruct Hlog as (Hok & Hst & Hkv). rewrite Forall_forall in Hok.
  unfold drain_offline, metric, se_modify, mbind, se_bind, scan_offline.
  rewrite Hscan, Hitems, drain_items.
  2:{ intros e [He _]%elem_of_client. by apply Hok. }
  cbn [app]. destruct (remove_keys _ _) as [[[]|] [s1 m1]] eqn:Er; [|done].
  intros [= <- <- <-]. split; [done|]. apply remove_keys_ok in Er as (_ & Hd & _ & _ & Hk).
  split_and!.
  - apply Forall_forall. intros e [He _]%elem_of_not_client. unfold entry_ok. rewrite Hd. by apply Hok.
  - by apply StronglySorted_list_filter.
  - intros k v. rewrite Hk. destruct (decide (k ∈ _)) as [Hin|Hnin].
    + split; [done|]. intros (e & [He Hne]%elem_of_not_client & -> & _). exfalso.
      rewrite map_map in Hin. apply list_elem_of_fmap in Hin as (e' & E & [He' Hc']%elem_of_client).
      destruct (Hok e He) as (Hce & Hse & H64 & _), (Hok e' He') as (Hce' & Hse' & H64' & _).
      apply offline_key_inj in E as [? _]; [congruence|done..|lia|lia].
    + rewrite Hkv. split.
      * intros (e & He & -> & Hv). exists e. split_and!; [|done..]. apply elem_of_not_client.
        split; [done|]. intros Hc'. apply Hnin. rewrite map_map. apply list_elem_of_fmap.
        exists e. split; [done|]. by apply elem_of_client.
      * intros (e & [He _]%elem_of_not_client & H). eauto.
Qed.

Lemma push_all_log ms log s m s' m' :
  Forall (λ p, str_len p.1 ≤ u16_max) ms → offline_log log s →
  push_all ms (s, m) = (Ok tt, (s', m')) →
  ∃ log', offline_log (log ++ log') s' ∧ map (λ e : Entry, (client_of e, e.2)) log' = ms.
Proof.
  revert log s m. induction ms as [|[c msg] ms IH]; intros log s m Hlen Hlog; cbn [push_all].
  { intros [= <- <-]. exists []. by rewrite app_nil_r. }
  apply Forall_cons in Hlen as [Hc Hlen]. unfold mbind, se_bind.
  destruct (push_offline c msg (s, m)) as [[[]|] [s1 m1]] eqn:Ep; [|done].
  apply (offline_log_push log) in Ep as [seq Hlog1]; [|done..]. intros Hall.
  apply (IH _ _ _ Hlen Hlog1) in Hall as (log' & Hlog' & Hmap).
  exists ((c, seq, msg) :: log'). rewrite <- app_assoc in Hlog'. split; [done|]. cbn. by rewrite Hmap.
Qed.

(** Offline messages survive in the database, in order and per client.
    When pushes for any interleaving of clients have succeeded on an empty
    offline tree, draining one client returns exactly its messages in the order
    they were pushed, and the other clients' messages can still be drained.
    Client identifiers are at most 65535 bytes long, the bound of the length
    prefix, which the authenticator enforces. *)
Theorem offline_storage_roundtrip ms s m s1 m1 c items out s2 m2 :
  Forall (λ p, str_len p.1 ≤ u16_max) ms → str_len c ≤ u16_max →
  kv (offline s) = ∅ → push_all ms (s, m) = (Ok tt, (s1, m1)) →
  scan_prefix (offline s1) (offline_key_prefix c) = map Ok items →
  drain_offline c (s1, m1) = (Ok out, (s2, m2)) →
  out = map snd (List.filter (λ p, bool_decide (p.1 = c)) ms)
  ∧ ∀ c' items' out' s3 m3, str_len c' ≤ u16_max → c' ≠ c →
      scan_prefix (offline s2) (offline_key_prefix c') = map Ok items' →
      drain_offline c' (s2, m2) = (Ok out', (s3, m3)) →
      out' = map snd (List.filter (λ p, bool_decide (p.1 = c')) ms).
Proof.
  intros Hlen Hc Hemp Hpush Hscan Hdrain.
  assert (Hlog0 : offline_log [] s).
  { split_and!; [constructor..|]. intros k v. rewrite Hemp, lookup_empty. split; [done|].
    by intros (e & ?%elem_of_nil & _). }
  destruct (push_all_log _ _ _ _ _ _ Hlen Hlog0 Hpush) as (log & Hlog & Hms). cbn [app] in Hlog.
  assert (Hmap : ∀ c, map snd (List.filter (λ p, bool_decide (p.1 = c)) ms)
                      = map snd (of_client c log)).
  { intros c0. rewrite <- Hms. clear. induction log as [|e l IH]; [done|]. unfold of_client in *.
    cbn in *. destruct (bool_decide (e.1.1 = c0)); cbn; by rewrite IH. }
  destruct (offline_log_drain _ _ _ _ _ _ _ _ Hc Hlog Hscan Hdrain) as [-> Hlog2].
  split; [by rewrite Hmap|]. intros c' items' out' s3 m3 Hc' Hne Hscan' Hdrain'.
  destruct (offline_log_drain _ _ _ _ _ _ _ _ Hc' Hlog2 Hscan' Hdrain') as [-> _].
  rewrite Hmap. f_equal. by apply of_client_not_of_client.
Qed.
End Proofs.

(** ** An instance: maps as database

    A database whose trees are finite maps and whose serializer is an injective
    numbering.  It satisfies the laws, so the theorems above apply to it. *)

Lemma lex_total a b : ¬ lex_lt a b → ¬ lex_lt b a → a = b.
Proof.
  unfold lex_lt. revert b. induction a as [|x a IH]; intros [|y b]; simpl; try done.
  rewrite !orb_true_iff, !andb_true_iff, !Z.ltb_lt, !Z.eqb_eq. intros H1 H2.
  assert (x = y) as -> by lia. f_equal. apply IH; intros ?; [apply H1|apply H2]; auto.
Qed.

#[export] Instance lex_lt_dec : RelDecision lex_lt.
Proof. intros a b. unfold lex_lt. apply _. Defined.

Definition kv_le (a b : list Z * list Z) : Prop := ¬ lex_lt b.1 a.1.
#[export] Instance kv_le_dec : RelDecision kv_le.
Proof. intros a b. unfold kv_le, lex_lt. apply _. Defined.

#[export] Instance kv_le_trans : Transitive kv_le.
Proof.
  unfold kv_le. intros a b c Hab Hbc Hca. destruct (decide (lex_lt b.1 a.1)) as [|Hba]; [done|].
  destruct (decide (lex_lt a.1 b.1)) as [Hlt|Hnlt].
  - apply Hbc. by eapply lex_lt_trans.
  - rewrite (lex_total _ _ Hba Hnlt) in Hbc. done.
Qed.

#[export] Instance kv_le_total : Total kv_le.
Proof.
  intros a b. destruct (decide (lex_lt b.1 a.1)) as [Hlt|]; [right|by left].
  intros Hlt'. eapply lex_lt_irrefl, lex_lt_trans; [exact Hlt|exact Hlt'].
Qed.

Definition sorted_entries (t : gmap (list Z) (list Z)) : list (list Z * list Z) :=
  merge_sort kv_le (map_to_list t).

Lemma sorted_entries_spec t :
  key_sorted (sorted_entries t) ∧ ∀ k v, (k, v) ∈ sorted_entries t ↔ t !! k = Some v.
Proof.
  assert (Hp : sorted_entries t ≡ₚ map_to_list t) by apply merge_sort_Permutation.
  split.
  - assert (Hs : StronglySorted kv_le (sorted_entries t)) by (apply StronglySorted_merge_sort; apply _).
    assert (Hnd : NoDup (sorted_entries t).*1) by (rewrite Hp; apply NoDup_fst_map_to_list).
    clear Hp. induction Hs as [|e l _ IH Hl]; [constructor|].
    apply NoDup_cons in Hnd as [He Hnd]. constructor; [by apply IH|].
    rewrite Forall_forall in *. intros b Hb. apply Hl in Hb as Hle.
    destruct (decide (lex_lt e.1 b.1)) as [|Hn]; [done|]. exfalso. apply He.
    rewrite (lex_total _ _ Hn Hle). by apply list_elem_of_fmap_2.
  - intros k v. rewrite Hp. apply elem_of_map_to_list.
Qed.

#[export] Instance QoS_countable : Countable QoS.
Proof.
  refine (inj_countable QoS.as_u8 (λ z, match QoS.from_u8 z with Ok q => Some q | Err _ => None end) _).
  by intros [].
Defined.
#[export] Instance OutboundPublish_countable : Countable OutboundPublish.
Proof.
  refine (inj_countable' (λ m, (ob_topic m, ob_payload m, ob_qos m, ob_retain m))
            (λ '(t, p, q, r), mkOutboundPublish t p q r) _). by intros [].
Defined.
#[export] Instance RetainedMessage_eq_dec : EqDecision RetainedMessage.
Proof. solve_decision. Defined.
#[export] Instance RetainedMessage_countable : Countable RetainedMessage.
Proof.
  refine (inj_countable' (λ m, (rm_topic m, rm_payload m, rm_qos m))
            (λ '(t, p, q), mkRetainedMessage t p q) _). by intros [].
Defined.
#[export] Instance SessionSnapshot_eq_dec : EqDecision SessionSnapshot.
Proof. solve_decision. Defined.
#[export] Instance SessionSnapshot_countable : Countable SessionSnapshot.
Proof.
  refine (inj_countable' (λ m, (ss_client_id m, ss_subscriptions m))
            (λ '(c, l), mkSessionSnapshot c l) _). by intros [].
Defined.

Module MapDb.
Definition scan (t : gmap (list Z) (list Z)) (p : list Z)
    : list (Result string (list Z * list Z)) :=
  map Ok (List.filter (λ e, bool_decide (p `prefix_of` e.1)) (sorted_entries t)).

#[export] Instance map_sled : Sled := {|
  Tree := gmap (list Z) (list Z);
  Db := Z;
  sled_open _ := Ok 0;
  open_tree _ _ := Ok ∅;
  db_flush d := (Ok tt, d);
  generate_id d := if decide (0 ≤ d < u64_mod) then (Ok d, d + 1) else (Err "exhausted"%string, d);
  tree_insert t k v := (Ok tt, <[k := v]> t);
  tree_remove t k := (Ok tt, delete k t);
  tree_iter t := map Ok (sorted_entries t);
  scan_prefix t p := scan t p;
|}.

Lemma map_Ok_inj {A} (l k : list A) :
  map (Ok : A → Result string A) l = map Ok k → l = k.
Proof.
  revert k. induction l as [|a l IH]; intros [|b k]; simpl; try done.
  intros [= -> H]. f_equal. auto.
Qed.

#[export] Program Instance map_sled_laws : SledLaws map_sled := {|
  kv := λ t : gmap (list Z) (list Z), t;
  next_id := λ d : Z, d;
|}.
Next Obligation. by intros t k v t' [= <-]. Qed.
Next Obligation. by intros t k t' [= <-]. Qed.
Next Obligation.
  intros t items H%map_Ok_inj. subst items. apply sorted_entries_spec.
Qed.
Next Obligation.
  intros t p items H%map_Ok_inj. subst items. destruct (sorted_entries_spec t) as [Hs He].
  split; [by apply StronglySorted_list_filter|]. intros k v.
  rewrite list_elem_of_In, filter_In, <- list_elem_of_In, He, bool_decide_eq_true. cbn. tauto.
Qed.
Next Obligation. cbn. intros d n d'. destruct (decide _); [|done]. intros [= <- <-]. lia. Qed.

#[export] Instance count_json {A} `{Countable A} : Json A := {|
  to_vec a := Ok [Zpos (encode a)];
  from_slice l := match l with
                  | [Zpos p] => match decode p with Some a => Ok a | None => Err "bad"%string end
                  | _ => Err "bad"%string
                  end;
|}.
#[export] Instance count_json_laws {A} `{Countable A} : JsonLaws A.
Proof. intros a b [= <-]. cbn. by rewrite decode_encode. Qed.

Definition empty : Storage map_sled := @mkStorage map_sled 0 ∅ ∅ ∅.
End MapDb.
Import MapDb.

Lemma run_eq {A B C} (p : A * (B * C)) a : p.1 = a → p = (a, (p.2.1, p.2.2)).
Proof. destruct p as [? [? ?]]. by intros <-. Qed.

Definition sample_pushes : list (string * OutboundPublish) :=
  let msg s := mkOutboundPublish s [] QoS.AtLeastOnce false in
  [("c1", msg "a"); ("c2", msg "b"); ("c1", msg "c")]%string.

Lemma offline_storage_roundtrip_witness :
  let st := (push_all sample_pushes (MapDb.empty, METRICS)).2 in
  ∃ out, (drain_offline "c1" st).1 = Ok out ∧
    out = map snd (List.filter (λ p, bool_decide (p.1 = "c1"%string)) sample_pushes) ∧
    length out = 2%nat.
Proof.
  intros st. eexists. split; [vm_compute; reflexivity|]. split; [|reflexivity].
  eapply (proj1 (offline_storage_roundtrip sample_pushes MapDb.empty METRICS st.1 st.2 "c1"
    (List.filter (λ e, bool_decide (offline_key_prefix "c1" `prefix_of` e.1))
       (sorted_entries (offline st.1))) _ (drain_offline "c1" (st.1, st.2)).2.1
    (drain_offline "c1" (st.1, st.2)).2.2
    _ _ _ _ _ _)).
  Unshelve.
  - repeat constructor; vm_compute; discriminate.
  - vm_compute; discriminate.
  - reflexivity.
  - apply (run_eq _ (Ok tt)). vm_compute; reflexivity.
  - reflexivity.
  - apply run_eq. vm_compute; reflexivity.
Defined.
