(* ===== verification/Retain.v ===== *)
(** * Retained messages, [src/broker/retain.rs]

    The in-memory table of retained messages and its write-through to the
    database.  The store's handle on the database is shared with the rest of
    the broker: it is threaded, with the global counters, as [Env]. *)

From S2P Require Import Prelude Packet Messages Metrics Subscription Storage StorageProofs.

Record RetainStore := mkRetainStore {
  rs_map : gmap string RetainedMessage;
  rs_max_payload_bytes : Z;
}.

#[export] Instance RetainStore_settable : Settable RetainStore :=
  λ r, mkRetainStore (rs_map r) (rs_max_payload_bytes r).

Definition RetainStore_new : RetainStore := mkRetainStore ∅ 0.
Definition with_max_payload_bytes (self : RetainStore) (max : Z) : RetainStore :=
  self <| rs_max_payload_bytes := max |>.

Section Retain.
Context {S : Sled} {JR : Json RetainedMessage}.

(** The optional storage handle and the counters. *)
Definition Env : Type := option (Storage S) * Metrics.

(** Running a storage operation through the handle, if there is one:
    [if let Some(s) = &self.storage { s.op() }]. *)
Definition with_storage {A} (op : SE (Storage S * Metrics) BrokerError A) (env : Env)
    : option (BrokerResult A) * Env :=
  match env with
  | (Some s, m) => let '(r, (s, m)) := op (s, m) in (Some r, (Some s, m))
  | (None, m) => (None, (None, m))
  end.

(** [map.insert] of every message read from the database. *)
Definition load_from_storage (self : RetainStore) (s : Storage S) : BrokerResult RetainStore :=
  msgs ← load_all_retained s;
  Ok (self <| rs_map ::= λ map, foldl (λ map m, <[rm_topic m := m]> map) map msgs |>).

Definition set (self : RetainStore) (topic : string) (payload : list Z) (qos : QoS)
    (env : Env) : RetainStore * Env :=
  if str_is_empty topic || str_contains "+"%char topic || str_contains "#"%char topic
  then (self, env)
  else if (rs_max_payload_bytes self >? 0)
          && (Z.of_nat (length payload) >? rs_max_payload_bytes self)
  then (self, env)
  else
    let '(st, m) := env in
    let env := (st, inc_retained_stored m) in
    match payload with
    | [] =>
        match with_storage (delete_retained topic) env with
        | (Some (Err _), env) => (self, env)
        | (_, env) => (self <| rs_map ::= delete topic |>, env)
        end
    | _ =>
        let msg := mkRetainedMessage topic payload qos in
        match with_storage (save_retained topic msg) env with
        | (Some (Err _), env) => (self, env)
        | (_, env) => (self <| rs_map ::= <[topic := msg]> |>, env)
        end
    end.

Definition remove (self : RetainStore) (topic : string) (env : Env) : RetainStore * Env :=
  let self := self <| rs_map ::= delete topic |> in
  let '(_, env) := with_storage (delete_retained topic) env in
  (self, env).
End Retain.
Arguments Env S : clear implicits.

Definition get (self : RetainStore) (topic : string) : option RetainedMessage :=
  rs_map self !! topic.

Definition len (self : RetainStore) : nat := size (rs_map self).

Definition is_empty (self : RetainStore) : bool := bool_decide (rs_map self = ∅).

Definition matches (self : RetainStore) (filter : string) : list RetainedMessage :=
  List.filter (λ m, topic_matches_filter (rm_topic m) filter) (map_to_list (rs_map self)).*2.

Definition build_outbound (msg : RetainedMessage) (sub_qos : QoS) : OutboundPublish :=
  let qos := QoS.min (rm_qos msg) sub_qos in
  mkOutboundPublish (rm_topic msg) (rm_payload msg) qos true.

Definition clear (self : RetainStore) : RetainStore := self <| rs_map := ∅ |>.

(** ** Correctness *)

(** The topics that may be retained: not empty and without wildcards. *)
Definition retainable (topic : string) : bool :=
  negb (str_is_empty topic) && negb (str_contains "+"%char topic)
  && negb (str_contains "#"%char topic).

Definition fits (self : RetainStore) (payload : list Z) : bool :=
  negb ((rs_max_payload_bytes self >? 0)
        && (Z.of_nat (length payload) >? rs_max_payload_bytes self)).

(** The invariant of the table: entries are stored under their own topic. *)
Definition retain_inv (self : RetainStore) : Prop :=
  ∀ topic m, rs_map self !! topic = Some m →
    rm_topic m = topic ∧ retainable topic = true ∧ rm_payload m ≠ [] ∧ fits self (rm_payload m) = true.

Section Correct.
Context {S : Sled} {L : SledLaws S} {JR : Json RetainedMessage} {LR : JsonLaws RetainedMessage}.

(** Memory and disk agree. *)
Definition disk_agrees (self : RetainStore) (s : Storage S) : Prop :=
  (∀ k v, kv (retained s) !! k = Some v ↔
     ∃ topic m, k = as_bytes topic ∧ rs_map self !! topic = Some m ∧ to_vec m = Ok v)
  ∧ ∀ topic m, rs_map self !! topic = Some m → is_ok (to_vec m) = true.

Definition env_agrees (self : RetainStore) (env : Env S) : Prop :=
  match env.1 with Some s => disk_agrees self s | None => True end.

Lemma as_bytes_inj a b : as_bytes a = as_bytes b → a = b.
Proof. intros H. by rewrite <- (string_of_as_bytes a), H, string_of_as_bytes. Qed.

Lemma save_retained_ok topic msg s m s' m' :
  save_retained topic msg (s, m) = (Ok tt, (s', m')) →
  m' = m ∧ ∃ v, to_vec msg = Ok v ∧ kv (retained s') = <[as_bytes topic := v]> (kv (retained s)).
Proof.
  unfold save_retained, run_db, on_retained, se_lift, mbind, se_bind.
  destruct (to_vec msg) as [v|]; [|done]. cbn.
  destruct (tree_insert _ _ _) as [[[]|] t'] eqn:Ei; [|done]. intros [= <- <-].
  split; [done|]. exists v. split; [done|]. by apply insert_ok in Ei.
Qed.

Lemma delete_retained_ok topic s m s' m' :
  delete_retained topic (s, m) = (Ok tt, (s', m')) →
  m' = m ∧ kv (retained s') = delete (as_bytes topic) (kv (retained s)).
Proof.
  unfold delete_retained, run_db, on_retained.
  destruct (tree_remove _ _) as [[[]|] t'] eqn:Er; [|done]. cbn. intros [= <- <-].
  split; [done|]. by apply remove_ok in Er.
Qed.

Lemma disk_agrees_insert self s s' topic msg v :
  disk_agrees self s → to_vec msg = Ok v →
  kv (retained s') = <[as_bytes topic := v]> (kv (retained s)) →
  disk_agrees (self <| rs_map ::= <[topic := msg]> |>) s'.
Proof.
  intros [Hd Hok] Hv Hk. split.
  2:{ intros t m. cbn. intros [[_ <-]|[_ Hm]]%lookup_insert_Some; [by rewrite Hv|by eapply Hok]. }
  intros k w. rewrite Hk, lookup_insert_Some, (Hd k w). cbn. split.
  - intros [[<- <-]|(Hne & t & m & -> & Hm & Hw)].
    + exists topic, msg. by simplify_map_eq.
    + exists t, m. split; [done|]. rewrite lookup_insert_ne; [done|]. intros ->. done.
  - intros (t & m & -> & Hm & Hw). apply lookup_insert_Some in Hm as [[<- <-]|[Hne Hm]].
    + left. split; congruence.
    + right. split; [|eauto]. intros E. by apply as_bytes_inj in E.
Qed.

Lemma disk_agrees_delete self s s' topic :
  disk_agrees self s → kv (retained s') = delete (as_bytes topic) (kv (retained s)) →
  disk_agrees (self <| rs_map ::= delete topic |>) s'.
Proof.
  intros [Hd Hok] Hk. split.
  2:{ intros t m. cbn. intros [_ Hm]%lookup_delete_Some. by eapply Hok. }
  intros k w. rewrite Hk, lookup_delete_Some, (Hd k w). cbn. split.
  - intros (Hne & t & m & -> & Hm & Hw). exists t, m. split; [done|].
    rewrite lookup_delete_ne; [done|]. intros ->. done.
  - intros (t & m & -> & Hm & Hw). apply lookup_delete_Some in Hm as [Hne Hm].
    split; [|eauto]. intros E. by apply as_bytes_inj in E.
Qed.

(** *** One [set] *)

(** The table after a [set] that is accepted and reaches the disk. *)
Definition set_table (map : gmap string RetainedMessage) (topic : string) (payload : list Z)
    (qos : QoS) : gmap string RetainedMessage :=
  match payload with
  | [] => delete topic map
  | _ => <[topic := mkRetainedMessage topic payload qos]> map
  end.

Lemma set_rejected self topic payload qos (env : Env S) :
  retainable topic && fits self payload = false → set self topic payload qos env = (self, env).
Proof.
  unfold set, retainable, fits.
  destruct (str_is_empty topic), (str_contains "+"%char topic), (str_contains "#"%char topic); try done.
  cbn. by destruct ((_ >? _) && (_ >? _)).
Qed.

Lemma set_cases self topic payload qos (env : Env S) :
  let '(self', env') := set self topic payload qos env in
  rs_max_payload_bytes self' = rs_max_payload_bytes self ∧
  (rs_map self' = rs_map self ∨
   retainable topic && fits self payload = true ∧
   rs_map self' = set_table (rs_map self) topic payload qos).
Proof.
  destruct (retainable topic && fits self payload) eqn:E.
  2:{ rewrite set_rejected by done. auto. }
  unfold set. destruct (str_is_empty topic || _ || _); [auto|].
  destruct ((_ >? _) && (_ >? _)); [auto|]. destruct env as [st m].
  destruct payload as [|b payload].
  - destruct (with_storage _ _) as [[[[]|]|] env']; cbn; auto.
  - destruct (with_storage _ _) as [[[[]|]|] env']; cbn; auto.
Qed.

Lemma set_inv self topic payload qos (env : Env S) :
  retain_inv self → retain_inv (set self topic payload qos env).1.
Proof.
  intros Hinv. pose proof (set_cases self topic payload qos env) as H.
  destruct (set _ _ _ _ _) as [self' env']. destruct H as [Hmax [Hm|[Hacc Hm]]];
    intros t m; cbn [fst]; rewrite Hm.
  - intros Ht. unfold fits. rewrite Hmax. by apply Hinv.
  - apply andb_prop in Hacc as [Hr Hf]. unfold fits in *. rewrite Hmax.
    destruct payload as [|b p]; cbn [set_table].
    + intros [_ Ht]%lookup_delete_Some. by apply Hinv.
    + intros [[<- <-]|[_ Ht]]%lookup_insert_Some; [done|]. by apply Hinv.
Qed.

(** *** Restart *)

Lemma foldl_insert_topic (map : gmap string RetainedMessage) msgs t :
  let map' := foldl (λ map m, <[rm_topic m := m]> map) map msgs in
  (∃ m, m ∈ msgs ∧ rm_topic m = t ∧ map' !! t = Some m) ∨
  ((∀ m, m ∈ msgs → rm_topic m ≠ t) ∧ map' !! t = map !! t).
Proof.
  induction msgs as [|m msgs IH] using rev_ind; cbn zeta in *.
  { right. split; [|done]. intros m Hm. by apply elem_of_nil in Hm. }
  rewrite foldl_snoc. destruct (decide (rm_topic m = t)) as [Ht|Ht].
  { left. exists m. rewrite Ht, lookup_insert_eq. split; [|done]. apply elem_of_app. right. by left. }
  rewrite lookup_insert_ne by done. destruct IH as [(m' & Hin & Ht' & Hl)|[Hno Hl]].
  - left. exists m'. split; [|done]. apply elem_of_app. by left.
  - right. split; [|done]. intros m' [?| ->%list_elem_of_singleton]%elem_of_app; auto.
Qed.

Lemma load_recovers self s items :
  retain_inv self → disk_agrees self s → tree_iter (retained s) = map Ok items →
  load_from_storage RetainStore_new s = Ok (RetainStore_new <| rs_map := rs_map self |>).
Proof.
  intros Hinv [Hd Hok] Hit. destruct (iter_ok _ _ Hit) as [_ Hitems].
  unfold load_from_storage, load_all_retained. rewrite Hit, load_items_ok. cbn.
  set (msgs := omap _ items).
  assert (Hm : ∀ m, m ∈ msgs ↔ rs_map self !! rm_topic m = Some m).
  { intros m. unfold msgs. rewrite list_elem_of_omap. split.
    - intros ([k v] & Hin & Hf). apply Hitems, Hd in Hin as (t & m' & -> & Ht & Hv).
      cbn in Hf. rewrite (json_roundtrip _ _ Hv) in Hf. injection Hf as ->.
      by rewrite (proj1 (Hinv _ _ Ht)).
    - intros Ht. pose proof (Hok _ _ Ht) as Ho. destruct (to_vec m) as [v|] eqn:Ev; [|done].
      exists (as_bytes (rm_topic m), v). cbn. rewrite (json_roundtrip _ _ Ev). split; [|done].
      apply Hitems, Hd. eauto 10. }
  clearbody msgs. do 2 f_equal. apply map_eq. intros t.
  destruct (foldl_insert_topic ∅ msgs t) as [(m & Hin & <- & ->)|[Hno ->]].
  - symmetry. by apply Hm.
  - rewrite lookup_empty. symmetry. apply eq_None_not_Some. intros [m Hl].
    apply (Hno m); [|by apply Hinv]. apply Hm. by rewrite (proj1 (Hinv _ _ Hl)).
Qed.

(** *** A run of the store on a healthy disk *)

(** Writes succeed and values serialize. *)
Definition healthy : Prop :=
  (∀ t k v, (tree_insert t k v).1 = Ok tt) ∧ (∀ t k, (tree_remove t k).1 = Ok tt)
  ∧ (∀ m : RetainedMessage, is_ok (to_vec m) = true).

Inductive RetainCmd := RSet (topic : string) (payload : list Z) (qos : QoS) | RRemove (topic : string).

Definition retain_step (st : RetainStore * Env S) (cmd : RetainCmd) : RetainStore * Env S :=
  match cmd with
  | RSet t p q => set st.1 t p q st.2
  | RRemove t => remove st.1 t st.2
  end.

(** The table the commands describe. *)
Definition spec_retain (self : RetainStore) (map : gmap string RetainedMessage) (cmd : RetainCmd)
    : gmap string RetainedMessage :=
  match cmd with
  | RSet t p q => if retainable t && fits self p then set_table map t p q else map
  | RRemove t => delete t map
  end.

Lemma healthy_save topic msg s m :
  healthy → ∃ s' v, save_retained topic msg (s, m) = (Ok tt, (s', m)) ∧ to_vec msg = Ok v
    ∧ kv (retained s') = <[as_bytes topic := v]> (kv (retained s)).
Proof.
  intros (Hi & _ & Hv).
  destruct (save_retained topic msg (s, m)) as [r [s' m']] eqn:E.
  assert (r = Ok tt) as ->.
  { revert E. unfold save_retained, run_db, on_retained, se_lift, mbind, se_bind.
    specialize (Hv msg). destruct (to_vec msg) as [v|]; [|done]. cbn.
    specialize (Hi (retained s) (as_bytes topic) v).
    destruct (tree_insert _ _ _) as [r' t']. cbn in Hi. subst r'. by intros [= <-]. }
  destruct (save_retained_ok _ _ _ _ _ _ E) as (-> & v & Hv' & Hk). eauto.
Qed.

Lemma healthy_delete topic s m :
  healthy → ∃ s', delete_retained topic (s, m) = (Ok tt, (s', m))
    ∧ kv (retained s') = delete (as_bytes topic) (kv (retained s)).
Proof.
  intros (_ & Hr & _).
  destruct (delete_retained topic (s, m)) as [r [s' m']] eqn:E.
  assert (r = Ok tt) as ->.
  { revert E. unfold delete_retained, run_db, on_retained.
    specialize (Hr (retained s) (as_bytes topic)).
    destruct (tree_remove _ _) as [r' t']. cbn in Hr. subst r'. by intros [= <-]. }
  destruct (delete_retained_ok _ _ _ _ _ E) as (-> & Hk). eauto.
Qed.

Lemma retain_step_ok self s m cmd :
  healthy → retain_inv self → disk_agrees self s →
  ∃ self' s' m', retain_step (self, (Some s, m)) cmd = (self', (Some s', m'))
    ∧ retain_inv self' ∧ disk_agrees self' s'
    ∧ rs_max_payload_bytes self' = rs_max_payload_bytes self
    ∧ rs_map self' = spec_retain self (rs_map self) cmd.
Proof.
  intros Hh Hinv Hd. destruct cmd as [t p q|t]; cbn [retain_step spec_retain fst snd].
  - destruct (retainable t && fits self p) eqn:Eacc.
    2:{ rewrite set_rejected by done. eauto 10. }
    pose proof (set_inv self t p q (Some s, m) Hinv) as Hinv'. revert Hinv'.
    unfold set. unfold retainable, fits in Eacc.
    destruct (str_is_empty t), (str_contains "+"%char t), (str_contains "#"%char t); try done.
    cbn [orb andb negb] in *. rewrite (proj1 (negb_true_iff _) Eacc). destruct p as [|b p].
    + destruct (healthy_delete t s (inc_retained_stored m) Hh) as (s' & E & Hk).
      unfold with_storage. rewrite E. intros Hinv'. eexists _, s', _.
      split_and!; [done|exact Hinv'|by eapply disk_agrees_delete|done|done].
    + destruct (healthy_save t (mkRetainedMessage t (b :: p) q) s (inc_retained_stored m) Hh)
        as (s' & v & E & Hv & Hk).
      unfold with_storage. rewrite E. intros Hinv'. eexists _, s', _.
      split_and!; [done|exact Hinv'|by eapply disk_agrees_insert|done|done].
  - destruct (healthy_delete t s m Hh) as (s' & E & Hk).
    unfold remove, with_storage. rewrite E. eexists _, s', _.
    split_and!; [done| |by eapply disk_agrees_delete|done|done].
    intros t' m'. cbn. intros [_ Ht]%lookup_delete_Some. by apply Hinv.
Qed.

Lemma retain_run_ok cmds self s m :
  healthy → retain_inv self → disk_agrees self s →
  ∃ self' s' m', foldl retain_step (self, (Some s, m)) cmds = (self', (Some s', m'))
    ∧ retain_inv self' ∧ disk_agrees self' s'
    ∧ rs_map self' = foldl (spec_retain self) (rs_map self) cmds.
Proof.
  intros Hh. revert self s m. induction cmds as [|cmd cmds IH]; intros self s m Hinv Hd; cbn [foldl].
  { eauto 10. }
  destruct (retain_step_ok self s m cmd Hh Hinv Hd) as (self1 & s1 & m1 & -> & Hinv1 & Hd1 & Hmax & Hm).
  destruct (IH self1 s1 m1 Hinv1 Hd1) as (self' & s' & m' & E & Hinv' & Hd' & Hm').
  exists self', s', m'. split_and!; [done..|]. rewrite Hm', Hm. clear -Hmax.
  generalize (spec_retain self (rs_map self) cmd). induction cmds as [|c cmds IH]; [done|].
  intros map. cbn. rewrite IH. f_equal. destruct c; cbn; [|done]. unfold fits. by rewrite Hmax.
Qed.

(** C37: retained messages and restart.  On a disk whose writes succeed, after
    any sequence of [set] and [remove] on a fresh store the table holds, for
    each topic, the last accepted non-empty payload (wildcard topics and
    oversized payloads are ignored, an empty payload clears), and a store
    loaded from the database after a restart holds exactly the same table. *)
Theorem retained_restart cmds s m max :
  healthy → kv (retained s) = ∅ →
  let '(self, env) := foldl retain_step
    (with_max_payload_bytes RetainStore_new max, (Some s, m)) cmds in
  rs_map self = foldl (spec_retain (with_max_payload_bytes RetainStore_new max)) ∅ cmds
  ∧ retain_inv self
  ∧ ∃ s', env.1 = Some s' ∧
      ∀ items, tree_iter (retained s') = map Ok items →
        load_from_storage RetainStore_new s'
        = Ok (RetainStore_new <| rs_map := rs_map self |>).
Proof.
  intros Hh Hemp.
  destruct (retain_run_ok cmds (with_max_payload_bytes RetainStore_new max) s m)
    as (self & s' & m' & -> & Hinv & Hd & Hm); [done|done| |].
  { split; [|done]. intros k v. rewrite Hemp, lookup_empty. split; [done|].
    intros (? & ? & _ & H & _). cbn in H. by rewrite lookup_empty in H. }
  split_and!; [done|done|]. exists s'. split; [done|]. intros items. by apply load_recovers.
Qed.
End Correct.

Import MapDb.

Lemma retained_restart_witness :
  let st := foldl retain_step
    (with_max_payload_bytes RetainStore_new 100, (Some MapDb.empty, METRICS))
    [RSet "a/b" [1; 2] QoS.AtLeastOnce; RSet "c" [3] QoS.AtMostOnce; RSet "c" [] QoS.AtMostOnce;
     RSet "a/+" [1] QoS.AtMostOnce] in
  rs_map st.1 = {["a/b"%string := mkRetainedMessage "a/b" [1; 2] QoS.AtLeastOnce]} ∧ retain_inv st.1.
Proof.
  intros st. split; [vm_compute; reflexivity|].
  pose proof (retained_restart
    [RSet "a/b" [1; 2] QoS.AtLeastOnce; RSet "c" [3] QoS.AtMostOnce; RSet "c" [] QoS.AtMostOnce;
     RSet "a/+" [1] QoS.AtMostOnce] MapDb.empty METRICS 100) as H.
  fold st in H. destruct st as [self env]. cbn [fst].
  apply H; [|reflexivity]. split_and!; reflexivity.
Defined.
