(* ===== verification/Session.v ===== *)
(** * Sessions, [src/broker/session.rs]

    The table of sessions: registration with takeover of an older connection,
    epochs, delivery to a connected client or to its offline queue, expiry.
    The bounded channels of the async runtime (tokio) are the parameter
    [Mpsc].  Every method is one operation on the table; the two phases of
    [cleanup_expired] are also separate definitions, so that what may happen
    between them can be stated. *)

From S2P Require Import Prelude Packet Messages OfflineQueue.

(** ** Channels *)

(** The answers of [Sender::try_send]; the two errors give the message back. *)
Inductive TrySend := TrySent | TryFull (msg : OutboundPublish) | TryClosed (msg : OutboundPublish).

Class Mpsc := {
  Sender : Type;
  Chans : Type;                                   (* the state of the channels *)
  channel : Chans → nat → Sender * Chans;         (* [mpsc::channel(cap)] *)
  try_send : Chans → Sender → OutboundPublish → TrySend * Chans;
}.

(** A message that is sent is queued behind the others on its channel and takes
    one of its free slots; one that is not leaves the channels as they were; a
    channel with free slots accepts.  Other channels are not affected. *)
Class MpscLaws (M : Mpsc) := {
  queued : Chans → Sender → list OutboundPublish;
  room : Chans → Sender → nat;                    (* free slots; 0 when closed *)
  try_send_sent ch tx m ch' : try_send ch tx m = (TrySent, ch') →
    queued ch' tx = queued ch tx ++ [m];
  try_send_other ch tx m r ch' tx' : try_send ch tx m = (r, ch') → tx' ≠ tx →
    queued ch' tx' = queued ch tx';
  try_send_room ch tx m : (0 < room ch tx)%nat →
    ∃ ch', try_send ch tx m = (TrySent, ch') ∧ room ch tx = S (room ch' tx);
  try_send_room_other ch tx m r ch' tx' : try_send ch tx m = (r, ch') → tx' ≠ tx →
    room ch' tx' = room ch tx';
  try_send_full ch tx m m' ch' : try_send ch tx m = (TryFull m', ch') → m' = m ∧ ch' = ch;
  try_send_closed ch tx m m' ch' : try_send ch tx m = (TryClosed m', ch') → m' = m ∧ ch' = ch;
}.

(** The receiving half; sender and receiver of a channel have the same name. *)
Class MpscRx (M : Mpsc) := {
  recv : Chans → Sender → option (OutboundPublish * Chans);  (* [rx.recv()]; [None] while it waits *)
  close : Chans → Sender → Chans;                 (* [rx] is dropped *)
}.

(** The oldest message comes first, and receiving makes no channel fuller.  A new
    channel is none of those created before, and is empty; receiving from a
    channel or closing it does not affect the others; a closed one accepts
    nothing. *)
Class MpscRxLaws (M : Mpsc) (L : MpscLaws M) (R : MpscRx M) := {
  same_channel :: EqDecision Sender;              (* [Sender::same_channel] *)
  created : Chans → Sender → Prop;
  recv_queued ch rx :
    match recv ch rx with
    | Some (m, ch') => queued ch rx = m :: queued ch' rx
    | None => queued ch rx = []
    end;
  recv_other ch rx m ch' tx : recv ch rx = Some (m, ch') → tx ≠ rx → queued ch' tx = queued ch tx;
  recv_room ch rx m ch' tx : recv ch rx = Some (m, ch') → (room ch tx ≤ room ch' tx)%nat;
  channel_fresh ch cap tx ch' : channel ch cap = (tx, ch') →
    ¬ created ch tx ∧ created ch' tx ∧ queued ch' tx = [];
  channel_other ch cap tx ch' tx' : channel ch cap = (tx, ch') → tx' ≠ tx →
    queued ch' tx' = queued ch tx' ∧ room ch' tx' = room ch tx';
  close_other ch rx tx : tx ≠ rx → queued (close ch rx) tx = queued ch tx;
  close_room ch rx : room (close ch rx) rx = O;
  created_channel ch cap tx ch' tx' : channel ch cap = (tx, ch') → created ch tx' → created ch' tx';
  created_send ch tx m r ch' tx' : try_send ch tx m = (r, ch') → created ch tx' → created ch' tx';
  created_recv ch rx m ch' tx : recv ch rx = Some (m, ch') → created ch tx → created ch' tx;
  created_close ch rx tx : created ch tx → created (close ch rx) tx;
}.

(** ** Data *)

Section Session.
Context {M : Mpsc}.

Record SessionEntry := mkSessionEntry {
  client_id : string;
  clean_session : bool;
  tx : Sender;
  will : option WillMessage;
  protocol_level : Z;
  peer_addr : SocketAddr;
  connected_at : Instant;
  epoch : Z;
  connected : bool;
  offline_queue : option OfflineQueue;
  session_expiry : option Z;
  offline_at : option Instant;
}.

#[export] Instance SessionEntry_settable : Settable SessionEntry :=
  λ e, mkSessionEntry (client_id e) (clean_session e) (tx e) (will e) (protocol_level e)
         (peer_addr e) (connected_at e) (epoch e) (connected e) (offline_queue e)
         (session_expiry e) (offline_at e).

(** [SessionEntry::persistent] and [SessionEntry::clean] *)
Definition persistent (client_id : string) (tx : Sender) (will : option WillMessage)
    (protocol_level : Z) (peer_addr : SocketAddr) (epoch : Z) (max_offline : nat)
    (offline_ttl : Duration) (session_expiry : option Z) (now : Instant) : SessionEntry :=
  mkSessionEntry client_id false tx will protocol_level peer_addr now epoch true
    (Some (queue_new max_offline offline_ttl)) session_expiry None.

Definition clean (client_id : string) (tx : Sender) (will : option WillMessage)
    (protocol_level : Z) (peer_addr : SocketAddr) (epoch : Z) (now : Instant) : SessionEntry :=
  mkSessionEntry client_id true tx will protocol_level peer_addr now epoch true None None None.

(** [is_expired], and the same test of [cleanup_expired] against its own
    [now] ([at.elapsed()] is [now.duration_since(at)]). *)
Definition is_expired (e : SessionEntry) (now : Instant) : bool :=
  if connected e then false
  else match session_expiry e, offline_at e with
       | Some 0, _ => true
       | Some secs, Some at_ => as_secs (duration_since now at_) >=? secs
       | _, _ => false
       end.

Record SessionManager := mkSessionManager {
  sessions : gmap string SessionEntry;
  epoch_counter : Z;
  max_offline_messages : nat;
  offline_message_ttl : Duration;
  online_count : Z;
}.

#[export] Instance SessionManager_settable : Settable SessionManager :=
  λ m, mkSessionManager (sessions m) (epoch_counter m) (max_offline_messages m)
         (offline_message_ttl m) (online_count m).

Definition with_limits (max_offline : nat) (ttl : Duration) : SessionManager :=
  mkSessionManager ∅ 0 max_offline ttl 0.
Definition SessionManager_new : SessionManager := with_limits 1000 (from_secs 86400).

(** [fetch_add(1)] and [fetch_sub(1)] on the [AtomicUsize]. *)
Definition online_inc (self : SessionManager) : SessionManager :=
  self <| online_count ::= λ n, wrap_u64 (n + 1) |>.
Definition online_dec (self : SessionManager) : SessionManager :=
  self <| online_count ::= λ n, wrap_u64 (n - 1) |>.

(** ** Registration *)

Definition register (self : SessionManager) (cid : string) (clean_session_ : bool)
    (tx_ : Sender) (will_ : option WillMessage) (level : Z) (peer : SocketAddr)
    (expiry : option Z) (now : Instant)
    : (Z * bool * list OutboundPublish) * SessionManager :=
  let epoch_ := wrap_u64 (epoch_counter self + 1) in
  let self := self <| epoch_counter := epoch_ |> in
  let new_entry :=
    if clean_session_ then clean cid tx_ will_ level peer epoch_ now
    else persistent cid tx_ will_ level peer epoch_ (max_offline_messages self)
           (offline_message_ttl self) expiry now in
  match sessions self !! cid with
  | Some old =>
      let session_present := negb (clean_session old) in
      let drained :=
        if negb (clean_session old) then
          match offline_queue old with
          | Some q => (OfflineQueue.drain q now).1
          | None => []
          end
        else [] in
      let inc_online := negb (connected old) in
      let self := self <| sessions ::= <[cid := new_entry]> |> in
      ((epoch_, session_present, drained), if inc_online then online_inc self else self)
  | None =>
      let self := self <| sessions ::= <[cid := new_entry]> |> in
      ((epoch_, false, []), online_inc self)
  end.

(** ** Queries *)

Definition owns (self : SessionManager) (cid : string) (ep : Z) : bool :=
  match sessions self !! cid with
  | Some e => epoch e =? ep
  | None => false
  end.

Definition get_tx (self : SessionManager) (cid : string) : option Sender :=
  tx <$> sessions self !! cid.

Definition is_clean_session (self : SessionManager) (cid : string) : bool :=
  match sessions self !! cid with Some e => clean_session e | None => false end.

Definition is_online (self : SessionManager) (cid : string) : bool :=
  match sessions self !! cid with Some e => connected e | None => false end.

Definition is_session_expired (self : SessionManager) (cid : string) (now : Instant) : bool :=
  match sessions self !! cid with Some e => is_expired e now | None => false end.

Definition total_count (self : SessionManager) : nat := size (sessions self).

Definition iter_snapshot (self : SessionManager)
    : list (string * bool * SocketAddr * Instant) :=
  map (λ ke : string * SessionEntry,
         (client_id ke.2, connected ke.2, peer_addr ke.2, connected_at ke.2))
      (map_to_list (sessions self)).

(** ** Delivery *)

(** Enqueuing into the session's queue; the handle [q] is the one read from the
    entry. *)
Definition enqueue_into (self : SessionManager) (cid : string) (q : OfflineQueue)
    (msg : OutboundPublish) (now : Instant) : option SessionManager :=
  q ← enqueue q msg now;
  Some (self <| sessions ::= alter (λ e, e <| offline_queue := Some q |>) cid |>).

(** The branches [if let Some(q) = &offline_queue { q.enqueue(msg); Enqueued }
    else { otherwise }].  [None]: the call does not return (see [enqueue]). *)
Definition enqueue_or (self : SessionManager) (cid : string) (e : SessionEntry)
    (msg : OutboundPublish) (now : Instant) (ch : Chans) (otherwise : DeliveryOutcome)
    : option (DeliveryOutcome * SessionManager * Chans) :=
  match offline_queue e with
  | Some q =>
      self ← enqueue_into self cid q msg now;
      Some (DeliveryOutcome.Enqueued, self, ch)
  | None => Some (otherwise, self, ch)
  end.

Definition deliver_or_enqueue (self : SessionManager) (cid : string) (msg : OutboundPublish)
    (now : Instant) (ch : Chans) : option (DeliveryOutcome * SessionManager * Chans) :=
  match sessions self !! cid with
  | None => Some (DeliveryOutcome.NoSession, self, ch)
  | Some e =>
      if connected e then
        match try_send ch (tx e) msg with
        | (TrySent, ch) => Some (DeliveryOutcome.Sent, self, ch)
        | (TryFull msg, ch) => enqueue_or self cid e msg now ch DeliveryOutcome.ChannelFull
        | (TryClosed msg, ch) => enqueue_or self cid e msg now ch DeliveryOutcome.Dropped
        end
      else enqueue_or self cid e msg now ch DeliveryOutcome.Dropped
  end.

(** ** Removal and state changes *)

Definition remove (self : SessionManager) (cid : string) : option SessionEntry * SessionManager :=
  match sessions self !! cid with
  | Some v =>
      let self := self <| sessions ::= delete cid |> in
      (Some v, if connected v then online_dec self else self)
  | None => (None, self)
  end.

Definition remove_if_epoch (self : SessionManager) (cid : string) (ep : Z)
    : option SessionEntry * SessionManager :=
  match sessions self !! cid with
  | Some v =>
      if epoch v =? ep then
        let self := self <| sessions ::= delete cid |> in
        (Some v, if connected v then online_dec self else self)
      else (None, self)
  | None => (None, self)
  end.

Definition mark_offline (self : SessionManager) (cid : string) (ep : Z) (now : Instant)
    : SessionManager :=
  match sessions self !! cid with
  | Some e =>
      if (epoch e =? ep) && connected e then
        online_dec (self <| sessions ::=
          <[cid := e <| connected := false |> <| offline_at := Some now |>]> |>)
      else self
  | None => self
  end.

Definition mark_online (self : SessionManager) (cid : string) (ep : Z) : SessionManager :=
  match sessions self !! cid with
  | Some e =>
      if (epoch e =? ep) && negb (connected e) then
        online_inc (self <| sessions ::=
          <[cid := e <| connected := true |> <| offline_at := None |>]> |>)
      else self
  | None => self
  end.

(** The two phases of [cleanup_expired]: collecting the identifiers, and, for
    each of them, checking again and removing. *)
Definition expired_ids (self : SessionManager) (now : Instant) : list string :=
  omap (λ ke : string * SessionEntry,
          if is_expired ke.2 now then Some (client_id ke.2) else None)
       (map_to_list (sessions self)).

Definition is_still_expired (self : SessionManager) (id : string) (now : Instant) : bool :=
  match sessions self !! id with Some e => is_expired e now | None => false end.

(** [self.sessions.remove(id)]: the table entry only. *)
Definition remove_entry (self : SessionManager) (id : string) : SessionManager :=
  self <| sessions ::= delete id |>.

Definition cleanup_one (now : Instant) (st : SessionManager * list string) (id : string)
    : SessionManager * list string :=
  let '(self, removed) := st in
  if is_still_expired self id now then (remove_entry self id, removed ++ [id])
  else st.

Definition cleanup_expired (self : SessionManager) (now : Instant)
    : SessionManager * list string :=
  foldl (cleanup_one now) (self, []) (expired_ids self now).

Definition take_will (self : SessionManager) (cid : string) (ep : Z)
    : option WillMessage * SessionManager :=
  match sessions self !! cid with
  | Some e =>
      if epoch e =? ep
      then (will e, self <| sessions ::= <[cid := e <| will := None |>]> |>)
      else (None, self)
  | None => (None, self)
  end.

Definition clear_will (self : SessionManager) (cid : string) (ep : Z) : SessionManager :=
  match sessions self !! cid with
  | Some e =>
      if epoch e =? ep then self <| sessions ::= <[cid := e <| will := None |>]> |> else self
  | None => self
  end.
End Session.
Arguments SessionEntry M : clear implicits.
Arguments SessionManager M : clear implicits.
