(* ===== verification/SessionProofs.v ===== *)
(** * Sessions: correctness

    The counter of connected sessions, ownership by epoch, delivery and the
    replay of offline messages, and expiry. *)

From stdpp Require Import sorting.
From S2P Require Import Prelude Packet Messages OfflineQueue Session.

(** ** Counting the connected sessions *)

Section Count.
Context {M : Mpsc}.

Definition is_connected (ke : string * SessionEntry M) : Prop := connected ke.2 = true.
#[export] Instance is_connected_dec ke : Decision (is_connected ke).
Proof. unfold is_connected. apply _. Defined.

Definition online (m : gmap string (SessionEntry M)) : Z :=
  Z.of_nat (size (filter is_connected m)).

Definition one (b : bool) : Z := if b then 1 else 0.

Lemma online_delete m c e :
  m !! c = Some e → online m = online (delete c m) + one (connected e).
Proof.
  intros Hc. unfold online. rewrite map_filter_delete.
  destruct (connected e) eqn:E; cbn [one].
  - assert (Hf : filter is_connected m !! c = Some e) by (by apply map_lookup_filter_Some).
    rewrite map_size_delete, Hf. assert (size (filter is_connected m) ≠ 0%nat).
    { rewrite map_size_ne_0_lookup. eauto. }
    lia.
  - assert (Hf : filter is_connected m !! c = None).
    { apply map_lookup_filter_None. right. intros e' He'. assert (e' = e) by congruence. subst.
      unfold is_connected. cbn. congruence. }
    rewrite map_size_delete, Hf. cbn. lia.
Qed.

Lemma online_insert m c e :
  online (<[c := e]> m) = online (delete c m) + one (connected e).
Proof.
  rewrite (online_delete _ c e) by apply lookup_insert_eq. by rewrite delete_insert_eq.
Qed.

Lemma online_delete_none m c : m !! c = None → online (delete c m) = online m.
Proof. intros H. by rewrite delete_id. Qed.
End Count.

(** ** The invariant *)

Section Inv.
Context {M : Mpsc}.

(** A persistent session has a queue with the manager's limits and within them, a
    clean one has none; epochs have been issued by the counter. *)
Definition entry_inv (self : SessionManager M) (c : string) (e : SessionEntry M) : Prop :=
  client_id e = c ∧ 0 < epoch e ≤ epoch_counter self ∧
  match offline_queue e with
  | Some q => clean_session e = false ∧ max_messages q = max_offline_messages self
              ∧ ttl q = offline_message_ttl self ∧ (length (inner q) ≤ max_messages q)%nat
  | None => clean_session e = true
  end.

Record sess_inv (self : SessionManager M) : Prop := {
  inv_online : online_count self = wrap_u64 (online (sessions self));
  inv_counter : 0 ≤ epoch_counter self < u64_mod;
  inv_entries c e : sessions self !! c = Some e → entry_inv self c e;
}.

Lemma wrap_add a b : wrap_u64 (wrap_u64 a + b) = wrap_u64 (a + b).
Proof. unfold wrap_u64. by rewrite Zplus_mod_idemp_l. Qed.
Lemma wrap_sub a b : wrap_u64 (wrap_u64 a - b) = wrap_u64 (a - b).
Proof. unfold wrap_u64. by rewrite Zminus_mod_idemp_l. Qed.

Lemma sess_inv_new max ttl0 : sess_inv (with_limits max ttl0).
Proof. constructor; cbn; [done|unfold u64_mod; lia|]. intros c e. by rewrite lookup_empty. Qed.

(** Replacing one entry, with the counter adjusted to the change. *)
Lemma sess_inv_update self c e' n :
  sess_inv self → entry_inv self c e' →
  n = wrap_u64 (online (delete c (sessions self)) + one (connected e')) →
  sess_inv (self <| sessions ::= <[c := e']> |> <| online_count := n |>).
Proof.
  intros [Ho Hc He] He' Hn. constructor; cbn; [|done|].
  - by rewrite Hn, online_insert.
  - intros c0 e0. rewrite lookup_insert_Some. intros [[<- <-]|[_ H]]; [done|]. by apply He.
Qed.

Lemma sess_inv_delete self c n :
  sess_inv self → n = wrap_u64 (online (delete c (sessions self))) →
  sess_inv (self <| sessions ::= delete c |> <| online_count := n |>).
Proof.
  intros [Ho Hc He] Hn. constructor; cbn; [done|done|].
  intros c0 e0 [_ H]%lookup_delete_Some. by apply He.
Qed.

(** Records with the counter written back. *)
Lemma self_eta (self : SessionManager M) f :
  self <| sessions ::= f |>
  = self <| sessions ::= f |> <| online_count := online_count self |>.
Proof. done. Qed.

Lemma online_inc_upd (self : SessionManager M) f :
  online_inc (self <| sessions ::= f |>)
  = self <| sessions ::= f |> <| online_count := wrap_u64 (online_count self + 1) |>.
Proof. done. Qed.
Lemma online_dec_upd (self : SessionManager M) f :
  online_dec (self <| sessions ::= f |>)
  = self <| sessions ::= f |> <| online_count := wrap_u64 (online_count self - 1) |>.
Proof. done. Qed.

Lemma entry_inv_counter self self' c e :
  epoch_counter self ≤ epoch_counter self' →
  max_offline_messages self' = max_offline_messages self →
  offline_message_ttl self' = offline_message_ttl self →
  entry_inv self c e → entry_inv self' c e.
Proof.
  intros Hc Hm Ht (H1 & H2 & H3). split; [done|]. split; [lia|].
  destruct (offline_queue e); [|done]. by rewrite Hm, Ht.
Qed.

Lemma sess_inv_bump self ep :
  sess_inv self → ep = epoch_counter self + 1 → ep < u64_mod →
  sess_inv (self <| epoch_counter := ep |>).
Proof.
  intros [Ho Hc He] -> Hep. constructor; cbn; [done|lia|]. intros c e H.
  eapply entry_inv_counter; [..|by apply He]; [cbn; lia|done|done].
Qed.

Lemma new_entry_inv (self : SessionManager M) cid cl tx_ w lvl peer ex now :
  0 < epoch_counter self →
  entry_inv self cid
    (if (cl : bool) then clean cid tx_ w lvl peer (epoch_counter self) now
     else persistent cid tx_ w lvl peer (epoch_counter self) (max_offline_messages self)
            (offline_message_ttl self) ex now).
Proof. intros H. destruct cl; split_and!; cbn; (done || lia). Qed.

Lemma new_entry_connected (self : SessionManager M) cid (cl : bool) tx_ w lvl peer ex now ep :
  connected (if cl then clean cid tx_ w lvl peer ep now
     else persistent cid tx_ w lvl peer ep (max_offline_messages self)
            (offline_message_ttl self) ex now) = true.
Proof. by destruct cl. Qed.

Lemma register_inv self cid cl tx_ w lvl peer ex now :
  sess_inv self → epoch_counter self + 1 < u64_mod →
  sess_inv (register self cid cl tx_ w lvl peer ex now).2.
Proof.
  intros Hinv Hep. unfold register. pose proof (inv_counter _ Hinv).
  assert (Hw : wrap_u64 (epoch_counter self + 1) = epoch_counter self + 1)
    by (unfold wrap_u64; apply Z.mod_small; lia).
  rewrite Hw. set (self1 := self <| epoch_counter := epoch_counter self + 1 |>).
  assert (Hinv1 : sess_inv self1) by (by apply sess_inv_bump).
  assert (Hep1 : epoch_counter self + 1 = epoch_counter self1) by done.
  assert (Hpos : 0 < epoch_counter self1) by lia. rewrite Hep1. clearbody self1.
  pose proof (new_entry_inv self1 cid cl tx_ w lvl peer ex now Hpos) as He.
  pose proof (new_entry_connected self1 cid cl tx_ w lvl peer ex now (epoch_counter self1)) as Hcon.
  set (ne := if cl then _ else _) in *. clearbody ne.
  destruct (sessions self1 !! cid) as [old|] eqn:E; cbv zeta; cbn [snd].
  - destruct (connected old) eqn:Ec; cbn [negb].
    + rewrite self_eta. apply sess_inv_update; [done..|].
      rewrite Hcon. rewrite (inv_online _ Hinv1), (online_delete _ _ _ E), Ec. done.
    + rewrite online_inc_upd. apply (sess_inv_update self1 cid ne); [done..|].
      rewrite Hcon. cbn [one]. rewrite (inv_online _ Hinv1), wrap_add, (online_delete _ _ _ E), Ec.
      cbn [one]. f_equal. lia.
  - rewrite online_inc_upd. apply (sess_inv_update self1 cid ne); [done..|].
    rewrite Hcon. cbn [one]. rewrite (inv_online _ Hinv1), wrap_add.
    by rewrite online_delete_none.
Qed.

Lemma remove_inv_gen self cid v :
  sess_inv self → sessions self !! cid = Some v →
  sess_inv (let self := self <| sessions ::= delete cid |> in
            if connected v then online_dec self else self).
Proof.
  intros Hinv E. cbv zeta. pose proof (inv_online _ Hinv) as Ho.
  rewrite (online_delete _ _ _ E) in Ho. destruct (connected v).
  - rewrite online_dec_upd. apply (sess_inv_delete self cid); [done|]. rewrite Ho, wrap_sub.
    cbn [one]. f_equal. lia.
  - rewrite self_eta. apply sess_inv_delete; [done|]. rewrite Ho. cbn [one]. f_equal. lia.
Qed.

Lemma remove_inv self cid : sess_inv self → sess_inv (remove self cid).2.
Proof.
  intros Hinv. unfold remove. destruct (sessions self !! cid) as [v|] eqn:E; [|done].
  by apply remove_inv_gen.
Qed.

Lemma remove_if_epoch_inv self cid ep : sess_inv self → sess_inv (remove_if_epoch self cid ep).2.
Proof.
  intros Hinv. unfold remove_if_epoch. destruct (sessions self !! cid) as [v|] eqn:E; [|done].
  destruct (_ =? _); [|done]. by apply remove_inv_gen.
Qed.

Lemma mark_offline_inv self cid ep now : sess_inv self → sess_inv (mark_offline self cid ep now).
Proof.
  intros Hinv. unfold mark_offline. destruct (sessions self !! cid) as [e|] eqn:E; [|done].
  destruct (connected e) eqn:Ec; rewrite ?andb_false_r, ?andb_true_r; [|done].
  destruct (_ =? _); [|done]. rewrite online_dec_upd.
  apply (sess_inv_update self cid); [done| |].
  - exact (inv_entries _ Hinv _ _ E).
  - cbn [one connected]. rewrite (inv_online _ Hinv), wrap_sub, (online_delete _ _ _ E), Ec.
    cbn [one]. f_equal. cbn. lia.
Qed.

Lemma mark_online_inv self cid ep : sess_inv self → sess_inv (mark_online self cid ep).
Proof.
  intros Hinv. unfold mark_online. destruct (sessions self !! cid) as [e|] eqn:E; [|done].
  destruct (connected e) eqn:Ec; cbn [negb]; rewrite ?andb_false_r, ?andb_true_r; [done|].
  destruct (_ =? _); [|done]. rewrite online_inc_upd.
  apply (sess_inv_update self cid); [done| |].
  - exact (inv_entries _ Hinv _ _ E).
  - cbn [one connected]. rewrite (inv_online _ Hinv), wrap_add, (online_delete _ _ _ E), Ec.
    cbn [one]. f_equal. cbn. lia.
Qed.

(** Updates that keep the connection flag of an entry. *)
Lemma sess_inv_same self cid e e' :
  sess_inv self → sessions self !! cid = Some e → connected e' = connected e →
  entry_inv self cid e' → sess_inv (self <| sessions ::= <[cid := e']> |>).
Proof.
  intros Hinv E Hc He'. rewrite self_eta. apply sess_inv_update; [done..|].
  by rewrite (inv_online _ Hinv), (online_delete _ _ _ E), Hc.
Qed.

Lemma take_will_inv self cid ep : sess_inv self → sess_inv (take_will self cid ep).2.
Proof.
  intros Hinv. unfold take_will. destruct (sessions self !! cid) as [e|] eqn:E; [|done].
  destruct (_ =? _); [|done]. eapply sess_inv_same; [done..|]. exact (inv_entries _ Hinv _ _ E).
Qed.

Lemma clear_will_inv self cid ep : sess_inv self → sess_inv (clear_will self cid ep).
Proof.
  intros Hinv. unfold clear_will. destruct (sessions self !! cid) as [e|] eqn:E; [|done].
  destruct (_ =? _); [|done]. eapply sess_inv_same; [done..|]. exact (inv_entries _ Hinv _ _ E).
Qed.

(** An offline entry leaves the table without touching the counter. *)
Lemma remove_entry_inv self id e :
  sess_inv self → sessions self !! id = Some e → connected e = false →
  sess_inv (remove_entry self id).
Proof.
  intros Hinv E Hc. unfold remove_entry. rewrite self_eta. apply sess_inv_delete; [done|].
  rewrite (inv_online _ Hinv), (online_delete _ _ _ E), Hc. cbn [one]. f_equal. lia.
Qed.

Lemma is_expired_offline (e : SessionEntry M) now : is_expired e now = true → connected e = false.
Proof. unfold is_expired. by destruct (connected e). Qed.

Lemma cleanup_one_inv now st id : sess_inv st.1 → sess_inv (cleanup_one now st id).1.
Proof.
  destruct st as [self removed]. intros Hinv. unfold cleanup_one, is_still_expired.
  destruct (sessions self !! id) as [e|] eqn:E; [|done].
  destruct (is_expired e now) eqn:Ex; [|done]. cbn.
  eapply remove_entry_inv; [done..|]. by eapply is_expired_offline.
Qed.

Lemma cleanup_expired_inv self now : sess_inv self → sess_inv (cleanup_expired self now).1.
Proof.
  unfold cleanup_expired. intros Hinv.
  enough (∀ ids st, sess_inv st.1 → sess_inv (foldl (cleanup_one now) st ids).1) as H by (by apply H).
  induction ids as [|id ids IH]; intros st Hst; cbn [foldl]; [done|]. apply IH. by apply cleanup_one_inv.
Qed.

(** ** Delivery *)

Lemma enqueue_into_ok self cid e q msg now :
  sess_inv self → (0 < max_offline_messages self)%nat → sessions self !! cid = Some e →
  offline_queue e = Some q →
  ∃ q', enqueue q msg now = Some q' ∧ enqueue_into self cid q msg now
    = Some (self <| sessions ::= <[cid := e <| offline_queue := Some q' |>]> |>)
    ∧ sess_inv (self <| sessions ::= <[cid := e <| offline_queue := Some q' |>]> |>).
Proof.
  intros Hinv Hmax E Eq. pose proof (inv_entries _ Hinv _ _ E) as (H1 & H2 & H3).
  rewrite Eq in H3. destruct H3 as (H3 & H4 & H5 & H6).
  unfold enqueue_into. rewrite enqueue_eq by lia. eexists. split; [done|]. cbn [mbind option_bind].
  split.
  - f_equal. destruct self as [ss ? ? ? ?]. cbn in *. f_equal. apply map_eq. intros c.
    destruct (decide (c = cid)) as [->|Hne].
    + by rewrite lookup_alter_eq, lookup_insert_eq, E.
    + by rewrite lookup_alter_ne, lookup_insert_ne.
  - eapply sess_inv_same; [done|done|done|]. split_and!; cbn; try (done || lia).
    rewrite length_app, length_last_n. cbn. split_and!; [done..|lia].
Qed.

(** A registration hands over no more messages than a queue holds. *)
Lemma register_drained self cid cl tx_ w lvl peer ex now :
  sess_inv self → (length (register self cid cl tx_ w lvl peer ex now).1.2 ≤ max_offline_messages self)%nat.
Proof.
  intros Hinv. unfold register. set (self1 := self <| epoch_counter := _ |>).
  change (sessions self1) with (sessions self). destruct (sessions self !! cid) as [e|] eqn:E; cbn; [|lia].
  destruct (inv_entries _ Hinv _ _ E) as (_ & _ & H). destruct (clean_session e); cbn; [lia|].
  destruct (offline_queue e) as [q|]; cbn; [|lia]. destruct H as (_ & Hm & _ & Hl).
  rewrite length_map. pose proof (evict_expired_length (ttl q) (inner q) now). lia.
Qed.

Lemma deliver_total self cid msg now ch :
  sess_inv self → (0 < max_offline_messages self)%nat →
  ∃ o self' ch', deliver_or_enqueue self cid msg now ch = Some (o, self', ch') ∧ sess_inv self'.
Proof.
  intros Hinv Hmax. unfold deliver_or_enqueue.
  destruct (sessions self !! cid) as [e|] eqn:E; [|eauto].
  assert (Hoff : ∀ msg ch o, ∃ o' self' ch',
    enqueue_or self cid e msg now ch o = Some (o', self', ch') ∧ sess_inv self').
  { intros msg' ch' o. unfold enqueue_or. destruct (offline_queue e) as [q|] eqn:Eq; [|eauto].
    destruct (enqueue_into_ok self cid e q msg' now) as (q' & _ & -> & Hi); [done..|]. cbn. eauto. }
  destruct (connected e); [|apply Hoff].
  destruct (try_send ch (tx e) msg) as [[|m|m] ch']; [eauto|apply Hoff..].
Qed.
End Inv.
