(* ===== verification/SessionTheorems.v ===== *)
(** * Sessions: theorems *)

From stdpp Require Import sorting.
From S2P Require Import Prelude Packet Messages OfflineQueue Session SessionProofs.

Section Theorems.
Context {M : Mpsc}.

(** ** Runs of the session manager *)

Inductive SessOp :=
  | OpRegister (cid : string) (cl : bool) (tx_ : Sender) (w : option WillMessage) (level : Z)
      (peer : SocketAddr) (expiry : option Z) (now : Instant)
  | OpDeliver (cid : string) (msg : OutboundPublish) (now : Instant)
  | OpRemove (cid : string)
  | OpRemoveIfEpoch (cid : string) (ep : Z)
  | OpMarkOffline (cid : string) (ep : Z) (now : Instant)
  | OpMarkOnline (cid : string) (ep : Z)
  | OpCleanupExpired (now : Instant)
  | OpTakeWill (cid : string) (ep : Z)
  | OpClearWill (cid : string) (ep : Z).

(** [None]: the operation does not return. *)
Definition sess_step (st : SessionManager M * Chans) (op : SessOp)
    : option (SessionManager M * Chans) :=
  let '(self, ch) := st in
  match op with
  | OpRegister cid cl tx_ w level peer ex now =>
      Some ((register self cid cl tx_ w level peer ex now).2, ch)
  | OpDeliver cid msg now =>
      '(_, self, ch) ← deliver_or_enqueue self cid msg now ch; Some (self, ch)
  | OpRemove cid => Some ((remove self cid).2, ch)
  | OpRemoveIfEpoch cid ep => Some ((remove_if_epoch self cid ep).2, ch)
  | OpMarkOffline cid ep now => Some (mark_offline self cid ep now, ch)
  | OpMarkOnline cid ep => Some (mark_online self cid ep, ch)
  | OpCleanupExpired now => Some ((cleanup_expired self now).1, ch)
  | OpTakeWill cid ep => Some ((take_will self cid ep).2, ch)
  | OpClearWill cid ep => Some (clear_will self cid ep, ch)
  end.

Fixpoint run_ops (st : SessionManager M * Chans) (ops : list SessOp)
    : option (SessionManager M * Chans) :=
  match ops with
  | [] => Some st
  | op :: ops => st ← sess_step st op; run_ops st ops
  end.

(** What an operation does not change, and how it may change the table and the
    epoch counter. *)
Definition step_ok (self self' : SessionManager M) : Prop :=
  max_offline_messages self' = max_offline_messages self ∧
  epoch_counter self ≤ epoch_counter self' ≤ epoch_counter self + 1 ∧
  (Z.of_nat (size (sessions self')) - Z.of_nat (size (sessions self))
   ≤ epoch_counter self' - epoch_counter self).

Lemma step_ok_refl self : step_ok self self.
Proof. unfold step_ok. split_and!; (done || lia). Qed.

Lemma step_ok_trans_same self self' self'' :
  epoch_counter self' = epoch_counter self → step_ok self self' → step_ok self' self'' →
  step_ok self self''.
Proof. unfold step_ok. intros E (-> & H1 & H2) (-> & H3 & H4). split_and!; (done || lia). Qed.

Lemma size_insert_le {A} (m : gmap string A) c e :
  (size (<[c := e]> m) ≤ S (size m))%nat.
Proof. rewrite map_size_insert. destruct (m !! c); cbn; lia. Qed.

Lemma size_insert_existing {A} (m : gmap string A) c e e' :
  m !! c = Some e → size (<[c := e']> m) = size m.
Proof. intros H. by rewrite map_size_insert_Some by eauto. Qed.

Lemma size_delete_le {A} (m : gmap string A) c : (size (delete c m) ≤ size m)%nat.
Proof. rewrite map_size_delete. destruct (m !! c); cbn; lia. Qed.

(** Updates of an existing entry and deletions leave the counter alone. *)
Lemma step_ok_insert self c e e' f :
  sessions self !! c = Some e → (∀ s : SessionManager M, max_offline_messages (f s) = max_offline_messages s
    ∧ epoch_counter (f s) = epoch_counter s ∧ sessions (f s) = sessions s) →
  step_ok self (f (self <| sessions ::= <[c := e']> |>)).
Proof.
  intros Hc Hf. destruct (Hf (self <| sessions ::= <[c := e']> |>)) as (H1 & H2 & H3).
  unfold step_ok. rewrite H1, H2, H3. cbn. rewrite (size_insert_existing _ _ _ _ Hc).
  split_and!; (done || lia).
Qed.

Lemma step_ok_delete self c f :
  (∀ s : SessionManager M, max_offline_messages (f s) = max_offline_messages s
    ∧ epoch_counter (f s) = epoch_counter s ∧ sessions (f s) = sessions s) →
  step_ok self (f (self <| sessions ::= delete c |>)).
Proof.
  intros Hf. destruct (Hf (self <| sessions ::= delete c |>)) as (H1 & H2 & H3).
  unfold step_ok. rewrite H1, H2, H3. cbn. pose proof (size_delete_le (sessions self) c).
  split_and!; (done || lia).
Qed.

Lemma register_step_ok self cid cl tx_ w lvl peer ex now :
  epoch_counter self + 1 < u64_mod → 0 ≤ epoch_counter self →
  step_ok self (register self cid cl tx_ w lvl peer ex now).2.
Proof.
  intros Hep H0. unfold register.
  assert (Hw : wrap_u64 (epoch_counter self + 1) = epoch_counter self + 1)
    by (unfold wrap_u64; apply Z.mod_small; lia).
  rewrite Hw. set (ne := if cl then _ else _). clearbody ne.
  pose proof (size_insert_le (sessions self) cid ne).
  destruct (sessions _ !! cid) as [old|]; cbv zeta; cbn [snd].
  - destruct (connected old); unfold step_ok; cbn; split_and!; (done || lia).
  - unfold step_ok; cbn; split_and!; (done || lia).
Qed.

Lemma cleanup_step_ok self now : step_ok self (cleanup_expired self now).1.
Proof.
  unfold cleanup_expired.
  enough (∀ ids st, step_ok self st.1 → epoch_counter st.1 = epoch_counter self →
    step_ok self (foldl (cleanup_one now) st ids).1) as H by (apply H; [apply step_ok_refl|done]).
  induction ids as [|id ids IH]; intros [s r] Hst Hep; cbn [foldl]; [done|].
  unfold cleanup_one at 2. destruct (is_still_expired s id now); [|by apply IH].
  apply IH; [|done]. eapply step_ok_trans_same; [done..|]. by apply (step_ok_delete s id (λ s, s)).
Qed.

Lemma deliver_step_ok self cid msg now ch o self' ch' :
  sess_inv self → (0 < max_offline_messages self)%nat →
  deliver_or_enqueue self cid msg now ch = Some (o, self', ch') → step_ok self self'.
Proof.
  intros Hinv Hmax. unfold deliver_or_enqueue.
  destruct (sessions self !! cid) as [e|] eqn:E; [|intros [= <- <- <-]; apply step_ok_refl].
  assert (Hoff : ∀ msg ch oc, enqueue_or self cid e msg now ch oc = Some (o, self', ch') → step_ok self self').
  { intros msg1 ch1 oc. unfold enqueue_or. destruct (offline_queue e) as [q|] eqn:Eq.
    - destruct (enqueue_into_ok self cid e q msg1 now) as (q' & _ & -> & _); [done..|]. cbn.
      intros [= <- <- <-]. by apply (step_ok_insert self cid e _ (λ s, s)).
    - intros [= <- <- <-]. apply step_ok_refl. }
  destruct (connected e); [|apply Hoff].
  destruct (try_send ch (tx e) msg) as [[|m|m] ch1]; [|apply Hoff..].
  intros [= <- <- <-]. apply step_ok_refl.
Qed.

Lemma sess_step_ok self ch op :
  sess_inv self → (0 < max_offline_messages self)%nat → epoch_counter self + 1 < u64_mod →
  ∃ self' ch', sess_step (self, ch) op = Some (self', ch') ∧ sess_inv self' ∧ step_ok self self'.
Proof.
  intros Hinv Hmax Hep. pose proof (inv_counter _ Hinv) as Hc.
  destruct op as [cid cl tx_ w lvl peer ex now|cid msg now|cid|cid ep|cid ep now|cid ep|now|cid ep|cid ep];
    cbn [sess_step].
  - eexists _, _. split; [done|]. split; [by apply register_inv|]. apply register_step_ok; lia.
  - destruct (deliver_total self cid msg now ch Hinv Hmax) as (o & self' & ch' & E & Hi).
    rewrite E. cbn. eexists _, _. split; [done|]. split; [done|]. by eapply deliver_step_ok.
  - eexists _, _. split; [done|]. split; [by apply remove_inv|]. unfold remove.
    destruct (sessions self !! cid) as [v|]; [|apply step_ok_refl]. cbn [snd].
    destruct (connected v); [by apply (step_ok_delete self cid online_dec)|by apply (step_ok_delete self cid (λ s, s))].
  - eexists _, _. split; [done|]. split; [by apply remove_if_epoch_inv|]. unfold remove_if_epoch.
    destruct (sessions self !! cid) as [v|]; [|apply step_ok_refl].
    destruct (_ =? _); [|apply step_ok_refl]. cbn [snd].
    destruct (connected v); [by apply (step_ok_delete self cid online_dec)|by apply (step_ok_delete self cid (λ s, s))].
  - eexists _, _. split; [done|]. split; [by apply mark_offline_inv|]. unfold mark_offline.
    destruct (sessions self !! cid) as [v|] eqn:E; [|apply step_ok_refl].
    destruct (_ && _); [|apply step_ok_refl]. by apply (step_ok_insert self cid v _ online_dec).
  - eexists _, _. split; [done|]. split; [by apply mark_online_inv|]. unfold mark_online.
    destruct (sessions self !! cid) as [v|] eqn:E; [|apply step_ok_refl].
    destruct (_ && _); [|apply step_ok_refl]. by apply (step_ok_insert self cid v _ online_inc).
  - eexists _, _. split; [done|]. split; [by apply cleanup_expired_inv|]. apply cleanup_step_ok.
  - eexists _, _. split; [done|]. split; [by apply take_will_inv|]. unfold take_will.
    destruct (sessions self !! cid) as [v|] eqn:E; [|apply step_ok_refl].
    destruct (_ =? _); [|apply step_ok_refl]. by apply (step_ok_insert self cid v _ (λ s, s)).
  - eexists _, _. split; [done|]. split; [by apply clear_will_inv|]. unfold clear_will.
    destruct (sessions self !! cid) as [v|] eqn:E; [|apply step_ok_refl].
    destruct (_ =? _); [|apply step_ok_refl]. by apply (step_ok_insert self cid v _ (λ s, s)).
Qed.

Lemma run_ops_ok ops self ch :
  sess_inv self → (0 < max_offline_messages self)%nat →
  Z.of_nat (size (sessions self)) ≤ epoch_counter self →
  epoch_counter self + Z.of_nat (length ops) < u64_mod →
  ∃ self' ch', run_ops (self, ch) ops = Some (self', ch') ∧ sess_inv self'
    ∧ Z.of_nat (size (sessions self')) ≤ epoch_counter self' < u64_mod.
Proof.
  revert self ch. induction ops as [|op ops IH]; intros self ch Hinv Hmax Hsz Hep; cbn [run_ops length] in *.
  { eexists _, _. split; [done|]. split; [done|]. lia. }
  destruct (sess_step_ok self ch op Hinv Hmax ltac:(lia)) as (self1 & ch1 & -> & Hinv1 & Hm & He & Hs).
  cbn [mbind option_bind]. apply IH; [done|lia..].
Qed.

Lemma online_le_size (m : gmap string (SessionEntry M)) : online m ≤ Z.of_nat (size m).
Proof.
  unfold online. apply inj_le. apply map_subseteq_size. apply map_filter_subseteq.
Qed.

(** ** Offline delivery and replay *)

(** Delivering a sequence of messages to one client. *)
Fixpoint deliver_all (self : SessionManager M) (cid : string)
    (ms : list (OutboundPublish * Instant)) (ch : Chans)
    : option (list DeliveryOutcome * SessionManager M * Chans) :=
  match ms with
  | [] => Some ([], self, ch)
  | (m, now) :: ms =>
      '(o, self, ch) ← deliver_or_enqueue self cid m now ch;
      '(os, self, ch) ← deliver_all self cid ms ch;
      Some (o :: os, self, ch)
  end.

Lemma deliver_all_offline self cid e q q' ms ch :
  sessions self !! cid = Some e → connected e = false → offline_queue e = Some q →
  enqueue_all q ms = Some q' →
  ∃ os self', deliver_all self cid ms ch = Some (os, self', ch)
    ∧ Forall (λ o, o = DeliveryOutcome.Enqueued) os
    ∧ sessions self' !! cid = Some (e <| offline_queue := Some q' |>)
    ∧ epoch_counter self' = epoch_counter self.
Proof.
  revert self e q. induction ms as [|[m now] ms IH]; intros self e q E Hc Hq; cbn [deliver_all enqueue_all].
  { intros [= <-]. exists [], self. split_and!; [done..| |done]. rewrite E. f_equal.
    destruct e; cbn in *; by subst. }
  destruct (enqueue q m now) as [q1|] eqn:Eq1; [|done]. cbn [mbind option_bind]. intros Hall.
  unfold deliver_or_enqueue. rewrite E, Hc. unfold enqueue_or. rewrite Hq. unfold enqueue_into.
  rewrite Eq1. cbn [mbind option_bind].
  set (self1 := self <| sessions ::= _ |>).
  destruct (IH self1 (e <| offline_queue := Some q1 |>) q1) as (os & self' & Hd & Ho & Hs & Hep); [|done..|].
  { subst self1. cbn. by rewrite lookup_alter_eq, E. }
  exists (DeliveryOutcome.Enqueued :: os), self'. rewrite Hd. cbn [mbind option_bind].
  split_and!; [done|by constructor|done|done].
Qed.

(** ** Expiry *)

Lemma elem_of_expired_ids self now c :
  sess_inv self →
  c ∈ expired_ids self now ↔ ∃ e, sessions self !! c = Some e ∧ is_expired e now = true.
Proof.
  intros Hinv. unfold expired_ids. rewrite list_elem_of_omap. split.
  - intros ([k e] & Hin & H). apply elem_of_map_to_list in Hin. cbn in H.
    destruct (is_expired e now) eqn:Ex; [|done]. injection H as <-. exists e.
    destruct (inv_entries _ Hinv _ _ Hin) as [-> _]. done.
  - intros (e & He & Hx). exists (c, e). rewrite elem_of_map_to_list. split; [done|]. cbn.
    rewrite Hx. by destruct (inv_entries _ Hinv _ _ He) as [-> _].
Qed.

Lemma NoDup_expired_ids self now : sess_inv self → NoDup (expired_ids self now).
Proof.
  intros Hinv. unfold expired_ids.
  assert (Hid : ∀ k e, (k, e) ∈ map_to_list (sessions self) → client_id e = k).
  { intros k e Hin. apply elem_of_map_to_list in Hin. by destruct (inv_entries _ Hinv _ _ Hin). }
  pose proof (NoDup_fst_map_to_list (sessions self)) as Hnd. revert Hid Hnd.
  generalize (map_to_list (sessions self)). intros l Hid. induction l as [|[k e] l IH]; [done|].
  cbn [fmap list_fmap fst]. rewrite NoDup_cons. intros [Hk Hnd]. cbn [omap list_omap snd].
  assert (Hid' : ∀ k e, (k, e) ∈ l → client_id e = k) by (intros; apply Hid; by right).
  destruct (is_expired e now); [|by apply IH]. apply NoDup_cons. split; [|by apply IH].
  rewrite (Hid k e) by left. rewrite list_elem_of_omap. intros ([k' e'] & Hin & H). cbn in H.
  destruct (is_expired e' now); [|done]. injection H as H. rewrite (Hid' k' e' Hin) in H. subst k'.
  apply Hk. by apply (list_elem_of_fmap_2 fst _ _ Hin).
Qed.

Lemma cleanup_fold now ids : ∀ self removed,
  NoDup ids → (∀ id, id ∈ ids → is_still_expired self id now = true) →
  let '(self', removed') := foldl (cleanup_one now) (self, removed) ids in
  removed' = removed ++ ids ∧
  ∀ c, sessions self' !! c = if decide (c ∈ ids) then None else sessions self !! c.
Proof.
  induction ids as [|id ids IH]; intros self removed Hnd Hex; cbn [foldl].
  { split; [by rewrite app_nil_r|]. intros c. by rewrite decide_False by apply not_elem_of_nil. }
  apply NoDup_cons in Hnd as [Hid Hnd]. unfold cleanup_one at 2. rewrite Hex by left.
  specialize (IH (remove_entry self id) (removed ++ [id]) Hnd).
  destruct (foldl _ _ ids) as [self' removed']. destruct IH as [-> Hs].
  { intros id' Hin. unfold is_still_expired. cbn. rewrite lookup_delete_ne by (by intros ->).
    apply Hex. by right. }
  split; [by rewrite <- app_assoc|]. intros c. rewrite Hs. cbn.
  destruct (decide (c = id)) as [->|Hne].
  - rewrite lookup_delete_eq, (decide_True (P := id ∈ id :: ids)) by left. by destruct (decide _).
  - rewrite lookup_delete_ne by done. destruct (decide (c ∈ ids)) as [Hin|Hin].
    + by rewrite decide_True by (by right).
    + rewrite decide_False; [done|]. rewrite elem_of_cons. naive_solver.
Qed.

(** ** Theorems *)

(** C14: the session table under any sequence of operations.  With queues of
    capacity at least one, and fewer than [2^64] operations, every operation
    returns, the atomic [online_count] is exactly the number of connected
    sessions, and every entry is well formed: persistent sessions have an
    offline queue with the configured limits, which it never exceeds, and clean
    ones have none. *)
Theorem session_table_invariant max ttl0 ops ch :
  (0 < max)%nat → Z.of_nat (length ops) < u64_mod →
  ∃ self ch', run_ops (with_limits max ttl0, ch) ops = Some (self, ch')
    ∧ online_count self = online (sessions self)
    ∧ ∀ c e, sessions self !! c = Some e → entry_inv self c e.
Proof.
  intros Hmax Hlen.
  destruct (run_ops_ok ops (with_limits max ttl0) ch) as (self & ch' & Hr & Hinv & Hs);
    [apply sess_inv_new|done|done|cbn; lia|].
  exists self, ch'. split; [done|]. split; [|apply (inv_entries _ Hinv)].
  rewrite (inv_online _ Hinv). unfold wrap_u64. apply Z.mod_small.
  pose proof (online_le_size (sessions self)). unfold online in *. lia.
Qed.

(** C31: takeover.  When a client reconnects, the new connection owns the
    session, and no epoch issued earlier does: for a connection that was taken
    over, marking offline, removing, and taking or clearing the will leave the
    manager exactly as it is. *)
Theorem takeover_safety self cid cl tx_ w lvl peer ex now ep :
  sess_inv self → epoch_counter self + 1 < u64_mod → 0 < ep ≤ epoch_counter self →
  let '((ep', _, _), self') := register self cid cl tx_ w lvl peer ex now in
  ep' ≠ ep ∧ owns self' cid ep' = true ∧ owns self' cid ep = false ∧ is_online self' cid = true ∧
  (∀ t, mark_offline self' cid ep t = self') ∧ mark_online self' cid ep = self' ∧
  remove_if_epoch self' cid ep = (None, self') ∧ take_will self' cid ep = (None, self') ∧
  clear_will self' cid ep = self'.
Proof.
  intros Hinv Hep Hold. destruct (register _ _ _ _ _ _ _ _ _) as [[[ep' sp] dr] self'] eqn:E.
  assert (Hnew : ep' = epoch_counter self + 1 ∧ ∃ e, sessions self' !! cid = Some e ∧ epoch e = ep'
                 ∧ connected e = true).
  { revert E. unfold register.
    assert (wrap_u64 (epoch_counter self + 1) = epoch_counter self + 1) as ->
      by (unfold wrap_u64; apply Z.mod_small; lia).
    destruct (sessions _ !! cid) as [old|]; cbv zeta; intros [= <- <- <- <-];
      (split; [done|]); [destruct (connected old)|]; cbn;
      rewrite lookup_insert_eq; (eexists; split; [done|]); by destruct cl. }
  destruct Hnew as (-> & e & He & Hee & Hcon).
  assert (Hne : (epoch e =? ep) = false) by lia.
  unfold owns, is_online, mark_offline, mark_online, remove_if_epoch, take_will, clear_will.
  rewrite He, Hne, Hcon. split_and!; try done; [lia|]. by rewrite Hee, Z.eqb_refl.
Qed.

(** C32: offline replay.  Messages routed to a disconnected persistent session
    are all enqueued, and the next registration of the client reports the
    session present and hands over, oldest first, exactly those among the last
    [max_offline_messages] that have not outlived the TTL. *)
Theorem offline_replay self cid e ms ch cl tx_ w lvl peer ex now :
  sess_inv self → (0 < max_offline_messages self)%nat → sessions self !! cid = Some e →
  connected e = false →
  offline_queue e = Some (queue_new (max_offline_messages self) (offline_message_ttl self)) →
  StronglySorted (λ a b, a.2 ≤ b.2) ms → Forall (λ m, m.2 ≤ now) ms →
  ∃ os self', deliver_all self cid ms ch = Some (os, self', ch)
    ∧ Forall (λ o, o = DeliveryOutcome.Enqueued) os
    ∧ (register self' cid cl tx_ w lvl peer ex now).1
      = (wrap_u64 (epoch_counter self + 1), true,
         map fst (List.filter (λ m, negb (duration_since now m.2 >=? offline_message_ttl self))
                    (last_n (max_offline_messages self) ms))).
Proof.
  intros Hinv Hmax E Hc Hq Hs Hn.
  destruct (enqueue_all_drain _ (offline_message_ttl self) ms now Hmax Hs Hn) as (q & Hall & _ & Hd).
  destruct (deliver_all_offline self cid e _ q ms ch E Hc Hq Hall) as (os & self' & Hdel & Ho & Hs' & Hep).
  exists os, self'. split_and!; [done..|]. unfold register. cbn [sessions].
  pose proof (inv_entries _ Hinv _ _ E) as (_ & _ & H3). rewrite Hq in H3. destruct H3 as [Hcl _].
  change (sessions (self' <| epoch_counter := wrap_u64 (epoch_counter self' + 1) |>)) with (sessions self').
  rewrite Hs'. set (e' := e <| offline_queue := Some q |>).
  assert (clean_session e' = false) as -> by done. assert (offline_queue e' = Some q) as -> by done.
  assert (connected e' = false) as -> by done. cbn [negb fst]. by rewrite Hd, Hep.
Qed.

Lemma cleanup_expired_spec self now :
  sess_inv self →
  let '(self', removed) := cleanup_expired self now in
  (∀ c, sessions self' !! c = match sessions self !! c with
                             | Some e => if is_expired e now then None else Some e
                             | None => None
                             end)
  ∧ NoDup removed
  ∧ (∀ c, c ∈ removed ↔ ∃ e, sessions self !! c = Some e ∧ is_expired e now = true).
Proof.
  intros Hinv. unfold cleanup_expired.
  pose proof (cleanup_fold now (expired_ids self now) self [] (NoDup_expired_ids _ _ Hinv)) as H.
  destruct (foldl _ _ _) as [self' removed]. destruct H as [-> Hs].
  { intros id (e & He & Hx)%elem_of_expired_ids; [|done]. unfold is_still_expired. by rewrite He. }
  split; [|split; [by apply NoDup_expired_ids|by intros; apply elem_of_expired_ids]].
  intros c. rewrite Hs. destruct (decide (c ∈ _)) as [Hin|Hnin].
  - apply elem_of_expired_ids in Hin as (e & -> & ->); done.
  - destruct (sessions self !! c) as [e|] eqn:E; [|done].
    destruct (is_expired e now) eqn:Ex; [|done]. exfalso. apply Hnin, elem_of_expired_ids; eauto.
Qed.

(** Expiry.  [cleanup_expired] removes exactly the disconnected sessions
    whose expiry interval has elapsed (at once when it is zero), reports each
    of them once, and keeps every other session, connected ones in particular,
    and the count of connected sessions. *)
Theorem cleanup_expired_exact self now :
  sess_inv self →
  let '(self', removed) := cleanup_expired self now in
  (∀ c, sessions self' !! c = match sessions self !! c with
                             | Some e => if is_expired e now then None else Some e
                             | None => None
                             end)
  ∧ NoDup removed
  ∧ (∀ c, c ∈ removed ↔ ∃ e, sessions self !! c = Some e ∧ is_expired e now = true)
  ∧ (∀ c e, sessions self !! c = Some e → connected e = true → sessions self' !! c = Some e)
  ∧ online_count self' = wrap_u64 (online (sessions self')).
Proof.
  intros Hinv. pose proof (inv_online _ (cleanup_expired_inv self now Hinv)) as Ho.
  pose proof (cleanup_expired_spec self now Hinv) as H.
  destruct (cleanup_expired self now) as [self' removed]. destruct H as (Hl & Hnd & Hin).
  split_and!; [done|done|done| |done].
  intros c e He Hc. rewrite Hl, He. unfold is_expired. by rewrite Hc.
Qed.
End Theorems.

(** ** An instance of the channels: bounded lists *)

Module ListChan.
(** Capacity and contents of each channel; a channel that is not in the table
    is closed. *)
Definition send (ch : gmap nat (nat * list OutboundPublish)) (tx : nat) (m : OutboundPublish)
    : TrySend * gmap nat (nat * list OutboundPublish) :=
  match ch !! tx with
  | None => (TryClosed m, ch)
  | Some (cap, q) =>
      if (length q <? cap)%nat then (TrySent, <[tx := (cap, q ++ [m])]> ch) else (TryFull m, ch)
  end.

#[export] Instance list_mpsc : Mpsc := {|
  Sender := nat;
  Chans := gmap nat (nat * list OutboundPublish);
  channel ch cap := let tx := fresh (dom ch) in (tx, <[tx := (cap, [])]> ch);
  try_send := send;
|}.

Definition contents (ch : gmap nat (nat * list OutboundPublish)) (tx : nat) : list OutboundPublish :=
  match ch !! tx with Some (_, q) => q | None => [] end.

Definition free (ch : gmap nat (nat * list OutboundPublish)) (tx : nat) : nat :=
  match ch !! tx with Some (cap, q) => cap - length q | None => 0 end.

#[export] Program Instance list_mpsc_laws : MpscLaws list_mpsc :=
  {| queued := contents; room := free |}.
Next Obligation.
  cbn. unfold send, contents. intros ch tx m ch'. destruct (ch !! tx) as [[cap q]|]; [|done].
  destruct (_ <? _)%nat; [|done]. intros [= <-]. by rewrite lookup_insert_eq.
Qed.
Next Obligation.
  cbn. unfold send, contents. intros ch tx m r ch' tx'. destruct (ch !! tx) as [[cap q]|].
  - destruct (_ <? _)%nat; intros [= <- <-] Hne; [by rewrite lookup_insert_ne|done].
  - by intros [= <- <-].
Qed.
Next Obligation.
  cbn. unfold send, free. intros ch tx m Hroom. destruct (ch !! tx) as [[cap q]|]; [|lia].
  destruct (Nat.ltb_spec (length q) cap); [|lia]. eexists. split; [done|].
  rewrite lookup_insert_eq, length_app. cbn. lia.
Qed.
Next Obligation.
  cbn. unfold send, free. intros ch tx m r ch' tx'. destruct (ch !! tx) as [[cap q]|].
  - destruct (_ <? _)%nat; intros [= <- <-] Hne; [by rewrite lookup_insert_ne|done].
  - by intros [= <- <-].
Qed.
Next Obligation.
  cbn. unfold send. intros ch tx m m' ch'. destruct (ch !! tx) as [[cap q]|]; [|done].
  destruct (_ <? _)%nat; [done|]. by intros [= <- <-].
Qed.
Next Obligation.
  cbn. unfold send. intros ch tx m m' ch'. destruct (ch !! tx) as [[cap q]|]; [|by intros [= <- <-]].
  by destruct (_ <? _)%nat.
Qed.

Definition take_front (ch : gmap nat (nat * list OutboundPublish)) (rx : nat)
    : option (OutboundPublish * gmap nat (nat * list OutboundPublish)) :=
  match ch !! rx with
  | Some (cap, m :: q) => Some (m, <[rx := (cap, q)]> ch)
  | _ => None
  end.

#[export] Instance list_rx : MpscRx list_mpsc := {|
  recv := take_front;
  close ch rx := alter (λ _, (0%nat, [])) rx ch;
|}.

Lemma contents_insert ch tx tx' cq : tx' ≠ tx → contents (<[tx := cq]> ch) tx' = contents ch tx'.
Proof. intros Hne. unfold contents. by rewrite lookup_insert_ne. Qed.

#[export] Program Instance list_rx_laws : MpscRxLaws list_mpsc list_mpsc_laws list_rx :=
  {| same_channel := Nat.eq_dec; created ch tx := is_Some (ch !! tx) |}.
Next Obligation.
  cbn. unfold take_front, contents. intros ch rx.
  destruct (ch !! rx) as [[cap [|m q]]|]; [done| |done]. by rewrite lookup_insert_eq.
Qed.
Next Obligation.
  cbn. unfold take_front. intros ch rx m ch' tx. destruct (ch !! rx) as [[cap [|m0 q]]|]; [done| |done].
  intros [= <- <-] Hne. by apply contents_insert.
Qed.
Next Obligation.
  cbn. unfold take_front, free. intros ch rx m ch' tx. destruct (ch !! rx) as [[cap [|m0 q]]|] eqn:E; [done| |done].
  intros [= <- <-]. destruct (decide (tx = rx)) as [->|Hne]; [|by rewrite lookup_insert_ne].
  rewrite lookup_insert_eq, E. cbn. lia.
Qed.
Next Obligation.
  cbn. intros ch cap tx ch' [= <- <-]. unfold contents. rewrite lookup_insert_eq. split; [|by eauto].
  rewrite <-elem_of_dom. apply is_fresh.
Qed.
Next Obligation.
  cbn. intros ch cap tx ch' tx' [= <- <-] Hne. split; [by apply contents_insert|]. unfold free. by rewrite lookup_insert_ne.
Qed.
Next Obligation. cbn. intros ch rx tx Hne. unfold contents. by rewrite lookup_alter_ne. Qed.
Next Obligation. cbn. intros ch rx. unfold free. rewrite lookup_alter_eq. by destruct (ch !! rx). Qed.
Next Obligation. cbn. intros ch cap tx ch' tx' [= <- <-]. rewrite lookup_insert_is_Some'. by right. Qed.
Next Obligation.
  cbn. unfold send. intros ch tx m r ch' tx'. destruct (ch !! tx) as [[cap q]|]; [|by intros [= <- <-]].
  destruct (_ <? _)%nat; intros [= <- <-]; [|done]. rewrite lookup_insert_is_Some'. by right.
Qed.
Next Obligation.
  cbn. unfold take_front. intros ch rx m ch' tx. destruct (ch !! rx) as [[cap [|m0 q]]|]; [done| |done].
  intros [= <- <-]. rewrite lookup_insert_is_Some'. by right.
Qed.
Next Obligation. cbn. intros ch rx tx. by rewrite lookup_alter_is_Some. Qed.

Definition addr : SocketAddr := mkSocketAddr (V4 0) 0.

(** A manager with one persistent client, registered and gone offline. *)
Definition sample : SessionManager list_mpsc :=
  mark_offline (register (with_limits 2 10) "c1" false 0%nat None 4 addr (Some 60) 0).2 "c1" 1 5.
End ListChan.
Import ListChan.

Lemma session_table_invariant_witness :
  ∃ self ch', run_ops (with_limits 2 10, ∅)
      [OpRegister "c1" false 0%nat None 4 addr None 0; OpMarkOffline "c1" 1 5;
       OpDeliver "c1" (mkOutboundPublish "t" [] QoS.AtMostOnce false) 6;
       OpRegister "c2" true 1%nat None 4 addr None 7] = Some (self, ch')
    ∧ online_count self = online (sessions self)
    ∧ ∀ c e, sessions self !! c = Some e → entry_inv self c e.
Proof. apply session_table_invariant; [lia|reflexivity]. Defined.

Lemma sample_inv : sess_inv sample.
Proof.
  apply mark_offline_inv, register_inv; [apply sess_inv_new|reflexivity].
Qed.

Lemma takeover_safety_witness :
  let '((ep', _, _), self') := register sample "c1" true 1%nat None 4 addr None 6 in
  ep' = 2 ∧ mark_offline self' "c1" 1 7 = self' ∧ remove_if_epoch self' "c1" 1 = (None, self').
Proof.
  pose proof (takeover_safety sample "c1" true 1%nat None 4 addr None 6 1 sample_inv
    ltac:(reflexivity) ltac:(split; [reflexivity|vm_compute; discriminate])) as H.
  assert (Hep : (register sample "c1" true 1%nat None 4 addr None 6).1.1.1 = 2)
    by (vm_compute; reflexivity).
  destruct (register sample "c1" true 1%nat None 4 addr None 6) as [[[ep' sp] dr] self'].
  destruct H as (_ & _ & _ & _ & Hm & _ & Hr & _).
  split; [exact Hep|]. split; [apply Hm|exact Hr].
Defined.

Lemma offline_replay_witness :
  let m s := mkOutboundPublish s [] QoS.AtLeastOnce false in
  ∃ os self', deliver_all sample "c1" [(m "a", 6); (m "b", 7); (m "c", 12)]%string ∅ = Some (os, self', ∅)
    ∧ Forall (λ o, o = DeliveryOutcome.Enqueued) os
    ∧ (register self' "c1" false 1%nat None 4 addr None 18).1 = (2, true, [m "c"%string]).
Proof.
  intros m. eapply (offline_replay sample "c1").
  - exact sample_inv.
  - vm_compute. lia.
  - reflexivity.
  - reflexivity.
  - reflexivity.
  - repeat constructor; cbn; lia.
  - repeat constructor; cbn; lia.
Defined.

Lemma cleanup_expired_exact_witness :
  let '(self', removed) := cleanup_expired sample (from_secs 70) in
  removed = ["c1"%string] ∧ NoDup removed.
Proof.
  pose proof (cleanup_expired_exact sample (from_secs 70) sample_inv) as H.
  assert (Hr : (cleanup_expired sample (from_secs 70)).2 = ["c1"%string]) by (vm_compute; reflexivity).
  destruct (cleanup_expired sample (from_secs 70)) as [self' removed].
  destruct H as (_ & Hnd & _). split; [exact Hr|exact Hnd].
Defined.

(** The check and the removal of [cleanup_expired] are two accesses to the
    table.  When the client reconnects between them, its connected session is
    removed and [online_count] no longer counts the connected sessions. *)
Lemma cleanup_race :
  let now := from_secs 70 in
  let self1 := (register sample "c1" false 1%nat None 4 addr (Some 60) now).2 in
  let self2 := remove_entry self1 "c1" in
  is_still_expired sample "c1" now = true ∧ is_online self1 "c1" = true
  ∧ sessions self2 !! "c1"%string = None ∧ online_count self2 = 1 ∧ online (sessions self2) = 0.
Proof. split_and!; vm_compute; reflexivity. Qed.
