(* ===== verification/Qos.v ===== *)
(** * QoS 1 and 2: in-flight tables, [src/broker/qos.rs]

    The outbound table with its handshake stages and retransmission, the
    inbound QoS 2 de-duplication set, and, from [src/broker/mod.rs], the
    allocation of packet identifiers and the construction of outbound packets
    that fill the table. *)

From S2P Require Import Prelude Packet Messages.

Module AckStage.
Inductive AckStage := WaitFirstAck | WaitPubcomp.
End AckStage.
Abbreviation AckStage := AckStage.AckStage.

#[export] Instance AckStage_eq_dec : EqDecision AckStage.
Proof. solve_decision. Defined.

Record OutboundInflight := mkOutboundInflight {
  if_topic : string;
  if_payload : list Z;
  if_qos : QoS;
  if_retain : bool;
  stage : AckStage;
  last_sent_at : Instant;
  retry_count : Z;
}.

#[export] Instance OutboundInflight_settable : Settable OutboundInflight :=
  λ e, mkOutboundInflight (if_topic e) (if_payload e) (if_qos e) (if_retain e) (stage e)
         (last_sent_at e) (retry_count e).

(** [OutboundInflight::new] *)
Definition inflight_new (topic : string) (payload : list Z) (qos : QoS) (retain : bool)
    (now : Instant) : OutboundInflight :=
  mkOutboundInflight topic payload qos retain AckStage.WaitFirstAck now 0.

Definition build_packet (self : OutboundInflight) (packet_id : Z) (dup : bool) : Packet :=
  match stage self with
  | AckStage.WaitFirstAck =>
      PPublish (mkPublish dup (if_qos self) (if_retain self) (if_topic self)
                  (Some packet_id) (if_payload self))
  | AckStage.WaitPubcomp => PPubrel packet_id
  end.

(** [OutboundInflightTable { map }]; its [get], [insert], [remove], [get_mut]
    are those of the map. *)
Abbreviation InflightTable := (gmap Z OutboundInflight).

(** One entry of the loop of [retry_expired]: the table, the packets to resend,
    the failures, the identifiers to drop. *)
Definition retry_entry (now : Instant) (timeout : Duration) (max_retries : Z)
    (acc : InflightTable * list (Z * Packet) * list Z * list Z)
    (pe : Z * OutboundInflight) : InflightTable * list (Z * Packet) * list Z * list Z :=
  let '(table, to_resend, failed, drop_ids) := acc in
  let '(pid, entry) := pe in
  if duration_since now (last_sent_at entry) <? timeout then acc
  else if retry_count entry >=? max_retries then
    (table, to_resend, failed ++ [pid], drop_ids ++ [pid])
  else
    let entry := entry <| retry_count ::= λ n, n + 1 |> <| last_sent_at := now |> in
    let pkt := match stage entry with
               | AckStage.WaitFirstAck => build_packet entry pid true
               | AckStage.WaitPubcomp => build_packet entry pid false
               end in
    (<[pid := entry]> table, to_resend ++ [(pid, pkt)], failed, drop_ids).

Definition retry_expired (self : InflightTable) (timeout : Duration) (max_retries : Z)
    (now : Instant) : list (Z * Packet) * list Z * InflightTable :=
  let '(table, to_resend, failed, drop_ids) :=
    foldl (retry_entry now timeout max_retries) (self, [], [], []) (map_to_list self) in
  (to_resend, failed, foldl (λ t pid, delete pid t) table drop_ids).

(** ** Inbound QoS 2 *)

Record InboundQos2Tracker := mkTracker { seen : gset Z }.

Definition tracker_new : InboundQos2Tracker := mkTracker ∅.

(** [true]: a duplicate. *)
Definition on_publish (self : InboundQos2Tracker) (packet_id : Z) : bool * InboundQos2Tracker :=
  (bool_decide (packet_id ∈ seen self), mkTracker ({[packet_id]} ∪ seen self)).

Definition on_pubrel (self : InboundQos2Tracker) (packet_id : Z) : bool * InboundQos2Tracker :=
  (bool_decide (packet_id ∈ seen self), mkTracker (seen self ∖ {[packet_id]})).

(** ** Packet identifiers ([src/broker/mod.rs]) *)

(** The [for _ in 0..65535] loop: the identifier found or 0, and [*next]. *)
Fixpoint allocate_loop (iterations : nat) (next : Z) (inflight : InflightTable) : Z * Z :=
  match iterations with
  | O => (0, next)
  | S iterations =>
      let p := next in
      let next := wrap_u16 (next + 1) in
      let next := if next =? 0 then 1 else next in
      if negb (p =? 0) && bool_decide (inflight !! p = None) then (p, next)
      else allocate_loop iterations next inflight
  end.

Definition allocate_pid (next : Z) (inflight : InflightTable) : Z * Z :=
  allocate_loop (Z.to_nat 65535) next inflight.

(** [build_outbound_packet]: the packet, if any, with [*next_pid] and the table. *)
Definition build_outbound_packet (max_inflight : nat) (req : OutboundPublish) (next_pid : Z)
    (inflight : InflightTable) (now : Instant) : option Packet * Z * InflightTable :=
  if bool_decide (ob_qos req = QoS.AtMostOnce) then
    (Some (build_publish req None), next_pid, inflight)
  else if (max_inflight <=? size inflight)%nat then (None, next_pid, inflight)
  else
    let '(pid, next_pid) := allocate_pid next_pid inflight in
    if pid =? 0 then (None, next_pid, inflight)
    else
      let entry := inflight_new (ob_topic req) (ob_payload req) (ob_qos req) (ob_retain req) now in
      (Some (build_publish req (Some pid)), next_pid, <[pid := entry]> inflight).

(** The acknowledgements of [handle_packet]. *)
Definition on_puback (inflight : InflightTable) (id : Z) : InflightTable := delete id inflight.
Definition on_pubrec (inflight : InflightTable) (id : Z) (now : Instant) : InflightTable :=
  alter (λ e, e <| stage := AckStage.WaitPubcomp |> <| last_sent_at := now |>) id inflight.
Definition on_pubcomp (inflight : InflightTable) (id : Z) : InflightTable := delete id inflight.

(** ** Allocation *)

(** The identifier tried at the [j]-th iteration. *)
Definition pid_at (next : Z) (j : Z) : Z := (next - 1 + j) mod 65535 + 1.

Lemma pid_at_range next j : 1 ≤ pid_at next j ≤ 65535.
Proof. unfold pid_at. div_mod_lia. Qed.

Lemma pid_at_0 next : 1 ≤ next ≤ 65535 → pid_at next 0 = next.
Proof. intros H. unfold pid_at. rewrite Z.mod_small by lia. lia. Qed.

(** The successor computed by the loop. *)
Lemma next_pid_succ next :
  1 ≤ next ≤ 65535 →
  (if wrap_u16 (next + 1) =? 0 then 1 else wrap_u16 (next + 1)) = pid_at next 1.
Proof.
  intros H. unfold wrap_u16, pid_at. destruct (Z.eq_dec next 65535) as [->|]; [done|].
  rewrite !Z.mod_small by lia. replace (next + 1 =? 0) with false by lia. lia.
Qed.

Lemma pid_at_shift next j : 1 ≤ next ≤ 65535 → pid_at (pid_at next 1) j = pid_at next (j + 1).
Proof.
  intros H. unfold pid_at.
  replace ((next - 1 + 1) mod 65535 + 1 - 1 + j) with ((next - 1 + 1) mod 65535 + j) by lia.
  rewrite Zplus_mod_idemp_l. do 2 f_equal. lia.
Qed.

Lemma allocate_loop_spec n next inflight pid next' :
  1 ≤ next ≤ 65535 → allocate_loop n next inflight = (pid, next') →
  1 ≤ next' ≤ 65535 ∧
  ((pid = 0 ∧ ∀ j, 0 ≤ j < Z.of_nat n → is_Some (inflight !! pid_at next j)) ∨
   (1 ≤ pid ≤ 65535 ∧ inflight !! pid = None)).
Proof.
  revert next. induction n as [|n IH]; intros next Hn; cbn [allocate_loop].
  { intros [= <- <-]. split; [done|]. left. split; [done|]. intros j Hj. lia. }
  rewrite next_pid_succ by done. pose proof (pid_at_range next 1).
  replace (next =? 0) with false by lia. cbn [negb andb]. case_bool_decide as Hf.
  { intros [= <- <-]. split; [done|]. by right. }
  intros E. apply IH in E as [Hnext' [[-> Hall]|Hfree]]; [|auto..|done].
  split; [done|]. left. split; [done|]. intros j Hj. destruct (Z.eq_dec j 0) as [->|Hj0].
  - rewrite pid_at_0 by done. by apply not_eq_None_Some.
  - specialize (Hall (j - 1) ltac:(lia)). rewrite pid_at_shift in Hall by done.
    by replace (j - 1 + 1) with j in Hall by lia.
Qed.

Lemma allocate_pid_spec next inflight pid next' :
  1 ≤ next ≤ 65535 → allocate_pid next inflight = (pid, next') →
  1 ≤ next' ≤ 65535 ∧
  ((pid = 0 ∧ ∀ id, 1 ≤ id ≤ 65535 → is_Some (inflight !! id)) ∨
   (1 ≤ pid ≤ 65535 ∧ inflight !! pid = None)).
Proof.
  intros Hn E. apply allocate_loop_spec in E as [Hn' [[-> Hall]|Hf]]; [|by auto|done].
  split; [done|]. left. split; [done|]. intros id Hid.
  specialize (Hall ((id - next) mod 65535)).
  rewrite Z2Nat.id in Hall by lia. specialize (Hall ltac:(apply Z.mod_pos_bound; lia)).
  unfold pid_at in Hall. rewrite Zplus_mod_idemp_r in Hall.
  replace (next - 1 + (id - next)) with (id - 1) in Hall by lia.
  rewrite Z.mod_small in Hall by lia. by replace (id - 1 + 1) with id in Hall by lia.
Qed.

(** All identifiers in use means 65535 entries. *)
Lemma all_pids_size (inflight : InflightTable) :
  (∀ id, 1 ≤ id ≤ 65535 → is_Some (inflight !! id)) → 65535 ≤ Z.of_nat (size inflight).
Proof.
  intros H. assert (Hs : list_to_set (seqZ 1 65535) ⊆ (dom inflight : gset Z)).
  { intros id Hid. apply elem_of_list_to_set, elem_of_seqZ in Hid. apply elem_of_dom, H. lia. }
  apply subseteq_size in Hs. rewrite size_list_to_set in Hs by apply NoDup_seqZ.
  rewrite length_seqZ, size_dom in Hs. lia.
Qed.
