(* ===== verification/QosProofs.v ===== *)
(** * Lemmas on the QoS tables

    What one pass of [retry_expired] does to each entry, in closed form, and
    the tracker of inbound QoS 2 identifiers as a set. *)

From S2P Require Import Prelude Packet Messages Qos.

(** What the pass decides for one entry. *)
Inductive Verdict := Keep | Drop | Resend (e : OutboundInflight).

Definition verdict (now : Instant) (timeout : Duration) (max_retries : Z)
    (e : OutboundInflight) : Verdict :=
  if duration_since now (last_sent_at e) <? timeout then Keep
  else if retry_count e >=? max_retries then Drop
  else Resend (e <| retry_count ::= λ n, n + 1 |> <| last_sent_at := now |>).

(** A retransmitted PUBLISH carries DUP=1; [build_packet] ignores the flag for
    PUBREL. *)
Definition resent_packet (pid : Z) (e : OutboundInflight) : Packet := build_packet e pid true.

Lemma resent_packet_match pid e :
  match stage e with
  | AckStage.WaitFirstAck => build_packet e pid true
  | AckStage.WaitPubcomp => build_packet e pid false
  end = resent_packet pid e.
Proof. unfold resent_packet, build_packet. by destruct (stage e). Qed.

Definition resend_of now timeout max_retries (pe : Z * OutboundInflight) : option (Z * Packet) :=
  match verdict now timeout max_retries pe.2 with
  | Resend e => Some (pe.1, resent_packet pe.1 e)
  | _ => None
  end.

Definition drop_of now timeout max_retries (pe : Z * OutboundInflight) : option Z :=
  match verdict now timeout max_retries pe.2 with
  | Drop => Some pe.1
  | _ => None
  end.

Lemma retry_entry_verdict now timeout max_retries t r f d pid e :
  retry_entry now timeout max_retries (t, r, f, d) (pid, e) =
  match verdict now timeout max_retries e with
  | Keep => (t, r, f, d)
  | Drop => (t, r, f ++ [pid], d ++ [pid])
  | Resend e' => (<[pid := e']> t, r ++ [(pid, resent_packet pid e')], f, d)
  end.
Proof.
  unfold retry_entry, verdict. destruct (_ <? timeout); [done|].
  destruct (_ >=? max_retries); [done|]. by rewrite resent_packet_match.
Qed.

(** The table after the loop, before the identifiers are dropped. *)
Definition update_table now timeout max_retries (t : InflightTable)
    (l : list (Z * OutboundInflight)) : InflightTable :=
  foldl (λ t pe, match verdict now timeout max_retries pe.2 with
                 | Resend e => <[pe.1 := e]> t
                 | _ => t
                 end) t l.

Lemma retry_fold now timeout max_retries l t r f d :
  foldl (retry_entry now timeout max_retries) (t, r, f, d) l =
  (update_table now timeout max_retries t l,
   r ++ omap (resend_of now timeout max_retries) l,
   f ++ omap (drop_of now timeout max_retries) l,
   d ++ omap (drop_of now timeout max_retries) l).
Proof.
  revert t r f d. induction l as [|[pid e] l IH]; intros t r f d; cbn [foldl].
  { cbn. by rewrite !app_nil_r. }
  rewrite retry_entry_verdict. unfold update_table. cbn [foldl fst snd]. cbn [omap list_omap].
  assert (Er : resend_of now timeout max_retries (pid, e) =
               match verdict now timeout max_retries e with
               | Resend e' => Some (pid, resent_packet pid e') | _ => None end) by done.
  assert (Ed : drop_of now timeout max_retries (pid, e) =
               match verdict now timeout max_retries e with Drop => Some pid | _ => None end) by done.
  rewrite Er, Ed. destruct (verdict now timeout max_retries e); rewrite IH, ?app_nil_l, <-?app_assoc; reflexivity.
Qed.

Lemma update_table_lookup now timeout max_retries l t pid :
  NoDup l.*1 →
  update_table now timeout max_retries t l !! pid =
  match (list_to_map l : InflightTable) !! pid with
  | Some e => match verdict now timeout max_retries e with
              | Resend e' => Some e'
              | _ => t !! pid
              end
  | None => t !! pid
  end.
Proof.
  revert t. induction l as [|[p e] l IH]; intros t Hnd; [done|].
  cbn in Hnd. apply NoDup_cons in Hnd as [Hp Hnd]. unfold update_table. cbn [foldl fst snd].
  change (foldl _ ?t0 l) with (update_table now timeout max_retries t0 l).
  rewrite IH by done. destruct (decide (p = pid)) as [->|Hne].
  - assert (E : (list_to_map l : InflightTable) !! pid = None) by by apply not_elem_of_list_to_map_1.
    change (list_to_map ((pid, e) :: l)) with (<[pid:=e]> (list_to_map l : InflightTable)).
    rewrite E. destruct (verdict now timeout max_retries e) eqn:Ev;
      rewrite !lookup_insert_eq, ?Ev; reflexivity.
  - change (list_to_map ((p, e) :: l)) with (<[p:=e]> (list_to_map l : InflightTable)).
    rewrite lookup_insert_ne by done.
    assert (E : match verdict now timeout max_retries e with
                | Resend e => <[p:=e]> t | _ => t end !! pid = t !! pid)
      by (destruct (verdict _ _ _ e); [done..|]; by rewrite lookup_insert_ne).
    by rewrite E.
Qed.

Lemma foldl_delete_lookup (ds : list Z) (t : InflightTable) pid :
  foldl (λ t p, delete p t) t ds !! pid = if decide (pid ∈ ds) then None else t !! pid.
Proof.
  revert t. induction ds as [|d ds IH]; intros t; cbn [foldl].
  { destruct (decide (pid ∈ [])) as [H|]; [by apply not_elem_of_nil in H|done]. }
  rewrite IH. destruct (decide (d = pid)) as [->|Hne].
  - rewrite lookup_delete_eq, (decide_True (P := pid ∈ pid :: ds)) by set_solver. by destruct (decide _).
  - rewrite lookup_delete_ne by done. apply decide_ext. set_solver.
Qed.

Lemma elem_of_drops now timeout max_retries (t : InflightTable) pid :
  pid ∈ omap (drop_of now timeout max_retries) (map_to_list t) ↔
  ∃ e, t !! pid = Some e ∧ verdict now timeout max_retries e = Drop.
Proof.
  rewrite list_elem_of_omap. split.
  - intros ([p e] & Hin & E). apply elem_of_map_to_list in Hin. unfold drop_of in E. cbn in E.
    destruct (verdict _ _ _ e) eqn:Ev; simplify_eq. eauto.
  - intros (e & E & Ev). exists (pid, e). rewrite elem_of_map_to_list. unfold drop_of. cbn. by rewrite Ev.
Qed.

Lemma elem_of_resends now timeout max_retries (t : InflightTable) pid pkt :
  (pid, pkt) ∈ omap (resend_of now timeout max_retries) (map_to_list t) ↔
  ∃ e e', t !! pid = Some e ∧ verdict now timeout max_retries e = Resend e' ∧
          pkt = resent_packet pid e'.
Proof.
  rewrite list_elem_of_omap. split.
  - intros ([p e] & Hin & E). apply elem_of_map_to_list in Hin. unfold resend_of in E. cbn in E.
    destruct (verdict _ _ _ e) as [| |e'] eqn:Ev; simplify_eq. by exists e, e'.
  - intros (e & e' & E & Ev & ->). exists (pid, e). rewrite elem_of_map_to_list.
    unfold resend_of. cbn. by rewrite Ev.
Qed.

(** One pass, entry by entry. *)
Lemma retry_expired_table timeout max_retries now (t : InflightTable) pid :
  (retry_expired t timeout max_retries now).2 !! pid =
  match t !! pid with
  | Some e => match verdict now timeout max_retries e with
              | Keep => Some e
              | Drop => None
              | Resend e' => Some e'
              end
  | None => None
  end.
Proof.
  unfold retry_expired. rewrite retry_fold. cbn [snd app]. rewrite foldl_delete_lookup.
  rewrite update_table_lookup, list_to_map_to_list by apply NoDup_fst_map_to_list.
  destruct (decide _) as [Hd|Hd].
  - apply elem_of_drops in Hd as (e & -> & ->). done.
  - destruct (t !! pid) as [e|] eqn:E; [|done]. destruct (verdict _ _ _ e) eqn:Ev; [done| |done].
    destruct Hd. apply elem_of_drops. eauto.
Qed.

Lemma retry_expired_failed timeout max_retries now (t : InflightTable) pid :
  pid ∈ (retry_expired t timeout max_retries now).1.2 ↔
  ∃ e, t !! pid = Some e ∧ verdict now timeout max_retries e = Drop.
Proof. unfold retry_expired. rewrite retry_fold. apply elem_of_drops. Qed.

Lemma retry_expired_resent timeout max_retries now (t : InflightTable) pid pkt :
  (pid, pkt) ∈ (retry_expired t timeout max_retries now).1.1 ↔
  ∃ e e', t !! pid = Some e ∧ verdict now timeout max_retries e = Resend e' ∧
          pkt = resent_packet pid e'.
Proof. unfold retry_expired. rewrite retry_fold. apply elem_of_resends. Qed.

Lemma omap_keys_NoDup {A B} (f : Z * A → option B) (g : B → Z) (l : list (Z * A)) :
  (∀ x y, f x = Some y → g y = x.1) → NoDup l.*1 → NoDup (g <$> omap f l).
Proof.
  intros Hf. induction l as [|[p e] l IH]; [constructor|]. cbn. intros [Hp Hnd]%NoDup_cons.
  destruct (f (p, e)) as [y|] eqn:E; [|by apply IH]. cbn. apply NoDup_cons. split; [|by apply IH].
  apply Hf in E. cbn in E. rewrite E. intros (z & -> & Hz)%list_elem_of_fmap.
  apply list_elem_of_omap in Hz as ([p' e'] & Hin & Ez). apply Hf in Ez. cbn in Ez. apply Hp.
  rewrite Ez. apply list_elem_of_fmap. by exists (p', e').
Qed.

(** Each identifier is resent at most once per pass. *)
Lemma retry_expired_NoDup timeout max_retries now (t : InflightTable) :
  NoDup (retry_expired t timeout max_retries now).1.1.*1.
Proof.
  unfold retry_expired. rewrite retry_fold. cbn [fst snd app].
  apply omap_keys_NoDup; [|apply NoDup_fst_map_to_list].
  intros [p e] [p' pkt]. unfold resend_of. cbn. destruct (verdict _ _ _ e); naive_solver.
Qed.

(** A pass never makes the table larger. *)
Lemma retry_expired_dom timeout max_retries now (t : InflightTable) :
  dom (retry_expired t timeout max_retries now).2 ⊆ (dom t : gset Z).
Proof.
  intros pid. rewrite !elem_of_dom, retry_expired_table. destruct (t !! pid); [eauto|].
  by intros [? ?].
Qed.

Lemma retry_expired_size timeout max_retries now (t : InflightTable) :
  (size (retry_expired t timeout max_retries now).2 ≤ size t)%nat.
Proof. rewrite <-!size_dom. apply subseteq_size, retry_expired_dom. Qed.
