(* ===== verification/QosTheorems.v ===== *)
(** * Correctness of the QoS handshakes

    Packet identifiers are never reused while in flight, the table respects
    its limits in every reachable state, and retransmission follows its schedule
    and ends.  The receipt of QoS 2 messages is the subject of [LoopTheorems]. *)

From S2P Require Import Prelude Packet Messages Qos QosProofs.

(** ** The outbound side of a connection as a state machine *)

Section Outbound.
Context (max_inflight : nat) (timeout : Duration) (max_retries : Z).

(** The state is [next_pid] and the table.  A step is labelled with the packets
    it sends: a new message, an acknowledgement from the client, a retry tick. *)
Inductive out_step : Z * InflightTable → list Packet → Z * InflightTable → Prop :=
  | step_send next t req now pkt next' t' :
      build_outbound_packet max_inflight req next t now = (pkt, next', t') →
      out_step (next, t) (option_list pkt) (next', t')
  | step_puback next t id : out_step (next, t) [] (next, on_puback t id)
  | step_pubrec next t id now : out_step (next, t) [PPubrel id] (next, on_pubrec t id now)
  | step_pubcomp next t id : out_step (next, t) [] (next, on_pubcomp t id)
  | step_retry next t now resent failed t' :
      retry_expired t timeout max_retries now = (resent, failed, t') →
      out_step (next, t) (snd <$> resent) (next, t').

Inductive reachable : Z * InflightTable → Prop :=
  | reach_init : reachable (1, ∅)
  | reach_step s out s' : reachable s → out_step s out s' → reachable s'.

Definition entry_ok (pid : Z) (e : OutboundInflight) : Prop :=
  1 ≤ pid ≤ 65535 ∧ if_qos e ≠ QoS.AtMostOnce ∧ 0 ≤ retry_count e ≤ max_retries.

Definition out_inv (s : Z * InflightTable) : Prop :=
  1 ≤ s.1 ≤ 65535 ∧ (size s.2 ≤ max_inflight)%nat ∧ map_Forall entry_ok s.2.
End Outbound.

(** What [build_outbound_packet] returns, case by case. *)
Lemma build_outbound_cases max_inflight req next (t : InflightTable) now pkt next' t' :
  1 ≤ next ≤ 65535 →
  build_outbound_packet max_inflight req next t now = (pkt, next', t') →
  1 ≤ next' ≤ 65535 ∧
  ((ob_qos req = QoS.AtMostOnce ∧ pkt = Some (build_publish req None) ∧ t' = t) ∨
   (ob_qos req ≠ QoS.AtMostOnce ∧ pkt = None ∧ t' = t ∧
    ((max_inflight ≤ size t)%nat ∨ 65535 ≤ Z.of_nat (size t))) ∨
   (ob_qos req ≠ QoS.AtMostOnce ∧ (size t < max_inflight)%nat ∧
    ∃ pid, 1 ≤ pid ≤ 65535 ∧ t !! pid = None ∧ pkt = Some (build_publish req (Some pid)) ∧
      t' = <[pid := inflight_new (ob_topic req) (ob_payload req) (ob_qos req) (ob_retain req) now]> t)).
Proof.
  intros Hn. unfold build_outbound_packet. case_bool_decide as Hq.
  { intros [= <- <- <-]. auto. }
  destruct (Nat.leb_spec max_inflight (size t)).
  { intros [= <- <- <-]. split; [done|]. right; left. auto. }
  destruct (allocate_pid next t) as [pid n'] eqn:Ea.
  apply allocate_pid_spec in Ea as [Hn' [[-> Hall]|[Hpid Hfree]]]; [..|done].
  - cbn. intros [= <- <- <-]. split; [done|]. right; left. apply all_pids_size in Hall. auto.
  - replace (pid =? 0) with false by lia. intros [= <- <- <-]. split; [done|]. right; right. eauto 10.
Qed.

Lemma on_pubrec_size t id now : size (on_pubrec t id now) = size t.
Proof. unfold on_pubrec. rewrite <-!size_dom. by rewrite dom_alter_L. Qed.

Lemma out_step_inv max_inflight timeout max_retries s out s' :
  0 ≤ max_retries → out_inv max_inflight max_retries s →
  out_step max_inflight timeout max_retries s out s' → out_inv max_inflight max_retries s'.
Proof.
  intros Hm (Hn & Hs & He) Hstep. destruct Hstep as
    [next t req now pkt next' t' E|next t id|next t id now|next t id|next t now res fl t' E];
    cbn [fst snd] in *; unfold out_inv; cbn [fst snd].
  - apply build_outbound_cases in E as [Hn' [(? & ? & ->)|[(? & ? & -> & ?)|
      (Hq & Hlt & pid & Hpid & Hfree & ? & ->)]]]; [auto..| |done].
    split_and!; [lia..| |]; [rewrite map_size_insert_None by done; lia|].
    apply map_Forall_insert_2; [|done]. unfold entry_ok, inflight_new. cbn. split; [done|]. split; [done|lia].
  - split_and!; [lia..| |by apply map_Forall_delete].
    etrans; [|exact Hs]. unfold on_puback. rewrite <-!size_dom, dom_delete_L. apply subseteq_size. set_solver.
  - rewrite on_pubrec_size. split_and!; [lia..|done|]. intros pid e. unfold on_pubrec.
    rewrite lookup_alter_Some. intros [(-> & e0 & E0 & ->)|[_ E0]]; apply He in E0; done.
  - split_and!; [lia..| |by apply map_Forall_delete].
    etrans; [|exact Hs]. unfold on_pubcomp. rewrite <-!size_dom, dom_delete_L. apply subseteq_size. set_solver.
  - assert (Et : t' = (retry_expired t timeout max_retries now).2) by by rewrite E.
    split_and!; [lia..| |].
    + rewrite Et. etrans; [apply retry_expired_size|done].
    + intros pid e. rewrite Et, retry_expired_table. destruct (t !! pid) as [e0|] eqn:E0; [|done].
      apply He in E0 as He0. unfold verdict. destruct (_ <? timeout); [by intros [= <-]|].
      destruct He0 as (? & ? & ?).
      destruct (Z.geb_spec (retry_count e0) max_retries); [done|]. intros [= <-].
      unfold entry_ok. cbn. split_and!; [lia|lia|done|lia|lia].
Qed.

Lemma reachable_inv max_inflight timeout max_retries s :
  0 ≤ max_retries → reachable max_inflight timeout max_retries s →
  out_inv max_inflight max_retries s.
Proof.
  intros Hm. induction 1; [|by eapply out_step_inv].
  split_and!; cbn; [lia..| |apply map_Forall_empty]. rewrite map_size_empty. lia.
Qed.

(** C10: In every state a connection's outbound side can reach (from the initial
    identifier 1 and the empty table, by any sequence of messages, PUBACK,
    PUBREC, PUBCOMP and retry ticks), the table has at most [max_inflight]
    entries, all under identifiers 1..65535, none of QoS 0 and none retried more
    than [max_retries] times; a further message of QoS 0 is always sent, without
    an identifier and without touching the table; one of QoS 1 or 2 is sent
    exactly when fewer than [max_inflight] and fewer than 65535 messages are in
    flight, and then under an identifier that no message in flight uses, which
    is recorded with its contents. *)
Theorem inflight_safety max_inflight timeout max_retries next t req now pkt next' t' :
  0 ≤ max_retries →
  reachable max_inflight timeout max_retries (next, t) →
  build_outbound_packet max_inflight req next t now = (pkt, next', t') →
  out_inv max_inflight max_retries (next, t) ∧
  (ob_qos req = QoS.AtMostOnce → pkt = Some (build_publish req None) ∧ t' = t) ∧
  (ob_qos req ≠ QoS.AtMostOnce →
   (pkt ≠ None ↔ (size t < max_inflight)%nat ∧ Z.of_nat (size t) < 65535) ∧
   (pkt = None → t' = t) ∧
   (∀ p, pkt = Some p → ∃ pid, 1 ≤ pid ≤ 65535 ∧ t !! pid = None ∧
      p = build_publish req (Some pid) ∧
      t' = <[pid := inflight_new (ob_topic req) (ob_payload req) (ob_qos req) (ob_retain req) now]> t)).
Proof.
  intros Hm Hr E. pose proof (reachable_inv _ _ _ _ Hm Hr) as Hinv. split; [done|].
  destruct Hinv as (Hn & Hs & He). cbn [fst snd] in *.
  pose proof (build_outbound_cases _ _ _ _ _ _ _ _ Hn E) as [_ [(Hq & Hp & Ht)|[(Hq & Hp & Ht & Hfull)|
    (Hq & Hlt & pid & Hpid & Hfree & Hp & Ht)]]]; split; try done; intros _.
  - split_and!; [|done|by rewrite Hp]. split; [by rewrite Hp|]. intros [? ?]. lia.
  - assert (Hsz : Z.of_nat (size t) < 65535).
    { assert (Hsub : (dom t : gset Z) ⊆ list_to_set (seqZ 1 65535) ∖ {[pid]}).
      { intros id Hid. apply elem_of_dom in Hid as [e Ee]. pose proof (He _ _ Ee) as [? _].
        apply elem_of_difference. split; [apply elem_of_list_to_set, elem_of_seqZ; lia|].
        apply not_elem_of_singleton. intros ->. congruence. }
      apply subseteq_size in Hsub. rewrite size_dom in Hsub.
      rewrite size_difference in Hsub; [|apply singleton_subseteq_l, elem_of_list_to_set, elem_of_seqZ; lia].
      rewrite size_list_to_set, length_seqZ, size_singleton in Hsub by apply NoDup_seqZ. lia. }
    split_and!; [|by rewrite Hp|]; [split; [done|by rewrite Hp]|].
    intros p Hp'. exists pid. split_and!; [lia|lia|done|congruence|done].
Qed.

Lemma inflight_safety_witness :
  ∃ pid, 1 ≤ pid ≤ 65535 ∧
    (build_outbound_packet 10 (mkOutboundPublish "t" [1] QoS.AtLeastOnce false) 1 ∅ 5).1.1
      = Some (build_publish (mkOutboundPublish "t" [1] QoS.AtLeastOnce false) (Some pid)).
Proof.
  destruct (inflight_safety 10 20 3 1 ∅ (mkOutboundPublish "t" [1] QoS.AtLeastOnce false) 5
              _ _ _ ltac:(lia) (reach_init _ _ _) eq_refl) as (_ & _ & H).
  destruct (H ltac:(done)) as (_ & _ & Hp). destruct (Hp _ eq_refl) as (pid & ? & _ & E & _).
  exists pid. split; [done|]. by rewrite <-E.
Defined.

(** ** Retransmission *)

(** One pass of [retry_expired] treats every entry by its own age and
    count: one sent less than [timeout] ago is untouched; one that is due and
    was retried [max_retries] times is removed and reported as failed; any other
    due entry is counted, re-stamped and resent, as a PUBLISH with DUP set and
    the same identifier, QoS, topic and payload before the first
    acknowledgement, as a PUBREL after it.  Nothing else is resent or reported,
    and no identifier is resent twice. *)
Theorem retry_expired_exact timeout max_retries now (t : InflightTable) resent failed t' :
  retry_expired t timeout max_retries now = (resent, failed, t') →
  NoDup resent.*1 ∧
  (∀ pid, t !! pid = None → t' !! pid = None ∧ pid ∉ failed ∧ pid ∉ resent.*1) ∧
  ∀ pid e, t !! pid = Some e →
    let age := Z.max 0 (now - last_sent_at e) in
    (age < timeout → t' !! pid = Some e ∧ pid ∉ failed ∧ pid ∉ resent.*1) ∧
    (timeout ≤ age → max_retries ≤ retry_count e →
       t' !! pid = None ∧ pid ∈ failed ∧ pid ∉ resent.*1) ∧
    (timeout ≤ age → retry_count e < max_retries →
       t' !! pid = Some (mkOutboundInflight (if_topic e) (if_payload e) (if_qos e) (if_retain e)
                           (stage e) now (retry_count e + 1)) ∧
       pid ∉ failed ∧
       (pid, match stage e with
             | AckStage.WaitFirstAck =>
                 PPublish (mkPublish true (if_qos e) (if_retain e) (if_topic e) (Some pid) (if_payload e))
             | AckStage.WaitPubcomp => PPubrel pid
             end) ∈ resent).
Proof.
  intros E. assert (Et : ∀ pid, t' !! pid = (retry_expired t timeout max_retries now).2 !! pid) by by rewrite E.
  assert (Ef : ∀ pid, pid ∈ failed ↔ ∃ e, t !! pid = Some e ∧ verdict now timeout max_retries e = Drop).
  { intros pid. rewrite <-retry_expired_failed. by rewrite E. }
  assert (Er : ∀ pid pkt, (pid, pkt) ∈ resent ↔ ∃ e e', t !! pid = Some e ∧
             verdict now timeout max_retries e = Resend e' ∧ pkt = resent_packet pid e').
  { intros pid pkt. rewrite <-retry_expired_resent. by rewrite E. }
  assert (Ek : ∀ pid, pid ∈ resent.*1 → ∃ e e', t !! pid = Some e ∧ verdict now timeout max_retries e = Resend e').
  { intros pid ([p pkt] & -> & Hin)%list_elem_of_fmap. apply Er in Hin as (e & e' & ? & ? & _). eauto. }
  split; [|split].
  - pose proof (retry_expired_NoDup timeout max_retries now t) as Hnd. by rewrite E in Hnd.
  - intros pid Hp. rewrite Et, retry_expired_table, Hp, Ef. split_and!; [done|naive_solver|].
    intros (? & ? & ? & ?)%Ek. congruence.
  - intros pid e Hp age. rewrite Et, retry_expired_table, Hp, Ef.
    assert (Hk : ∀ v, verdict now timeout max_retries e = v → v = Keep ∨ v = Drop → pid ∉ resent.*1).
    { intros v Hv Hcase (? & ? & ? & ?)%Ek. destruct Hcase; congruence. }
    split_and!; intros Hage; [|intros Hc..].
    + assert (Ev : verdict now timeout max_retries e = Keep).
      { unfold verdict, duration_since. by destruct (Z.ltb_spec (Z.max 0 (now - last_sent_at e)) timeout); [|lia]. }
      rewrite Ev. split_and!; [done|naive_solver congruence|eauto].
    + assert (Ev : verdict now timeout max_retries e = Drop).
      { unfold verdict, duration_since. destruct (Z.ltb_spec (Z.max 0 (now - last_sent_at e)) timeout); [lia|].
        by destruct (Z.geb_spec (retry_count e) max_retries); [|lia]. }
      rewrite Ev. split_and!; [done|eauto|eauto].
    + assert (Ev : verdict now timeout max_retries e =
                   Resend (e <| retry_count ::= λ n, n + 1 |> <| last_sent_at := now |>)).
      { unfold verdict, duration_since. destruct (Z.ltb_spec (Z.max 0 (now - last_sent_at e)) timeout); [lia|].
        by destruct (Z.geb_spec (retry_count e) max_retries); [lia|]. }
      rewrite Ev. split_and!; [done|naive_solver congruence|].
      apply Er. do 2 eexists. split_and!; [done..|]. unfold resent_packet, build_packet. cbn. by destruct (stage e).
Qed.

Lemma retry_expired_exact_witness :
  let e := inflight_new "t" [7] QoS.ExactlyOnce false 0 in
  (4, PPublish (mkPublish true QoS.ExactlyOnce false "t" (Some 4) [7]))
    ∈ (retry_expired {[4 := e]} 20 3 25).1.1.
Proof.
  pose proof (retry_expired_exact 20 3 25 {[4 := inflight_new "t" [7] QoS.ExactlyOnce false 0]}
                _ _ _ eq_refl) as (_ & _ & H).
  destruct (H 4 _ eq_refl) as (_ & _ & Hr). apply Hr; cbn; lia.
Defined.

(** A sequence of ticks, with the packets resent and the failures of each. *)
Fixpoint retry_ticks (timeout : Duration) (max_retries : Z) (t : InflightTable)
    (nows : list Instant) : list (list (Z * Packet) * list Z) * InflightTable :=
  match nows with
  | [] => ([], t)
  | now :: nows =>
      let '(resent, failed, t) := retry_expired t timeout max_retries now in
      let '(outs, t) := retry_ticks timeout max_retries t nows in
      ((resent, failed) :: outs, t)
  end.

(** Successive ticks at least [timeout] apart, the first from [prev]. *)
Fixpoint spaced (timeout : Duration) (prev : Instant) (nows : list Instant) : Prop :=
  match nows with
  | [] => True
  | now :: nows => prev + timeout ≤ now ∧ spaced timeout now nows
  end.

Lemma resent_key timeout max_retries now (t : InflightTable) pid :
  pid ∈ (retry_expired t timeout max_retries now).1.1.*1 →
  ∃ e e', t !! pid = Some e ∧ verdict now timeout max_retries e = Resend e'.
Proof.
  intros ([p pkt] & -> & Hin)%list_elem_of_fmap.
  apply retry_expired_resent in Hin as (e & e' & ? & ? & _). eauto.
Qed.

(** The packet resent depends on the entry's contents and stage only. *)
Lemma resent_packet_bump pid e now :
  resent_packet pid (e <| retry_count ::= λ n, n + 1 |> <| last_sent_at := now |>) = resent_packet pid e.
Proof. done. Qed.

Lemma retry_ticks_schedule timeout max_retries (t : InflightTable) nows pid e outs t' :
  0 ≤ timeout → t !! pid = Some e → spaced timeout (last_sent_at e) nows →
  Z.of_nat (length nows) = max_retries - retry_count e + 1 → retry_count e ≤ max_retries →
  retry_ticks timeout max_retries t nows = (outs, t') →
  t' !! pid = None ∧
  ∀ i r f, outs !! i = Some (r, f) →
    if decide (Z.of_nat i < max_retries - retry_count e)
    then (pid, resent_packet pid e) ∈ r ∧ pid ∉ f
    else pid ∈ f ∧ pid ∉ r.*1.
Proof.
  intros Ht. revert t e outs t'. induction nows as [|now nows IH]; intros t e outs t' He Hsp Hlen Hrc; [cbn in Hlen; lia|].
  cbn [retry_ticks spaced length] in *. destruct Hsp as [Hdue Hsp].
  destruct (retry_expired t timeout max_retries now) as [[r f] t1] eqn:E.
  pose proof (retry_expired_table timeout max_retries now t pid) as Htab.
  pose proof (retry_expired_failed timeout max_retries now t pid) as Hfl.
  pose proof (retry_expired_resent timeout max_retries now t pid) as Hrs.
  pose proof (resent_key timeout max_retries now t pid) as Hkey.
  rewrite E in Htab, Hfl, Hrs, Hkey. cbn [fst snd] in Htab, Hfl, Hrs, Hkey. rewrite He in Htab.
  assert (Hv : verdict now timeout max_retries e =
    if decide (retry_count e < max_retries) then Resend (e <| retry_count ::= λ n, n + 1 |> <| last_sent_at := now |>)
    else Drop).
  { unfold verdict, duration_since. destruct (Z.ltb_spec (Z.max 0 (now - last_sent_at e)) timeout); [lia|].
    destruct (Z.geb_spec (retry_count e) max_retries); by destruct (decide _); try lia. }
  destruct (retry_ticks timeout max_retries t1 nows) as [outs1 t1'] eqn:E1. intros [= <- <-].
  rewrite Hv in Htab. destruct (decide (retry_count e < max_retries)) as [Hlt|Hge].
  - apply (IH _ _ outs1 t1') in Htab; [|cbn; done|cbn; lia..|done]. destruct Htab as [Hfin Houts].
    split; [done|]. intros [|i] r' f' Hi; cbn in Hi.
    + simplify_eq. rewrite decide_True by lia. split; [|naive_solver congruence].
      apply Hrs. do 2 eexists. by rewrite Hv, resent_packet_bump.
    + specialize (Houts i r' f' Hi). rewrite resent_packet_bump in Houts. cbn in Houts.
      destruct (decide (Z.of_nat i < _)), (decide (Z.of_nat (S i) < _)); done || lia.
  - destruct nows as [|]; [|cbn in Hlen; lia]. cbn in E1. simplify_eq. split; [done|].
    intros [|i] r' f' Hi; cbn in Hi; [|done]. simplify_eq. rewrite decide_False by lia.
    split; [apply Hfl; eauto|]. intros (e1 & e2 & ? & ?)%Hkey. congruence.
Qed.

(** C33: A message that is never acknowledged, at ticks at least [timeout]
    apart, is resent at exactly the first [max_retries] ticks (counting the
    retries already made), each time as the same packet, and at the next tick is
    reported as failed and leaves the table, whatever the other entries of the
    table are. *)
Theorem retry_schedule timeout max_retries (t : InflightTable) nows pid e outs t' :
  0 ≤ timeout → t !! pid = Some e → retry_count e ≤ max_retries →
  spaced timeout (last_sent_at e) nows →
  Z.of_nat (length nows) = max_retries - retry_count e + 1 →
  retry_ticks timeout max_retries t nows = (outs, t') →
  t' !! pid = None ∧ length outs = length nows ∧
  ∀ i r f, outs !! i = Some (r, f) →
    if decide (Z.of_nat i < max_retries - retry_count e)
    then (pid, build_packet e pid true) ∈ r ∧ pid ∉ f
    else pid ∈ f ∧ pid ∉ r.*1.
Proof.
  intros Ht He Hrc Hsp Hlen E. pose proof (retry_ticks_schedule _ _ _ _ _ _ _ _ Ht He Hsp Hlen Hrc E) as [? ?].
  split_and!; [done| |done]. clear -E. revert t outs E.
  induction nows as [|now nows IH]; intros t outs E; cbn [retry_ticks] in E; [by simplify_eq|].
  destruct (retry_expired _ _ _ _) as [[r f] t1]. destruct (retry_ticks _ _ _ _) as [os t1'] eqn:E1.
  simplify_eq. cbn. f_equal. eauto.
Qed.

Lemma retry_schedule_witness :
  let e := inflight_new "t" [7] QoS.AtLeastOnce false 0 in
  (retry_ticks 20 2 {[4 := e]} [20; 45; 70]).2 !! 4 = None.
Proof.
  pose proof (retry_schedule 20 2 {[4 := inflight_new "t" [7] QoS.AtLeastOnce false 0]}
    [20; 45; 70] 4 (inflight_new "t" [7] QoS.AtLeastOnce false 0) _ _
    ltac:(lia) eq_refl ltac:(cbn; lia) ltac:(cbn; lia) eq_refl eq_refl) as [H _].
  exact H.
Defined.
