(* ===== verification/Router.v ===== *)
(** * The router, [src/broker/router.rs]

    Distribution of a published message to the matching subscribers: retained
    storage, ordinary and shared matches, delivery to each client.  The state
    is everything the connections share: the subscription tree, the sessions,
    the retained messages, the optional database, the counters and the
    channels. *)

From S2P Require Import Prelude Packet Messages OfflineQueue Subscription Storage Metrics.
From S2P Require Import Retain Session.

Section Router.
Context {M : Mpsc} {S : Sled} {JR : Json RetainedMessage} {JS : Json SessionSnapshot}
  {JO : Json OutboundPublish}.

(** The handles of [Router] and [BrokerState], with what they point to. *)
Record Shared := mkShared {
  sh_subscriptions : SubscriptionTree;
  sh_sessions : SessionManager M;
  sh_retain : RetainStore;
  sh_storage : option (Storage S);
  sh_metrics : Metrics;
  sh_chans : Chans;
}.

#[export] Instance Shared_settable : Settable Shared :=
  λ w, mkShared (sh_subscriptions w) (sh_sessions w) (sh_retain w) (sh_storage w)
         (sh_metrics w) (sh_chans w).

Definition env_of (w : Shared) : Env S := (sh_storage w, sh_metrics w).
Definition set_env (w : Shared) (env : Env S) : Shared :=
  w <| sh_storage := env.1 |> <| sh_metrics := env.2 |>.

(** [if let Some(s) = &self.storage { s.op() }], errors logged and dropped. *)
Definition try_storage {A} (op : SE (Storage S * Metrics) BrokerError A) (w : Shared) : Shared :=
  set_env w (with_storage op (env_of w)).2.

Definition deliver_one (w : Shared) (client_id topic : string) (payload : list Z)
    (pub_qos sub_qos : QoS) (now : Instant) : option Shared :=
  let dq := delivery_qos pub_qos sub_qos in
  let req := mkOutboundPublish topic payload dq false in
  '(outcome, sess, ch) ← deliver_or_enqueue (sh_sessions w) client_id req now (sh_chans w);
  let w := w <| sh_sessions := sess |> <| sh_chans := ch |> in
  Some match outcome with
       | DeliveryOutcome.Sent => w <| sh_metrics ::= inc_sent |>
       | DeliveryOutcome.Enqueued =>
           try_storage (push_offline client_id req) (w <| sh_metrics ::= inc_sent |>)
       | DeliveryOutcome.ChannelFull => w <| sh_metrics ::= inc_message_dropped |>
       | DeliveryOutcome.Dropped => w
       | DeliveryOutcome.NoSession => w
       end.

(** The delivery loop of [publish]; [None]: a delivery does not return. *)
Fixpoint deliver_each (w : Shared) (targets : list (string * QoS)) (exclude : option string)
    (topic : string) (payload : list Z) (qos : QoS) (now : Instant) : option Shared :=
  match targets with
  | [] => Some w
  | (client_id, sub_qos) :: targets =>
      if bool_decide (exclude = Some client_id) then
        deliver_each w targets exclude topic payload qos now
      else
        w ← deliver_one w client_id topic payload qos sub_qos now;
        deliver_each w targets exclude topic payload qos now
  end.

(** Step 1 of [publish]: the retained message, whether or not anybody matches. *)
Definition store_retained (w : Shared) (topic : string) (payload : list Z) (qos : QoS)
    (retain : bool) : Shared :=
  if retain then
    let '(r, env) := Retain.set (sh_retain w) topic payload qos (env_of w) in
    set_env (w <| sh_retain := r |>) env
  else w.

(** The trace identifier only appears in log lines and is left out; the clock
    is read once for the whole call. *)
Definition publish (w : Shared) (topic : string) (payload : list Z) (qos : QoS) (retain : bool)
    (exclude_client_id : option string) (now : Instant) : option Shared :=
  let w := store_retained w topic payload qos retain in
  let matches := Subscription.matches (sh_subscriptions w) topic in
  let '(tree, shared_matches) := matches_shared (sh_subscriptions w) topic in
  let w := w <| sh_subscriptions := tree |> in
  deliver_each w (matches ++ shared_matches) exclude_client_id topic payload qos now.

Definition route_inbound_publish (w : Shared) (p : Publish) (publisher : option string)
    (now : Instant) : option Shared :=
  publish w (p_topic p) (p_payload p) (p_qos p) (p_retain p) publisher now.
End Router.
Arguments Shared M S : clear implicits.
