(* ===== verification/RouterTheorems.v ===== *)
(** * Correctness of routing

    What a published message does to each client: one copy per match on the
    channel of a connected client, in its queue when it is offline, and nothing
    for everybody else. *)

From S2P Require Import Prelude Packet Messages OfflineQueue Subscription Storage Metrics.
From S2P Require Import Retain Session SessionProofs SessionTheorems StorageProofs.
From S2P Require Import SubscriptionProofs SubscriptionTheorems Router.

Section Delivery.
Context {M : Mpsc} {L : MpscLaws M}.

(** A delivery to [cid] leaves the other sessions, every session's channel and
    the other channels as they were. *)
Record framed (cid : string) (self self' : SessionManager M) (ch ch' : Chans) : Prop := {
  frame_sessions c : c ≠ cid → sessions self' !! c = sessions self !! c;
  frame_tx c : (λ e, (tx e, connected e)) <$> sessions self' !! c = (λ e, (tx e, connected e)) <$> sessions self !! c;
  frame_max : max_offline_messages self' = max_offline_messages self;
  frame_queued t : (∀ e, sessions self !! cid = Some e → connected e = true → tx e ≠ t) →
    queued ch' t = queued ch t ∧ room ch' t = room ch t;
}.

Lemma enqueue_or_framed self cid e msg now ch o o' self' ch' :
  sessions self !! cid = Some e →
  enqueue_or self cid e msg now ch o = Some (o', self', ch') → framed cid self self' ch ch'.
Proof.
  intros E. unfold enqueue_or, enqueue_into. destruct (offline_queue e) as [q|]; [|by intros [= <- <- <-]].
  destruct (enqueue q msg now) as [q'|]; [|done]. cbn. intros [= <- <- <-]. split; [| |done..]; cbn.
  - intros c Hne. by rewrite lookup_alter_ne.
  - intros c. destruct (decide (c = cid)) as [->|]; [by rewrite lookup_alter_eq, E|by rewrite lookup_alter_ne].
Qed.

Lemma deliver_framed self cid msg now ch o self' ch' :
  deliver_or_enqueue self cid msg now ch = Some (o, self', ch') → framed cid self self' ch ch'.
Proof.
  unfold deliver_or_enqueue. destruct (sessions self !! cid) as [e|] eqn:E; [|by intros [= <- <- <-]].
  destruct (connected e) eqn:Hcon; [|by apply enqueue_or_framed].
  destruct (try_send ch (tx e) msg) as [[|m|m] ch1] eqn:Es.
  - intros [= <- <- <-]. split; [done..|]. intros t Ht. specialize (Ht _ E Hcon).
    split; [by eapply try_send_other|by eapply try_send_room_other].
  - apply try_send_full in Es as [-> ->]. by apply enqueue_or_framed.
  - apply try_send_closed in Es as [-> ->]. by apply enqueue_or_framed.
Qed.
End Delivery.

Section Routing.
Context {M : Mpsc} {L : MpscLaws M} {S : Sled} {JR : Json RetainedMessage}
  {JS : Json SessionSnapshot} {JO : Json OutboundPublish}.
Implicit Types w : Shared M S.

(** The copies meant for client [c]: one per match, with the smaller of the
    two QoS levels and the retain flag off. *)
Definition copies (c topic : string) (payload : list Z) (qos : QoS) (targets : list (string * QoS))
    : list OutboundPublish :=
  (λ t : string * QoS, mkOutboundPublish topic payload (QoS.min qos t.2) false)
    <$> filter (λ t, t.1 = c) targets.

Lemma copies_same c topic payload qos q targets :
  copies c topic payload qos ((c, q) :: targets) =
  mkOutboundPublish topic payload (delivery_qos qos q) false :: copies c topic payload qos targets.
Proof. unfold copies. rewrite filter_cons_True by done. cbn. by rewrite delivery_qos_min. Qed.

Lemma copies_other c c' topic payload qos q targets :
  c' ≠ c → copies c topic payload qos ((c', q) :: targets) = copies c topic payload qos targets.
Proof. intros ?. unfold copies. by rewrite filter_cons_False. Qed.

(** A delivery in terms of the sessions and channels. *)
Lemma deliver_one_inv w c topic payload qos sub now w' :
  deliver_one w c topic payload qos sub now = Some w' →
  ∃ o, deliver_or_enqueue (sh_sessions w) c
         (mkOutboundPublish topic payload (delivery_qos qos sub) false) now (sh_chans w)
       = Some (o, sh_sessions w', sh_chans w')
  ∧ sh_subscriptions w' = sh_subscriptions w ∧ sh_retain w' = sh_retain w.
Proof.
  unfold deliver_one. destruct (deliver_or_enqueue _ _ _ _ _) as [[[o s'] ch']|]; [|done].
  cbn [mbind option_bind]. intros [= <-]. exists o. by destruct o.
Qed.

Lemma deliver_one_total w c topic payload qos sub now :
  sess_inv (sh_sessions w) → (0 < max_offline_messages (sh_sessions w))%nat →
  ∃ w', deliver_one w c topic payload qos sub now = Some w' ∧ sess_inv (sh_sessions w')
        ∧ max_offline_messages (sh_sessions w') = max_offline_messages (sh_sessions w).
Proof.
  intros Hi Hm. unfold deliver_one.
  destruct (deliver_total _ c (mkOutboundPublish topic payload (delivery_qos qos sub) false) now
              (sh_chans w) Hi Hm) as (o & s' & ch' & E & Hi').
  pose proof (deliver_framed _ _ _ _ _ _ _ _ E) as Hf. rewrite E. cbn [mbind option_bind]. eexists. split; [done|].
  destruct o; (split; [exact Hi'|exact (frame_max _ _ _ _ _ Hf)]).
Qed.

Lemma deliver_each_total w targets exclude topic payload qos now :
  sess_inv (sh_sessions w) → (0 < max_offline_messages (sh_sessions w))%nat →
  ∃ w', deliver_each w targets exclude topic payload qos now = Some w' ∧ sess_inv (sh_sessions w').
Proof.
  revert w. induction targets as [|[c q] targets IH]; intros w Hi Hm; cbn [deliver_each]; [eauto|].
  case_bool_decide; [by apply IH|].
  destruct (deliver_one_total w c topic payload qos q now Hi Hm) as (w1 & -> & Hi1 & Hm1).
  cbn [mbind option_bind]. apply IH; [done|lia].
Qed.

(** No other session that is online sends on the session's channel. *)
Definition own_channel (self : SessionManager M) (c : string) (e : SessionEntry M) : Prop :=
  sessions self !! c = Some e ∧
  ∀ c' e', c' ≠ c → sessions self !! c' = Some e' → connected e' = true → tx e' ≠ tx e.

Lemma own_channel_framed self self' c e c' ch ch' :
  own_channel self c e → framed c' self self' ch ch' → c' ≠ c → own_channel self' c e.
Proof.
  intros [E Ho] Hf Hne. split; [by rewrite (frame_sessions _ _ _ _ _ Hf)|].
  intros c2 e2 Hc2 E2 Hon. pose proof (frame_tx _ _ _ _ _ Hf c2) as Htx. rewrite E2 in Htx. cbn in Htx.
  destruct (sessions self !! c2) as [e3|] eqn:E3; [|done]. cbn in Htx. injection Htx as Htx Hc. rewrite Htx, Hc in *. eauto.
Qed.

Lemma own_channel_other self c e c' : own_channel self c e → c' ≠ c →
  ∀ e', sessions self !! c' = Some e' → connected e' = true → tx e' ≠ tx e.
Proof. intros [_ Ho] Hne e' E Hon. by eapply Ho. Qed.

(** The loop leaves a client that is excluded or not a target alone. *)
Lemma deliver_each_skips w targets exclude topic payload qos now w' c e :
  own_channel (sh_sessions w) c e →
  (exclude = Some c ∨ c ∉ targets.*1) →
  deliver_each w targets exclude topic payload qos now = Some w' →
  own_channel (sh_sessions w') c e ∧ queued (sh_chans w') (tx e) = queued (sh_chans w) (tx e).
Proof.
  revert w. induction targets as [|[c1 q] targets IH]; intros w Ho Hx; cbn [deliver_each].
  { by intros [= <-]. }
  assert (Hx' : exclude = Some c ∨ c ∉ targets.*1) by set_solver.
  case_bool_decide as He; [by apply IH|].
  assert (Hne : c1 ≠ c) by (destruct Hx; [congruence|set_solver]).
  destruct (deliver_one w c1 topic payload qos q now) as [w1|] eqn:E1; [|done]. cbn [mbind option_bind].
  apply deliver_one_inv in E1 as (o & E1 & _). apply deliver_framed in E1 as Hf.
  intros E. apply IH in E as [Ho' Hq]; [|by eapply own_channel_framed|done].
  split; [done|]. rewrite Hq. apply (frame_queued _ _ _ _ _ Hf). by eapply own_channel_other.
Qed.

(** Without assuming anything of its channel: the session of an excluded client. *)
Lemma deliver_each_excluded w targets topic payload qos now w' c :
  deliver_each w targets (Some c) topic payload qos now = Some w' →
  sessions (sh_sessions w') !! c = sessions (sh_sessions w) !! c.
Proof.
  revert w. induction targets as [|[c1 q] targets IH]; intros w; cbn [deliver_each]; [by intros [= <-]|].
  case_bool_decide as He; [by apply IH|].
  destruct (deliver_one w c1 topic payload qos q now) as [w1|] eqn:E1; [|done]. cbn [mbind option_bind].
  apply deliver_one_inv in E1 as (o & E1 & _). apply deliver_framed in E1 as Hf. intros ->%IH.
  apply (frame_sessions _ _ _ _ _ Hf). congruence.
Qed.

Lemma deliver_each_tree w targets exclude topic payload qos now w' :
  deliver_each w targets exclude topic payload qos now = Some w' →
  sh_subscriptions w' = sh_subscriptions w.
Proof.
  revert w. induction targets as [|[c1 q] targets IH]; intros w; cbn [deliver_each]; [by intros [= <-]|].
  case_bool_decide; [by apply IH|].
  destruct (deliver_one w c1 topic payload qos q now) as [w1|] eqn:E1; [|done]. cbn [mbind option_bind].
  apply deliver_one_inv in E1 as (o & _ & <- & _). apply IH.
Qed.

(** A connected client with room on its channel gets its copies, in order. *)
Lemma deliver_each_online w targets exclude topic payload qos now w' c e :
  own_channel (sh_sessions w) c e → connected e = true → exclude ≠ Some c →
  (length (copies c topic payload qos targets) ≤ room (sh_chans w) (tx e))%nat →
  deliver_each w targets exclude topic payload qos now = Some w' →
  own_channel (sh_sessions w') c e ∧
  queued (sh_chans w') (tx e) = queued (sh_chans w) (tx e) ++ copies c topic payload qos targets.
Proof.
  intros Ho Hc Hx. revert w Ho. induction targets as [|[c1 q] targets IH]; intros w Ho Hroom; cbn [deliver_each].
  { intros [= <-]. cbn. by rewrite app_nil_r. }
  destruct (decide (c1 = c)) as [->|Hne].
  - rewrite bool_decide_eq_false_2 by done. rewrite copies_same in Hroom |- *. cbn [length] in Hroom.
    destruct (deliver_one w c topic payload qos q now) as [w1|] eqn:E1; [|done]. cbn [mbind option_bind].
    apply deliver_one_inv in E1 as (o & E1 & _). unfold deliver_or_enqueue in E1.
    destruct Ho as [E Ho]. rewrite E, Hc in E1.
    destruct (try_send_room (sh_chans w) (tx e) (mkOutboundPublish topic payload (delivery_qos qos q) false))
      as (ch1 & Es & Hr); [lia|]. rewrite Es in E1. injection E1 as _ Es1 Ech1.
    intros Er. apply IH in Er as [Ho' Hq]; [|rewrite <-Es1; by split|rewrite <-Ech1; lia].
    split; [done|]. rewrite Hq, <-Ech1, (try_send_sent _ _ _ _ Es), <-app_assoc. done.
  - rewrite copies_other in Hroom |- * by done. case_bool_decide; [by apply IH|].
    destruct (deliver_one w c1 topic payload qos q now) as [w1|] eqn:E1; [|done]. cbn [mbind option_bind].
    apply deliver_one_inv in E1 as (o & E1 & _). apply deliver_framed in E1 as Hf.
    destruct (frame_queued _ _ _ _ _ Hf (tx e)) as [Hq1 Hr1]; [by eapply own_channel_other|].
    intros Er. apply IH in Er as [Ho' Hq]; [|by eapply own_channel_framed|lia].
    split; [done|]. by rewrite Hq, Hq1.
Qed.

(** An offline client with a queue has its copies enqueued, in order. *)
Lemma deliver_each_offline w targets exclude topic payload qos now w' c e q :
  sessions (sh_sessions w) !! c = Some e → connected e = false → offline_queue e = Some q →
  exclude ≠ Some c →
  deliver_each w targets exclude topic payload qos now = Some w' →
  ∃ q', enqueue_all q ((., now) <$> copies c topic payload qos targets) = Some q' ∧
        sessions (sh_sessions w') !! c = Some (e <| offline_queue := Some q' |>).
Proof.
  intros E Hc Hq Hx. revert w e q E Hc Hq. induction targets as [|[c1 q1] targets IH]; intros w e q E Hc Hq; cbn [deliver_each].
  { intros [= <-]. exists q. split; [done|]. rewrite E. f_equal. destruct e; cbn in *; by subst. }
  destruct (decide (c1 = c)) as [->|Hne].
  - rewrite bool_decide_eq_false_2 by done. rewrite copies_same.
    destruct (deliver_one w c topic payload qos q1 now) as [w1|] eqn:E1; [|done]. cbn [mbind option_bind].
    apply deliver_one_inv in E1 as (o & E1 & _). unfold deliver_or_enqueue in E1.
    rewrite E, Hc in E1. unfold enqueue_or in E1. rewrite Hq in E1. unfold enqueue_into in E1.
    cbn [fmap list_fmap enqueue_all].
    destruct (enqueue q _ now) as [q2|]; [|done]. cbn [mbind option_bind] in *. injection E1 as _ Es1 Ech1.
    intros Er. destruct (IH w1 (e <| offline_queue := Some q2 |>) q2) as (q' & ? & ->); [|done..|by exists q'].
    rewrite <-Es1. cbn. by rewrite lookup_alter_eq, E.
  - rewrite copies_other by done. case_bool_decide; [by apply IH|].
    destruct (deliver_one w c1 topic payload qos q1 now) as [w1|] eqn:E1; [|done]. cbn [mbind option_bind].
    apply deliver_one_inv in E1 as (o & E1 & _). apply deliver_framed in E1 as Hf.
    apply IH; [|done..]. by rewrite (frame_sessions _ _ _ _ _ Hf).
Qed.

(** The clients a message is delivered to: ordinary matches, then one member
    per matching group. *)
Definition targets_of w (topic : string) : list (string * QoS) :=
  Subscription.matches (sh_subscriptions w) topic ++ (matches_shared (sh_subscriptions w) topic).2.

(** [publish] is the delivery loop on these targets, from a state with the same
    sessions and channels. *)
Lemma publish_as_loop w topic payload qos retain exclude now :
  ∃ w0, sh_sessions w0 = sh_sessions w ∧ sh_chans w0 = sh_chans w ∧
    publish w topic payload qos retain exclude now =
    deliver_each w0 (targets_of w topic) exclude topic payload qos now.
Proof.
  unfold publish. set (w1 := store_retained w topic payload qos retain).
  assert (H : sh_subscriptions w1 = sh_subscriptions w ∧ sh_sessions w1 = sh_sessions w
              ∧ sh_chans w1 = sh_chans w).
  { subst w1. unfold store_retained. destruct retain; [|done]. by destruct (Retain.set _ _ _ _ _). }
  destruct H as (H1 & H2 & H3). cbv zeta. unfold targets_of. rewrite H1.
  destruct (matches_shared (sh_subscriptions w) topic) as [tree sm].
  by exists (w1 <| sh_subscriptions := tree |>).
Qed.

(** C8: A publish always returns (with a positive offline limit and a
    consistent session table), and then: a connected client other than the
    publisher whose own channel has room has gained, behind what was queued,
    exactly one copy per match of the topic (the ordinary match and each group
    that selected it), each with the smaller of the publish and subscription
    QoS and the retain flag off; the publisher itself and every client without a
    match keep their session and their channel as they were. *)
Theorem publish_delivers w topic payload qos retain exclude now :
  sess_inv (sh_sessions w) → (0 < max_offline_messages (sh_sessions w))%nat →
  ∃ w', publish w topic payload qos retain exclude now = Some w' ∧
  sess_inv (sh_sessions w') ∧
  ∀ c e, own_channel (sh_sessions w) c e →
    (exclude ≠ Some c → connected e = true →
     (length (copies c topic payload qos (targets_of w topic)) ≤ room (sh_chans w) (tx e))%nat →
     sessions (sh_sessions w') !! c = Some e ∧
     queued (sh_chans w') (tx e) =
       queued (sh_chans w) (tx e) ++ copies c topic payload qos (targets_of w topic)) ∧
    (exclude = Some c ∨ c ∉ (targets_of w topic).*1 →
     sessions (sh_sessions w') !! c = Some e ∧
     queued (sh_chans w') (tx e) = queued (sh_chans w) (tx e)).
Proof.
  intros Hi Hm. destruct (publish_as_loop w topic payload qos retain exclude now) as (w0 & Hs & Hc & ->).
  rewrite <-Hs, <-Hc in *.
  destruct (deliver_each_total w0 (targets_of w topic) exclude topic payload qos now Hi Hm) as (w' & E & Hi').
  exists w'. split; [done|]. split; [done|]. intros c e Ho. split.
  - intros Hx Hcon Hroom.
    destruct (deliver_each_online _ _ _ _ _ _ _ _ _ _ Ho Hcon Hx Hroom E) as [[? _] ?]. done.
  - intros Hx. destruct (deliver_each_skips _ _ _ _ _ _ _ _ _ _ Ho Hx E) as [[? _] ?]. done.
Qed.

(** A client that is offline in a persistent session and is not the
    publisher has exactly its copies of the message put into its offline queue,
    in the order of the matches; nothing else of its session changes. *)
Theorem publish_enqueues w topic payload qos retain exclude now c e q :
  sess_inv (sh_sessions w) → (0 < max_offline_messages (sh_sessions w))%nat →
  sessions (sh_sessions w) !! c = Some e → connected e = false → offline_queue e = Some q →
  exclude ≠ Some c →
  ∃ w' q', publish w topic payload qos retain exclude now = Some w' ∧
    enqueue_all q ((., now) <$> copies c topic payload qos (targets_of w topic)) = Some q' ∧
    sessions (sh_sessions w') !! c = Some (e <| offline_queue := Some q' |>).
Proof.
  intros Hi Hm E Hcon Hq Hx.
  destruct (publish_as_loop w topic payload qos retain exclude now) as (w0 & Hs & Hc & ->).
  rewrite <-Hs in *.
  destruct (deliver_each_total w0 (targets_of w topic) exclude topic payload qos now Hi Hm) as (w' & Ew & _).
  destruct (deliver_each_offline _ _ _ _ _ _ _ _ _ _ _ E Hcon Hq Hx Ew) as (q' & ? & ?). eauto.
Qed.
End Routing.

(** ** A concrete broker *)

Import ListChan MapDb.

(** Two connected clients and one that is offline; "c1" and "c3" subscribe. *)
Module Demo.
Definition tree : SubscriptionTree :=
  ok_tree (subscribe (ok_tree (subscribe SubscriptionTree_new "c1" "a/+" QoS.AtLeastOnce))
             "c3" "a/#" QoS.ExactlyOnce).
Definition manager : SessionManager list_mpsc :=
  let m := (register (with_limits 2 1000) "c1" true 0%nat None 4 addr None 0).2 in
  let m := (register m "c2" true 1%nat None 4 addr None 1).2 in
  mark_offline (register m "c3" false 2%nat None 4 addr None 2).2 "c3" 3 3.
Definition broker : Shared list_mpsc map_sled :=
  mkShared tree manager RetainStore_new (Some MapDb.empty) METRICS
    {[0%nat := (8%nat, []); 1%nat := (8%nat, []); 2%nat := (8%nat, [])]}.

Lemma manager_inv : sess_inv manager.
Proof.
  apply mark_offline_inv, register_inv; [apply register_inv; [apply register_inv|]|];
    [apply sess_inv_new|reflexivity..].
Qed.

Lemma senders_distinct :
  map_Forall (λ c e, c = "c1" ∨ (tx e : nat) ≠ 0%nat) (sessions manager).
Proof. apply (bool_decide_unpack _). vm_compute. exact I. Qed.
End Demo.
Import Demo.

Lemma publish_delivers_witness :
  ∃ w', publish broker "a/b" [7] QoS.ExactlyOnce false (Some "c2") 5 = Some w' ∧
    queued (sh_chans w') 0%nat = [mkOutboundPublish "a/b" [7] QoS.AtLeastOnce false].
Proof.
  destruct (publish_delivers broker "a/b" [7] QoS.ExactlyOnce false (Some "c2") 5 manager_inv
              ltac:(apply Nat.ltb_lt; reflexivity)) as (w' & E & _ & H).
  exists w'. split; [exact E|].
  destruct (H "c1" (@clean list_mpsc "c1" 0%nat None 4 addr 1 0)) as [Hon _].
  - split; [reflexivity|]. intros c' e' Hne E' _.
    exact (or_ind (λ Hc, False_ind _ (Hne Hc)) (λ Ht, Ht) (senders_distinct c' e' E')).
  - destruct Hon as [_ Hq]; [done|reflexivity|apply Nat.leb_le; reflexivity|].
    etrans; [exact Hq|]. reflexivity.
Defined.

Lemma publish_enqueues_witness :
  ∃ w' e q', publish broker "a/b" [7] QoS.ExactlyOnce false (Some "c2") 5 = Some w' ∧
    sessions (sh_sessions w') !! "c3" = Some e ∧ offline_queue e = Some q' ∧
    (drain q' 6).1 = [mkOutboundPublish "a/b" [7] QoS.ExactlyOnce false].
Proof.
  destruct (publish_enqueues broker "a/b" [7] QoS.ExactlyOnce false (Some "c2") 5 "c3"
              ((@persistent list_mpsc "c3" 2%nat None 4 addr 3 2 1000 None 2) <| connected := false |> <| offline_at := Some 3 |>)
              (queue_new 2 1000) manager_inv ltac:(apply Nat.ltb_lt; reflexivity)
              eq_refl eq_refl eq_refl ltac:(done)) as (w' & q' & Ep & Eq & Es).
  exists w', ((@persistent list_mpsc "c3" 2%nat None 4 addr 3 2 1000 None 2) <| connected := false |>
                <| offline_at := Some 3 |> <| offline_queue := Some q' |>), q'.
  split; [exact Ep|]. split; [exact Es|]. split; [reflexivity|].
  assert (Hc : copies "c3" "a/b" [7] QoS.ExactlyOnce (targets_of broker "a/b")
               = [mkOutboundPublish "a/b" [7] QoS.ExactlyOnce false]) by reflexivity.
  rewrite Hc in Eq. injection Eq as <-. reflexivity.
Defined.
