(* ===== verification/Lifecycle.v ===== *)
(** * The life of a session, [src/broker/mod.rs]

    What the broker does with a session when its connection ends, when it
    expires and when the broker starts: snapshots on disk, cleanup, the last
    will, the sweeper, and the recovery of persistent sessions. *)

From S2P Require Import Prelude Packet Messages OfflineQueue Subscription Storage Metrics.
From S2P Require Import Retain Session Router.

Section Lifecycle.
Context {M : Mpsc} {S : Sled} {JR : Json RetainedMessage} {JS : Json SessionSnapshot}
  {JO : Json OutboundPublish}.
Implicit Types w : Shared M S.

(** ** Snapshots *)

Definition persist_session_snapshot w (client_id : string) : Shared M S :=
  match sh_storage w with
  | None => w
  | Some _ =>
      if is_clean_session (sh_sessions w) client_id then w
      else
        match subscriptions_of (sh_subscriptions w) client_id with
        | [] => w
        | subs => try_storage (save_session client_id (mkSessionSnapshot client_id subs)) w
        end
  end.

Definition delete_session_snapshot w (client_id : string) : Shared M S :=
  let w := try_storage (delete_session client_id) w in
  try_storage (drain_offline client_id) w.

Definition clear_disk_offline w (client_id : string) : Shared M S :=
  try_storage (drain_offline client_id) w.

(** ** The end of a connection *)

Definition forget_session w (client_id : string) : Shared M S :=
  let w := w <| sh_subscriptions ::= λ t, unsubscribe_all t client_id |> in
  delete_session_snapshot w client_id.

Definition cleanup w (client_id : string) (epoch : Z) (clean : bool) (now : Instant) : Shared M S :=
  if clean then
    match remove_if_epoch (sh_sessions w) client_id epoch with
    | (None, _) => w
    | (Some _, sess) => forget_session (w <| sh_sessions := sess |>) client_id
    end
  else
    let w := w <| sh_sessions ::= λ s, mark_offline s client_id epoch now |> in
    if negb (owns (sh_sessions w) client_id epoch) then w
    else if is_session_expired (sh_sessions w) client_id now then
      match remove_if_epoch (sh_sessions w) client_id epoch with
      | (None, _) => w
      | (Some _, sess) => forget_session (w <| sh_sessions := sess |>) client_id
      end
    else persist_session_snapshot w client_id.

(** The last will, if the connection still owns the session.  [None]: its
    delivery does not return. *)
Definition fire_will w (client_id : string) (epoch : Z) (now : Instant) : option (Shared M S) :=
  if owns (sh_sessions w) client_id epoch then
    let '(will, sess) := take_will (sh_sessions w) client_id epoch in
    let w := w <| sh_sessions := sess |> in
    match will with
    | Some will =>
        publish w (wm_topic will) (wm_message will) (wm_qos will) (wm_retain will)
          (Some client_id) now
    | None => Some w
    end
  else Some w.

Definition on_abnormal_disconnect w (client_id : string) (epoch : Z) (clean : bool)
    (now : Instant) : option (Shared M S) :=
  w ← fire_will w client_id epoch now;
  Some (cleanup w client_id epoch clean now).

(** One tick of [spawn_session_expiry_sweeper]. *)
Definition sweep_one w (client_id : string) : Shared M S :=
  let w := w <| sh_subscriptions ::= λ t, unsubscribe_all t client_id |> in
  let w := delete_session_snapshot w client_id in
  w <| sh_metrics ::= inc_sessions_expired |>.

Definition sweep w (now : Instant) : Shared M S :=
  let '(sess, expired) := cleanup_expired (sh_sessions w) now in
  foldl sweep_one (w <| sh_sessions := sess |>) expired.

(** ** Start *)

Definition dummy_addr : SocketAddr := mkSocketAddr (V4 0) 0.

(** Errors of a single filter are logged and skipped. *)
Definition restore_subscription (client_id : string) (t : SubscriptionTree) (fq : string * QoS)
    : SubscriptionTree :=
  match subscribe t client_id fq.1 fq.2 with
  | Ok t => t
  | Err _ => t
  end.

Fixpoint refill_queue w (client_id : string) (msgs : list OutboundPublish) (now : Instant)
    : option (Shared M S) :=
  match msgs with
  | [] => Some w
  | m :: msgs =>
      '(_, sess, ch) ← deliver_or_enqueue (sh_sessions w) client_id m now (sh_chans w);
      refill_queue (w <| sh_sessions := sess |> <| sh_chans := ch |>) client_id msgs now
  end.

(** One snapshot: its subscriptions, an offline session, its messages on disk.
    The receiver of the placeholder channel is dropped at once; no message is
    sent to it, since the session is offline until a client takes it over. *)
Definition restore_session w (snap : SessionSnapshot) (now : Instant) : option (Shared M S) :=
  let cid := ss_client_id snap in
  let w := w <| sh_subscriptions ::= λ t, foldl (restore_subscription cid) t (ss_subscriptions snap) |> in
  let '(dummy_tx, ch) := channel (sh_chans w) 1 in
  let '((epoch, _, _), sess) :=
    register (sh_sessions w) cid false dummy_tx None MQTT_3_1_1_LEVEL dummy_addr None now in
  let w := w <| sh_chans := ch |> <| sh_sessions := mark_offline sess cid epoch now |> in
  match with_storage (drain_offline cid) (env_of w) with
  | (Some (Ok msgs), env) => refill_queue (set_env w env) cid msgs now
  | (_, env) => Some (set_env w env)
  end.

Fixpoint restore_all w (snaps : list SessionSnapshot) (now : Instant) : option (Shared M S) :=
  match snaps with
  | [] => Some w
  | snap :: snaps => w ← restore_session w snap now; restore_all w snaps now
  end.

Definition load_persistent_sessions w (now : Instant) : option (BrokerResult unit * Shared M S) :=
  match sh_storage w with
  | None => Some (Ok tt, w)
  | Some s =>
      match load_all_sessions s with
      | Err e => Some (Err e, w)
      | Ok snapshots => w ← restore_all w snapshots now; Some (Ok tt, w)
      end
  end.
End Lifecycle.
