(* ===== verification/LifecycleTheorems.v ===== *)
(** * Correctness of the session life cycle

    The end of a connection, by its owner and by a connection that has been
    taken over; the last will. *)

From S2P Require Import Prelude Packet Messages OfflineQueue Subscription SubscriptionProofs.
From S2P Require Import SubscriptionTheorems Storage StorageProofs Metrics Retain Session.
From S2P Require Import SessionProofs SessionTheorems Router RouterTheorems Lifecycle.

Section Cleanup.
Context {M : Mpsc} {S : Sled} {JR : Json RetainedMessage} {JS : Json SessionSnapshot}
  {JO : Json OutboundPublish}.
Implicit Types w : Shared M S.

(** Storage operations touch nothing but the database and the counters. *)
Lemma try_storage_frame {A} (op : SE (Storage S * Metrics) BrokerError A) w :
  sh_sessions (try_storage op w) = sh_sessions w ∧
  sh_subscriptions (try_storage op w) = sh_subscriptions w ∧
  sh_retain (try_storage op w) = sh_retain w ∧ sh_chans (try_storage op w) = sh_chans w.
Proof. done. Qed.

Lemma persist_frame w c :
  sh_sessions (persist_session_snapshot w c) = sh_sessions w ∧
  sh_subscriptions (persist_session_snapshot w c) = sh_subscriptions w ∧
  sh_chans (persist_session_snapshot w c) = sh_chans w.
Proof.
  unfold persist_session_snapshot. destruct (sh_storage w); [|done].
  destruct (is_clean_session _ _); [done|]. by destruct (subscriptions_of _ _).
Qed.

(** A connection that no longer owns the session. *)
Lemma cleanup_stale w c ep cl now :
  owns (sh_sessions w) c ep = false → cleanup w c ep cl now = w.
Proof.
  unfold owns, cleanup, remove_if_epoch, mark_offline. intros H.
  assert (Hm : mark_offline (sh_sessions w) c ep now = sh_sessions w).
  { unfold mark_offline. destruct (sessions (sh_sessions w) !! c); [|done]. by rewrite H. }
  destruct cl.
  - destruct (sessions (sh_sessions w) !! c); [|done]. by rewrite H.
  - fold (mark_offline (sh_sessions w) c ep now).
    assert (Hw : (w <| sh_sessions ::= λ s, mark_offline s c ep now |>) = w)
      by (destruct w; cbn in *; by rewrite Hm).
    unfold mark_offline in Hw. rewrite Hw. unfold owns. by rewrite H.
Qed.

(** The session after its connection ends: removed at once, or kept offline. *)
Definition expires_at_once (cl : bool) (e : SessionEntry M) : bool :=
  cl || match session_expiry e with Some n => n <=? 0 | None => false end.

Definition gone_offline (e : SessionEntry M) (now : Instant) : SessionEntry M :=
  e <| connected := false |> <| offline_at := Some now |>.

Lemma gone_offline_expired e now :
  is_expired (gone_offline e now) now = match session_expiry e with Some n => n <=? 0 | None => false end.
Proof.
  unfold is_expired, gone_offline. cbn. destruct (session_expiry e) as [n|]; [|done].
  unfold duration_since. rewrite Z.sub_diag. change (as_secs (Z.max 0 0)) with 0.
  by destruct n.
Qed.

Lemma cleanup_sessions w c e cl now c' :
  sessions (sh_sessions w) !! c = Some e → connected e = true →
  sessions (sh_sessions (cleanup w c (epoch e) cl now)) !! c' =
    if decide (c' = c)
    then (if expires_at_once cl e then None else Some (gone_offline e now))
    else sessions (sh_sessions w) !! c'.
Proof.
  intros E Hc. unfold cleanup, expires_at_once. destruct cl; cbn [orb].
  - unfold remove_if_epoch. rewrite E, Z.eqb_refl, Hc. unfold forget_session.
    cbn. destruct (decide (c' = c)) as [->|]; [by rewrite lookup_delete_eq|by rewrite lookup_delete_ne].
  - set (w1 := w <| sh_sessions ::= _ |>).
    assert (Es : sessions (sh_sessions w1) = <[c := gone_offline e now]> (sessions (sh_sessions w))).
    { subst w1. cbn. unfold mark_offline. by rewrite E, Z.eqb_refl, Hc. }
    assert (Ec : sessions (sh_sessions w1) !! c = Some (gone_offline e now)) by (rewrite Es; apply lookup_insert_eq).
    clearbody w1. unfold owns, is_session_expired. rewrite Ec. change (epoch (gone_offline e now)) with (epoch e).
    rewrite Z.eqb_refl, gone_offline_expired. cbn [negb].
    destruct (match session_expiry e with Some n => n <=? 0 | None => false end).
    + unfold remove_if_epoch. rewrite Ec. change (epoch (gone_offline e now)) with (epoch e).
      rewrite Z.eqb_refl. unfold forget_session. cbn. rewrite Es.
      destruct (decide (c' = c)) as [->|]; [by rewrite lookup_delete_eq|].
      by rewrite lookup_delete_ne, lookup_insert_ne.
    + rewrite (proj1 (persist_frame w1 c)), Es.
      destruct (decide (c' = c)) as [->|]; [by rewrite lookup_insert_eq|by rewrite lookup_insert_ne].
Qed.

Lemma cleanup_subscriptions w c e cl now :
  sessions (sh_sessions w) !! c = Some e → connected e = true →
  sh_subscriptions (cleanup w c (epoch e) cl now) =
    if expires_at_once cl e then unsubscribe_all (sh_subscriptions w) c else sh_subscriptions w.
Proof.
  intros E Hc. unfold cleanup, expires_at_once. destruct cl; cbn [orb].
  - unfold remove_if_epoch. by rewrite E, Z.eqb_refl, Hc.
  - set (w1 := w <| sh_sessions ::= _ |>).
    assert (Ec : sessions (sh_sessions w1) !! c = Some (gone_offline e now)).
    { subst w1. cbn. unfold mark_offline. rewrite E, Z.eqb_refl, Hc. cbn. by rewrite lookup_insert_eq. }
    unfold owns, is_session_expired. rewrite Ec. change (epoch (gone_offline e now)) with (epoch e).
    rewrite Z.eqb_refl, gone_offline_expired. cbn [negb].
    destruct (match session_expiry e with Some n => n <=? 0 | None => false end).
    + unfold remove_if_epoch. rewrite Ec. change (epoch (gone_offline e now)) with (epoch e). by rewrite Z.eqb_refl.
    + exact (proj1 (proj2 (persist_frame w1 c))).
Qed.

Lemma cleanup_chans w c ep cl now : sh_chans (cleanup w c ep cl now) = sh_chans w.
Proof.
  unfold cleanup. destruct cl.
  - by destruct (remove_if_epoch _ _ _) as [[?|] ?].
  - destruct (negb _); [done|]. destruct (is_session_expired _ _ _).
    + by destruct (remove_if_epoch _ _ _) as [[?|] ?].
    + exact (proj2 (proj2 (persist_frame _ _))).
Qed.

Lemma cleanup_retain w c ep cl now : sh_retain (cleanup w c ep cl now) = sh_retain w.
Proof.
  unfold cleanup, forget_session, delete_session_snapshot, persist_session_snapshot, try_storage, set_env.
  repeat case_match; try done; simplify_eq/=; done.
Qed.

(** C16: The end of a connection.  If the session has meanwhile been taken over
    by a newer connection, the older one's cleanup, normal or abnormal, changes
    nothing at all.  If the connection still owns the session: a clean session,
    and a persistent one whose expiry interval is zero, disappears together with
    every subscription of its client; any other persistent session stays, marked
    offline from now on and otherwise unchanged, with all its subscriptions; in
    both cases the sessions and subscriptions of all other clients are as
    before. *)
Theorem cleanup_correct w c ep cl now :
  (owns (sh_sessions w) c ep = false →
   cleanup w c ep cl now = w ∧ on_abnormal_disconnect w c ep cl now = Some w) ∧
  (∀ e, sessions (sh_sessions w) !! c = Some e → epoch e = ep → connected e = true →
   let w' := cleanup w c ep cl now in
   sessions (sh_sessions w') !! c = (if expires_at_once cl e then None else Some (gone_offline e now)) ∧
   (∀ f, sub_lookup (sh_subscriptions w') c f =
           if expires_at_once cl e then None else sub_lookup (sh_subscriptions w) c f) ∧
   (∀ c', c' ≠ c → sessions (sh_sessions w') !! c' = sessions (sh_sessions w) !! c' ∧
           ∀ f, sub_lookup (sh_subscriptions w') c' f = sub_lookup (sh_subscriptions w) c' f)).
Proof.
  split.
  - intros H. split; [by apply cleanup_stale|]. unfold on_abnormal_disconnect, fire_will. rewrite H.
    cbn [mbind option_bind]. f_equal. by apply cleanup_stale.
  - intros e E <- Hc w'. subst w'. rewrite (cleanup_subscriptions w c e cl now E Hc).
    rewrite (cleanup_sessions w c e cl now c E Hc), decide_True by done. split; [done|]. split.
    + intros f. destruct (expires_at_once cl e); [|done]. by rewrite unsubscribe_all_lookup, decide_True.
    + intros c' Hne. rewrite (cleanup_sessions w c e cl now c' E Hc), decide_False by done. split; [done|].
      intros f. destruct (expires_at_once cl e); [|done]. by rewrite unsubscribe_all_lookup, decide_False.
Qed.
End Cleanup.

(** ** The last will *)

Section Will.
Context {M : Mpsc} {L : MpscLaws M} {S : Sled} {JR : Json RetainedMessage}
  {JS : Json SessionSnapshot} {JO : Json OutboundPublish}.
Implicit Types w : Shared M S.

Definition without_will (e : SessionEntry M) : SessionEntry M := e <| will := None |>.

Lemma take_will_owner (self : SessionManager M) c e :
  sessions self !! c = Some e →
  take_will self c (epoch e) = (will e, self <| sessions ::= <[c := without_will e]> |>).
Proof. intros E. unfold take_will. by rewrite E, Z.eqb_refl. Qed.

Lemma clear_will_owner (self : SessionManager M) c e :
  sessions self !! c = Some e →
  clear_will self c (epoch e) = self <| sessions ::= <[c := without_will e]> |>.
Proof. intros E. unfold clear_will. by rewrite E, Z.eqb_refl. Qed.

Lemma own_channel_without_will (self : SessionManager M) c e d ed :
  sessions self !! c = Some e → d ≠ c → own_channel self d ed →
  own_channel (self <| sessions ::= <[c := without_will e]> |>) d ed.
Proof.
  intros E Hne [Ed Ho]. split; cbn; [by rewrite lookup_insert_ne|].
  intros c' e' Hc'. destruct (decide (c' = c)) as [->|].
  - rewrite lookup_insert_eq. intros [= <-]. cbn. by apply (Ho c).
  - rewrite lookup_insert_ne by done. by apply Ho.
Qed.

(** The will of a session whose connection ends abnormally. *)
Lemma abnormal_will w c e wl cl now :
  sess_inv (sh_sessions w) → (0 < max_offline_messages (sh_sessions w))%nat →
  sessions (sh_sessions w) !! c = Some e → connected e = true → will e = Some wl →
  ∃ w', on_abnormal_disconnect w c (epoch e) cl now = Some w' ∧
    (∀ d ed, d ≠ c → own_channel (sh_sessions w) d ed → connected ed = true →
       let cs := copies d (wm_topic wl) (wm_message wl) (wm_qos wl) (targets_of w (wm_topic wl)) in
       (length cs ≤ room (sh_chans w) (tx ed))%nat →
       queued (sh_chans w') (tx ed) = queued (sh_chans w) (tx ed) ++ cs) ∧
    sessions (sh_sessions w') !! c = if expires_at_once cl e then None else Some (gone_offline (without_will e) now).
Proof.
  intros Hi Hm E Hc Hw.
  unfold on_abnormal_disconnect, fire_will, owns. rewrite E, Z.eqb_refl, (take_will_owner _ _ _ E), Hw.
  set (w1 := w <| sh_sessions := _ |>).
  destruct (publish_as_loop w1 (wm_topic wl) (wm_message wl) (wm_qos wl) (wm_retain wl) (Some c) now)
    as (w0 & Hs & Hch & ->). change (targets_of w1 (wm_topic wl)) with (targets_of w (wm_topic wl)).
  assert (Hi1 : sess_inv (sh_sessions w0)).
  { rewrite Hs. pose proof (take_will_inv (sh_sessions w) c (epoch e) Hi) as H.
    by rewrite (take_will_owner _ _ _ E) in H. }
  assert (Hm1 : (0 < max_offline_messages (sh_sessions w0))%nat) by by rewrite Hs.
  destruct (deliver_each_total w0 (targets_of w (wm_topic wl)) (Some c) (wm_topic wl) (wm_message wl)
              (wm_qos wl) now Hi1 Hm1) as (w2 & E2 & _). rewrite E2. cbn [mbind option_bind].
  eexists. split; [done|].
  assert (Ec : sessions (sh_sessions w2) !! c = Some (without_will e)).
  { rewrite (deliver_each_excluded _ _ _ _ _ _ _ _ E2), Hs. cbn. by rewrite lookup_insert_eq. }
  split.
  - intros d ed Hne Ho Hcd Hroom. rewrite cleanup_chans.
    destruct (deliver_each_online w0 (targets_of w (wm_topic wl)) (Some c) (wm_topic wl) (wm_message wl)
                (wm_qos wl) now w2 d ed) as [_ Hq]; [|done|congruence| |done|].
    + rewrite Hs. by apply own_channel_without_will.
    + by rewrite Hch.
    + by rewrite Hq, Hch.
  - change (epoch e) with (epoch (without_will e)).
    rewrite (cleanup_sessions w2 c (without_will e) cl now c Ec Hc), decide_True by done. done.
Qed.
End Will.

(** ** A concrete broker: "c1" subscribes to "a/+", "c2" has a will on "a/b" *)

Import ListChan MapDb Demo.

Module WillDemo.
Definition the_will : WillMessage := mkWillMessage "a/b" [9] QoS.AtMostOnce false.
Definition manager : SessionManager list_mpsc :=
  let m := (register (with_limits 2 1000) "c1" true 0%nat None 4 addr None 0).2 in
  (register m "c2" false 1%nat (Some the_will) 4 addr None 1).2.
Definition broker : Shared list_mpsc map_sled :=
  mkShared tree manager RetainStore_new (Some MapDb.empty) METRICS
    {[0%nat := (8%nat, []); 1%nat := (8%nat, [])]}.
Definition c2 : SessionEntry list_mpsc := @persistent list_mpsc "c2" 1%nat (Some the_will) 4 addr 2 2 1000 None 1.

Lemma will_manager_inv : sess_inv manager.
Proof. apply register_inv; [apply register_inv|]; [apply sess_inv_new|reflexivity..]. Qed.

Lemma will_senders_distinct :
  map_Forall (λ c e, c = "c1" ∨ (tx e : nat) ≠ 0%nat) (sessions manager).
Proof. apply (bool_decide_unpack _). vm_compute. exact I. Qed.
End WillDemo.

Lemma cleanup_correct_witness :
  sessions (sh_sessions (cleanup WillDemo.broker "c2" 2 false 5)) !! "c2"
    = Some (gone_offline WillDemo.c2 5)
  ∧ cleanup WillDemo.broker "c2" 1 false 5 = WillDemo.broker.
Proof.
  split.
  - destruct (cleanup_correct WillDemo.broker "c2" 2 false 5) as [_ H].
    destruct (H WillDemo.c2 eq_refl eq_refl eq_refl) as [Hs _]. exact Hs.
  - destruct (cleanup_correct WillDemo.broker "c2" 1 false 5) as [H _].
    destruct (H eq_refl) as [Hs _]. exact Hs.
Defined.
