(* ===== verification/RestartTheorems.v ===== *)
(** * Recovery of persistent sessions

    What a broker that starts on a database knows of the clients that had
    persistent sessions: their subscriptions and their undelivered messages. *)

From S2P Require Import Prelude Packet Messages OfflineQueue Subscription SubscriptionProofs.
From S2P Require Import SubscriptionTheorems Storage StorageProofs Metrics Retain Session.
From S2P Require Import SessionProofs SessionTheorems Router Lifecycle.

Section Restart.
Context {M : Mpsc} {S : Sled} {L : SledLaws S} {JR : Json RetainedMessage} {JS : Json SessionSnapshot}
  {LS : JsonLaws SessionSnapshot} {JO : Json OutboundPublish} {LO : JsonLaws OutboundPublish}.
Implicit Types w : Shared M S.

(** Reads and removals succeed. *)
Definition readable : Prop :=
  (∀ t k, (tree_remove t k).1 = Ok tt) ∧
  (∀ t p, ∃ items, scan_prefix t p = map Ok items) ∧
  (∀ t, ∃ items, tree_iter t = map Ok items).

Lemma remove_keys_total keys (s : Storage S) m :
  readable → ∃ s' m', remove_keys keys (s, m) = (Ok tt, (s', m')).
Proof.
  intros (Hr & _). revert s m. induction keys as [|k keys IH]; intros s m; cbn [remove_keys]; [by exists s, m|].
  unfold mbind, se_bind, run_db, on_offline. specialize (Hr (offline s) k).
  destruct (tree_remove (offline s) k) as [r t]. cbn in Hr |- *. subst r. cbn. apply IH.
Qed.

Lemma drain_offline_total c (s : Storage S) m :
  readable → ∃ msgs s' m', drain_offline c (s, m) = (Ok msgs, (s', m')).
Proof.
  intros Hr. unfold drain_offline, metric, se_modify, mbind, se_bind, scan_offline.
  destruct (foldl drain_item ([], []) _) as [msgs keys].
  destruct (remove_keys_total keys s (inc_storage_read m) Hr) as (s' & m' & E).
  exists msgs, s', m'. by rewrite E.
Qed.

(** ** One session *)

Lemma restore_subscriptions c fqs t :
  tree_inv t → Forall (λ fq : string * QoS, filter_error fq.1 = Ok tt) fqs → NoDup fqs.*1 →
  let t' := foldl (restore_subscription c) t fqs in
  tree_inv t' ∧
  ∀ c' f q, sub_lookup t' c' f = Some q ↔
    (c' = c ∧ (f, q) ∈ fqs) ∨ (¬ (c' = c ∧ f ∈ fqs.*1) ∧ sub_lookup t c' f = Some q).
Proof.
  revert t. induction fqs as [|[f0 q0] fqs IH]; intros t Hi Hv Hnd; cbn [foldl].
  { split; [done|]. intros c' f q. split; [|set_solver]. intros H. right. split; [set_solver|done]. }
  apply Forall_cons in Hv as [Hv0 Hv]. cbn in Hnd. apply NoDup_cons in Hnd as [Hn0 Hnd].
  cbn [fst snd] in Hv0.
  pose proof (subscribe_result t c f0 q0) as Hr. rewrite Hv0 in Hr.
  destruct (subscribe t c f0 q0) as [t1|] eqn:E1; [|done].
  assert (Er : restore_subscription c t (f0, q0) = t1) by (unfold restore_subscription; cbn; by rewrite E1).
  rewrite Er. destruct (IH t1) as [Hi' Hl]; [by eapply subscribe_inv|done|done|]. split; [done|].
  intros c' f q. rewrite Hl, (subscribe_lookup _ _ _ _ _ _ _ E1).
  destruct (decide (c' = c ∧ f = f0)) as [[-> ->]|Hne].
  - split.
    + intros [[_ Hin]|[_ [= ->]]]; [|left; split; [done|by left]].
      destruct Hn0. apply list_elem_of_fmap. by exists (f0, q).
    + intros [[_ [[= ->]|Hin]%elem_of_cons]|[Hno _]].
      * right. split; [|done]. intros [_ ?]. done.
      * destruct Hn0. apply list_elem_of_fmap. by exists (f0, q).
      * destruct Hno. split; [done|by left].
  - cbn [fmap list_fmap fst]. setoid_rewrite elem_of_cons. naive_solver.
Qed.

Lemma refill_queue_offline w c e q q' msgs now :
  sessions (sh_sessions w) !! c = Some e → connected e = false → offline_queue e = Some q →
  enqueue_all q ((., now) <$> msgs) = Some q' →
  ∃ w', refill_queue w c msgs now = Some w' ∧
    sh_sessions w' = (sh_sessions w) <| sessions ::= <[c := e <| offline_queue := Some q' |>]> |> ∧
    sh_subscriptions w' = sh_subscriptions w ∧ sh_storage w' = sh_storage w.
Proof.
  revert w e q. induction msgs as [|m msgs IH]; intros w e q E Hc Hq; cbn [refill_queue fmap list_fmap enqueue_all].
  { intros [= <-]. exists w. split; [done|]. split; [|done].
    assert (He : e <| offline_queue := Some q |> = e) by (destruct e; cbn in *; by subst).
    rewrite He. destruct (sh_sessions w) as [ss ? ? ? ?]. cbn in *. by rewrite insert_id. }
  destruct (enqueue q m now) as [q1|] eqn:E1; [|done]. cbn [mbind option_bind]. intros Hall.
  unfold deliver_or_enqueue. rewrite E, Hc. unfold enqueue_or, enqueue_into. rewrite Hq, E1. cbn [mbind option_bind].
  set (w1 := w <| sh_sessions := _ |> <| sh_chans := _ |>).
  destruct (IH w1 (e <| offline_queue := Some q1 |>) q1) as (w' & -> & Hs & Ht & Hd); [|done..|].
  { subst w1. cbn. by rewrite lookup_alter_eq, E. }
  exists w'. split; [done|]. split; [|done]. rewrite Hs. subst w1. cbn.
  destruct (sh_sessions w) as [ss ? ? ? ?]. cbn in *. f_equal. apply map_eq. intros c'.
  destruct (decide (c' = c)) as [->|]; [by rewrite !lookup_insert_eq|].
  by rewrite !lookup_insert_ne, lookup_alter_ne.
Qed.

(** An entry of a session that has been restored: offline, persistent, without
    will or expiry, its queue holding [msgs]. *)
Definition restored_entry (now : Instant) (ttl : Duration) (msgs : list OutboundPublish)
    (e : SessionEntry M) : Prop :=
  connected e = false ∧ clean_session e = false ∧ will e = None ∧ session_expiry e = None ∧
  ∃ q, offline_queue e = Some q ∧
    ∀ later, now ≤ later → later - now < ttl → (drain q later).1 = msgs.

Lemma queue_restored max ttl0 msgs now :
  (0 < max)%nat →
  ∃ q, enqueue_all (queue_new max ttl0) ((., now) <$> msgs) = Some q ∧
    ∀ later, now ≤ later → later - now < ttl0 → (drain q later).1 = last_n max msgs.
Proof.
  intros Hmax.
  assert (Hd : ∀ later, now ≤ later → ∃ q, enqueue_all (queue_new max ttl0) ((., now) <$> msgs) = Some q ∧
    (length (inner q) ≤ max)%nat ∧ drain q later =
      (map fst (List.filter (λ m, negb (duration_since later m.2 >=? ttl0)) (last_n max ((., now) <$> msgs))),
       queue_new max ttl0)).
  { intros later Hl. apply enqueue_all_drain; [done|..].
    - clear. induction msgs; cbn; constructor; [done|]. apply Forall_fmap, Forall_true. intros; cbn. lia.
    - apply Forall_fmap, Forall_true. intros. cbn. lia. }
  destruct (Hd now ltac:(lia)) as (q & Eq & _). exists q. split; [done|]. intros later Hl Ht.
  destruct (Hd later Hl) as (q2 & Eq2 & _ & Hq2). rewrite Eq in Eq2. injection Eq2 as <-.
  rewrite Hq2. cbn [fst].
  assert (Hn : last_n max ((., now) <$> msgs) = (., now) <$> last_n max msgs).
  { unfold last_n. by rewrite length_fmap, fmap_drop. }
  assert (Hk : (duration_since later now >=? ttl0) = false).
  { unfold duration_since. rewrite Z.geb_leb. apply Z.leb_gt. lia. }
  rewrite Hn. generalize (last_n max msgs). intros l. induction l as [|m l IH]; [done|].
  cbn [fmap list_fmap List.filter snd]. rewrite Hk. cbn [negb map fst]. f_equal. exact IH.
Qed.

(** ** All sessions *)

Definition messages_of (c : string) (log : list (string * Z * OutboundPublish)) : list OutboundPublish :=
  map snd (of_client c log).

Lemma of_client_removed c (log : list (string * Z * OutboundPublish)) : of_client c (not_of_client c log) = [].
Proof.
  unfold of_client, not_of_client. induction log as [|e log IH]; [done|]. cbn.
  destruct (bool_decide (e.1.1 = c)) eqn:E; cbn; [done|]. by rewrite E.
Qed.

(** A snapshot as the broker writes it: the filters are valid and distinct, the
    identifier fits the length prefix of its keys. *)
Definition snapshot_ok (snap : SessionSnapshot) : Prop :=
  str_len (ss_client_id snap) ≤ u16_max ∧ NoDup (ss_subscriptions snap).*1 ∧
  Forall (λ fq, filter_error fq.1 = Ok tt) (ss_subscriptions snap).

(** The broker after the sessions [ss] have been restored from a database whose
    offline tree held [log]. *)
Record restored (now : Instant) (log : list (string * Z * OutboundPublish)) (max : nat) (ttl0 : Duration)
    (ss : list SessionSnapshot) w : Prop := {
  r_limits : max_offline_messages (sh_sessions w) = max ∧ offline_message_ttl (sh_sessions w) = ttl0;
  r_tree : tree_inv (sh_subscriptions w);
  r_subs c f q : sub_lookup (sh_subscriptions w) c f = Some q ↔
    ∃ snap, snap ∈ ss ∧ ss_client_id snap = c ∧ (f, q) ∈ ss_subscriptions snap;
  r_sess snap : snap ∈ ss → ∃ e, sessions (sh_sessions w) !! ss_client_id snap = Some e ∧
    restored_entry now ttl0 (last_n max (messages_of (ss_client_id snap) log)) e;
  r_only c : c ∉ ss_client_id <$> ss → sessions (sh_sessions w) !! c = None;
  r_disk : ∃ s log', sh_storage w = Some s ∧ offline_log log' s ∧
    ∀ c, of_client c log' = if decide (c ∈ ss_client_id <$> ss) then [] else of_client c log;
}.

(** Registration of a client that has no session, then marked offline. *)
Lemma register_offline (self : SessionManager M) c tx_ now ep sp dr self' :
  sessions self !! c = None →
  register self c false tx_ None MQTT_3_1_1_LEVEL dummy_addr None now = ((ep, sp, dr), self') →
  ∃ e n k, mark_offline self' c ep now =
      mkSessionManager (<[c := e]> (sessions self)) k (max_offline_messages self) (offline_message_ttl self) n ∧
    connected e = false ∧ clean_session e = false ∧ will e = None ∧ session_expiry e = None ∧
    offline_queue e = Some (queue_new (max_offline_messages self) (offline_message_ttl self)).
Proof.
  intros E. unfold register. cbn [sessions]. change (sessions (self <| epoch_counter := _ |>)) with (sessions self).
  rewrite E. intros [= <- <- <- <-]. unfold mark_offline, online_inc. cbn. rewrite lookup_insert_eq. cbn.
  rewrite Z.eqb_refl. cbn. rewrite insert_insert_eq. by do 3 eexists.
Qed.

Lemma restore_session_step now log max ttl0 ss w snap :
  readable → (0 < max)%nat → restored now log max ttl0 ss w →
  ss_client_id snap ∉ ss_client_id <$> ss → snapshot_ok snap →
  ∃ w', restore_session w snap now = Some w' ∧ restored now log max ttl0 (snap :: ss) w'.
Proof.
  intros Hr Hmax [Hlim Htree Hsubs Hsess Honly (s & log' & Hst & Hlog & Hrest)] Hnew (Hlen & Hnd & Hval).
  unfold restore_session. set (c := ss_client_id snap) in *.
  destruct (restore_subscriptions c _ _ Htree Hval Hnd) as [Htree' Hsubs'].
  set (w1 := w <| sh_subscriptions ::= _ |>). destruct (channel (sh_chans w1) 1) as [tx_ ch].
  change (sh_sessions w1) with (sh_sessions w).
  destruct (register _ _ _ _ _ _ _ _ _) as [[[ep sp] dr] self'] eqn:Er.
  apply register_offline in Er as (e & n & k & Em & Hc & Hcl & Hw & Hx & Hq); [|by apply Honly].
  rewrite Em. destruct Hlim as [Hl1 Hl2]. rewrite Hl1, Hl2 in *. cbn zeta.
  set (w2 := w1 <| sh_chans := _ |> <| sh_sessions := _ |>).
  destruct (drain_offline_total c s (sh_metrics w) Hr) as (msgs & s' & m' & Ed).
  assert (Hws : with_storage (drain_offline c) (env_of w2) = (Some (Ok msgs), (Some s', m'))).
  { unfold env_of. change (sh_storage w2) with (sh_storage w). change (sh_metrics w2) with (sh_metrics w).
    rewrite Hst. unfold with_storage. by rewrite Ed. }
  rewrite Hws. destruct Hr as (Hr1 & Hr2 & Hr3). destruct (Hr2 (offline s) (offline_key_prefix c)) as [items Hscan].
  destruct (offline_log_drain _ _ _ _ _ _ _ _ Hlen Hlog Hscan Ed) as [Hmsgs Hlog2].
  assert (Hms : msgs = messages_of c log).
  { rewrite Hmsgs, Hrest, decide_False by done. done. }
  destruct (queue_restored max ttl0 msgs now Hmax) as (q & Eq & Hdr).
  destruct (refill_queue_offline (set_env w2 (Some s', m')) c e (queue_new max ttl0) q msgs now)
    as (w' & -> & Hs' & Ht' & Hd'); [subst w2; cbn; by rewrite lookup_insert_eq|done..|].
  assert (Hss : sessions (sh_sessions w') = <[c := e <| offline_queue := Some q |>]> (sessions (sh_sessions w))).
  { rewrite Hs'. subst w2. cbn. by rewrite insert_insert_eq. }
  exists w'. split; [done|]. split.
  - by rewrite Hs'.
  - rewrite Ht'. exact Htree'.
  - intros c' f q'. rewrite Ht'. change (sh_subscriptions (set_env w2 _))
      with (foldl (restore_subscription c) (sh_subscriptions w) (ss_subscriptions snap)).
    rewrite Hsubs', Hsubs. split.
    + intros [[-> Hin]|[_ (snap' & ? & ? & ?)]]; [exists snap; split; [by left|done]|].
      exists snap'. split; [by right|done].
    + intros (snap' & [->|Hin]%elem_of_cons & Hc' & Hf); [by left|]. right. split; [|eauto].
      intros [-> _]. apply Hnew. rewrite <-Hc'. apply list_elem_of_fmap. eauto.
  - intros snap' [->|Hin]%elem_of_cons.
    + exists (e <| offline_queue := Some q |>). split; [rewrite Hss; apply lookup_insert_eq|].
      split_and!; [done..|]. exists q. split; [done|]. fold c. by rewrite <-Hms.
    + destruct (Hsess _ Hin) as (e' & E' & He'). exists e'. split; [|done].
      rewrite Hss, lookup_insert_ne; [done|]. intros Hc'. apply Hnew. rewrite Hc'. apply list_elem_of_fmap. eauto.
  - intros c'. cbn. intros [Hne Hno]%not_elem_of_cons. rewrite Hss, lookup_insert_ne by done. by apply Honly.
  - exists s', (not_of_client c log'). split; [by rewrite Hd'|]. split; [done|].
    intros c'. cbn [fmap list_fmap]. fold c. destruct (decide (c' = c)) as [->|Hne].
    + rewrite decide_True by (by left). apply of_client_removed.
    + rewrite of_client_not_of_client, Hrest by done. apply decide_ext. set_solver.
Qed.

Lemma restore_all_ok now log max ttl0 snaps ss w :
  readable → (0 < max)%nat → restored now log max ttl0 ss w →
  NoDup (ss_client_id <$> (snaps ++ ss)) → Forall snapshot_ok snaps →
  ∃ w' ss', restore_all w snaps now = Some w' ∧ restored now log max ttl0 ss' w' ∧
    ∀ snap, snap ∈ ss' ↔ snap ∈ snaps ∨ snap ∈ ss.
Proof.
  intros Hr Hmax. revert ss w. induction snaps as [|snap snaps IH]; intros ss w Hres Hnd Hok; cbn [restore_all].
  { exists w, ss. split; [done|]. split; [done|]. set_solver. }
  cbn in Hnd. apply NoDup_cons in Hnd as [Hn Hnd]. apply Forall_cons in Hok as [Hok0 Hok].
  destruct (restore_session_step now log max ttl0 ss w snap) as (w1 & -> & Hres1); [done..| |done|].
  { rewrite fmap_app in Hn. set_solver. }
  cbn [mbind option_bind]. destruct (IH (snap :: ss) w1) as (w' & ss' & E & Hres' & Hel); [done| |done|].
  { rewrite fmap_app in *. cbn. rewrite <-Permutation_middle. constructor; done. }
  exists w', ss'. split; [done|]. split; [done|]. intros snap'. rewrite Hel. set_solver.
Qed.

(** A broker that has just been started, before it loads its sessions. *)
Definition fresh_broker (max : nat) (ttl0 : Duration) (s : Storage S) (r : RetainStore) (m : Metrics)
    (ch : Chans) : Shared M S :=
  mkShared SubscriptionTree_new (with_limits max ttl0) r (Some s) m ch.

(** The session tree holds the snapshots [snaps], each under its client. *)
Definition sessions_on_disk (snaps : gmap string SessionSnapshot) (s : Storage S) : Prop :=
  (∀ c snap, snaps !! c = Some snap → ss_client_id snap = c ∧ snapshot_ok snap ∧ is_ok (to_vec snap) = true) ∧
  ∀ k v, kv (Storage.sessions s) !! k = Some v ↔
    ∃ c snap, k = as_bytes c ∧ snaps !! c = Some snap ∧ to_vec snap = Ok v.

Lemma key_sorted_keys l : key_sorted l → NoDup l.*1.
Proof.
  induction 1 as [|a l _ IH Ha]; cbn; constructor; [|done].
  intros (b & E & Hb)%list_elem_of_fmap. rewrite Forall_forall in Ha. apply (lex_lt_irrefl a.1).
  rewrite E at 2. by apply Ha.
Qed.

Lemma load_all_sessions_ok snaps (s : Storage S) items :
  sessions_on_disk snaps s → tree_iter (Storage.sessions s) = map Ok items →
  ∃ l, load_all_sessions s = Ok l ∧ NoDup (ss_client_id <$> l) ∧
    ∀ snap, snap ∈ l ↔ snaps !! ss_client_id snap = Some snap.
Proof.
  intros [Hok Hkv] Hit. destruct (iter_ok _ _ Hit) as [Hsort Hitems].
  unfold load_all_sessions. rewrite Hit, load_items_ok. cbn [app]. eexists. split; [done|].
  assert (Hdec : ∀ k v, (k, v) ∈ items → ∃ snap, k = as_bytes (ss_client_id snap) ∧
            snaps !! ss_client_id snap = Some snap ∧ from_slice v = Ok snap).
  { intros k v Hin. apply Hitems, Hkv in Hin as (c & snap & -> & Hs & Hv).
    destruct (Hok _ _ Hs) as (<- & _). exists snap. split; [done|]. split; [done|]. by apply json_roundtrip. }
  split.
  - apply key_sorted_keys in Hsort. clear Hit Hitems. revert Hsort Hdec.
    induction items as [|[k v] items IH]; cbn; [constructor|]. intros [Hk Hnd]%NoDup_cons Hdec.
    destruct (Hdec k v ltac:(by left)) as (snap & Ek & Hs & ->). cbn. constructor.
    + intros (snap' & E & Hin)%list_elem_of_fmap. apply list_elem_of_omap in Hin as ([k' v'] & Hin & Hf).
      destruct (Hdec k' v' ltac:(by right)) as (snap2 & Ek' & _ & Hv'). cbn in Hf. rewrite Hv' in Hf.
      injection Hf as <-. apply Hk. rewrite Ek, E, <-Ek'. apply list_elem_of_fmap. by exists (k', v').
    + apply IH; [done|]. intros k' v' Hin. apply Hdec. by right.
  - intros snap. rewrite list_elem_of_omap. split.
    + intros ([k v] & Hin & Hf). destruct (Hdec _ _ Hin) as (snap' & _ & Hs & Hv). cbn in Hf.
      rewrite Hv in Hf. by injection Hf as <-.
    + intros Hs. destruct (Hok _ _ Hs) as (_ & _ & Ho). destruct (to_vec snap) as [v|] eqn:Ev; [|done].
      exists (as_bytes (ss_client_id snap), v). cbn. rewrite (json_roundtrip _ _ Ev). split; [|done].
      apply Hitems, Hkv. eauto 10.
Qed.

(** C11: Restart.  A broker that starts on a readable database with the session
    snapshots [snaps] and the offline messages [log] comes up with exactly the
    subscriptions of the snapshots, and with an offline persistent session for
    each of their clients and no other; when such a client reconnects before the
    message TTL has passed since the start, the session is reported present and
    its undelivered messages on disk are handed over, in order, up to the
    configured number.  From then on they exist in memory only: none is left in
    the offline tree. *)
Theorem restart_recovers snaps log s r m ch max ttl0 now :
  readable → (0 < max)%nat → sessions_on_disk snaps s → offline_log log s →
  ∃ w', load_persistent_sessions (fresh_broker max ttl0 s r m ch) now = Some (Ok tt, w') ∧
  (∀ c f q, sub_lookup (sh_subscriptions w') c f = Some q ↔
     ∃ snap, snaps !! c = Some snap ∧ (f, q) ∈ ss_subscriptions snap) ∧
  (∀ c, is_Some (sessions (sh_sessions w') !! c) ↔ is_Some (snaps !! c)) ∧
  (∀ c snap tx_ wl lvl peer ex later, snaps !! c = Some snap → now ≤ later → later - now < ttl0 →
     ∃ ep, (register (sh_sessions w') c false tx_ wl lvl peer ex later).1
           = (ep, true, last_n max (messages_of c log))) ∧
  ∃ s' log', sh_storage w' = Some s' ∧ offline_log log' s' ∧
    ∀ c snap, snaps !! c = Some snap → messages_of c log' = [].
Proof.
  intros Hr Hmax Hdisk Hlog. destruct (proj2 (proj2 Hr) (Storage.sessions s)) as [items Hit].
  destruct (load_all_sessions_ok snaps s items Hdisk Hit) as (l & Hl & Hnd & Hel).
  unfold load_persistent_sessions. cbn [sh_storage fresh_broker]. rewrite Hl.
  assert (H0 : restored now log max ttl0 [] (fresh_broker max ttl0 s r m ch)).
  { split; cbn.
    - done.
    - apply tree_inv_new.
    - intros c f q. unfold sub_lookup. cbn. destruct (parse_shared_filter f); rewrite ?lookup_empty, ?sub_at_default;
        (split; [done|]); by intros (? & ?%elem_of_nil & _).
    - intros snap Hin. by apply elem_of_nil in Hin.
    - intros c _. apply lookup_empty.
    - exists s, log. split; [done|]. split; [done|]. intros c. by rewrite decide_False by set_solver. }
  destruct (restore_all_ok now log max ttl0 l [] _ Hr Hmax H0) as (w' & ss & -> & Hres & Hss).
  { by rewrite app_nil_r. }
  { apply Forall_forall. intros snap Hin%Hel. by apply (proj1 Hdisk) in Hin as (_ & ? & _). }
  assert (Hin : ∀ snap, snap ∈ ss ↔ snaps !! ss_client_id snap = Some snap) by (intros; rewrite Hss, Hel; set_solver).
  assert (Hid : ∀ c snap, snaps !! c = Some snap → snap ∈ ss ∧ ss_client_id snap = c).
  { intros c snap Hs. destruct (proj1 Hdisk _ _ Hs) as (Hc & _). split; [apply Hin; by rewrite Hc|done]. }
  destruct Hres as [[Hl1 Hl2] _ Hsubs Hsess Honly (s' & log' & Hst & Hlog' & Hrest)].
  cbn [mbind option_bind]. exists w'. split; [done|]. split; [|split; [|split]].
  - intros c f q. rewrite Hsubs. split.
    + intros (snap & Hsn & <- & Hf). apply Hin in Hsn. eauto.
    + intros (snap & Hs & Hf). destruct (Hid _ _ Hs) as [? ?]. eauto.
  - intros c. split.
    + intros Hs. destruct (decide (c ∈ ss_client_id <$> ss)) as [(snap & -> & Hsn)%list_elem_of_fmap|Hno].
      * apply Hin in Hsn. eauto.
      * rewrite (Honly _ Hno) in Hs. by destruct Hs.
    + intros [snap Hs]. destruct (Hid _ _ Hs) as [Hsn <-]. destruct (Hsess _ Hsn) as (e & -> & _). eauto.
  - intros c snap tx_ wl lvl peer ex later Hs Hle Ht. destruct (Hid _ _ Hs) as [Hsn <-].
    destruct (Hsess _ Hsn) as (e & E & Hc & Hcl & _ & _ & q & Hq & Hdr). unfold register. cbn [sessions].
    change (sessions ((sh_sessions w') <| epoch_counter := _ |>)) with (sessions (sh_sessions w')).
    rewrite E, Hcl, Hq. cbn [negb fst]. rewrite Hdr by done. eauto.
  - exists s', log'. split; [done|]. split; [done|]. intros c snap Hs. destruct (Hid _ _ Hs) as [Hsn <-].
    unfold messages_of. rewrite Hrest, decide_True; [done|]. apply list_elem_of_fmap. eauto.
Qed.
End Restart.

(** ** A concrete restart *)

Import ListChan MapDb.

Module RestartDemo.
Definition snap : SessionSnapshot := mkSessionSnapshot "c1" [("a/+", QoS.AtLeastOnce)].
Definition msg : OutboundPublish := mkOutboundPublish "a/b" [7] QoS.AtLeastOnce false.
(** The database after a snapshot and a message for "c1" were written. *)
Definition saved : Storage map_sled * Metrics := (save_session "c1" snap (MapDb.empty, METRICS)).2.
Definition disk : Storage map_sled := (push_offline "c1" msg saved).2.1.

Lemma map_readable : readable (S := map_sled).
Proof. split; [done|]. split; intros; by eexists. Qed.

Lemma disk_sessions : sessions_on_disk (S := map_sled) {["c1" := snap]} disk.
Proof.
  split.
  - intros c s [<- <-]%lookup_singleton_Some. split; [done|]. split; [|done].
    split; [vm_compute; discriminate|]. split; [apply NoDup_singleton|]. repeat constructor.
  - assert (Hkv : kv (Storage.sessions disk) = {[as_bytes "c1" := [Zpos (encode snap)]]}) by reflexivity.
    intros k v. rewrite Hkv, lookup_singleton_Some. split.
    + intros [<- <-]. exists "c1", snap. split; [done|]. split; [apply lookup_singleton_eq|done].
    + intros (c & s & -> & [<- <-]%lookup_singleton_Some & [= <-]). done.
Qed.

Lemma disk_log : offline_log (S := map_sled) [("c1", 0, msg)] disk.
Proof.
  assert (H0 : offline_log (S := map_sled) [] saved.1).
  { split; [constructor|]. split; [constructor|]. intros k v. split; [|by intros (? & ?%elem_of_nil & _)].
    assert (Hk : kv (offline saved.1) = ∅) by reflexivity. by rewrite Hk, lookup_empty. }
  assert (Hpush : push_offline "c1" msg (saved.1, saved.2) =
                  (Ok tt, (disk, (push_offline "c1" msg (saved.1, saved.2)).2.2))) by reflexivity.
  assert (Hkv : ∃ v, kv (offline disk) !! offline_key "c1" 0 = Some v) by by eexists; vm_compute; reflexivity.
  destruct (offline_log_push [] saved.1 saved.2 "c1" msg disk _ ltac:(vm_compute; discriminate) H0 Hpush) as [seq Hl].
  cbn [app] in Hl. destruct Hkv as [v Hv]. pose proof Hl as (Hf & _ & Hk).
  destruct (proj1 (Hk _ _) Hv) as (e & He & Hkey & _). apply list_elem_of_singleton in He.
  rewrite He in Hkey.
  pose proof (Forall_inv Hf) as (_ & Hs1 & Hs2 & _). cbn [fst snd] in Hs1, Hs2, Hkey.
  apply offline_key_inj in Hkey as [_ Hseq];
    [|vm_compute; discriminate|vm_compute; discriminate|unfold u64_mod; lia|lia].
  by rewrite Hseq.
Qed.
End RestartDemo.
Import RestartDemo.

Lemma restart_recovers_witness :
  ∃ w', load_persistent_sessions (M := list_mpsc) (fresh_broker 10 1000 disk RetainStore_new METRICS ∅) 5
        = Some (Ok tt, w') ∧
    sub_lookup (sh_subscriptions w') "c1" "a/+" = Some QoS.AtLeastOnce ∧
    ∃ ep, (register (sh_sessions w') "c1" false 0%nat None 4 addr None 9).1 = (ep, true, [msg]).
Proof.
  destruct (restart_recovers (M := list_mpsc) {["c1" := snap]} [("c1", 0, msg)] disk RetainStore_new METRICS ∅
              10 1000 5 map_readable ltac:(lia) disk_sessions disk_log) as (w' & E & Hs & _ & Hr & _).
  exists w'. split; [exact E|]. split.
  - apply Hs. exists snap. split; [apply lookup_singleton_eq|]. by left.
  - destruct (Hr "c1" snap 0%nat None 4 addr None 9) as [ep Hep]; [apply lookup_singleton_eq|lia..|].
    exists ep. exact Hep.
Defined.
