(* ===== verification/SweepTheorems.v ===== *)
(** * The expiry sweeper

    One tick of [spawn_session_expiry_sweeper] forgets the expired sessions
    everywhere: in the table, in the subscription tree and on disk. *)

From S2P Require Import Prelude Packet Messages OfflineQueue Subscription SubscriptionProofs.
From S2P Require Import SubscriptionTheorems Storage StorageProofs Metrics Retain Session.
From S2P Require Import SessionProofs SessionTheorems Router RouterTheorems Lifecycle.
From S2P Require Import LifecycleTheorems RestartTheorems.

Section Sweep.
Context {M : Mpsc} {S : Sled} {L : SledLaws S} {JR : Json RetainedMessage} {JS : Json SessionSnapshot}
  {LS : JsonLaws SessionSnapshot} {JO : Json OutboundPublish} {LO : JsonLaws OutboundPublish}.
Implicit Types w : Shared M S.

(** The state after the clients [ids] have been forgotten. *)
Record swept (snaps : gmap string SessionSnapshot) (log : list (string * Z * OutboundPublish))
    w0 (ids : list string) w : Prop := {
  sw_sessions : sh_sessions w = sh_sessions w0;
  sw_subs c f : sub_lookup (sh_subscriptions w) c f =
                if decide (c ∈ ids) then None else sub_lookup (sh_subscriptions w0) c f;
  sw_chans : sh_chans w = sh_chans w0;
  sw_retain : sh_retain w = sh_retain w0;
  sw_disk : ∃ s' log', sh_storage w = Some s' ∧ offline_log log' s' ∧
    sessions_on_disk (filter (λ cs, cs.1 ∉ ids) snaps) s' ∧
    ∀ c, messages_of c log' = if decide (c ∈ ids) then [] else messages_of c log;
}.

Lemma swept_nil snaps log w s :
  sh_storage w = Some s → sessions_on_disk snaps s → offline_log log s → swept snaps log w [] w.
Proof.
  intros Hst Hd Hl. split; [done| |done|done|].
  - intros c f. by rewrite decide_False by apply not_elem_of_nil.
  - exists s, log. split; [done|]. split; [done|]. split.
    + rewrite map_filter_id; [done|]. intros c snap _. apply not_elem_of_nil.
    + intros c. by rewrite decide_False by apply not_elem_of_nil.
Qed.

(** The snapshot of one client is removed. *)
Lemma delete_session_disk snaps (s : Storage S) m c :
  readable → sessions_on_disk snaps s →
  ∃ s', delete_session c (s, m) = (Ok tt, (s', m)) ∧ sessions_on_disk (delete c snaps) s' ∧
    offline s' = offline s ∧ db s' = db s.
Proof.
  intros (Hr & _) [Hok Hkv]. unfold delete_session, run_db, on_sessions. specialize (Hr (Storage.sessions s) (as_bytes c)).
  destruct (tree_remove (Storage.sessions s) (as_bytes c)) as [r t] eqn:Et. cbn in Hr. subst r. cbn.
  eexists. split; [done|]. split; [|done]. apply remove_ok in Et. split.
  - intros d snap [_ E]%lookup_delete_Some. by apply Hok.
  - intros k v. cbn. rewrite Et, lookup_delete_Some, Hkv. split.
    + intros (Hne & d & snap & -> & Hs & Hv). exists d, snap. split; [done|]. split; [|done].
      rewrite lookup_delete_ne by (by intros ->). done.
    + intros (d & snap & -> & [Hne Hs]%lookup_delete_Some & Hv). split; [|eauto].
      intros E%as_bytes_inj. done.
Qed.

Lemma offline_log_same log (s s' : Storage S) :
  offline s' = offline s → db s' = db s → offline_log log s → offline_log log s'.
Proof. intros E1 E2 (H1 & H2 & H3). unfold offline_log, entry_ok in *. rewrite E1, E2. done. Qed.

Lemma drain_sessions c (s : Storage S) m r s' m' :
  drain_offline c (s, m) = (r, (s', m')) → Storage.sessions s' = Storage.sessions s.
Proof.
  assert (Hk : ∀ keys s m r s' m', remove_keys keys (s, m) = (r, (s', m')) →
            Storage.sessions s' = Storage.sessions s).
  { clear. intros keys. induction keys as [|k keys IH]; intros s m r s' m'; cbn [remove_keys]; [by intros [= _ <- _]|].
    unfold mbind, se_bind, run_db, on_offline. destruct (tree_remove _ _) as [[u|e] t]; cbn; [|by intros [= _ <- _]].
    by intros ->%IH. }
  unfold drain_offline, metric, se_modify, mbind, se_bind, scan_offline.
  destruct (foldl drain_item ([], []) _) as [msgs keys]. destruct (remove_keys _ _) as [[u|e] [s1 m1]] eqn:E;
    intros [= _ <- _]; by eapply Hk.
Qed.

(** Everything the disk holds for one client is removed. *)
Lemma delete_snapshot_disk snaps log w s c :
  readable → str_len c ≤ u16_max → sh_storage w = Some s → sessions_on_disk snaps s → offline_log log s →
  ∃ s' m', delete_session_snapshot w c = w <| sh_storage := Some s' |> <| sh_metrics := m' |> ∧
    sessions_on_disk (delete c snaps) s' ∧ offline_log (not_of_client c log) s'.
Proof.
  intros Hr Hlen Hst Hdisk Hlog. unfold delete_session_snapshot.
  destruct (delete_session_disk _ s (sh_metrics w) c Hr Hdisk) as (s1 & E1 & Hdisk1 & Ho & Hdb).
  assert (Ew1 : try_storage (delete_session c) w = w <| sh_storage := Some s1 |> <| sh_metrics := sh_metrics w |>).
  { unfold try_storage, with_storage, env_of. rewrite Hst, E1. done. }
  rewrite Ew1. set (w2 := w <| sh_storage := _ |> <| sh_metrics := _ |>).
  pose proof (offline_log_same log s s1 Ho Hdb Hlog) as Hlog1.
  destruct (drain_offline_total c s1 (sh_metrics w) Hr) as (msgs & s2 & m2 & Ed).
  assert (Ew2 : try_storage (drain_offline c) w2 = w2 <| sh_storage := Some s2 |> <| sh_metrics := m2 |>).
  { unfold try_storage, with_storage, env_of. change (sh_storage w2) with (Some s1).
    change (sh_metrics w2) with (sh_metrics w). cbv beta iota. rewrite Ed. done. }
  exists s2, m2. split; [exact Ew2|]. destruct Hr as (_ & Hr2 & _).
  destruct (Hr2 (offline s1) (offline_key_prefix c)) as [items Hscan].
  destruct (offline_log_drain _ _ _ _ _ _ _ _ Hlen Hlog1 Hscan Ed) as [_ Hlog2]. split; [|done].
  unfold sessions_on_disk. rewrite (drain_sessions _ _ _ _ _ _ Ed). exact Hdisk1.
Qed.

(** The messages left on disk. *)
Lemma messages_of_removed c d log :
  messages_of d (not_of_client c log) = if decide (d = c) then [] else messages_of d log.
Proof.
  unfold messages_of. destruct (decide (d = c)) as [->|Hne]; [by rewrite of_client_removed|].
  by rewrite of_client_not_of_client.
Qed.

Lemma sweep_one_step snaps log w0 ids w c :
  readable → str_len c ≤ u16_max → swept snaps log w0 ids w → swept snaps log w0 (c :: ids) (sweep_one w c).
Proof.
  intros Hr Hlen [H1 H2 H3 H4 (s & log1 & Hst & Hlog & Hdisk & Hmsgs)]. unfold sweep_one.
  set (w1 := w <| sh_subscriptions ::= _ |>).
  destruct (delete_snapshot_disk _ log1 w1 s c Hr Hlen Hst Hdisk Hlog) as (s2 & m2 & -> & Hdisk2 & Hlog2).
  split; [done| |done|done|].
  - intros d f. cbn. rewrite unsubscribe_all_lookup, H2. destruct (decide (d = c)) as [->|Hne].
    + by rewrite decide_True by left.
    + apply decide_ext. set_solver.
  - exists s2, (not_of_client c log1). split; [done|]. split; [done|]. split.
    + assert (Hf : filter (λ cs, cs.1 ∉ c :: ids) snaps = delete c (filter (λ cs, cs.1 ∉ ids) snaps)).
      { apply map_eq. intros d. apply option_eq. intros snap.
        rewrite lookup_delete_Some, !map_lookup_filter_Some. cbn. set_solver. }
      by rewrite Hf.
    + intros d. rewrite messages_of_removed. destruct (decide (d = c)) as [->|Hne].
      * by rewrite decide_True by left.
      * rewrite Hmsgs. apply decide_ext. set_solver.
Qed.

Lemma sweep_all snaps log w0 ids done_ w :
  readable → Forall (λ c, str_len c ≤ u16_max) ids → swept snaps log w0 done_ w →
  swept snaps log w0 (rev ids ++ done_) (foldl sweep_one w ids).
Proof.
  intros Hr. revert done_ w. induction ids as [|c ids IH]; intros done_ w Hlen Hw; cbn [foldl rev]; [done|].
  apply Forall_cons in Hlen as [Hc Hlen]. rewrite <-app_assoc. cbn [app]. apply IH; [done|]. by apply sweep_one_step.
Qed.

(** Whether a client's session is due. *)
Definition due w (now : Instant) (c : string) : bool :=
  match sessions (sh_sessions w) !! c with Some e => is_expired e now | None => false end.

(** The expiry sweeper.  One tick removes exactly the offline sessions whose
    expiry interval has elapsed, and with them everything the broker keeps for
    their clients: every subscription, the snapshot on disk and the offline
    messages on disk, so that a restart does not bring them back; the sessions,
    subscriptions, snapshots and messages of all other clients, the channels and
    the retained messages are untouched. *)
Theorem sweep_forgets w now s snaps log :
  sess_inv (sh_sessions w) → (∀ c, is_Some (sessions (sh_sessions w) !! c) → str_len c ≤ u16_max) →
  readable → sh_storage w = Some s → sessions_on_disk snaps s → offline_log log s →
  let w' := sweep w now in
  (∀ c, sessions (sh_sessions w') !! c = if due w now c then None else sessions (sh_sessions w) !! c) ∧
  (∀ c f, sub_lookup (sh_subscriptions w') c f = if due w now c then None else sub_lookup (sh_subscriptions w) c f) ∧
  sh_chans w' = sh_chans w ∧ sh_retain w' = sh_retain w ∧
  ∃ s' log', sh_storage w' = Some s' ∧ offline_log log' s' ∧
    sessions_on_disk (filter (λ cs, due w now cs.1 = false) snaps) s' ∧
    ∀ c, messages_of c log' = if due w now c then [] else messages_of c log.
Proof.
  intros Hi Hlen Hr Hst Hd Hl. cbv zeta. unfold sweep. pose proof (cleanup_expired_spec (sh_sessions w) now Hi) as Hc.
  destruct (cleanup_expired (sh_sessions w) now) as [sess expired]. destruct Hc as (Hsess & _ & Hexp).
  set (w1 := w <| sh_sessions := sess |>).
  pose proof (sweep_all snaps log w1 expired [] w1 Hr) as Hsw.
  specialize (Hsw ltac:(apply Forall_forall; intros c (e & E & _)%Hexp; by apply Hlen)).
  specialize (Hsw (swept_nil snaps log w1 s Hst Hd Hl)). rewrite app_nil_r in Hsw.
  assert (Hdue : ∀ c, c ∈ rev expired ↔ due w now c = true).
  { intros c. rewrite list_elem_of_In, <-in_rev, <-list_elem_of_In, Hexp. unfold due.
    destruct (sessions (sh_sessions w) !! c) as [e|]; split; try done; [by intros (? & [= ->] & ?)|eauto|by intros (? & ? & ?)]. }
  assert (Hif : ∀ (A : Type) c (x y : A), (if decide (c ∈ rev expired) then x else y) = if due w now c then x else y).
  { intros A c x y. destruct (decide _) as [H|H]; rewrite Hdue in H; [by rewrite H|]. apply not_true_is_false in H. by rewrite H. }
  destruct Hsw as [H1 H2 H3 H4 (s' & log' & H5 & H6 & H7 & H8)].
  split; [|split; [|split; [done|split; [done|]]]].
  - intros c. rewrite H1. cbn. rewrite Hsess. unfold due. by destruct (sessions (sh_sessions w) !! c).
  - intros c f. by rewrite H2, Hif.
  - exists s', log'. split; [done|]. split; [done|]. split; [|intros c; by rewrite H8, Hif].
    assert (Hf : filter (λ cs, cs.1 ∉ rev expired) snaps = filter (λ cs, due w now cs.1 = false) snaps).
    { apply map_filter_ext. intros c snap _. cbn. rewrite Hdue. by destruct (due w now c). }
    by rewrite <-Hf.
Qed.
End Sweep.

(** ** A concrete sweep *)

Import ListChan MapDb RestartDemo.

Module SweepDemo.
(** "c1" left with an expiry interval of zero. *)
Definition manager : SessionManager list_mpsc :=
  mark_offline (register (with_limits 10 1000) "c1" false 0%nat None 5 addr (Some 0) 1).2 "c1" 1 2.
Definition broker : Shared list_mpsc map_sled :=
  mkShared SubscriptionTree_new manager RetainStore_new (Some disk) METRICS ∅.

Lemma expired_manager_inv : sess_inv manager.
Proof. apply mark_offline_inv, register_inv; [apply sess_inv_new|reflexivity]. Qed.

Lemma only_c1 c : is_Some (sessions manager !! c) → str_len c ≤ u16_max.
Proof.
  assert (Hd : (dom (sessions manager) : gset string) = {["c1"]}) by (vm_compute; reflexivity).
  intros Hc%elem_of_dom. rewrite Hd in Hc. apply elem_of_singleton in Hc as ->. vm_compute. discriminate.
Qed.
End SweepDemo.

Lemma sweep_forgets_witness :
  sessions (sh_sessions (sweep SweepDemo.broker 3)) !! "c1" = None ∧
  ∃ s' log', sh_storage (sweep SweepDemo.broker 3) = Some s' ∧ offline_log log' s' ∧ messages_of "c1" log' = [].
Proof.
  destruct (sweep_forgets SweepDemo.broker 3 disk {["c1" := snap]} [("c1", 0, msg)] SweepDemo.expired_manager_inv
    SweepDemo.only_c1 map_readable eq_refl disk_sessions disk_log) as (H1 & _ & _ & _ & s' & log' & H2 & H3 & _ & H4).
  split; [rewrite H1; reflexivity|]. exists s', log'. split; [exact H2|]. split; [exact H3|]. rewrite H4. reflexivity.
Defined.
