(* ===== verification/NetAddr.v ===== *)
(** * Text to addresses: what the code uses of [std::net] and [str]

    [IpAddr::from_str], [u8::from_str], [str::trim] and [str::rsplit_once] of
    the standard library, on the bytes of a string.  The address parser follows
    the library's: a reader that consumes a prefix and backtracks on failure. *)

From S2P Require Import Prelude Packet Messages.

(** ** Numbers *)

(** [char::to_digit] in radix 10 or 16. *)
Definition to_digit (radix : Z) (b : Z) : option Z :=
  let d :=
    if in_range 48 57 b then b - 48
    else if in_range 97 102 b then b - 87
    else if in_range 65 70 b then b - 55
    else 99 in
  if d <? radix then Some d else None.

Fixpoint take_digits (radix : Z) (l : list Z) : list Z * list Z :=
  match l with
  | [] => ([], [])
  | b :: l' =>
      match to_digit radix b with
      | Some d => let '(ds, rest) := take_digits radix l' in (d :: ds, rest)
      | None => ([], l)
      end
  end.

Definition number_of (radix : Z) (ds : list Z) : Z := foldl (λ n d, n * radix + d) 0 ds.

(** The parser's [read_number] with a digit limit: the maximal run of digits,
    not longer than [max_digits]; a leading zero may be refused. *)
Definition read_number (radix : Z) (max_digits : nat) (allow_zero_prefix : bool) (l : list Z)
    : option (Z * list Z) :=
  let '(ds, rest) := take_digits radix l in
  if (max_digits <? length ds)%nat then None
  else match ds with
       | [] => None
       | d :: _ =>
           if negb allow_zero_prefix && (d =? 0) && (1 <? length ds)%nat then None
           else Some (number_of radix ds, rest)
       end.

(** [u8::from_str]: an optional plus sign, then digits only, at most 255. *)
Definition parse_u8 (s : string) : option Z :=
  let l := as_bytes s in
  let l := match l with b :: l' => if b =? 43 then l' else l | [] => l end in
  match take_digits 10 l with
  | ((_ :: _) as ds, []) => let n := number_of 10 ds in if n <=? u8_max then Some n else None
  | _ => None
  end.

(** ** Addresses *)

Definition read_given_char (c : Z) (l : list Z) : option (list Z) :=
  match l with
  | b :: l => if b =? c then Some l else None
  | [] => None
  end.

(** [read_separator(sep, index, inner)]: the separator before every item but
    the first. *)
Definition read_separator {A} (sep : Z) (first : bool) (inner : list Z → option (A * list Z))
    (l : list Z) : option (A * list Z) :=
  if first then inner l else l ← read_given_char sep l; inner l.

Definition read_octet (l : list Z) : option (Z * list Z) :=
  '(n, l) ← read_number 10 3 false l;
  if n <=? u8_max then Some (n, l) else None.

Definition read_ipv4_addr (l : list Z) : option (Z * list Z) :=
  '(a, l) ← read_octet l;
  '(b, l) ← read_separator 46 false read_octet l;
  '(c, l) ← read_separator 46 false read_octet l;
  '(d, l) ← read_separator 46 false read_octet l;
  Some (((a * 256 + b) * 256 + c) * 256 + d, l).

(** [read_groups] with [limit] groups left: the groups read, whether the last
    two came from an embedded IPv4 address, and the rest. *)
Fixpoint read_groups (limit : nat) (first : bool) (l : list Z) : list Z * bool * list Z :=
  match limit with
  | O => ([], false, l)
  | S limit' =>
      match (if (0 <? limit')%nat then read_separator 58 first read_ipv4_addr l else None) with
      | Some (v4, l) => ([v4 / 65536; v4 mod 65536], true, l)
      | None =>
          match read_separator 58 first (read_number 16 4 true) l with
          | Some (g, l) =>
              let '(gs, v4, l) := read_groups limit' false l in (g :: gs, v4, l)
          | None => ([], false, l)
          end
      end
  end.

Definition bits_of_groups (gs : list Z) : Z := foldl (λ n g, n * 65536 + g) 0 gs.

Definition read_ipv6_addr (l : list Z) : option (Z * list Z) :=
  let '(head, head_ipv4, l) := read_groups 8 true l in
  if (length head =? 8)%nat then Some (bits_of_groups head, l)
  else if head_ipv4 then None
  else
    l ← read_given_char 58 l;
    l ← read_given_char 58 l;
    let '(tail, _, l) := read_groups (7 - length head) true l in
    Some (bits_of_groups (head ++ replicate (8 - length head - length tail) 0 ++ tail), l).

(** [IpAddr::from_str]: IPv4, else IPv6, and nothing may be left over. *)
Definition parse_ip (s : string) : option IpAddr :=
  let l := as_bytes s in
  let read :=
    match read_ipv4_addr l with
    | Some (a, rest) => Some (V4 a, rest)
    | None => '(a, rest) ← read_ipv6_addr l; Some (V6 a, rest)
    end in
  match read with
  | Some (ip, []) => Some ip
  | _ => None
  end.

(** [read_number] without a digit limit, as ports and scope identifiers use it:
    overflow of the type is a failure, leading zeros are not. *)
Definition read_number_max (max : Z) (l : list Z) : option (Z * list Z) :=
  let '(ds, rest) := take_digits 10 l in
  match ds with
  | [] => None
  | _ => let n := number_of 10 ds in if n <=? max then Some (n, rest) else None
  end.

Definition read_port (l : list Z) : option (Z * list Z) :=
  l ← read_given_char 58 l; read_number_max u16_max l.

Definition read_scope_id (l : list Z) : option (Z * list Z) :=
  l ← read_given_char 37 l; read_number_max u32_max l.

Definition read_socket_addr_v4 (l : list Z) : option (SocketAddr * list Z) :=
  '(ip, l) ← read_ipv4_addr l;
  '(port, l) ← read_port l;
  Some (mkSocketAddr (V4 ip) port, l).

(** The scope identifier is read and left out of the result. *)
Definition read_socket_addr_v6 (l : list Z) : option (SocketAddr * list Z) :=
  l ← read_given_char 91 l;
  '(ip, l) ← read_ipv6_addr l;
  let l := match read_scope_id l with Some (_, l) => l | None => l end in
  l ← read_given_char 93 l;
  '(port, l) ← read_port l;
  Some (mkSocketAddr (V6 ip) port, l).

(** [SocketAddr::from_str] *)
Definition parse_socket_addr (s : string) : option SocketAddr :=
  let l := as_bytes s in
  let read := match read_socket_addr_v4 l with Some r => Some r | None => read_socket_addr_v6 l end in
  match read with
  | Some (a, []) => Some a
  | _ => None
  end.

(** [IpAddr::is_loopback] *)
Definition is_loopback (ip : IpAddr) : bool :=
  match ip with
  | V4 bits => bits / 16777216 =? 127
  | V6 bits => bits =? 1
  end.

(** ** Display *)

Definition fmt_v4 (bits : Z) : string :=
  fmt_Z (bits / 16777216 mod 256) +:+ "." +:+ fmt_Z (bits / 65536 mod 256) +:+ "."
  +:+ fmt_Z (bits / 256 mod 256) +:+ "." +:+ fmt_Z (bits mod 256).

Definition segments (bits : Z) : list Z :=
  map (λ i, bits / 2 ^ (112 - 16 * i) mod 65536) [0; 1; 2; 3; 4; 5; 6; 7].

(** The first longest run of zero segments: start and length. *)
Definition zero_span (segs : list Z) : nat * nat :=
  (foldl (λ '(longest, current, i) seg,
            if seg =? 0 then
              let current := (if (current.2 =? 0)%nat then i else current.1, S current.2) in
              (if (longest.2 <? current.2)%nat then current else longest, current, S i)
            else (longest, (O, O), S i))
         ((O, O), (O, O), O) segs).1.1.

Definition fmt_subslice (segs : list Z) : string :=
  str_join ":"%char (map (λ g, hex_digits 4 g "") segs).

(** [impl Display for IpAddr] *)
Definition fmt_ip (ip : IpAddr) : string :=
  match ip with
  | V4 bits => fmt_v4 bits
  | V6 bits =>
      if bits / 2 ^ 32 =? 65535 then "::ffff:" +:+ fmt_v4 (bits mod 2 ^ 32)
      else
        let segs := segments bits in
        let '(start, len) := zero_span segs in
        if (1 <? len)%nat
        then fmt_subslice (take start segs) +:+ "::" +:+ fmt_subslice (drop (start + len) segs)
        else fmt_subslice segs
  end.

(** [impl Display for SocketAddr] *)
Definition fmt_socket_addr (a : SocketAddr) : string :=
  match sa_ip a with
  | V4 _ => fmt_ip (sa_ip a) +:+ ":" +:+ fmt_Z (sa_port a)
  | V6 _ => "[" +:+ fmt_ip (sa_ip a) +:+ "]:" +:+ fmt_Z (sa_port a)
  end.

(** ** Strings *)

(** The characters with the Unicode property [White_Space], as UTF-8. *)
Definition white_space : list (list Z) :=
  [[9]; [10]; [11]; [12]; [13]; [32]; [194; 133]; [194; 160]; [225; 154; 128];
   [226; 128; 128]; [226; 128; 129]; [226; 128; 130]; [226; 128; 131]; [226; 128; 132];
   [226; 128; 133]; [226; 128; 134]; [226; 128; 135]; [226; 128; 136]; [226; 128; 137];
   [226; 128; 138]; [226; 128; 168]; [226; 128; 169]; [226; 128; 175]; [226; 129; 159];
   [227; 128; 128]].

Fixpoint strip_prefix (p l : list Z) : option (list Z) :=
  match p, l with
  | [], _ => Some l
  | a :: p, b :: l => if a =? b then strip_prefix p l else None
  | _ :: _, [] => None
  end.

(** Removing leading characters of the list, as long as there is one. *)
Fixpoint strip_while (fuel : nat) (chars : list (list Z)) (l : list Z) : list Z :=
  match fuel with
  | O => l
  | S fuel =>
      match omap (λ p, strip_prefix p l) chars with
      | l :: _ => strip_while fuel chars l
      | [] => l
      end
  end.

(** [str::trim]; every step of [strip_while] removes a byte. *)
Definition trim (s : string) : string :=
  let l := as_bytes s in
  let l := strip_while (length l) white_space l in
  let r := strip_while (length l) (map (@rev Z) white_space) (rev l) in
  string_of_bytes (rev r).

(** [str::rsplit_once] *)
Fixpoint rsplit_once (c : Ascii.ascii) (s : string) : option (string * string) :=
  match s with
  | EmptyString => None
  | String a s =>
      match rsplit_once c s with
      | Some (l, r) => Some (String a l, r)
      | None => if Ascii.eqb a c then Some (EmptyString, s) else None
      end
  end.

(** Some parses. *)
Example parse_v4 : parse_ip "10.0.0.5" = Some (V4 167772165).
Proof. reflexivity. Qed.
Example parse_v4_leading_zero : parse_ip "10.0.0.05" = None.
Proof. reflexivity. Qed.
Example parse_v6 : parse_ip "fe80::1:2" = Some (V6 (0xfe80 * 2 ^ 112 + 65536 + 2)).
Proof. reflexivity. Qed.
Example parse_v6_mapped : parse_ip "::ffff:1.2.3.4" = Some (V6 (0xffff * 2 ^ 32 + 0x01020304)).
Proof. reflexivity. Qed.
Example parse_v6_full : parse_ip "1:2:3:4:5:6:7:8:9" = None.
Proof. reflexivity. Qed.
Example fmt_ips :
  fmt_ip (V4 167772165) = "10.0.0.5" ∧ fmt_ip (V6 1) = "::1" ∧
  fmt_ip (V6 (0xfe80 * 2 ^ 112 + 65536 + 2)) = "fe80::1:2".
Proof. repeat split. Qed.
Example parse_prefix : parse_u8 "24" = Some 24 ∧ parse_u8 "+7" = Some 7 ∧ parse_u8 "256" = None ∧ parse_u8 "" = None.
Proof. repeat split. Qed.
Example parse_sockets :
  parse_socket_addr "127.0.0.1:1883" = Some (mkSocketAddr (V4 0x7f000001) 1883) ∧
  parse_socket_addr "[::1]:08083" = Some (mkSocketAddr (V6 1) 8083) ∧
  parse_socket_addr "[fe80::1%3]:80" = Some (mkSocketAddr (V6 (0xfe80 * 2 ^ 112 + 1)) 80) ∧
  parse_socket_addr "localhost:1883" = None ∧ parse_socket_addr "1.2.3.4:65536" = None ∧
  parse_socket_addr "::1:80" = None ∧ parse_socket_addr "1.2.3.4" = None.
Proof. repeat split. Qed.
Example trim_both : trim "  a b	 " = "a b".
Proof. reflexivity. Qed.
Example rsplit_last : rsplit_once slash "a/b/c" = Some ("a/b", "c").
Proof. reflexivity. Qed.
