(* ===== verification/IpFilter.v ===== *)
(** * IP filtering, [src/security/ip_filter.rs]

    Rules in CIDR notation compiled into one bitwise prefix tree per address
    family, and the combination of a blacklist and a whitelist. *)

From S2P Require Import Prelude Packet Messages NetAddr.

(** ** Rules *)

Record IpRule := mkIpRule { network : IpAddr; prefix : Z }.

Definition max_prefix (ip : IpAddr) : Z := match ip with V4 _ => 32 | V6 _ => 128 end.

(** [(!0) << (w - prefix)] on [w] bits *)
Definition mask (w prefix : Z) : Z :=
  if prefix =? 0 then 0 else Z.land (Z.shiftl (Z.ones w) (w - prefix)) (Z.ones w).

Definition apply_mask (ip : IpAddr) (prefix : Z) : IpAddr :=
  match ip with
  | V4 bits => V4 (Z.land bits (mask 32 (Z.min prefix 32)))
  | V6 bits => V6 (Z.land bits (mask 128 (Z.min prefix 128)))
  end.

(** [IpRule::parse] *)
Definition parse_rule (s : string) : BrokerResult IpRule :=
  let s := trim s in
  '(addr_str, prefix) ← match rsplit_once slash s with
                        | Some (a, p) =>
                            match parse_u8 p with
                            | Some p => Ok (a, p)
                            | None => Err (BrokerError.Config ("invalid CIDR prefix in '" +:+ s +:+ "'"))
                            end
                        | None => Ok (s, 0)
                        end;
  addr ← match parse_ip addr_str with
         | Some addr => Ok addr
         | None => Err (BrokerError.Config ("invalid IP address in '" +:+ s +:+ "'"))
         end;
  let prefix := match rsplit_once slash s with None => max_prefix addr | Some _ => prefix end in
  let max := max_prefix addr in
  if prefix >? max then
    Err (BrokerError.Config ("CIDR prefix " +:+ fmt_Z prefix +:+ " exceeds max " +:+ fmt_Z max
                             +:+ " for '" +:+ s +:+ "'"))
  else Ok (mkIpRule (apply_mask addr prefix) prefix).

(** ** The prefix tree *)

(** [children: [Option<Box<TrieNode>>; 2]] *)
Inductive TrieNode := mkTrieNode (child0 child1 : option TrieNode) (terminal : bool).

Definition TrieNode_new : TrieNode := mkTrieNode None None false.
Definition terminal (n : TrieNode) : bool := let '(mkTrieNode _ _ t) := n in t.
Definition child (n : TrieNode) (bit : bool) : option TrieNode :=
  let '(mkTrieNode c0 c1 _) := n in if bit then c1 else c0.
Definition set_child (n : TrieNode) (bit : bool) (c : TrieNode) : TrieNode :=
  let '(mkTrieNode c0 c1 t) := n in
  if bit then mkTrieNode c0 (Some c) t else mkTrieNode (Some c) c1 t.
Definition set_terminal (n : TrieNode) : TrieNode :=
  let '(mkTrieNode c0 c1 _) := n in mkTrieNode c0 c1 true.

Record BitTrie := mkBitTrie { root : option TrieNode; max_bits : nat }.

Definition BitTrie_new (max_bits : nat) : BitTrie := mkBitTrie None max_bits.

(** [((network >> shift) & 1) as usize], the [i]-th bit from the top. *)
Definition bit_at (max_bits : nat) (key : Z) (i : nat) : bool :=
  negb (Z.land (Z.shiftr key (Z.of_nat max_bits - 1 - Z.of_nat i)) 1 =? 0).

(** The loop of [insert] from level [i] with [n] bits to go. *)
Fixpoint insert_from (max_bits : nat) (network : Z) (n i : nat) (node : TrieNode) : TrieNode :=
  match n with
  | O => set_terminal node
  | S n =>
      let bit := bit_at max_bits network i in
      let c := default TrieNode_new (child node bit) in
      set_child node bit (insert_from max_bits network n (S i) c)
  end.

Definition trie_insert (self : BitTrie) (network : Z) (prefix : Z) : BitTrie :=
  let prefix := Z.min prefix (Z.of_nat (max_bits self)) in
  let node := default TrieNode_new (root self) in
  mkBitTrie (Some (insert_from (max_bits self) network (Z.to_nat prefix) 0 node)) (max_bits self).

(** The loop of [contains] from level [i] with [n] levels to go. *)
Fixpoint contains_from (max_bits : nat) (ip : Z) (n i : nat) (node : TrieNode) : bool :=
  match n with
  | O => false
  | S n =>
      match child node (bit_at max_bits ip i) with
      | Some c => if terminal c then true else contains_from max_bits ip n (S i) c
      | None => false
      end
  end.

Definition trie_contains (self : BitTrie) (ip : Z) : bool :=
  match root self with
  | None => false
  | Some root =>
      if terminal root then true else contains_from (max_bits self) ip (max_bits self) 0 root
  end.

(** ** Filters and verdicts *)

Record IpFilter := mkIpFilter { v4_trie : BitTrie; v6_trie : BitTrie; rule_count : Z }.

Definition filter_empty : IpFilter := mkIpFilter (BitTrie_new 32) (BitTrie_new 128) 0.

Definition add_rule (self : IpFilter) (rule : IpRule) : IpFilter :=
  match network rule with
  | V4 bits => mkIpFilter (trie_insert (v4_trie self) bits (prefix rule)) (v6_trie self) (rule_count self + 1)
  | V6 bits => mkIpFilter (v4_trie self) (trie_insert (v6_trie self) bits (prefix rule)) (rule_count self + 1)
  end.

Fixpoint add_entries (filter : IpFilter) (entries : list string) : BrokerResult IpFilter :=
  match entries with
  | [] => Ok filter
  | e :: entries => rule ← parse_rule e; add_entries (add_rule filter rule) entries
  end.

(** [IpFilter::new] *)
Definition filter_new (entries : list string) : BrokerResult IpFilter :=
  add_entries filter_empty entries.

Definition filter_is_empty (self : IpFilter) : bool := rule_count self =? 0.

Definition filter_contains (self : IpFilter) (ip : IpAddr) : bool :=
  match ip with
  | V4 bits => trie_contains (v4_trie self) bits
  | V6 bits => trie_contains (v6_trie self) bits
  end.

Module IpVerdict.
Inductive IpVerdict := Allow | Blacklisted | NotWhitelisted.
End IpVerdict.
Abbreviation IpVerdict := IpVerdict.IpVerdict.

#[export] Instance IpVerdict_eq_dec : EqDecision IpVerdict.
Proof. solve_decision. Defined.

Record IpAcl := mkIpAcl { blacklist : IpFilter; whitelist : IpFilter }.

Definition acl_check (self : IpAcl) (ip : IpAddr) : IpVerdict :=
  if filter_contains (blacklist self) ip then IpVerdict.Blacklisted
  else if negb (filter_is_empty (whitelist self)) && negb (filter_contains (whitelist self) ip)
  then IpVerdict.NotWhitelisted
  else IpVerdict.Allow.
