(* ===== verification/IpFilterTheorems.v ===== *)
(** * Correctness of IP filtering

    The prefix trees decide exactly what comparing the leading bits with every
    configured range would. *)

From S2P Require Import Prelude Packet Messages NetAddr IpFilter.

(** ** Specification: one entry at a time, without a tree *)

Definition bits_of (ip : IpAddr) : Z := match ip with V4 b | V6 b => b end.
Definition same_family (a b : IpAddr) : bool :=
  match a, b with V4 _, V4 _ | V6 _, V6 _ => true | _, _ => false end.

(** The range an entry of the configuration denotes: an address, alone or with
    a prefix length that fits its family. *)
Definition cidr_of (s : string) : option (IpAddr * Z) :=
  let s := trim s in
  match rsplit_once slash s with
  | None => a ← parse_ip s; Some (a, max_prefix a)
  | Some (addr, len) =>
      p ← parse_u8 len; a ← parse_ip addr;
      if p <=? max_prefix a then Some (a, p) else None
  end.

(** [ip] lies in the range: same family and the same [p] leading bits. *)
Definition in_cidr (ip : IpAddr) (r : IpAddr * Z) : bool :=
  let '(a, p) := r in
  same_family a ip &&
  (Z.shiftr (bits_of a) (max_prefix a - p) mod 2 ^ p
   =? Z.shiftr (bits_of ip) (max_prefix a - p) mod 2 ^ p).

Definition entry_covers (ip : IpAddr) (s : string) : bool :=
  match cidr_of s with Some r => in_cidr ip r | None => false end.

(** ** Trees as sets of bit prefixes *)

Fixpoint node_hit (path : list bool) (node : TrieNode) : bool :=
  terminal node ||
  match path with
  | [] => false
  | b :: path => match child node b with Some c => node_hit path c | None => false end
  end.

Fixpoint insert_path (path : list bool) (node : TrieNode) : TrieNode :=
  match path with
  | [] => set_terminal node
  | b :: path => set_child node b (insert_path path (default TrieNode_new (child node b)))
  end.

Fixpoint is_prefix (p path : list bool) : bool :=
  match p, path with
  | [], _ => true
  | a :: p, b :: path => Bool.eqb a b && is_prefix p path
  | _ :: _, [] => false
  end.

Definition path_of (w : nat) (key : Z) (i n : nat) : list bool := bit_at w key <$> seq i n.

Lemma node_hit_new path : node_hit path TrieNode_new = false.
Proof. by destruct path as [|[] path]. Qed.

Lemma child_set_child node b b' c :
  child (set_child node b c) b' = if Bool.eqb b b' then Some c else child node b'.
Proof. destruct node, b, b'; done. Qed.
Lemma terminal_set_child node b c : terminal (set_child node b c) = terminal node.
Proof. by destruct node, b. Qed.

Lemma node_hit_insert p node path :
  node_hit path (insert_path p node) = node_hit path node || is_prefix p path.
Proof.
  revert node path. induction p as [|a p IH]; intros node path; cbn [insert_path].
  { rewrite orb_true_r. by destruct node, path. }
  destruct path as [|b path]; cbn [node_hit is_prefix].
  { by rewrite terminal_set_child, !orb_false_r. }
  rewrite terminal_set_child, child_set_child, <-orb_assoc. f_equal.
  destruct (Bool.eqb a b) eqn:Eab; [|by rewrite orb_false_r].
  apply Bool.eqb_prop in Eab as ->. rewrite IH. cbn.
  destruct (child node b); cbn; [done|]. by rewrite node_hit_new.
Qed.

Lemma insert_from_path w net n i node :
  insert_from w net n i node = insert_path (path_of w net i n) node.
Proof.
  revert i node. induction n as [|n IH]; intros i node; [done|]. cbn [insert_from]. rewrite IH. done.
Qed.

Lemma contains_from_hit w ip n i node :
  terminal node || contains_from w ip n i node = node_hit (path_of w ip i n) node.
Proof.
  revert i node. induction n as [|n IH]; intros i node; cbn [contains_from]; [done|].
  cbn. f_equal. destruct (child node (bit_at w ip i)) as [c|]; [|done].
  fold (path_of w ip (S i) n). rewrite <-IH. by destruct (terminal c).
Qed.

Definition trie_hit (t : BitTrie) (path : list bool) : bool :=
  match root t with Some n => node_hit path n | None => false end.

Lemma trie_contains_hit t ip : trie_contains t ip = trie_hit t (path_of (max_bits t) ip 0 (max_bits t)).
Proof. unfold trie_contains, trie_hit. destruct (root t) as [n|]; [apply contains_from_hit|done]. Qed.

Lemma trie_insert_hit t net p path :
  0 ≤ p ≤ Z.of_nat (max_bits t) →
  trie_hit (trie_insert t net p) path =
  trie_hit t path || is_prefix (path_of (max_bits t) net 0 (Z.to_nat p)) path.
Proof.
  intros Hp. unfold trie_insert, trie_hit. cbn [root]. rewrite insert_from_path, node_hit_insert.
  rewrite Z.min_l by lia. destruct (root t); cbn; [done|]. by rewrite node_hit_new.
Qed.

(** ** Bits *)

Lemma bit_at_testbit w key i :
  (i < w)%nat → bit_at w key i = Z.testbit key (Z.of_nat w - 1 - Z.of_nat i).
Proof.
  intros Hi. unfold bit_at. set (x := Z.shiftr _ _).
  assert (E : Z.land x 1 = Z.b2z (Z.testbit x 0)).
  { rewrite Z.bit0_mod. apply (Z.land_ones x 1). lia. }
  rewrite E. subst x. rewrite Z.shiftr_spec by lia. rewrite Z.add_0_l. by destruct (Z.testbit key _).
Qed.

Lemma is_prefix_path w a b p n i :
  (p ≤ n)%nat →
  is_prefix (path_of w a i p) (path_of w b i n) = true ↔
  ∀ j, (i ≤ j < i + p)%nat → bit_at w a j = bit_at w b j.
Proof.
  revert i n. induction p as [|p IH]; intros i n Hn; [split; [intros _ j; lia|done]|].
  destruct n as [|n]; [lia|]. cbn [path_of seq fmap list_fmap is_prefix].
  change (bit_at w a <$> seq (S i) p) with (path_of w a (S i) p).
  change (bit_at w b <$> seq (S i) n) with (path_of w b (S i) n).
  rewrite andb_true_iff, eqb_true_iff, IH by lia. split.
  - intros [H0 H] j Hj. destruct (decide (j = i)) as [->|]; [done|]. apply H. lia.
  - intros H. split; [apply H; lia|]. intros j Hj. apply H. lia.
Qed.

(** Equal leading bits, as numbers. *)
Lemma leading_bits w a b p :
  0 ≤ p ≤ w →
  Z.shiftr a (w - p) mod 2 ^ p = Z.shiftr b (w - p) mod 2 ^ p ↔
  ∀ k, w - p ≤ k < w → Z.testbit a k = Z.testbit b k.
Proof.
  intros Hp. split.
  - intros E k Hk. pose proof (f_equal (λ x, Z.testbit x (k - (w - p))) E) as Ek. cbn beta in Ek.
    rewrite !Z.mod_pow2_bits_low, !Z.shiftr_spec in Ek by lia. by replace (k - (w - p) + (w - p)) with k in Ek by lia.
  - intros H. apply Z.bits_inj'. intros n Hn. destruct (Z.lt_ge_cases n p).
    + rewrite !Z.mod_pow2_bits_low, !Z.shiftr_spec by lia. apply H. lia.
    + by rewrite !Z.mod_pow2_bits_high by lia.
Qed.

Lemma mask_testbit w p k :
  0 ≤ p ≤ w → w - p ≤ k < w → Z.testbit (mask w p) k = true.
Proof.
  intros Hp Hk. unfold mask. destruct (Z.eqb_spec p 0); [lia|].
  rewrite Z.land_spec, Z.shiftl_spec, !Z.testbit_ones_nonneg by lia. lia.
Qed.

(** The masked address of a rule has the leading bits of the address. *)
Lemma prefix_of_masked (w : nat) a b p :
  0 ≤ p ≤ Z.of_nat w →
  is_prefix (path_of w (Z.land a (mask (Z.of_nat w) p)) 0 (Z.to_nat p)) (path_of w b 0 w) =
  (Z.shiftr a (Z.of_nat w - p) mod 2 ^ p =? Z.shiftr b (Z.of_nat w - p) mod 2 ^ p).
Proof.
  intros Hp. apply eq_bool_prop_intro. rewrite !Is_true_true, Z.eqb_eq, leading_bits by done.
  rewrite is_prefix_path by lia. split.
  - intros H k Hk. specialize (H (Z.to_nat (Z.of_nat w - 1 - k)) ltac:(lia)).
    rewrite !bit_at_testbit in H by lia. replace (Z.of_nat w - 1 - Z.of_nat (Z.to_nat (Z.of_nat w - 1 - k))) with k in H by lia.
    by rewrite Z.land_spec, mask_testbit, andb_true_r in H.
  - intros H j Hj. rewrite !bit_at_testbit by lia.
    rewrite Z.land_spec, mask_testbit, andb_true_r by lia. apply H. lia.
Qed.

(** ** Filters *)

Lemma take_digits_nonneg l : 0 ≤ number_of 10 (take_digits 10 l).1.
Proof.
  assert (H : ∀ ds acc, Forall (λ d, 0 ≤ d) ds → 0 ≤ acc → 0 ≤ foldl (λ n d, n * 10 + d) acc ds).
  { induction ds as [|d ds IH]; intros acc Hds Hacc; [done|]. inversion_clear Hds. cbn. apply IH; [done|lia]. }
  apply H; [|done]. induction l as [|b l IH]; cbn [take_digits]; [constructor|].
  destruct (to_digit 10 b) as [d|] eqn:Ed; [|constructor]. destruct (take_digits 10 l). constructor; [|done].
  unfold to_digit, in_range in Ed. repeat case_match; simplify_eq; lia.
Qed.

Lemma parse_u8_nonneg s p : parse_u8 s = Some p → 0 ≤ p.
Proof.
  unfold parse_u8. set (l := match as_bytes s with b :: l' => if b =? 43 then l' else as_bytes s | [] => as_bytes s end).
  pose proof (take_digits_nonneg l) as H. destruct (take_digits 10 l) as [ds rest].
  cbn [fst] in H. destruct ds as [|d ds]; [done|]. destruct rest; [|done].
  destruct (_ <=? u8_max); [|done]. intros [= <-]. exact H.
Qed.

Lemma parse_rule_cidr s :
  match cidr_of s with
  | Some (a, p) => parse_rule s = Ok (mkIpRule (apply_mask a p) p) ∧ 0 ≤ p ≤ max_prefix a
  | None => ∃ e, parse_rule s = Err e
  end.
Proof.
  unfold cidr_of, parse_rule. destruct (rsplit_once slash (trim s)) as [[addr len]|] eqn:Es; cbn [mbind result_bind option_bind].
  - destruct (parse_u8 len) as [p|] eqn:Ep; cbn [mbind result_bind option_bind]; [|eauto].
    apply parse_u8_nonneg in Ep. destruct (parse_ip addr) as [a|]; cbn [mbind result_bind option_bind]; [|eauto].
    rewrite Z.gtb_ltb, Z.ltb_antisym. destruct (Z.leb_spec p (max_prefix a)); cbn [negb]; eauto.
  - destruct (parse_ip (trim s)) as [a|]; cbn [mbind result_bind option_bind]; [|eauto].
    rewrite Z.gtb_ltb, Z.ltb_irrefl. split; [done|]. destruct a; cbn; lia.
Qed.

Definition widths (f : IpFilter) : Prop := max_bits (v4_trie f) = 32%nat ∧ max_bits (v6_trie f) = 128%nat.

Lemma add_rule_contains f a p ip :
  widths f → 0 ≤ p ≤ max_prefix a →
  filter_contains (add_rule f (mkIpRule (apply_mask a p) p)) ip = filter_contains f ip || in_cidr ip (a, p).
Proof.
  intros [H4 H6] Hp. destruct a as [a|a]; cbn [max_prefix] in Hp; destruct ip as [b|b];
    cbn [add_rule apply_mask network prefix filter_contains v4_trie v6_trie in_cidr same_family bits_of max_prefix andb];
    rewrite ?orb_false_r; try done.
  - rewrite !trie_contains_hit. cbn [max_bits trie_insert]. rewrite trie_insert_hit, H4 by (rewrite H4; lia).
    rewrite Z.min_l by lia. f_equal. apply (prefix_of_masked 32). lia.
  - rewrite !trie_contains_hit. cbn [max_bits trie_insert]. rewrite trie_insert_hit, H6 by (rewrite H6; lia).
    rewrite Z.min_l by lia. f_equal. apply (prefix_of_masked 128). lia.
Qed.

Lemma add_rule_widths f r : widths f → widths (add_rule f r).
Proof. intros [H4 H6]. unfold add_rule. by destruct (network r). Qed.

Lemma add_entries_spec f entries :
  widths f →
  match add_entries f entries with
  | Ok f' => Forall (λ s, is_Some (cidr_of s)) entries
             ∧ (∀ ip, filter_contains f' ip = filter_contains f ip || existsb (entry_covers ip) entries)
             ∧ rule_count f' = rule_count f + Z.of_nat (length entries)
  | Err _ => Exists (λ s, cidr_of s = None) entries
  end.
Proof.
  revert f. induction entries as [|s entries IH]; intros f Hw; cbn [add_entries].
  { split_and!; [constructor| |cbn; lia]. intros ip. cbn. by rewrite orb_false_r. }
  pose proof (parse_rule_cidr s) as Hs. destruct (cidr_of s) as [[a p]|] eqn:Ec.
  - destruct Hs as [-> Hp]. cbn [mbind result_bind].
    specialize (IH _ (add_rule_widths f (mkIpRule (apply_mask a p) p) Hw)).
    destruct (add_entries _ entries) as [f'|e]; [|by right]. destruct IH as (Hall & Hc & Hn). split_and!.
    + constructor; [by rewrite Ec|done].
    + intros ip. rewrite Hc, add_rule_contains by done. cbn [existsb].
      change (entry_covers ip s) with (match cidr_of s with Some r => in_cidr ip r | None => false end).
      by rewrite Ec, orb_assoc.
    + rewrite Hn. unfold add_rule. cbn [length]. destruct (network _); cbn [rule_count]; lia.
  - destruct Hs as [e ->]. by left.
Qed.

(** C38: A filter is built exactly when every entry of the configuration is an
    address or a CIDR range that fits its family; a blacklist and a whitelist so
    built reject an address exactly when some blacklist entry's range has its
    leading bits, or else the whitelist is not empty and none of its entries'
    ranges does: the prefix trees agree with the direct comparison of bits for
    every list of entries and every address of both families. *)
Theorem ip_acl_correct black white ip :
  (is_ok (filter_new black) = true ↔ Forall (λ s, is_Some (cidr_of s)) black) ∧
  ∀ fb fw, filter_new black = Ok fb → filter_new white = Ok fw →
  acl_check (mkIpAcl fb fw) ip =
    if existsb (entry_covers ip) black then IpVerdict.Blacklisted
    else match white with
         | [] => IpVerdict.Allow
         | _ => if existsb (entry_covers ip) white then IpVerdict.Allow else IpVerdict.NotWhitelisted
         end.
Proof.
  assert (Hw : widths filter_empty) by done.
  assert (H0 : filter_contains filter_empty ip = false) by by destruct ip. split.
  - pose proof (add_entries_spec filter_empty black Hw) as H. unfold filter_new.
    destruct (add_entries filter_empty black); cbn [is_ok].
    + by destruct H as [H _].
    + split; [done|]. intros Hf. apply Exists_exists in H as (s & Hin & E).
      rewrite Forall_forall in Hf. specialize (Hf _ Hin). rewrite E in Hf. by destruct Hf.
  - intros fb fw Eb Ew. unfold filter_new in *.
    pose proof (add_entries_spec filter_empty black Hw) as Hb. rewrite Eb in Hb.
    pose proof (add_entries_spec filter_empty white Hw) as Hwh. rewrite Ew in Hwh.
    destruct Hb as (_ & Hb & _), Hwh as (_ & Hwh & Hn). unfold acl_check. cbn [blacklist whitelist].
    rewrite Hb, Hwh, H0. cbn [orb]. destruct (existsb _ black); [done|].
    unfold filter_is_empty. rewrite Hn. destruct white as [|s white]; [done|].
    destruct (Z.eqb_spec (rule_count filter_empty + Z.of_nat (length (s :: white))) 0) as [E|_];
      [cbn [rule_count filter_empty length] in E; lia|]. cbn [negb andb]. by destruct (existsb _ _).
Qed.

Example acl_sample :
  acl_check (mkIpAcl (match filter_new ["10.0.0.0/8"; "fe80::/10"] with Ok f => f | _ => filter_empty end)
                     (match filter_new ["192.168.1.5"] with Ok f => f | _ => filter_empty end))
            (V4 (0x0a010203)) = IpVerdict.Blacklisted.
Proof. reflexivity. Qed.

Lemma ip_acl_correct_witness :
  ∃ fb fw, filter_new ["10.0.0.0/8"; "fe80::/10"] = Ok fb ∧ filter_new [" 192.168.1.5 "] = Ok fw ∧
    acl_check (mkIpAcl fb fw) (V4 0x0a010203) = IpVerdict.Blacklisted.
Proof.
  eexists. eexists. split; [reflexivity|]. split; [reflexivity|].
  destruct (ip_acl_correct ["10.0.0.0/8"; "fe80::/10"] [" 192.168.1.5 "] (V4 0x0a010203)) as [_ H].
  rewrite (H _ _ eq_refl eq_refl). vm_compute. reflexivity.
Defined.
