(* ===== verification/Limiter.v ===== *)
(** * Limiters, [src/security/limiter.rs]

    The token bucket, whose level is an [f64] (IEEE 754 binary64, as specified
    by the standard library's [SpecFloat]), the table of buckets per client and
    the counter of connections per IP address. *)

From Stdlib Require Import SpecFloat.
From S2P Require Import Prelude Packet Messages.

(** ** [f64] *)

Abbreviation f64 := spec_float.
Definition f64_prec : Z := 53.
Definition f64_emax : Z := 1024.

(** [n as f64] for an integer. *)
Definition f64_of_Z (n : Z) : f64 := binary_normalize f64_prec f64_emax n 0 false.
Definition f64_add : f64 → f64 → f64 := SFadd f64_prec f64_emax.
Definition f64_sub : f64 → f64 → f64 := SFsub f64_prec f64_emax.
Definition f64_mul : f64 → f64 → f64 := SFmul f64_prec f64_emax.
Definition f64_div : f64 → f64 → f64 := SFdiv f64_prec f64_emax.

(** [f64::min]: the other operand when one is NaN. *)
Definition f64_min (a b : f64) : f64 :=
  match a, b with
  | S754_nan, _ => b
  | _, S754_nan => a
  | _, _ => if SFltb a b then a else b
  end.

(** [Duration::as_secs_f64]: whole seconds plus nanoseconds over 10^9. *)
Definition as_secs_f64 (d : Duration) : f64 :=
  f64_add (f64_of_Z (d / nanos_per_sec))
          (f64_div (f64_of_Z (d mod nanos_per_sec)) (f64_of_Z nanos_per_sec)).

(** [x as u32]: truncation, saturating; NaN is 0. *)
Definition f64_as_u32 (x : f64) : Z :=
  match x with
  | S754_finite false m e => Z.min u32_max (Z.shiftl (Zpos m) e)
  | S754_infinity false => u32_max
  | _ => 0
  end.

(** ** Token buckets *)

Record TokenBucket := mkTokenBucket {
  tb_capacity : Z;
  tb_refill_per_second : Z;
  tokens : f64;
  last_refill : Instant;
}.

#[export] Instance TokenBucket_settable : Settable TokenBucket :=
  λ b, mkTokenBucket (tb_capacity b) (tb_refill_per_second b) (tokens b) (last_refill b).

(** [TokenBucket::new] *)
Definition bucket_new (capacity refill_per_second : Z) (now : Instant) : TokenBucket :=
  mkTokenBucket capacity refill_per_second (f64_of_Z capacity) now.

Definition refill (self : TokenBucket) (now : Instant) : TokenBucket :=
  let elapsed := as_secs_f64 (duration_since now (last_refill self)) in
  if SFleb elapsed (f64_of_Z 0) then self
  else
    let added := f64_mul elapsed (f64_of_Z (tb_refill_per_second self)) in
    self <| tokens := f64_min (f64_add (tokens self) added) (f64_of_Z (tb_capacity self)) |>
         <| last_refill := now |>.

(** [TokenBucket::try_consume] *)
Definition bucket_try_consume (self : TokenBucket) (n : Z) (now : Instant) : bool * TokenBucket :=
  let self := refill self now in
  if SFleb (f64_of_Z n) (tokens self)
  then (true, self <| tokens ::= λ t, f64_sub t (f64_of_Z n) |>)
  else (false, self).

Definition available_tokens (self : TokenBucket) : Z := f64_as_u32 (tokens self).

(** ** Connections per IP *)

(** [IpConnectionCounter { inner }] *)
Abbreviation IpConnectionCounter := (gmap IpAddr Z).

Definition ip_count (self : IpConnectionCounter) (ip : IpAddr) : Z := default 0 (self !! ip).

Definition ip_inc (self : IpConnectionCounter) (ip : IpAddr) : Z * IpConnectionCounter :=
  let v := wrap_u64 (default 0 (self !! ip) + 1) in (v, <[ip := v]> self).

Definition ip_dec (self : IpConnectionCounter) (ip : IpAddr) : IpConnectionCounter :=
  match self !! ip with
  | Some v =>
      let v := if v =? 0 then 0 else v - 1 in
      if v =? 0 then delete ip self else <[ip := v]> self
  | None => self
  end.

Definition tracked_ips (self : IpConnectionCounter) : nat := size self.

(** The counter holds [n ip] for each address, and no entry for zero. *)
Definition counter_is (c : IpConnectionCounter) (n : IpAddr → Z) : Prop :=
  ∀ ip, c !! ip = if decide (n ip = 0) then None else Some (n ip).

Lemma counter_is_count c n ip : counter_is c n → ip_count c ip = n ip.
Proof. intros H. unfold ip_count. rewrite H. destruct (decide _) as [E|]; cbn; congruence. Qed.

Lemma counter_is_ext c n n' : (∀ ip, n ip = n' ip) → counter_is c n → counter_is c n'.
Proof. intros E H ip. by rewrite H, E. Qed.

Lemma counter_is_inc c n ip :
  counter_is c n → 0 ≤ n ip → n ip + 1 < u64_mod →
  counter_is (ip_inc c ip).2 (λ i, n i + if decide (ip = i) then 1 else 0).
Proof.
  intros H H0 Hb i. cbn. change (default 0 (c !! ip)) with (ip_count c ip). rewrite (counter_is_count _ _ _ H).
  unfold wrap_u64. rewrite Z.mod_small by lia. destruct (decide (ip = i)) as [<-|Hne].
  - rewrite lookup_insert_eq, decide_False by lia. done.
  - rewrite lookup_insert_ne, H by done. by rewrite Z.add_0_r.
Qed.

Lemma counter_is_dec c n ip :
  counter_is c n → 0 < n ip → counter_is (ip_dec c ip) (λ i, n i - if decide (ip = i) then 1 else 0).
Proof.
  intros H Hpos i. unfold ip_dec. rewrite (H ip), decide_False by lia.
  replace (n ip =? 0) with false by lia. destruct (decide (ip = i)) as [<-|Hne].
  - destruct (Z.eqb_spec (n ip - 1) 0) as [E|E].
    + rewrite lookup_delete_eq, decide_True by lia. done.
    + rewrite lookup_insert_eq, decide_False by lia. done.
  - rewrite Z.sub_0_r. rewrite <-H. destruct (_ =? 0); [by rewrite lookup_delete_ne|by rewrite lookup_insert_ne].
Qed.

(** ** Buckets per client *)

Record ClientRateLimiter := mkClientRateLimiter {
  rl_capacity : Z;
  rl_refill_per_second : Z;
  rl_inner : gmap string TokenBucket;
}.

#[export] Instance ClientRateLimiter_settable : Settable ClientRateLimiter :=
  λ r, mkClientRateLimiter (rl_capacity r) (rl_refill_per_second r) (rl_inner r).

(** [refill_per_second.saturating_mul(2).max(1)] *)
Definition burst_capacity (refill_per_second : Z) : Z :=
  Z.max (Z.min (refill_per_second * 2) u32_max) 1.

Definition limiter_new (refill_per_second : Z) : ClientRateLimiter :=
  mkClientRateLimiter (burst_capacity refill_per_second) refill_per_second ∅.

(** [ClientRateLimiter::try_consume] *)
Definition limiter_try_consume (self : ClientRateLimiter) (client_id : string) (now : Instant)
    : bool * ClientRateLimiter :=
  if rl_refill_per_second self =? 0 then (true, self)
  else
    let bucket :=
      match rl_inner self !! client_id with
      | Some bucket => bucket
      | None => bucket_new (rl_capacity self) (rl_refill_per_second self) now
      end in
    let '(ok, bucket) := bucket_try_consume bucket 1 now in
    (ok, self <| rl_inner ::= <[client_id := bucket]> |>).

Definition limiter_remove (self : ClientRateLimiter) (client_id : string) : ClientRateLimiter :=
  self <| rl_inner ::= delete client_id |>.

Definition limiter_reset (self : ClientRateLimiter) (refill_per_second : Z) : ClientRateLimiter :=
  mkClientRateLimiter (burst_capacity refill_per_second) refill_per_second ∅.

(** A bucket of rate 2 per second lets a burst of 4 through, then 2 per second. *)
Fixpoint consume_at (l : ClientRateLimiter) (c : string) (nows : list Instant) : list bool :=
  match nows with
  | [] => []
  | now :: nows => let '(ok, l) := limiter_try_consume l c now in ok :: consume_at l c nows
  end.

Example burst_then_rate :
  consume_at (limiter_new 2) "c" [0; 0; 0; 0; 0; 500000000; 500000000; 1500000000]
  = [true; true; true; true; false; true; false; true].
Proof. vm_compute. reflexivity. Qed.
