(* ===== verification/LimiterTheorems.v ===== *)
(** * The rate limiter, against an exact token bucket

    The level of a bucket is an [f64].  On whole seconds every operation on it is
    exact, so that the limiter decides as a bucket of integers does, which bounds
    what a client can publish in any time. *)

From Stdlib Require Import SpecFloat.
From S2P Require Import Prelude Packet Messages Limiter.

(** ** Integers in binary64 *)

(** [x] is the integer [z], of [d] binary digits, in canonical form. *)
Inductive is_int : f64 → Z → Prop :=
  | int_zero : is_int (S754_zero false) 0
  | int_pos m d z :
      1 ≤ d ≤ 53 → 2 ^ 52 ≤ Zpos m < 2 ^ 53 → Zpos m = z * 2 ^ (53 - d) →
      is_int (S754_finite false m (d - 53)) z.

Lemma digits2_log p : Zpos (digits2_pos p) = Z.log2 (Zpos p) + 1.
Proof.
  induction p as [p IH|p IH|]; cbn [digits2_pos]; [| |done]; rewrite Pos2Z.inj_succ, IH.
  - rewrite (Pos2Z.inj_xI p), Z.log2_succ_double by lia. lia.
  - rewrite (Pos2Z.inj_xO p), Z.log2_double by lia. lia.
Qed.

Lemma digits_range p d : 0 < d → 2 ^ (d - 1) ≤ Zpos p < 2 ^ d → Zpos (digits2_pos p) = d.
Proof. intros Hd H. rewrite digits2_log. rewrite (Z.log2_unique (Zpos p) (d - 1)); [lia..|]. by replace (Z.succ (d - 1)) with d by lia. Qed.

Lemma iter_xO m n : Zpos (Pos.iter xO m n) = Zpos m * 2 ^ Zpos n.
Proof.
  induction n as [|n IH] using Pos.peano_ind; [cbn; lia|].
  rewrite Pos.iter_succ, Pos2Z.inj_xO, IH, Pos2Z.inj_succ, Z.pow_succ_r by lia. lia.
Qed.

(** Shifting out zeros loses nothing. *)
Lemma shr_1_exact a : 0 < a → shr_1 (Build_shr_record (2 * a) false false) = Build_shr_record a false false.
Proof. by destruct a. Qed.

Lemma shr_exact n a : 0 < a →
  SpecFloat.iter_pos shr_1 n (Build_shr_record (a * 2 ^ Zpos n) false false) = Build_shr_record a false false.
Proof.
  revert a. induction n as [n IH|n IH|]; intros a Ha; cbn [SpecFloat.iter_pos].
  - replace (a * 2 ^ Zpos n~1) with (2 * (a * 2 ^ Zpos n * 2 ^ Zpos n)).
    + rewrite shr_1_exact by nia. rewrite !IH by nia. done.
    + rewrite (Pos2Z.inj_xI n), Z.pow_add_r, Z.pow_mul_r, <-Z.pow_mul_r by lia.
      replace (2 * Zpos n) with (Zpos n + Zpos n) by lia. rewrite Z.pow_add_r by lia. lia.
  - replace (a * 2 ^ Zpos n~0) with (a * 2 ^ Zpos n * 2 ^ Zpos n); [by rewrite !IH by nia|].
    rewrite (Pos2Z.inj_xO n). replace (2 * Zpos n) with (Zpos n + Zpos n) by lia. rewrite Z.pow_add_r by lia. lia.
  - replace (a * 2 ^ 1) with (2 * a) by lia. by apply shr_1_exact.
Qed.

Lemma pow_scale a b c k : 0 ≤ k → a ≤ b < c → a * 2 ^ k ≤ b * 2 ^ k < c * 2 ^ k.
Proof. intros Hk H. pose proof (Z.pow_pos_nonneg 2 k ltac:(lia) Hk). nia. Qed.

Lemma fexp_small d : 1 ≤ d → fexp f64_prec f64_emax d = d - 53.
Proof. intros H. unfold fexp, emin, f64_prec, f64_emax. lia. Qed.

(** Rounding leaves an integer alone: [m] is [z], of [d] digits, shifted by [e]. *)
Lemma round_aux_exact m e z d :
  1 ≤ d ≤ 53 → e ≤ d - 53 → 2 ^ (d - 1) ≤ z < 2 ^ d → Zpos m = z * 2 ^ (- e) →
  is_int (binary_round_aux f64_prec f64_emax false (Zpos m) e loc_Exact) z.
Proof.
  intros Hd He Hz Hm.
  assert (Hdig : Zpos (digits2_pos m) = d - e).
  { apply digits_range; [lia|]. rewrite Hm. replace (d - e - 1) with (d - 1 + - e) by lia.
    replace (d - e) with (d + - e) by lia. rewrite !Z.pow_add_r by lia. apply pow_scale; [lia|done]. }
  assert (Hq : ∃ q, Zpos q = z * 2 ^ (53 - d) ∧ 2 ^ 52 ≤ Zpos q < 2 ^ 53 ∧ Zpos m = Zpos q * 2 ^ (d - 53 - e)).
  { assert (Hr : 2 ^ 52 ≤ z * 2 ^ (53 - d) < 2 ^ 53).
    { replace (2 ^ 52) with (2 ^ (d - 1) * 2 ^ (53 - d)) by (rewrite <-Z.pow_add_r by lia; f_equal; lia).
      replace (2 ^ 53) with (2 ^ d * 2 ^ (53 - d)) by (rewrite <-Z.pow_add_r by lia; f_equal; lia).
      apply pow_scale; [lia|done]. }
    destruct (z * 2 ^ (53 - d)) as [|q|q] eqn:E; [lia| |lia]. exists q. split; [done|]. split; [done|].
    rewrite <-E, Hm. replace (- e) with ((53 - d) + (d - 53 - e)) by lia. rewrite Z.pow_add_r by lia. lia. }
  destruct Hq as (q & Hq & Hr & Hmq).
  assert (Hs : shr_fexp f64_prec f64_emax (Zpos m) e loc_Exact = (Build_shr_record (Zpos q) false false, d - 53)).
  { unfold shr_fexp. cbn [Zdigits2 shr_record_of_loc]. rewrite Hdig.
    replace (d - e + e) with d by lia. rewrite fexp_small by lia. unfold shr. rewrite Hmq.
    destruct (d - 53 - e) as [|n|n] eqn:En; [|f_equal; [by apply shr_exact|lia]|lia].
    f_equal; [f_equal|]; lia. }
  unfold binary_round_aux. rewrite Hs. cbn [shr_m loc_of_shr_record round_nearest_even].
  assert (Hs2 : shr_fexp f64_prec f64_emax (Zpos q) (d - 53) loc_Exact = (Build_shr_record (Zpos q) false false, d - 53)).
  { unfold shr_fexp. cbn [Zdigits2 shr_record_of_loc]. rewrite (digits_range q 53) by lia.
    replace (53 + (d - 53)) with d by lia. rewrite fexp_small by lia. by rewrite Z.sub_diag. }
  rewrite Hs2. cbn [shr_m]. unfold f64_prec, f64_emax. replace (d - 53 <=? 1024 - 53) with true by lia.
  by apply int_pos.
Qed.

Lemma round_exact m e z d :
  1 ≤ d ≤ 53 → e ≤ 0 → 2 ^ (d - 1) ≤ z < 2 ^ d → Zpos m = z * 2 ^ (- e) →
  is_int (binary_round f64_prec f64_emax false m e) z.
Proof.
  intros Hd He Hz Hm.
  assert (Hdig : Zpos (digits2_pos m) = d - e).
  { apply digits_range; [lia|]. rewrite Hm. replace (d - e - 1) with (d - 1 + - e) by lia.
    replace (d - e) with (d + - e) by lia. rewrite !Z.pow_add_r by lia. apply pow_scale; [lia|done]. }
  unfold binary_round. rewrite Hdig. replace (d - e + e) with d by lia. rewrite fexp_small by lia.
  unfold shl_align. destruct (d - 53 - e) as [|n|n] eqn:En.
  - apply (round_aux_exact _ _ _ d); [lia..|done].
  - apply (round_aux_exact _ _ _ d); [lia..|done].
  - apply (round_aux_exact _ _ _ d); [lia..|]. rewrite iter_xO, Hm.
    replace (- (d - 53)) with (- e + Zpos n) by lia. rewrite Z.pow_add_r by lia. lia.
Qed.

(** Any integer below 2^53, however it is shifted. *)
Lemma normalize_exact z k :
  0 ≤ z < 2 ^ 53 → 0 ≤ k → is_int (binary_normalize f64_prec f64_emax (z * 2 ^ k) (- k) false) z.
Proof.
  intros Hz Hk. destruct (decide (z = 0)) as [->|Hne]; [apply int_zero|].
  pose proof (Z.log2_spec z ltac:(lia)) as Hl. pose proof (Z.log2_nonneg z).
  assert (Z.log2 z < 53) by (apply Z.log2_lt_pow2; lia).
  pose proof (Z.pow_pos_nonneg 2 k ltac:(lia) Hk). destruct (z * 2 ^ k) as [|m|m] eqn:E; [nia| |nia].
  apply (round_exact _ _ _ (Z.log2 z + 1)); [lia..| |].
  - by replace (Z.log2 z + 1 - 1) with (Z.log2 z) by lia.
  - by rewrite Z.opp_involutive.
Qed.

Lemma of_Z_exact z : 0 ≤ z < 2 ^ 53 → is_int (f64_of_Z z) z.
Proof. intros Hz. pose proof (normalize_exact z 0 Hz ltac:(lia)) as H. by rewrite Z.mul_1_r in H. Qed.

Lemma int_range m d z :
  1 ≤ d ≤ 53 → 2 ^ 52 ≤ Zpos m < 2 ^ 53 → Zpos m = z * 2 ^ (53 - d) → 2 ^ (d - 1) ≤ z < 2 ^ d.
Proof.
  intros Hd Hm E. pose proof (Z.pow_pos_nonneg 2 (53 - d) ltac:(lia) ltac:(lia)) as Hp.
  assert (2 ^ 52 = 2 ^ (d - 1) * 2 ^ (53 - d)) by (rewrite <-Z.pow_add_r by lia; f_equal; lia).
  assert (2 ^ 53 = 2 ^ d * 2 ^ (53 - d)) by (rewrite <-Z.pow_add_r by lia; f_equal; lia). nia.
Qed.

Lemma int_nonneg x z : is_int x z → 0 ≤ z.
Proof.
  intros [|m d z' Hd Hm E]; [done|]. pose proof (int_range _ _ _ Hd Hm E).
  pose proof (Z.pow_pos_nonneg 2 (d - 1) ltac:(lia) ltac:(lia)). lia.
Qed.

Lemma align_int m d z ez :
  1 ≤ d ≤ 53 → Zpos m = z * 2 ^ (53 - d) → ez ≤ d - 53 → Zpos (shl_align m (d - 53) ez).1 = z * 2 ^ (- ez).
Proof.
  intros Hd E Hez. unfold shl_align. destruct (ez - (d - 53)) as [|n|n] eqn:En; cbn [fst]; [|lia|].
  - rewrite E. do 2 f_equal. lia.
  - rewrite iter_xO, E. replace (- ez) with ((53 - d) + Zpos n) by lia. rewrite Z.pow_add_r by lia. lia.
Qed.

Lemma add_int x y a b : is_int x a → is_int y b → a + b < 2 ^ 53 → is_int (f64_add x y) (a + b).
Proof.
  intros Hx Hy Hs. pose proof (int_nonneg _ _ Hx). pose proof (int_nonneg _ _ Hy).
  destruct Hx as [|m d a Hd Hm E]; [by destruct Hy; rewrite Z.add_0_l; [apply int_zero|apply int_pos]|].
  destruct Hy as [|m' d' b Hd' Hm' E']; [rewrite Z.add_0_r; by apply int_pos|].
  unfold f64_add. cbn [SFadd cond_Zopp]. set (ez := Z.min _ _).
  rewrite (align_int m d a ez), (align_int m' d' b ez), <-Z.mul_add_distr_r by (done || lia).
  rewrite <-(Z.opp_involutive ez) at 2. apply normalize_exact; lia.
Qed.

Lemma sub_int x y a b : is_int x a → is_int y b → a < 2 ^ 53 → b ≤ a → is_int (f64_sub x y) (a - b).
Proof.
  intros Hx Hy Hs Hab. pose proof (int_nonneg _ _ Hx). pose proof (int_nonneg _ _ Hy).
  destruct Hy as [|m' d' b Hd' Hm' E']; [rewrite Z.sub_0_r; by destruct Hx; [apply int_zero|apply int_pos]|].
  pose proof (int_range _ _ _ Hd' Hm' E'). pose proof (Z.pow_pos_nonneg 2 (d' - 1) ltac:(lia) ltac:(lia)).
  destruct Hx as [|m d a Hd Hm E]; [lia|].
  unfold f64_sub. cbn [SFsub cond_Zopp]. set (ez := Z.min _ _).
  rewrite (align_int m d a ez), (align_int m' d' b ez), <-Z.mul_sub_distr_r by (done || lia).
  rewrite <-(Z.opp_involutive ez) at 2. apply normalize_exact; lia.
Qed.

Lemma mul_int x y a b : is_int x a → is_int y b → a * b < 2 ^ 53 → is_int (f64_mul x y) (a * b).
Proof.
  intros Hx Hy Hs. destruct Hx as [|m d a Hd Hm E]; [by destruct Hy; rewrite Z.mul_0_l; apply int_zero|].
  destruct Hy as [|m' d' b Hd' Hm' E']; [rewrite Z.mul_0_r; by apply int_zero|].
  pose proof (int_range _ _ _ Hd Hm E) as Ha. pose proof (int_range _ _ _ Hd' Hm' E') as Hb.
  pose proof (Z.pow_pos_nonneg 2 (d - 1) ltac:(lia) ltac:(lia)). pose proof (Z.pow_pos_nonneg 2 (d' - 1) ltac:(lia) ltac:(lia)).
  assert (Hab : 0 < a * b) by nia. pose proof (Z.log2_spec _ Hab) as Hl.
  assert (Z.log2 (a * b) < 53) by (apply Z.log2_lt_pow2; lia).
  assert (d - 1 + (d' - 1) ≤ Z.log2 (a * b)).
  { apply Z.log2_le_pow2; [done|]. rewrite Z.pow_add_r by lia. nia. }
  unfold f64_mul. cbn [SFmul xorb]. apply (round_aux_exact _ _ _ (Z.log2 (a * b) + 1)); [lia|lia| |].
  - by replace (Z.log2 (a * b) + 1 - 1) with (Z.log2 (a * b)) by lia.
  - rewrite Pos2Z.inj_mul, E, E'. replace (- (d - 53 + (d' - 53))) with ((53 - d) + (53 - d')) by lia.
    rewrite Z.pow_add_r by lia. lia.
Qed.

Lemma compare_int x y a b : is_int x a → is_int y b → SFcompare x y = Some (a ?= b).
Proof.
  intros Hx Hy. destruct Hx as [|m d a Hd Hm E], Hy as [|m' d' b Hd' Hm' E']; cbn [SFcompare].
  - done.
  - pose proof (int_range _ _ _ Hd' Hm' E') as Hb. pose proof (Z.pow_pos_nonneg 2 (d' - 1) ltac:(lia) ltac:(lia)).
    f_equal. symmetry. apply Z.compare_lt_iff. lia.
  - pose proof (int_range _ _ _ Hd Hm E) as Ha. pose proof (Z.pow_pos_nonneg 2 (d - 1) ltac:(lia) ltac:(lia)).
    f_equal. symmetry. apply Z.compare_gt_iff. lia.
  - pose proof (int_range _ _ _ Hd Hm E) as Ha. pose proof (int_range _ _ _ Hd' Hm' E') as Hb. f_equal.
    destruct (Z.compare_spec (d - 53) (d' - 53)) as [Heq|Hlt|Hgt].
    + assert (d' = d) as -> by lia. change (Pos.compare_cont Eq m m') with (Zpos m ?= Zpos m').
      rewrite E, E'. rewrite <-Zmult_compare_compat_r; [done|].
      apply Z.lt_gt, Z.pow_pos_nonneg; lia.
    + symmetry. apply Z.compare_lt_iff. pose proof (Z.pow_le_mono_r 2 d (d' - 1) ltac:(lia) ltac:(lia)). lia.
    + symmetry. apply Z.compare_gt_iff. pose proof (Z.pow_le_mono_r 2 d' (d - 1) ltac:(lia) ltac:(lia)). lia.
Qed.

Lemma leb_int x y a b : is_int x a → is_int y b → SFleb x y = (a <=? b).
Proof. intros Hx Hy. unfold SFleb, Z.leb. by rewrite (compare_int _ _ _ _ Hx Hy). Qed.

Lemma min_int x y a b : is_int x a → is_int y b → is_int (f64_min x y) (Z.min a b).
Proof.
  intros Hx Hy. assert (Hf : f64_min x y = if SFltb x y then x else y) by by destruct Hx, Hy.
  rewrite Hf. unfold SFltb. rewrite (compare_int _ _ _ _ Hx Hy). destruct (Z.compare_spec a b) as [->|Hlt|Hgt].
  - by rewrite Z.min_id.
  - by rewrite Z.min_l by lia.
  - by rewrite Z.min_r by lia.
Qed.

(** A whole number of seconds. *)
Lemma as_secs_int k : 0 ≤ k < 2 ^ 53 → is_int (as_secs_f64 (from_secs k)) k.
Proof.
  intros Hk. unfold as_secs_f64, from_secs, nanos_per_sec. rewrite Z_div_mult, Z_mod_mult by lia.
  rewrite <-(Z.add_0_r k) at 2. apply add_int; [by apply of_Z_exact| |lia].
  vm_compute. apply int_zero.
Qed.

(** ** The exact bucket *)

(** A bucket of integers, asked at the seconds [ks]. *)
Fixpoint exact_run (cap rate level last : Z) (ks : list Z) : list bool :=
  match ks with
  | [] => []
  | k :: ks =>
      let level := Z.min (level + (k - last) * rate) cap in
      if 1 <=? level then true :: exact_run cap rate (level - 1) k ks else false :: exact_run cap rate level k ks
  end.

(** Not before [last], and at most 2^20 seconds (twelve days) apart. *)
Fixpoint spaced (last : Z) (ks : list Z) : Prop :=
  match ks with
  | [] => True
  | k :: ks => last ≤ k ≤ last + 2 ^ 20 ∧ spaced k ks
  end.

Definition count_true (l : list bool) : Z := Z.of_nat (length (filter (λ b, b = true) l)).

Section Exact.
Context (t0 : Instant) (cap rate : Z).
Hypothesis rate_range : 0 ≤ rate ≤ u32_max.
Hypothesis cap_range : 1 ≤ cap ≤ u32_max.

Definition at_sec (k : Z) : Instant := t0 + from_secs k.

(** The bucket holds [level] tokens since second [last]. *)
Definition holds (b : TokenBucket) (level last : Z) : Prop :=
  tb_capacity b = cap ∧ tb_refill_per_second b = rate ∧ is_int (tokens b) level ∧ level ≤ cap ∧ last_refill b = at_sec last.

Lemma new_holds k : holds (bucket_new cap rate (at_sec k)) cap k.
Proof. repeat split; [|lia]. apply of_Z_exact. unfold u32_max in *. lia. Qed.

Lemma refill_exact b level last k :
  holds b level last → last ≤ k ≤ last + 2 ^ 20 → holds (refill b (at_sec k)) (Z.min (level + (k - last) * rate) cap) k.
Proof.
  intros (H1 & H2 & H3 & H4 & H5) Hk. pose proof (int_nonneg _ _ H3) as H0. unfold refill. rewrite H5.
  replace (duration_since (at_sec k) (at_sec last)) with (from_secs (k - last))
    by (unfold duration_since, at_sec, from_secs, nanos_per_sec; lia).
  rewrite (leb_int _ _ (k - last) 0); [|apply as_secs_int; lia|apply of_Z_exact; lia].
  destruct (Z.leb_spec (k - last) 0) as [Hle|Hgt].
  - assert (k = last) as -> by lia. rewrite Z.sub_diag, Z.mul_0_l, Z.add_0_r, Z.min_l by lia. by repeat split.
  - unfold u32_max in *. assert ((k - last) * rate ≤ 2 ^ 20 * 4294967295) by nia.
    repeat split; cbn; [done|done| |lia]. rewrite H1, H2.
    apply min_int; [|apply of_Z_exact; lia]. apply add_int; [done| |lia].
    apply mul_int; [apply as_secs_int; lia|apply of_Z_exact; lia|lia].
Qed.

Lemma consume_exact b level last k :
  holds b level last → last ≤ k ≤ last + 2 ^ 20 →
  let level' := Z.min (level + (k - last) * rate) cap in
  let '(ok, b') := bucket_try_consume b 1 (at_sec k) in
  ok = (1 <=? level') ∧ holds b' (if ok then level' - 1 else level') k.
Proof.
  intros Hb Hk. pose proof (refill_exact b level last k Hb Hk) as (H1 & H2 & H3 & H4 & H5). cbv zeta.
  unfold bucket_try_consume. rewrite (leb_int _ _ 1 _ (of_Z_exact 1 ltac:(lia)) H3).
  destruct (Z.leb_spec 1 (Z.min (level + (k - last) * rate) cap)); (split; [done|]); [|by repeat split].
  repeat split; cbn; [done|done| |lia|done]. unfold u32_max in *. apply sub_int; [done|apply (of_Z_exact 1); lia|lia..].
Qed.

Lemma run_exact l c b level last ks :
  rl_capacity l = cap → rl_refill_per_second l = rate → 0 < rate → rl_inner l !! c = Some b →
  holds b level last → spaced last ks →
  consume_at l c (at_sec <$> ks) = exact_run cap rate level last ks.
Proof.
  intros Hc Hr Hpos. revert l b level last Hc Hr. induction ks as [|k ks IH]; intros l b level last Hc Hr Hb Hh Hs; [done|].
  destruct Hs as [Hk Hs]. cbn [fmap list_fmap consume_at exact_run]. unfold limiter_try_consume.
  rewrite Hr, Hb. replace (rate =? 0) with false by lia.
  pose proof (consume_exact b level last k Hh Hk) as H. cbv zeta in H.
  destruct (bucket_try_consume b 1 (at_sec k)) as [ok b']. destruct H as [-> Hh'].
  erewrite (IH _ b' _ k); [| | | |exact Hh'|done]; [by destruct (1 <=? _)|done|done|]. cbn. apply lookup_insert_eq.
Qed.
End Exact.

Lemma count_true_cons x l : count_true (x :: l) = (if x then 1 else 0) + count_true l.
Proof. unfold count_true. destruct x; [rewrite filter_cons_True by done|rewrite filter_cons_False by done]; cbn [length]; lia. Qed.

(** What a client is granted: at most what is there and what comes in. *)
Lemma exact_granted cap rate level last0 ks :
  0 ≤ rate → 0 ≤ cap → 0 ≤ level → spaced last0 ks →
  count_true (exact_run cap rate level last0 ks) ≤ level + rate * (default last0 (last ks) - last0).
Proof.
  intros Hr Hc. revert level last0. induction ks as [|k ks IH]; intros level last0 Hl Hs.
  { cbn. unfold count_true. cbn. lia. }
  destruct Hs as [Hk Hs]. cbn [exact_run]. cbv zeta. set (level' := Z.min _ _).
  assert (Hlast : default last0 (last (k :: ks)) = default k (last ks)) by (rewrite last_cons; by destruct (last ks)).
  rewrite Hlast. assert (0 ≤ level' ≤ level + (k - last0) * rate) by (subst level'; nia).
  destruct (Z.leb_spec 1 level'); rewrite count_true_cons.
  - specialize (IH (level' - 1) k ltac:(lia) Hs). nia.
  - specialize (IH level' k ltac:(lia) Hs). nia.
Qed.

(** In a window that begins with a request, at most a full bucket. *)
Lemma exact_window cap rate level last0 k ks :
  0 ≤ rate → 0 ≤ cap → 0 ≤ level → spaced last0 (k :: ks) →
  count_true (exact_run cap rate level last0 (k :: ks)) ≤ cap + rate * (default k (last ks) - k).
Proof.
  intros Hr Hc Hl [Hk Hs]. cbn [exact_run]. cbv zeta. set (level' := Z.min _ _).
  assert (0 ≤ level' ≤ cap) by (subst level'; nia). destruct (Z.leb_spec 1 level'); rewrite count_true_cons.
  - pose proof (exact_granted cap rate (level' - 1) k ks Hr Hc ltac:(lia) Hs). lia.
  - pose proof (exact_granted cap rate level' k ks Hr Hc ltac:(lia) Hs). lia.
Qed.

(** The state of the bucket after some requests. *)
Lemma exact_run_app cap rate level last0 ks ks' :
  0 ≤ rate → 0 ≤ cap → 0 ≤ level → spaced last0 (ks ++ ks') →
  ∃ level' last1, 0 ≤ level' ∧ spaced last1 ks' ∧ length (exact_run cap rate level last0 ks) = length ks ∧
    exact_run cap rate level last0 (ks ++ ks') = exact_run cap rate level last0 ks ++ exact_run cap rate level' last1 ks'.
Proof.
  intros Hr Hc. revert level last0. induction ks as [|k ks IH]; intros level last0 Hl Hs; [by exists level, last0|].
  destruct Hs as [Hk Hs]. cbn [exact_run app]. cbv zeta. set (level1 := Z.min _ _).
  assert (0 ≤ level1) by (subst level1; nia). destruct (Z.leb_spec 1 level1).
  - destruct (IH (level1 - 1) k ltac:(lia) Hs) as (l' & t' & H1 & H2 & H3 & H4). exists l', t'. cbn. by rewrite H3, H4.
  - destruct (IH level1 k ltac:(lia) Hs) as (l' & t' & H1 & H2 & H3 & H4). exists l', t'. cbn. by rewrite H3, H4.
Qed.

(** A client that asks no more than [rate] times per second is always granted;
    [used]: its requests so far in second [last0]. *)
Lemma exact_polite cap rate level last0 used ks :
  0 < rate ≤ cap → 0 ≤ used → rate ≤ level + used →
  used + Z.of_nat (length (filter (λ k, k = last0) ks)) ≤ rate →
  (∀ k, k ≠ last0 → Z.of_nat (length (filter (λ k', k' = k) ks)) ≤ rate) → spaced last0 ks →
  Forall (λ ok, ok = true) (exact_run cap rate level last0 ks).
Proof.
  intros Hr. revert level last0 used. induction ks as [|k ks IH]; intros level last0 used Hu Hl Hnow Hall Hs; [constructor|].
  destruct Hs as [Hk Hs]. cbn [exact_run]. cbv zeta.
  destruct (decide (k = last0)) as [->|Hne].
  - rewrite filter_cons_True in Hnow by done. cbn [length] in Hnow. rewrite Z.sub_diag, Z.mul_0_l, Z.add_0_r.
    replace (1 <=? Z.min level cap) with true by lia. constructor; [done|].
    apply (IH _ _ (used + 1)); [lia|lia|lia| |done]. intros k Hne. specialize (Hall k Hne).
    rewrite filter_cons_False in Hall by done. done.
  - assert (rate ≤ Z.min (level + (k - last0) * rate) cap).
    { assert (0 ≤ level) by lia. nia. }
    replace (1 <=? Z.min (level + (k - last0) * rate) cap) with true by lia. constructor; [done|].
    pose proof (Hall k Hne) as Hk'. rewrite filter_cons_True in Hk' by done. cbn [length] in Hk'.
    apply (IH _ _ 1); [lia|lia|lia| |done]. intros k' Hne'. destruct (decide (k' = last0)) as [->|Hne2].
    + rewrite filter_cons_False in Hnow by done. lia.
    + specialize (Hall k' Hne2). rewrite filter_cons_False in Hall by done. done.
Qed.

(** Twice the configured rate at once. *)
Example burst_of_twice_the_rate :
  consume_at (limiter_new 2) "c" (at_sec 0 <$> [0; 0; 0; 0; 0]) = [true; true; true; true; false].
Proof. vm_compute. reflexivity. Qed.

(** C24: Bounds of the rate limiter.  The configured [rate] is the speed at which the
    bucket refills; the bucket, full at first, holds twice as much,
    [min(2·rate, 2^32 - 1)], so that [rate] bounds what a client publishes in the long
    run and not within each second.  For requests of a client on whole seconds (from any
    instant on, at most twelve days apart), the limiter with its floating-point bucket
    decides exactly as a bucket of integers does; within any window from the request of
    second [k] to that of second [k'] it grants at most the full bucket and
    [rate * (k' - k)] more; and it refuses nothing to a client that never asks for more
    than [rate] messages within one second. *)
Theorem rate_limit_bounds rate c t0 k0 ks :
  0 < rate ≤ u32_max → spaced k0 (k0 :: ks) →
  let cap := burst_capacity rate in
  let oks := consume_at (limiter_new rate) c (at_sec t0 <$> k0 :: ks) in
  oks = exact_run cap rate cap k0 (k0 :: ks) ∧
  (∀ pre k seg post, k0 :: ks = pre ++ (k :: seg) ++ post →
     let k' := default k (last seg) in
     count_true (take (length (k :: seg)) (drop (length pre) oks)) ≤ cap + rate * (k' - k)) ∧
  ((∀ k, Z.of_nat (length (filter (λ k', k' = k) (k0 :: ks))) ≤ rate) → Forall (λ ok, ok = true) oks).
Proof.
  intros Hr Hs. cbv zeta. set (cap := burst_capacity rate).
  assert (Hcap : 1 ≤ cap ≤ u32_max ∧ rate ≤ cap) by (subst cap; unfold burst_capacity, u32_max in *; lia).
  assert (E : consume_at (limiter_new rate) c (at_sec t0 <$> k0 :: ks) = exact_run cap rate cap k0 (k0 :: ks)).
  { rewrite <-(run_exact t0 cap rate ltac:(lia) ltac:(lia)
      (mkClientRateLimiter cap rate {[c := bucket_new cap rate (at_sec t0 k0)]}) c (bucket_new cap rate (at_sec t0 k0)));
      [|done|done|lia|apply lookup_singleton_eq|apply new_holds; lia|exact Hs].
    cbn [fmap list_fmap consume_at]. unfold limiter_try_consume, limiter_new. cbn [rl_refill_per_second rl_inner rl_capacity].
    rewrite lookup_empty, lookup_singleton_eq. replace (rate =? 0) with false by lia. fold cap.
    destruct (bucket_try_consume _ 1 _) as [ok b']. f_equal. cbn. by rewrite insert_singleton_eq. }
  rewrite E. split; [done|]. split.
  - intros pre k seg post Hsplit. rewrite Hsplit in Hs |- *.
    destruct (exact_run_app cap rate cap k0 pre ((k :: seg) ++ post)) as (l' & t' & H1 & H2 & H3 & ->); [lia..|done|].
    rewrite <-H3, drop_app_length.
    destruct (exact_run_app cap rate l' t' (k :: seg) post) as (l2 & t2 & G1 & G2 & G3 & ->); [lia..|done|].
    rewrite <-G3, take_app_length. apply exact_window; [lia..|]. clear -H2. revert H2. generalize (k :: seg). intros l. revert t'.
    induction l as [|x l IH]; intros t' H; [done|]. destruct H as [Hx H]. split; [done|]. by apply IH.
  - intros Hall. apply (exact_polite _ _ _ _ 0); [lia|lia|lia|by apply Hall| |exact Hs]. intros k _. apply Hall.
Qed.

(** Three requests at once and one a second later, at one message per second. *)
Lemma rate_limit_bounds_witness :
  consume_at (limiter_new 1) "c" (at_sec 7 <$> [0; 0; 0; 1]) = [true; true; false; true] ∧
  count_true (consume_at (limiter_new 1) "c" (at_sec 7 <$> [0; 0; 0; 1])) ≤ 2 + 1 * (1 - 0).
Proof.
  assert (Hs : spaced 0 [0; 0; 0; 1]) by (cbn; lia).
  destruct (rate_limit_bounds 1 "c" 7 0 [0; 0; 1] ltac:(unfold u32_max; lia) Hs) as (E & Hw & _).
  split; [exact E|]. exact (Hw [] 0 [0; 0; 1] [] eq_refl).
Defined.
