(* ===== verification/Security.v ===== *)
(** * The security guard, [src/security/mod.rs]

    IP lists, connections per IP, payload size and publish rate in one guard
    whose policy can be replaced at run time.  The counters and the log are the
    only side effects of a check. *)

From S2P Require Import Prelude Packet Messages NetAddr Metrics IpFilter Limiter.

(** [SecurityConfig] of [src/config/settings.rs] *)
Record SecurityConfig := mkSecurityConfig {
  sc_enabled : bool;
  ip_blacklist : list string;
  ip_whitelist : list string;
  sc_max_connections_per_ip : Z;
  sc_publish_rate_per_second : Z;
  sc_max_payload_bytes : Z;
}.

Record SecurityPolicy := mkSecurityPolicy {
  sp_enabled : bool;
  acl : IpAcl;
  max_connections_per_ip : Z;
  publish_rate_per_second : Z;
  max_payload_bytes : Z;
}.

(** [#[derive(Default)]] *)
Definition SecurityPolicy_default : SecurityPolicy :=
  mkSecurityPolicy false (mkIpAcl filter_empty filter_empty) 0 0 0.

Record SecurityGuard := mkSecurityGuard {
  policy : SecurityPolicy;
  ip_counter : IpConnectionCounter;
  rate_limiter : ClientRateLimiter;
}.

#[export] Instance SecurityGuard_settable : Settable SecurityGuard :=
  λ g, mkSecurityGuard (policy g) (ip_counter g) (rate_limiter g).

Definition build_policy (cfg : SecurityConfig) : BrokerResult SecurityPolicy :=
  blacklist ← filter_new (ip_blacklist cfg);
  whitelist ← filter_new (ip_whitelist cfg);
  Ok (mkSecurityPolicy (sc_enabled cfg) (mkIpAcl blacklist whitelist)
        (sc_max_connections_per_ip cfg) (sc_publish_rate_per_second cfg)
        (sc_max_payload_bytes cfg)).

(** [SecurityGuard::new], [disabled], [reload] *)
Definition guard_new (cfg : SecurityConfig) : BrokerResult SecurityGuard :=
  p ← build_policy cfg;
  Ok (mkSecurityGuard p ∅ (limiter_new (sc_publish_rate_per_second cfg))).

Definition guard_disabled : SecurityGuard :=
  mkSecurityGuard SecurityPolicy_default ∅ (limiter_new 0).

Definition guard_reload (self : SecurityGuard) (cfg : SecurityConfig)
    : BrokerResult unit * SecurityGuard :=
  match build_policy cfg with
  | Err e => (Err e, self)
  | Ok p =>
      (Ok tt, self <| policy := p |>
                   <| rate_limiter ::= λ l, limiter_reset l (sc_publish_rate_per_second cfg) |>)
  end.

Definition guard_enabled (self : SecurityGuard) : bool := sp_enabled (policy self).

(** [check_connection], with the counter of disconnections. *)
Definition check_connection (self : SecurityGuard) (peer : SocketAddr) (m : Metrics)
    : BrokerResult unit * Metrics :=
  let p := policy self in
  if negb (sp_enabled p) then (Ok tt, m)
  else
    let ip := sa_ip peer in
    match acl_check (acl p) ip with
    | IpVerdict.Blacklisted =>
        (Err (BrokerError.RateLimited ("IP " +:+ fmt_ip ip +:+ " blacklisted")), inc_disconnect m)
    | IpVerdict.NotWhitelisted =>
        (Err (BrokerError.RateLimited ("IP " +:+ fmt_ip ip +:+ " not in whitelist")), inc_disconnect m)
    | IpVerdict.Allow =>
        if max_connections_per_ip p >? 0 then
          let current := ip_count (ip_counter self) ip in
          if current >=? max_connections_per_ip p then
            (Err (BrokerError.RateLimited ("IP " +:+ fmt_ip ip
               +:+ " exceeded max connections per ip (" +:+ fmt_Z current +:+ ")")), inc_disconnect m)
          else (Ok tt, m)
        else (Ok tt, m)
    end.

Definition on_connect (self : SecurityGuard) (peer : SocketAddr) : SecurityGuard :=
  let p := policy self in
  if negb (sp_enabled p) || (max_connections_per_ip p =? 0) then self
  else self <| ip_counter ::= λ c, (ip_inc c (sa_ip peer)).2 |>.

Definition on_disconnect (self : SecurityGuard) (peer : SocketAddr) (client_id : option string)
    : SecurityGuard :=
  let p := policy self in
  let self :=
    if sp_enabled p && (max_connections_per_ip p >? 0)
    then self <| ip_counter ::= λ c, ip_dec c (sa_ip peer) |> else self in
  match client_id with
  | Some cid => self <| rate_limiter ::= λ l, limiter_remove l cid |>
  | None => self
  end.

(** [SecurityGuard::check_publish] *)
Definition guard_check_publish (self : SecurityGuard) (client_id : string) (payload_len : Z)
    (broker_max_packet : Z) (now : Instant) : BrokerResult unit * SecurityGuard :=
  let p := policy self in
  if negb (sp_enabled p) then (Ok tt, self)
  else
    let max := if max_payload_bytes p >? 0 then max_payload_bytes p else broker_max_packet in
    if payload_len >? max then (Err (BrokerError.PacketTooLarge payload_len max), self)
    else if publish_rate_per_second p >? 0 then
      let '(ok, l) := limiter_try_consume (rate_limiter self) client_id now in
      let self := self <| rate_limiter := l |> in
      if negb ok then
        (Err (BrokerError.RateLimited ("client " +:+ client_id +:+ " publish rate exceeded")), self)
      else (Ok tt, self)
    else (Ok tt, self).

Definition tracked_ip_count (self : SecurityGuard) : nat := tracked_ips (ip_counter self).
Definition ip_connection_count (self : SecurityGuard) (ip : IpAddr) : Z := ip_count (ip_counter self) ip.

(** ** Theorems *)

(** Connections admitted and closed: what [handle_connection] does to the guard
    around a connection's life, with the peers of the live connections. *)
Inductive SecEvent :=
  | Accept (peer : SocketAddr)
  | Close (peer : SocketAddr) (client_id : option string).

Fixpoint remove_one (peer : SocketAddr) (l : list SocketAddr) : list SocketAddr :=
  match l with
  | [] => []
  | p :: l => if decide (p = peer) then l else p :: remove_one peer l
  end.

Definition sec_step (st : SecurityGuard * list SocketAddr) (ev : SecEvent)
    : SecurityGuard * list SocketAddr :=
  let '(g, live) := st in
  match ev with
  | Accept peer =>
      match (check_connection g peer METRICS).1 with
      | Ok _ => (on_connect g peer, peer :: live)
      | Err _ => st
      end
  | Close peer cid =>
      if decide (peer ∈ live) then (on_disconnect g peer cid, remove_one peer live) else st
  end.

(** The live connections from an address. *)
Definition live_from (ip : IpAddr) (live : list SocketAddr) : Z :=
  Z.of_nat (length (filter (λ p, sa_ip p = ip) live)).

Lemma live_from_cons ip p live :
  live_from ip (p :: live) = live_from ip live + (if decide (sa_ip p = ip) then 1 else 0).
Proof.
  unfold live_from. destruct (decide (sa_ip p = ip)); [rewrite filter_cons_True by done|rewrite filter_cons_False by done];
    cbn; lia.
Qed.

Lemma live_from_remove ip peer live :
  peer ∈ live → live_from ip (remove_one peer live) = live_from ip live - (if decide (sa_ip peer = ip) then 1 else 0).
Proof.
  induction live as [|p live IH]; intros Hin; [by apply not_elem_of_nil in Hin|]. cbn [remove_one].
  destruct (decide (p = peer)) as [->|Hne].
  - rewrite live_from_cons. lia.
  - rewrite !live_from_cons, IH by set_solver. lia.
Qed.

(** The counter holds the live connections of each address. *)
Definition counts_live (c : IpConnectionCounter) (live : list SocketAddr) : Prop :=
  counter_is c (λ ip, live_from ip live).

Lemma counts_live_inc c live peer :
  counts_live c live → live_from (sa_ip peer) live + 1 < u64_mod →
  counts_live (ip_inc c (sa_ip peer)).2 (peer :: live).
Proof.
  intros H Hb. eapply counter_is_ext; [|apply counter_is_inc; [exact H|unfold live_from; lia|done]].
  intros ip. by rewrite live_from_cons.
Qed.

Lemma counts_live_dec c live peer :
  counts_live c live → peer ∈ live → counts_live (ip_dec c (sa_ip peer)) (remove_one peer live).
Proof.
  intros H Hin. eapply counter_is_ext; [|apply counter_is_dec; [exact H|]].
  - intros ip. by rewrite live_from_remove.
  - unfold live_from. apply (Z.lt_le_trans _ 1); [lia|].
    assert (Hf : peer ∈ filter (λ p, sa_ip p = sa_ip peer) live) by by apply list_elem_of_filter.
    destruct (filter _ live); [by apply not_elem_of_nil in Hf|cbn; lia].
Qed.

(** What an accepted connection says about the policy and the count. *)
Lemma check_connection_ok g peer m u :
  (check_connection g peer m).1 = Ok u → sp_enabled (policy g) = true →
  acl_check (acl (policy g)) (sa_ip peer) = IpVerdict.Allow ∧
  (0 < max_connections_per_ip (policy g) →
   ip_count (ip_counter g) (sa_ip peer) < max_connections_per_ip (policy g)).
Proof.
  unfold check_connection. intros E Hen. rewrite Hen in E. cbn [negb] in E.
  destruct (acl_check _ _); [|done..]. split; [done|]. intros Hpos.
  rewrite Z_gtb_true in E by done. destruct (Z.geb_spec (ip_count (ip_counter g) (sa_ip peer)) (max_connections_per_ip (policy g)));
    [done|lia].
Qed.

Definition sec_inv (p : SecurityPolicy) (st : SecurityGuard * list SocketAddr) : Prop :=
  policy st.1 = p ∧ counts_live (ip_counter st.1) st.2 ∧
  ∀ ip, live_from ip st.2 ≤ max_connections_per_ip p.

Lemma sec_step_inv p st ev :
  sp_enabled p = true → 0 < max_connections_per_ip p < u64_mod - 1 →
  sec_inv p st → sec_inv p (sec_step st ev).
Proof.
  intros Hen Hmax. destruct st as [g live]. intros (Hp & Hc & Hl). cbn [fst snd] in *.
  destruct ev as [peer|peer cid]; cbn [sec_step].
  - destruct ((check_connection g peer METRICS).1) as [u|e] eqn:E; [|done].
    apply check_connection_ok in E as [_ Hlt]; [|by rewrite Hp].
    rewrite Hp, (counter_is_count _ _ _ Hc) in Hlt. specialize (Hlt ltac:(lia)).
    unfold sec_inv, on_connect. rewrite Hp, Hen. replace (max_connections_per_ip p =? 0) with false by lia.
    cbn [negb orb fst snd policy ip_counter]. split; [done|]. split; [apply counts_live_inc; [done|lia]|].
    intros ip. rewrite live_from_cons. destruct (decide (sa_ip peer = ip)) as [<-|]; [lia|]. specialize (Hl ip). lia.
  - destruct (decide (peer ∈ live)) as [Hin|]; [|done].
    assert (Hg : policy (on_disconnect g peer cid) = p ∧
                 ip_counter (on_disconnect g peer cid) = ip_dec (ip_counter g) (sa_ip peer)).
    { unfold on_disconnect. rewrite Hp, Hen, Z_gtb_true by lia. cbn [andb]. by destruct cid. }
    destruct Hg as [Hg1 Hg2]. unfold sec_inv. cbn [fst snd]. rewrite Hg1, Hg2.
    split; [done|]. split; [by apply counts_live_dec|]. intros ip. rewrite live_from_remove by done.
    specialize (Hl ip). destruct (decide _); lia.
Qed.

Lemma sec_run_inv p evs st :
  sp_enabled p = true → 0 < max_connections_per_ip p < u64_mod - 1 →
  sec_inv p st → sec_inv p (foldl sec_step st evs).
Proof.
  intros ??. revert st. induction evs as [|ev evs IH]; intros st Hst; [done|]. cbn [foldl].
  apply IH. by apply sec_step_inv.
Qed.

(** While the policy is not replaced and the check and the registration of
    a connection are not interleaved with others, then after any sequence of
    attempts and closures the guard's counter of every address is exactly the
    number of live connections from it (no entry when there is none), and no
    address has more than [max_connections_per_ip] live connections. *)
Theorem connection_limit cfg g evs :
  guard_new cfg = Ok g → sc_enabled cfg = true →
  0 < sc_max_connections_per_ip cfg < u64_mod - 1 →
  let st := foldl sec_step (g, []) evs in
  ∀ ip, ip_connection_count st.1 ip = live_from ip st.2
        ∧ live_from ip st.2 ≤ sc_max_connections_per_ip cfg
        ∧ (live_from ip st.2 = 0 → ip_counter st.1 !! ip = None).
Proof.
  unfold guard_new. intros Hg Hen Hmax. destruct (build_policy cfg) as [p|] eqn:Hb; [|done].
  cbn in Hg. injection Hg as <-.
  assert (Hp : sp_enabled p = true ∧ max_connections_per_ip p = sc_max_connections_per_ip cfg).
  { unfold build_policy in Hb. destruct (filter_new (ip_blacklist cfg)); [|done]. cbn in Hb.
    destruct (filter_new (ip_whitelist cfg)); [|done]. cbn in Hb. by injection Hb as <-. }
  destruct Hp as [Hpe Hpm]. rewrite <-Hpm in Hmax. intros ip. rewrite <-Hpm.
  set (st := foldl _ _ _).
  destruct (sec_run_inv p evs (mkSecurityGuard p ∅ (limiter_new (sc_publish_rate_per_second cfg)), []))
    as (_ & Hc & Hl); [done..| |].
  { split; [done|]. split; [intros i; exact (lookup_empty i)|]. intros i. unfold live_from. cbn. lia. }
  fold st in Hc, Hl. split; [exact (counter_is_count _ _ ip Hc)|]. split; [done|].
  intros E. rewrite (Hc ip), E. done.
Qed.

Definition sample_config : SecurityConfig := mkSecurityConfig true ["10.0.0.0/8"] [] 2 0 0.
Definition sample_guard : SecurityGuard :=
  match guard_new sample_config with Ok g => g | Err _ => guard_disabled end.
Definition peer (port : Z) : SocketAddr := mkSocketAddr (V4 0x01020304) port.

Lemma connection_limit_witness :
  let st := foldl sec_step (sample_guard, [])
              [Accept (peer 1); Accept (peer 2); Accept (peer 3); Close (peer 1) None] in
  ip_connection_count st.1 (V4 0x01020304) = live_from (V4 0x01020304) st.2.
Proof.
  apply (connection_limit sample_config sample_guard
           [Accept (peer 1); Accept (peer 2); Accept (peer 3); Close (peer 1) None]);
    [reflexivity|reflexivity|cbn; unfold u64_mod; lia].
Defined.

(** The check and the registration are two calls: two connections that are both
    checked before either is registered pass a limit of one. *)
Example check_then_connect_race :
  let g := match guard_new (mkSecurityConfig true [] [] 1 0 0) with Ok g => g | Err _ => guard_disabled end in
  is_ok (check_connection g (peer 1) METRICS).1 = true ∧
  is_ok (check_connection g (peer 2) METRICS).1 = true ∧
  ip_connection_count (on_connect (on_connect g (peer 1)) (peer 2)) (V4 0x01020304) = 2.
Proof. repeat split. Qed.
