(* ===== verification/Auth.v ===== *)
(** * Authentication, [src/broker/auth.rs]

    The credentials of a CONNECT against the configured accounts. *)

From S2P Require Import Prelude Packet Messages.

(** [AuthConfig], [AuthMode] and [UserConfig] of [src/config/settings.rs] *)
Module AuthMode.
Inductive AuthMode := Anonymous | UsernamePassword | Token.
End AuthMode.
Abbreviation AuthMode := AuthMode.AuthMode.

#[export] Instance AuthMode_eq_dec : EqDecision AuthMode.
Proof. solve_decision. Defined.

Record UserConfig := mkUserConfig {
  uc_username : string;
  uc_password : string;
  publish_acl : list string;
  subscribe_acl : list string;
}.

Record AuthConfig := mkAuthConfig {
  mode : AuthMode;
  allow_anonymous : bool;
  users : list UserConfig;
}.

Record AuthIdentity := mkAuthIdentity { identity_username : option string }.

(** [zip] stops with the shorter list; the difference is folded over all pairs. *)
Definition constant_time_eq (a b : list Z) : bool :=
  if negb (length a =? length b)%nat then false
  else
    let diff := foldl (λ diff xy, Z.lor diff (Z.lxor xy.1 xy.2)) 0 (zip a b) in
    diff =? 0.

(** The account branch of [authenticate], from the user name on. *)
Definition check_account (cfg : AuthConfig) (username : option string) (password : option (list Z))
    : Result AuthError AuthIdentity :=
  username ← match username with Some u => Ok u | None => Err AuthError.BadCredentials end;
  let password := default [] password in
  match List.find (λ u, String.eqb (uc_username u) username) (users cfg) with
  | None => Err AuthError.BadCredentials
  | Some user =>
      if str_is_empty (uc_password user) then Err AuthError.BadCredentials
      else if negb (constant_time_eq (as_bytes (uc_password user)) password)
      then Err AuthError.BadCredentials
      else Ok (mkAuthIdentity (Some username))
  end.

(** [Authenticator::authenticate] *)
Definition authenticate (cfg : AuthConfig) (client_id : string) (username : option string)
    (password : option (list Z)) : Result AuthError AuthIdentity :=
  if str_len client_id >? 65535 then Err AuthError.UnauthorizedClientId
  else
    match mode cfg with
    | AuthMode.Anonymous =>
        if negb (allow_anonymous cfg) then Err AuthError.AnonymousForbidden
        else Ok (mkAuthIdentity None)
    | AuthMode.UsernamePassword | AuthMode.Token =>
        if allow_anonymous cfg && bool_decide (username = None) then Ok (mkAuthIdentity None)
        else check_account cfg username password
    end.

(** ** Theorems *)

(** The fold is zero exactly when every pair is equal. *)
Lemma fold_diff_zero ps acc :
  foldl (λ diff xy, Z.lor diff (Z.lxor xy.1 xy.2)) acc ps = 0 ↔
  acc = 0 ∧ Forall (λ xy : Z * Z, xy.1 = xy.2) ps.
Proof.
  revert acc. induction ps as [|[x y] ps IH]; intros acc; cbn [foldl].
  { split; [done|by intros [? _]]. }
  rewrite IH, Z.lor_eq_0_iff, Z.lxor_eq_0_iff, Forall_cons. cbn. tauto.
Qed.

Lemma constant_time_eq_spec a b : constant_time_eq a b = true ↔ a = b.
Proof.
  unfold constant_time_eq. destruct (Nat.eqb_spec (length a) (length b)) as [Hl|Hl]; cbn [negb].
  - rewrite Z.eqb_eq, fold_diff_zero. revert b Hl. induction a as [|x a IH]; intros [|y b] Hl; try done.
    injection Hl as Hl. cbn [zip zip_with]. rewrite Forall_cons. cbn [fst snd]. split.
    + intros (_ & -> & Hf). f_equal. apply IH; [done|]. by split.
    + intros [= <- <-]. split; [done|]. split; [done|]. by apply IH.
  - split; [done|]. by intros ->.
Qed.

(** The account a name selects: the first with that name. *)
Definition account (cfg : AuthConfig) (name : string) (u : UserConfig) : Prop :=
  ∃ before after, users cfg = before ++ u :: after ∧ uc_username u = name ∧
    Forall (λ v, uc_username v ≠ name) before.

Lemma find_account cfg name u :
  List.find (λ u, String.eqb (uc_username u) name) (users cfg) = Some u ↔ account cfg name u.
Proof.
  unfold account. induction (users cfg) as [|v vs IH]; cbn [List.find].
  { split; [done|]. intros ([] & ? & ? & _); done. }
  destruct (String.eqb_spec (uc_username v) name) as [E|E].
  - split; [intros [= <-]; by exists [], vs|].
    intros ([|w before] & after & Hu & Hn & Hf); injection Hu as -> _; [done|].
    by apply Forall_cons_1 in Hf as [? _].
  - rewrite IH. split.
    + intros (before & after & -> & Hn & Hf). exists (v :: before), after. split; [done|]. split; [done|]. by constructor.
    + intros ([|w before] & after & Hu & Hn & Hf); injection Hu as -> ->; [done|].
      apply Forall_cons_1 in Hf as [_ Hf]. eauto.
Qed.

Lemma check_account_spec cfg username password id :
  check_account cfg username password = Ok id ↔
  ∃ name u, username = Some name ∧ account cfg name u ∧ uc_password u ≠ "" ∧
    default [] password = as_bytes (uc_password u) ∧ id = mkAuthIdentity (Some name).
Proof.
  unfold check_account. destruct username as [name|]; cbn [mbind result_bind]; [|split; [done|naive_solver]].
  setoid_rewrite <-find_account. split.
  - destruct (List.find _ (users cfg)) as [u|] eqn:Ef; [|done].
    destruct (str_is_empty (uc_password u)) eqn:Epw; [done|].
    destruct (constant_time_eq _ _) eqn:Ec; [|done]. apply constant_time_eq_spec in Ec. intros [= <-].
    exists name, u. split_and!; [done..| |done|done]. by intros E; rewrite E in Epw.
  - intros (n & u & [= <-] & -> & Hne & Hp & ->).
    rewrite (proj2 (constant_time_eq_spec _ _)) by done. by destruct (uc_password u).
Qed.

(** C39: A client is accepted exactly when its identifier is at most 65535
    bytes and either the mode is anonymous and anonymous access is allowed, or
    the mode uses accounts and it gave no user name while anonymous access is
    allowed, or it gave the name of an account (the first one of that name)
    whose password is not empty and is, byte for byte, the password it gave, a
    missing password counting as empty; the identity granted is that name in the
    last case and anonymous otherwise. *)
Theorem authenticate_correct cfg client_id username password id :
  authenticate cfg client_id username password = Ok id ↔
  str_len client_id ≤ 65535 ∧
  ((mode cfg = AuthMode.Anonymous ∧ allow_anonymous cfg = true ∧ id = mkAuthIdentity None) ∨
   (mode cfg ≠ AuthMode.Anonymous ∧ allow_anonymous cfg = true ∧ username = None ∧ id = mkAuthIdentity None) ∨
   (mode cfg ≠ AuthMode.Anonymous ∧ ∃ name u, username = Some name ∧ account cfg name u ∧
      uc_password u ≠ "" ∧ default [] password = as_bytes (uc_password u) ∧
      id = mkAuthIdentity (Some name))).
Proof.
  unfold authenticate. destruct (Z.gtb_spec (str_len client_id) 65535); [split; [done|lia]|].
  destruct (mode cfg) eqn:Em.
  - destruct (allow_anonymous cfg); cbn [negb]; naive_solver.
  - destruct (allow_anonymous cfg) eqn:Ea; cbn [andb]; [case_bool_decide as Hu|].
    + subst username. naive_solver.
    + rewrite check_account_spec. naive_solver.
    + rewrite check_account_spec. naive_solver.
  - destruct (allow_anonymous cfg) eqn:Ea; cbn [andb]; [case_bool_decide as Hu|].
    + subst username. naive_solver.
    + rewrite check_account_spec. naive_solver.
    + rewrite check_account_spec. naive_solver.
Qed.

Example login :
  let cfg := mkAuthConfig AuthMode.UsernamePassword false [mkUserConfig "u" "pw" [] []] in
  authenticate cfg "c" (Some "u") (Some (as_bytes "pw")) = Ok (mkAuthIdentity (Some "u")) ∧
  authenticate cfg "c" (Some "u") (Some (as_bytes "pW")) = Err AuthError.BadCredentials ∧
  authenticate cfg "c" None None = Err AuthError.BadCredentials.
Proof. repeat split. Qed.
