(* ===== verification/Plugin.v ===== *)
(** * Message plugins, [src/plugin/]

    The topic ACL ([topic_acl.rs]), the payload filter ([payload_filter.rs]),
    the HTTP forwarder's queue and its protection against internal targets
    ([forwarder.rs]), and the guard that combines them ([mod.rs]).  The channel
    to the forwarding task (tokio), the HTTP client (reqwest) and the base64
    encoder are parameters; the task itself only talks to the HTTP client. *)

From S2P Require Import Prelude Packet Messages NetAddr Subscription Metrics.

(** ** Configuration ([src/config/settings.rs]) *)

Record TopicAclConfig := mkTopicAclConfig {
  cfg_publish_blacklist : list string;
  cfg_publish_whitelist : list string;
  cfg_subscribe_blacklist : list string;
  cfg_subscribe_whitelist : list string;
}.

Record PayloadFilterConfig := mkPayloadFilterConfig {
  pf_enabled : bool;
  blacklist_keywords : list string;
  whitelist_keywords : list string;
}.

Record ForwardConfig := mkForwardConfig {
  fw_enabled : bool;
  fw_url : string;
  fw_topic_filter : string;
  fw_timeout_secs : Z;
  fw_max_queue : Z;
  fw_allow_private_network : bool;
}.

Record PluginConfig := mkPluginConfig {
  pc_enabled : bool;
  pc_topic_acl : TopicAclConfig;
  pc_payload_filter : PayloadFilterConfig;
  pc_forward : ForwardConfig;
}.

(** ** Topic ACL *)

Module AclVerdict.
Inductive AclVerdict := Allow | DeniedByBlacklist | DeniedByWhitelist.
End AclVerdict.
Abbreviation AclVerdict := AclVerdict.AclVerdict.

Record TopicAcl := mkTopicAcl {
  publish_blacklist : list string;
  publish_whitelist : list string;
  subscribe_blacklist : list string;
  subscribe_whitelist : list string;
}.

Definition TopicAcl_from_config (cfg : TopicAclConfig) : TopicAcl :=
  mkTopicAcl (cfg_publish_blacklist cfg) (cfg_publish_whitelist cfg)
    (cfg_subscribe_blacklist cfg) (cfg_subscribe_whitelist cfg).

(** The two loops of [decide]. *)
Fixpoint any_match (topic : string) (filters : list string) : bool :=
  match filters with
  | [] => false
  | f :: filters => if topic_matches_filter topic f then true else any_match topic filters
  end.

(** [TopicAcl::decide] *)
Definition acl_decide (topic : string) (blacklist whitelist : list string) : AclVerdict :=
  if any_match topic blacklist then AclVerdict.DeniedByBlacklist
  else match whitelist with
       | [] => AclVerdict.Allow
       | _ => if any_match topic whitelist then AclVerdict.Allow else AclVerdict.DeniedByWhitelist
       end.

Definition acl_check_publish (self : TopicAcl) (topic : string) : AclVerdict :=
  acl_decide topic (publish_blacklist self) (publish_whitelist self).
Definition acl_check_subscribe (self : TopicAcl) (filter : string) : AclVerdict :=
  acl_decide filter (subscribe_blacklist self) (subscribe_whitelist self).

(** ** Payload filter *)

Module PayloadVerdict.
Inductive PayloadVerdict := Allow | DeniedByBlacklist | DeniedByWhitelist.
End PayloadVerdict.
Abbreviation PayloadVerdict := PayloadVerdict.PayloadVerdict.

Record PayloadFilter := mkPayloadFilter { pf_blacklist : list (list Z); pf_whitelist : list (list Z) }.

Definition PayloadFilter_default : PayloadFilter := mkPayloadFilter [] [].
Definition PayloadFilter_from_config (cfg : PayloadFilterConfig) : PayloadFilter :=
  mkPayloadFilter (map as_bytes (blacklist_keywords cfg)) (map as_bytes (whitelist_keywords cfg)).

(** [slice::windows(n)] for [n > 0]. *)
Definition windows (n : nat) (l : list Z) : list (list Z) :=
  map (λ i, take n (drop i l)) (seq 0 (S (length l) - n)).

Definition contains_subslice (haystack needle : list Z) : bool :=
  match needle with
  | [] => true
  | _ =>
      if (length haystack <? length needle)%nat then false
      else existsb (λ w, bool_decide (w = needle)) (windows (length needle) haystack)
  end.

(** [PayloadFilter::check] *)
Definition payload_check (self : PayloadFilter) (payload : list Z) : PayloadVerdict :=
  if existsb (contains_subslice payload) (pf_blacklist self) then PayloadVerdict.DeniedByBlacklist
  else match pf_whitelist self with
       | [] => PayloadVerdict.Allow
       | kws => if existsb (contains_subslice payload) kws then PayloadVerdict.Allow
                else PayloadVerdict.DeniedByWhitelist
       end.

Definition payload_filter_is_empty (self : PayloadFilter) : bool :=
  match pf_blacklist self, pf_whitelist self with [], [] => true | _, _ => false end.

(** ** Forwarding targets *)

(** [str::find([a, b, c])], cutting before the first of the characters. *)
Fixpoint cut_at (stops : list Ascii.ascii) (s : string) : string :=
  match s with
  | EmptyString => EmptyString
  | String a s' => if existsb (Ascii.eqb a) stops then EmptyString else String a (cut_at stops s')
  end.

Fixpoint str_strip_prefix (p s : string) : option string :=
  match p, s with
  | EmptyString, _ => Some s
  | String a p, String b s => if Ascii.eqb a b then str_strip_prefix p s else None
  | String _ _, EmptyString => None
  end.

Definition extract_host (url : string) : option string :=
  after_scheme ← match str_strip_prefix "http://" url with
                 | Some r => Some r
                 | None => str_strip_prefix "https://" url
                 end;
  let authority := cut_at ["/"%char; "?"%char; "#"%char] after_scheme in
  let host_port := match rsplit_once "@"%char authority with
                   | Some (_, h) => h
                   | None => authority
                   end in
  match str_strip_prefix "[" host_port with
  | Some rest => if str_contains "]"%char rest then Some (cut_at ["]"%char] rest) else None
  | None =>
      let host := cut_at [":"%char] host_port in
      if str_is_empty host then None else Some host
  end.

Definition octet (bits : Z) (i : Z) : Z := bits / 2 ^ (24 - 8 * i) mod 256.

Definition is_forbidden_v4 (bits : Z) : bool :=
  let o0 := octet bits 0 in
  let o1 := octet bits 1 in
  if o0 =? 127 then true
  else if o0 =? 0 then true
  else if o0 =? 10 then true
  else if (o0 =? 172) && (Z.land o1 240 =? 16) then true
  else if (o0 =? 192) && (o1 =? 168) then true
  else if (o0 =? 169) && (o1 =? 254) then true
  else false.

Definition is_forbidden_ip (ip : IpAddr) : bool :=
  match ip with
  | V4 bits => is_forbidden_v4 bits
  | V6 bits =>
      let seg0 := bits / 2 ^ 112 mod 65536 in
      if bits =? 0 then true
      else if bits =? 1 then true
      else if Z.land seg0 0xFFC0 =? 0xFE80 then true
      else if Z.land seg0 0xFE00 =? 0xFC00 then true
      else if bits / 2 ^ 32 =? 0xFFFF then is_forbidden_v4 (bits mod 2 ^ 32)
      else false
  end.

Definition ascii_lower (c : Ascii.ascii) : Ascii.ascii :=
  let b := byte_of_ascii c in if in_range 65 90 b then ascii_of_byte (b + 32) else c.

Fixpoint eq_ignore_ascii_case (a b : string) : bool :=
  match a, b with
  | EmptyString, EmptyString => true
  | String x a, String y b => Ascii.eqb (ascii_lower x) (ascii_lower y) && eq_ignore_ascii_case a b
  | _, _ => false
  end.

Definition validate_forward_url (url : string) : BrokerResult unit :=
  host ← match extract_host url with
         | Some h => Ok h
         | None => Err (BrokerError.Config ("plugin.forward.url cannot parse host: " +:+ url))
         end;
  if eq_ignore_ascii_case host "localhost" then
    Err (BrokerError.Config "plugin.forward.url host 'localhost' is forbidden (SSRF protection)")
  else
    match parse_ip host with
    | Some ip =>
        if is_forbidden_ip ip then
          Err (BrokerError.Config ("plugin.forward.url host '" +:+ fmt_ip ip
            +:+ "' is forbidden (SSRF protection: loopback/private/link-local/ULA)"))
        else Ok tt
    | None => Ok tt
    end.

(** ** The forwarder *)

Record ForwardPayload := mkForwardPayload {
  fp_topic : string;
  fp_qos : Z;
  fp_retain : bool;
  fp_payload_b64 : string;
  fp_client_id : option string;
}.

Inductive ForwardSend := FwSent | FwFull | FwClosed.

(** The channel to the task, the HTTP client's construction, the encoder. *)
Class ForwardEnv := {
  FwSender : Type;
  FwChans : Type;
  fw_channel : FwChans → Z → FwSender * FwChans;
  fw_try_send : FwChans → FwSender → ForwardPayload → ForwardSend * FwChans;
  build_client : Duration → Result string unit;
  base64_encode : list Z → string;
}.

Section Forwarder.
Context {F : ForwardEnv}.

Record Forwarder := mkForwarder {
  fw_tx : option FwSender;
  topic_filter : option string;
  dropped : Z;
}.

#[export] Instance Forwarder_settable : Settable Forwarder :=
  λ f, mkForwarder (fw_tx f) (topic_filter f) (dropped f).

Definition forwarder_disabled : Forwarder := mkForwarder None None 0.

Definition starts_with (p s : string) : bool :=
  match str_strip_prefix p s with Some _ => true | None => false end.

(** [Forwarder::new]; the spawned task is the reader of the new channel. *)
Definition forwarder_new (cfg : ForwardConfig) (ch : FwChans) : BrokerResult Forwarder * FwChans :=
  if negb (fw_enabled cfg) then (Ok forwarder_disabled, ch)
  else if str_is_empty (fw_url cfg) then
    (Err (BrokerError.Config "plugin.forward.url must be set when enabled"), ch)
  else if negb (starts_with "http://" (fw_url cfg)) && negb (starts_with "https://" (fw_url cfg)) then
    (Err (BrokerError.Config ("plugin.forward.url invalid scheme: " +:+ fw_url cfg
                              +:+ " (must be http:// or https://)")), ch)
  else
    match (if negb (fw_allow_private_network cfg) then validate_forward_url (fw_url cfg) else Ok tt) with
    | Err e => (Err e, ch)
    | Ok _ =>
        let max_queue := if fw_max_queue cfg =? 0 then 1024 else fw_max_queue cfg in
        let '(tx, ch) := fw_channel ch max_queue in
        let topic_filter := if str_is_empty (fw_topic_filter cfg) then None else Some (fw_topic_filter cfg) in
        match build_client (from_secs (if fw_timeout_secs cfg =? 0 then 5 else fw_timeout_secs cfg)) with
        | Err e => (Err (BrokerError.Config ("build http client failed: " +:+ e)), ch)
        | Ok _ => (Ok (mkForwarder (Some tx) topic_filter 0), ch)
        end
    end.

Definition forwarder_enabled (self : Forwarder) : bool :=
  match fw_tx self with Some _ => true | None => false end.

(** [Forwarder::try_forward] *)
Definition try_forward (self : Forwarder) (p : Publish) (client_id : option string)
    (ch : FwChans) (m : Metrics) : Forwarder * FwChans * Metrics :=
  match fw_tx self with
  | None => (self, ch, m)
  | Some tx =>
      let skip := match topic_filter self with
                  | Some filter => negb (topic_matches_filter (p_topic p) filter)
                  | None => false
                  end in
      if skip then (self, ch, m)
      else
        let payload := mkForwardPayload (p_topic p) (QoS.as_u8 (p_qos p)) (p_retain p)
                         (base64_encode (p_payload p)) client_id in
        match fw_try_send ch tx payload with
        | (FwSent, ch) => (self, ch, m)
        | (FwFull, ch) => (self <| dropped ::= λ n, wrap_u64 (n + 1) |>, ch, inc_forward_dropped m)
        | (FwClosed, ch) => (self, ch, m)
        end
  end.

(** ** The guard *)

Record PluginPolicy := mkPluginPolicy {
  pp_enabled : bool;
  pp_topic_acl : TopicAcl;
  pp_payload_filter : PayloadFilter;
}.

Definition PluginPolicy_default : PluginPolicy :=
  mkPluginPolicy false (mkTopicAcl [] [] [] []) PayloadFilter_default.

Record PluginGuard := mkPluginGuard { pg_policy : PluginPolicy; pg_forwarder : Forwarder }.

#[export] Instance PluginGuard_settable : Settable PluginGuard :=
  λ g, mkPluginGuard (pg_policy g) (pg_forwarder g).

(** [PluginGuard::build_policy] *)
Definition plugin_build_policy (cfg : PluginConfig) : PluginPolicy :=
  mkPluginPolicy (pc_enabled cfg) (TopicAcl_from_config (pc_topic_acl cfg))
    (if pf_enabled (pc_payload_filter cfg) then PayloadFilter_from_config (pc_payload_filter cfg)
     else PayloadFilter_default).

(** [PluginGuard::new], [disabled], [reload] *)
Definition plugin_new (cfg : PluginConfig) (ch : FwChans) : PluginGuard * FwChans :=
  let policy := plugin_build_policy cfg in
  match forwarder_new (pc_forward cfg) ch with
  | (Ok f, ch) => (mkPluginGuard policy f, ch)
  | (Err _, ch) => (mkPluginGuard policy forwarder_disabled, ch)
  end.

Definition plugin_disabled : PluginGuard := mkPluginGuard PluginPolicy_default forwarder_disabled.

Definition plugin_reload (self : PluginGuard) (cfg : PluginConfig) (ch : FwChans)
    : PluginGuard * FwChans :=
  let self := self <| pg_policy := plugin_build_policy cfg |> in
  match forwarder_new (pc_forward cfg) ch with
  | (Ok f, ch) => (self <| pg_forwarder := f |>, ch)
  | (Err _, ch) => (self, ch)
  end.

(** [PluginGuard::check_publish] *)
Definition plugin_check_publish (self : PluginGuard) (p : Publish) : BrokerResult unit :=
  let policy := pg_policy self in
  if negb (pp_enabled policy) then Ok tt
  else
    match acl_check_publish (pp_topic_acl policy) (p_topic p) with
    | AclVerdict.DeniedByBlacklist =>
        Err (BrokerError.InvalidTopic ("topic '" +:+ p_topic p +:+ "' denied by publish blacklist"))
    | AclVerdict.DeniedByWhitelist =>
        Err (BrokerError.InvalidTopic ("topic '" +:+ p_topic p +:+ "' not in publish whitelist"))
    | AclVerdict.Allow =>
        if negb (payload_filter_is_empty (pp_payload_filter policy)) then
          match payload_check (pp_payload_filter policy) (p_payload p) with
          | PayloadVerdict.Allow => Ok tt
          | PayloadVerdict.DeniedByBlacklist =>
              Err (BrokerError.Other ("payload of '" +:+ p_topic p +:+ "' denied by blacklist keyword"))
          | PayloadVerdict.DeniedByWhitelist =>
              Err (BrokerError.Other ("payload of '" +:+ p_topic p +:+ "' denied by whitelist keyword"))
          end
        else Ok tt
    end.

(** [PluginGuard::check_subscribe] *)
Definition plugin_check_subscribe (self : PluginGuard) (filter : string) : BrokerResult unit :=
  let policy := pg_policy self in
  if negb (pp_enabled policy) then Ok tt
  else
    match acl_check_subscribe (pp_topic_acl policy) filter with
    | AclVerdict.Allow => Ok tt
    | AclVerdict.DeniedByBlacklist =>
        Err (BrokerError.InvalidTopic ("filter '" +:+ filter +:+ "' denied by subscribe blacklist"))
    | AclVerdict.DeniedByWhitelist =>
        Err (BrokerError.InvalidTopic ("filter '" +:+ filter +:+ "' not in subscribe whitelist"))
    end.

(** [PluginGuard::try_forward] *)
Definition plugin_try_forward (self : PluginGuard) (p : Publish) (client_id : option string)
    (ch : FwChans) (m : Metrics) : PluginGuard * FwChans * Metrics :=
  let '(f, ch, m) := try_forward (pg_forwarder self) p client_id ch m in
  (self <| pg_forwarder := f |>, ch, m).
End Forwarder.
Arguments Forwarder F : clear implicits.
Arguments PluginGuard F : clear implicits.
