(* ===== verification/PluginTheorems.v ===== *)
(** * Correctness of the plugins

    What the guard lets through, and where it may forward to. *)

From S2P Require Import Prelude Packet Messages NetAddr Subscription Metrics IpFilter.
From S2P Require Import IpFilterTheorems Plugin.

(** ** Publish and subscribe rules *)

(** [needle] occurs in [haystack]. *)
Definition occurs (needle haystack : list Z) : Prop :=
  ∃ before after, haystack = before ++ needle ++ after.

Lemma contains_subslice_spec haystack needle :
  contains_subslice haystack needle = true ↔ occurs needle haystack.
Proof.
  unfold contains_subslice, occurs. destruct needle as [|z zs].
  { split; [|done]. intros _. by exists [], haystack. }
  set (needle := z :: zs). destruct (Nat.ltb_spec (length haystack) (length needle)) as [Hl|Hl].
  - split; [done|]. intros (b & a & ->). rewrite !length_app in Hl. lia.
  - rewrite existsb_exists. unfold windows. split.
    + intros (w & Hin & Hw). apply bool_decide_eq_true in Hw as ->.
      apply in_map_iff in Hin as (i & E & Hi). apply in_seq in Hi.
      exists (take i haystack), (drop (length needle) (drop i haystack)).
      rewrite <-E at 1. rewrite take_drop, take_drop. done.
    + intros (b & a & ->). exists needle. split; [|by apply bool_decide_eq_true].
      apply in_map_iff. exists (length b). split.
      * rewrite drop_app_length. by rewrite take_app_length.
      * apply in_seq. rewrite !length_app in *. lia.
Qed.

Lemma any_match_spec topic filters :
  any_match topic filters = true ↔ Exists (λ f, topic_matches_filter topic f = true) filters.
Proof.
  induction filters as [|f filters IH]; cbn [any_match]; [by rewrite Exists_nil|].
  rewrite Exists_cons, <-IH. destruct (topic_matches_filter topic f); naive_solver.
Qed.

(** Allowed by a blacklist and a whitelist: no rule of the first applies, and
    one of the second does unless it is empty. *)
Definition permitted {R} (applies : R → Prop) (blacklist whitelist : list R) : Prop :=
  ¬ Exists applies blacklist ∧ (whitelist = [] ∨ Exists applies whitelist).

Lemma acl_decide_spec topic black white :
  acl_decide topic black white = AclVerdict.Allow ↔
  permitted (λ f, topic_matches_filter topic f = true) black white.
Proof.
  unfold acl_decide, permitted. rewrite <-!any_match_spec.
  destruct (any_match topic black); [naive_solver|]. destruct white; [naive_solver|].
  destruct (any_match topic _); naive_solver.
Qed.

Lemma existsb_occurs payload kws :
  existsb (contains_subslice payload) kws = true ↔ Exists (λ kw, occurs kw payload) kws.
Proof.
  induction kws as [|k kws IH]; cbn [existsb]; [by rewrite Exists_nil|].
  by rewrite orb_true_iff, Exists_cons, IH, contains_subslice_spec.
Qed.

Lemma payload_check_spec f payload :
  payload_check f payload = PayloadVerdict.Allow ↔
  permitted (λ kw, occurs kw payload) (pf_blacklist f) (pf_whitelist f).
Proof.
  unfold payload_check, permitted. rewrite <-!existsb_occurs.
  destruct (existsb _ (pf_blacklist f)); [naive_solver|]. destruct (pf_whitelist f); [naive_solver|].
  destruct (existsb _ _); naive_solver.
Qed.

(** The keywords in force. *)
Definition keywords (cfg : PluginConfig) (kws : PayloadFilterConfig → list string) : list (list Z) :=
  if pf_enabled (pc_payload_filter cfg) then map as_bytes (kws (pc_payload_filter cfg)) else [].

(** A guard built from a configuration accepts a PUBLISH exactly when
    plugins are disabled, or no filter of the publish blacklist matches the topic
    and one of the whitelist does unless it is empty, and no blacklisted keyword
    occurs in the payload and a whitelisted one does unless there are none
    (keywords counting only when the payload filter is enabled); it accepts a
    subscription by the subscribe lists alone. *)
Theorem plugin_guard_correct {F : ForwardEnv} (cfg : PluginConfig) (ch : FwChans) (p : Publish)
    (filter : string) :
  let g := (plugin_new cfg ch).1 in
  (plugin_check_publish g p = Ok tt ↔
   pc_enabled cfg = false ∨
   (permitted (λ f, topic_matches_filter (p_topic p) f = true)
      (cfg_publish_blacklist (pc_topic_acl cfg)) (cfg_publish_whitelist (pc_topic_acl cfg)) ∧
    permitted (λ kw, occurs kw (p_payload p))
      (keywords cfg blacklist_keywords) (keywords cfg whitelist_keywords))) ∧
  (plugin_check_subscribe g filter = Ok tt ↔
   pc_enabled cfg = false ∨
   permitted (λ f, topic_matches_filter filter f = true)
     (cfg_subscribe_blacklist (pc_topic_acl cfg)) (cfg_subscribe_whitelist (pc_topic_acl cfg))).
Proof.
  cbv zeta. assert (Hg : pg_policy (plugin_new cfg ch).1 = plugin_build_policy cfg).
  { unfold plugin_new. by destruct (forwarder_new _ _) as [[f|e] ch']. }
  assert (Hpf : ∀ v, (if pf_enabled (pc_payload_filter cfg) then PayloadFilter_from_config (pc_payload_filter cfg)
                  else PayloadFilter_default) = v →
                pf_blacklist v = keywords cfg blacklist_keywords ∧ pf_whitelist v = keywords cfg whitelist_keywords).
  { intros v <-. unfold keywords. by destruct (pf_enabled _). }
  split.
  - unfold plugin_check_publish. rewrite Hg. cbn [plugin_build_policy pp_enabled pp_topic_acl pp_payload_filter].
    destruct (pc_enabled cfg); cbn [negb]; [|naive_solver].
    unfold acl_check_publish. cbn [TopicAcl_from_config publish_blacklist publish_whitelist].
    rewrite <-acl_decide_spec. destruct (acl_decide _ _ _); [|naive_solver..].
    set (v := if pf_enabled _ then _ else _). destruct (Hpf v eq_refl) as [<- <-].
    rewrite <-payload_check_spec. destruct (payload_filter_is_empty v) eqn:Ee; cbn [negb].
    + assert (payload_check v (p_payload p) = PayloadVerdict.Allow); [|naive_solver].
      unfold payload_filter_is_empty in Ee. unfold payload_check.
      by destruct (pf_blacklist v), (pf_whitelist v).
    + destruct (payload_check _ _); naive_solver.
  - unfold plugin_check_subscribe. rewrite Hg. cbn [plugin_build_policy pp_enabled pp_topic_acl].
    destruct (pc_enabled cfg); cbn [negb]; [|naive_solver].
    unfold acl_check_subscribe. cbn [TopicAcl_from_config subscribe_blacklist subscribe_whitelist].
    rewrite <-acl_decide_spec. destruct (acl_decide _ _ _); naive_solver.
Qed.

(** ** Forwarding targets *)

(** The IPv4 ranges a target may not be in: 127.0.0.0/8, 0.0.0.0/8, 10.0.0.0/8,
    172.16.0.0/12, 192.168.0.0/16, 169.254.0.0/16. *)
Definition internal_v4 : list (IpAddr * Z) :=
  [(V4 0x7F000000, 8); (V4 0, 8); (V4 0x0A000000, 8); (V4 0xAC100000, 12);
   (V4 0xC0A80000, 16); (V4 0xA9FE0000, 16)].

(** And for IPv6: the unspecified and loopback addresses, fe80::/10, fc00::/7,
    and an IPv4-mapped address of such a range. *)
Definition internal (ip : IpAddr) : Prop :=
  match ip with
  | V4 _ => existsb (in_cidr ip) internal_v4 = true
  | V6 bits =>
      bits = 0 ∨ bits = 1 ∨ in_cidr ip (V6 (0xFE80 * 2 ^ 112), 10) = true
      ∨ in_cidr ip (V6 (0xFC00 * 2 ^ 112), 7) = true
      ∨ (bits / 2 ^ 32 = 0xFFFF ∧ existsb (in_cidr (V4 (bits mod 2 ^ 32))) internal_v4 = true)
  end.

(** The leading 12 or 16 bits of an address through its two first octets. *)
Lemma octets_split bits k :
  0 ≤ k ≤ 8 →
  Z.shiftr bits (24 - k) mod 2 ^ (8 + k) =
  octet bits 0 * 2 ^ k + octet bits 1 / 2 ^ (8 - k).
Proof.
  intros Hk. unfold octet. rewrite Z.shiftr_div_pow2 by lia.
  replace (24 - 8 * 0) with 24 by lia. replace (24 - 8 * 1) with 16 by lia.
  set (x := bits / 2 ^ 16).
  assert (E24 : bits / 2 ^ 24 = x / 2 ^ 8).
  { subst x. rewrite Z.div_div by lia. f_equal. }
  assert (Ek : bits / 2 ^ (24 - k) = x / 2 ^ (8 - k)).
  { subst x. rewrite Z.div_div by lia. rewrite <-Z.pow_add_r by lia. do 2 f_equal. lia. }
  rewrite E24, Ek. assert (Hp : 2 ^ 8 = 2 ^ k * 2 ^ (8 - k)) by (rewrite <-Z.pow_add_r by lia; f_equal; lia).
  assert (0 < 2 ^ k) by (apply Z.pow_pos_nonneg; lia). assert (0 < 2 ^ (8 - k)) by (apply Z.pow_pos_nonneg; lia).
  rewrite Z.pow_add_r by lia. change 256 with (2 ^ 8).
  set (a := 2 ^ k) in *. set (b := 2 ^ (8 - k)) in *.
  rewrite Z.mul_comm, Z.rem_mul_r by lia.
  assert (E1 : x / b / a = x / 2 ^ 8) by (rewrite Z.div_div by lia; f_equal; lia).
  rewrite E1. assert (E2 : (x mod 2 ^ 8) / b = (x / b) mod a).
  { rewrite Hp, (Z.mul_comm a b), Z.rem_mul_r by lia. rewrite Z.mul_comm, Z.div_add by lia.
    rewrite Z.div_small by (apply Z.mod_pos_bound; lia). lia. }
  rewrite E2. lia.
Qed.

Lemma octet_range bits i : 0 ≤ octet bits i < 256.
Proof. apply Z.mod_pos_bound. lia. Qed.

Lemma land_240 o : 0 ≤ o < 256 → (Z.land o 240 =? 16) = (o / 16 =? 1).
Proof.
  intros Ho. apply eqb_prop. revert o Ho.
  apply (Z_range_forall 256 (λ o, Bool.eqb (Z.land o 240 =? 16) (o / 16 =? 1))). vm_compute. reflexivity.
Qed.

Lemma eqb_pair a b n c d : 0 ≤ b < n → 0 ≤ d < n → (a * n + b =? c * n + d) = (c =? a) && (d =? b).
Proof.
  intros. apply eq_bool_prop_intro. rewrite !Is_true_true, andb_true_iff, !Z.eqb_eq. split; [|intros [-> ->]; done].
  intros E. assert (c = a) as -> by nia. split; [done|lia].
Qed.

Lemma is_forbidden_v4_spec bits :
  is_forbidden_v4 bits = existsb (in_cidr (V4 bits)) internal_v4.
Proof.
  pose proof (octet_range bits 0). pose proof (octet_range bits 1).
  pose proof (octets_split bits 0 ltac:(lia)) as E8. pose proof (octets_split bits 4 ltac:(lia)) as E12.
  pose proof (octets_split bits 8 ltac:(lia)) as E16.
  change (24 - 0) with 24 in E8. change (8 + 0) with 8 in E8. change (2 ^ (8 - 0)) with 256 in E8.
  rewrite (Z.div_small (octet bits 1)) in E8 by lia.
  change (24 - 4) with 20 in E12. change (8 + 4) with 12 in E12. change (2 ^ (8 - 4)) with 16 in E12.
  change (24 - 8) with 16 in E16. change (8 + 8) with 16 in E16. change (2 ^ (8 - 8)) with 1 in E16.
  rewrite Z.div_1_r in E16.
  unfold internal_v4. cbn [existsb]. unfold in_cidr. cbn [same_family bits_of max_prefix andb].
  change (32 - 8) with 24. change (32 - 12) with 20. change (32 - 16) with 16.
  rewrite E8, E12, E16. change (2 ^ 0) with 1. change (2 ^ 4) with 16. change (2 ^ 8) with 256.
  rewrite Z.mul_1_r, Z.add_0_r.
  change (Z.shiftr 2130706432 24 mod 256) with 127. change (Z.shiftr 0 24 mod 256) with 0.
  change (Z.shiftr 167772160 24 mod 256) with 10. change (Z.shiftr 2886729728 20 mod 2 ^ 12) with (172 * 16 + 1).
  change (Z.shiftr 3232235520 16 mod 2 ^ 16) with (192 * 256 + 168).
  change (Z.shiftr 2851995648 16 mod 2 ^ 16) with (169 * 256 + 254).
  assert (0 ≤ octet bits 1 / 16 < 16) by (split; [apply Z.div_pos|apply Z.div_lt_upper_bound]; lia).
  rewrite !eqb_pair by lia. unfold is_forbidden_v4. rewrite land_240 by lia.
  rewrite !(Z.eqb_sym (octet bits 0)), !(Z.eqb_sym (octet bits 1)), (Z.eqb_sym (octet bits 1 / 16)).
  by destruct (127 =? octet bits 0), (0 =? octet bits 0), (10 =? octet bits 0),
    (172 =? octet bits 0), (192 =? octet bits 0), (169 =? octet bits 0),
    (1 =? octet bits 1 / 16), (168 =? octet bits 1), (254 =? octet bits 1).
Qed.

(** Masking the first segment is comparing its leading bits. *)
Lemma land_top x k v :
  0 ≤ k ≤ 16 → 0 ≤ x < 2 ^ 16 →
  (Z.land x (Z.ones 16 - Z.ones k) =? v * 2 ^ k) = (x / 2 ^ k =? v).
Proof.
  intros Hk Hx. assert (Hp : 0 < 2 ^ k) by (apply Z.pow_pos_nonneg; lia).
  assert (E : Z.land x (Z.ones 16 - Z.ones k) = x / 2 ^ k * 2 ^ k).
  { assert (Em : Z.ones 16 - Z.ones k = Z.ldiff (Z.ones 16) (Z.ones k)).
    { apply Z.sub_nocarry_ldiff. apply Z.bits_inj'. intros n Hn.
      rewrite Z.ldiff_spec, !Z.testbit_ones_nonneg, Z.bits_0 by lia. lia. }
    rewrite Em, <-Z.shiftr_div_pow2, <-Z.shiftl_mul_pow2 by lia. apply Z.bits_inj'. intros n Hn.
    rewrite Z.land_spec, Z.ldiff_spec, !Z.testbit_ones_nonneg by lia.
    destruct (Z.lt_ge_cases n k).
    - rewrite Z.shiftl_spec_low by lia. replace (n <? k) with true by lia. by rewrite andb_false_r, andb_false_r.
    - rewrite Z.shiftl_spec_high, Z.shiftr_spec by lia. replace (n - k + k) with n by lia.
      replace (n <? k) with false by lia. rewrite andb_true_r. destruct (Z.ltb_spec n 16); [by rewrite andb_true_r|].
      rewrite andb_false_r. symmetry. apply (Z.bits_above_log2); [lia|].
      destruct (Z.eq_dec x 0) as [->|]; [cbn; lia|]. apply Z.log2_lt_pow2; [lia|].
      eapply Z.lt_le_trans; [apply Hx|]. apply Z.pow_le_mono_r; lia. }
  rewrite E. apply eq_bool_prop_intro. rewrite !Is_true_true, !Z.eqb_eq. nia.
Qed.

Lemma segment_top bits k v :
  0 ≤ k ≤ 16 →
  (Z.land (bits / 2 ^ 112 mod 65536) (Z.ones 16 - Z.ones k) =? v * 2 ^ k) =
  (Z.shiftr bits (112 + k) mod 2 ^ (16 - k) =? v).
Proof.
  intros Hk. rewrite land_top; [|lia|apply Z.mod_pos_bound; lia]. f_equal.
  rewrite Z.shiftr_div_pow2, Z.pow_add_r, <-Z.div_div by lia.
  set (x := bits / 2 ^ 112). assert (Hp : 0 < 2 ^ k) by (apply Z.pow_pos_nonneg; lia).
  assert (Hq : 0 < 2 ^ (16 - k)) by (apply Z.pow_pos_nonneg; lia).
  replace 65536 with (2 ^ k * 2 ^ (16 - k)) by (rewrite <-Z.pow_add_r by lia; by replace (k + (16 - k)) with 16 by lia).
  rewrite Z.rem_mul_r by lia. rewrite Z.mul_comm, Z.div_add by lia.
  rewrite Z.div_small by (apply Z.mod_pos_bound; lia). lia.
Qed.

Lemma is_forbidden_ip_spec ip : is_forbidden_ip ip = true ↔ internal ip.
Proof.
  destruct ip as [bits|bits]; cbn [is_forbidden_ip internal]; [by rewrite is_forbidden_v4_spec|].
  pose proof (segment_top bits 6 0x3FA ltac:(lia)) as E10. pose proof (segment_top bits 9 0x7E ltac:(lia)) as E7.
  change (Z.ones 16 - Z.ones 6) with 0xFFC0 in E10. change (0x3FA * 2 ^ 6) with 0xFE80 in E10.
  change (Z.ones 16 - Z.ones 9) with 0xFE00 in E7. change (0x7E * 2 ^ 9) with 0xFC00 in E7.
  rewrite E10, E7, <-is_forbidden_v4_spec.
  unfold in_cidr. cbn [same_family bits_of max_prefix andb]. rewrite !Z.eqb_eq.
  change (Z.shiftr (0xFE80 * 2 ^ 112) (128 - 10) mod 2 ^ 10) with 0x3FA.
  change (Z.shiftr (0xFC00 * 2 ^ 112) (128 - 7) mod 2 ^ 7) with 0x7E.
  change (112 + 6) with (128 - 10). change (112 + 9) with (128 - 7).
  change (16 - 6) with 10. change (16 - 9) with 7.
  set (a := Z.shiftr bits (128 - 10) mod 2 ^ 10). set (b := Z.shiftr bits (128 - 7) mod 2 ^ 7).
  set (c := bits / 2 ^ 32). set (v := is_forbidden_v4 _).
  clearbody a b c v. clear E10 E7.
  destruct (Z.eqb_spec bits 0); [tauto|]. destruct (Z.eqb_spec bits 1); [tauto|].
  destruct (Z.eqb_spec a 0x3FA); [intuition congruence|]. destruct (Z.eqb_spec b 0x7E); [intuition congruence|].
  destruct (Z.eqb_spec c 0xFFFF); intuition congruence.
Qed.

(** C40: Unless internal targets are explicitly allowed, a forwarder that starts
    has a target whose host part exists, is not "localhost" in any case, and if
    it is an address literal of either family is outside the loopback,
    unspecified, private, link-local and unique-local ranges, also when it is an
    IPv4 address mapped into IPv6; and it never starts without a target. *)
Theorem ssrf_protection {F : ForwardEnv} (cfg : ForwardConfig) (ch ch' : FwChans) (f : Forwarder F) :
  forwarder_new cfg ch = (Ok f, ch') → fw_allow_private_network cfg = false →
  forwarder_enabled f = true →
  ∃ host, extract_host (fw_url cfg) = Some host ∧ eq_ignore_ascii_case host "localhost" = false ∧
    ∀ ip, parse_ip host = Some ip → ¬ internal ip.
Proof.
  unfold forwarder_new. destruct (fw_enabled cfg); cbn [negb]; [|by intros [= <- <-]].
  destruct (str_is_empty (fw_url cfg)); [done|]. destruct (negb _ && negb _); [done|].
  intros E Hp _. rewrite Hp in E. cbn [negb] in E. unfold validate_forward_url in E.
  destruct (extract_host (fw_url cfg)) as [host|]; cbn [mbind result_bind] in E; [|done].
  exists host. split; [done|]. destruct (eq_ignore_ascii_case host "localhost"); [done|]. split; [done|].
  intros ip Hip. rewrite Hip in E. rewrite <-is_forbidden_ip_spec.
  destruct (is_forbidden_ip ip); [done|]. done.
Qed.

(** A forwarding environment with queues as lists. *)
Module ListForward.
#[export] Instance list_forward : ForwardEnv := {|
  FwSender := nat;
  FwChans := gmap nat (Z * list ForwardPayload);
  fw_channel ch cap := let tx := fresh (dom ch) in (tx, <[tx := (cap, [])]> ch);
  fw_try_send ch tx p :=
    match ch !! tx with
    | None => (FwClosed, ch)
    | Some (cap, q) =>
        if Z.of_nat (length q) <? cap then (FwSent, <[tx := (cap, q ++ [p])]> ch) else (FwFull, ch)
    end;
  build_client _ := Ok tt;
  base64_encode _ := "";
|}.
End ListForward.
Import ListForward.

Lemma ssrf_protection_witness :
  ∃ host, extract_host "https://u:p@93.184.216.34:8080/x?y" = Some host ∧
    eq_ignore_ascii_case host "localhost" = false ∧ ∀ ip, parse_ip host = Some ip → ¬ internal ip.
Proof.
  apply (ssrf_protection (mkForwardConfig true "https://u:p@93.184.216.34:8080/x?y" "" 0 0 false)
           ∅ {[0%nat := (1024, [])]} (@mkForwarder list_forward (Some 0%nat) None 0)); reflexivity.
Defined.

(** A subscribe rule is compared with the requested filter as if it were a topic:
    a wildcard that covers a blacklisted topic is let through. *)
Example wildcard_passes_acl :
  let acl := TopicAcl_from_config (mkTopicAclConfig [] [] ["secret/x"] []) in
  acl_check_subscribe acl "secret/x" = AclVerdict.DeniedByBlacklist ∧
  acl_check_subscribe acl "secret/#" = AclVerdict.Allow.
Proof. split; reflexivity. Qed.
