(* ===== verification/Forward.v ===== *)
(** * The forwarder's background task, [forward_loop] of [src/plugin/forwarder.rs]

    It takes the messages out of the queue that [try_forward] fills and posts
    each to the configured URL, once more after a network error.  The HTTP client
    is a parameter; what it answers decides nothing else. *)

From S2P Require Import Prelude Packet Messages Plugin.

(** [client.post(url).json(msg).send()]: a status, or a network error. *)
Class Http := {
  HttpState : Type;
  post : HttpState → string → ForwardPayload → Result string Z * HttpState;
}.

(** The client makes one request per [send], in the order of the calls. *)
Class HttpLaws (H : Http) := {
  requests : HttpState → list (string * ForwardPayload);
  post_requests h url m r h' : post h url m = (r, h') → requests h' = requests h ++ [(url, m)];
}.

Section Forward.
Context {H : Http}.
Implicit Types h : HttpState.

(** The body of the loop; a status that is no success is only logged, and so is a
    second network error. *)
Definition forward_one (url : string) (msg : ForwardPayload) h : HttpState :=
  match post h url msg with
  | (Ok _, h) => h
  | (Err _, h) => (post h url msg).2
  end.

(** The loop over what the queue yields until its sender is dropped. *)
Fixpoint forward_loop (url : string) (msgs : list ForwardPayload) h : HttpState :=
  match msgs with
  | [] => h
  | msg :: msgs => forward_loop url msgs (forward_one url msg h)
  end.

(** How often each message is posted: twice exactly if the first attempt met a
    network error. *)
Fixpoint attempts (url : string) (msgs : list ForwardPayload) h : list nat :=
  match msgs with
  | [] => []
  | msg :: msgs =>
      (if is_ok (post h url msg).1 then 1%nat else 2%nat) :: attempts url msgs (forward_one url msg h)
  end.

Context {HL : HttpLaws H}.

Lemma forward_one_requests url msg h :
  requests (forward_one url msg h) =
  requests h ++ replicate (if is_ok (post h url msg).1 then 1 else 2) (url, msg).
Proof.
  unfold forward_one. destruct (post h url msg) as [[st|e] h1] eqn:E; cbn [fst is_ok].
  - by rewrite (post_requests _ _ _ _ _ E).
  - destruct (post h1 url msg) as [r h2] eqn:E2. cbn [snd].
    by rewrite (post_requests _ _ _ _ _ E2), (post_requests _ _ _ _ _ E), <-app_assoc.
Qed.

(** Every message is posted, to the one URL, in the order of the queue, once or
    twice and nothing else is; a failure never stops the messages behind it. *)
Lemma forward_loop_requests url msgs h :
  requests (forward_loop url msgs h) =
  requests h ++ concat (zip_with (λ msg n, replicate n (url, msg)) msgs (attempts url msgs h)) ∧
  length (attempts url msgs h) = length msgs ∧ Forall (λ n, 1 ≤ n ≤ 2)%nat (attempts url msgs h).
Proof.
  revert h. induction msgs as [|msg msgs IH]; intros h; cbn [forward_loop attempts zip_with concat length].
  { by rewrite app_nil_r. }
  destruct (IH (forward_one url msg h)) as (E & El & Hf). rewrite E, forward_one_requests, <-app_assoc, El.
  split; [done|]. split; [done|]. constructor; [by destruct (is_ok _); lia|done].
Qed.
End Forward.
