(* ===== verification/WsStream.v ===== *)
(** * MQTT over WebSocket, [src/net/ws_server.rs]

    [WsStream] makes a byte stream of a WebSocket: [poll_read], [poll_write],
    [poll_flush] and [poll_shutdown].  The WebSocket itself (tungstenite) is given
    by what it answers to each poll. *)

From S2P Require Import Prelude Packet Messages NetAddr.

(** ** The WebSocket *)

Module Message.
Inductive Message :=
  | Binary (data : list Z)
  | Ping (data : list Z)
  | Pong (data : list Z)
  | Close
  | Text (text : string)
  | Frame.
End Message.
Abbreviation Message := Message.Message.

(** [Poll<T>] *)
Inductive Poll (A : Type) := Ready (a : A) | Pending.
Arguments Ready {A} a.
Arguments Pending {A}.

(** The answers of [poll_next] still to come; without any, it is pending. *)
Abbreviation Answers := (list (Poll (option (Result string Message)))).

(** The stream; [sent] is what [start_send] was given. *)
Record WsStream := mkWsStream {
  inner : Answers;
  sent : list Message;
  read_buf : list Z;
  closed : bool;
}.

#[export] Instance WsStream_settable : Settable WsStream :=
  λ s, mkWsStream (inner s) (sent s) (read_buf s) (closed s).

Definition WsStream_new (inner : Answers) : WsStream := mkWsStream inner [] [] false.

(** ** Reading *)

Definition text_error : string := "text frame not supported by MQTT over WebSocket".

(** The loop over [poll_next]: the answer, the bytes put into the caller's
    buffer of [remaining] bytes, and the rest of the stream. *)
Fixpoint next_data (answers : Answers) (this : WsStream) (remaining : nat)
    : Poll (Result string (list Z)) * WsStream :=
  match answers with
  | [] => (Pending, this <| inner := [] |>)
  | answer :: answers =>
      let this := this <| inner := answers |> in
      match answer with
      | Ready (Some (Ok msg)) =>
          match msg with
          | Message.Binary data =>
              let n := Nat.min (length data) remaining in
              let this := if (n <? length data)%nat
                          then this <| read_buf ::= λ b, b ++ drop n data |> else this in
              (Ready (Ok (take n data)), this)
          | Message.Ping _ | Message.Pong _ => next_data answers this remaining
          | Message.Close => (Ready (Ok []), this <| closed := true |>)
          | Message.Text _ => (Ready (Err text_error), this)
          | Message.Frame => next_data answers this remaining
          end
      | Ready (Some (Err e)) => (Ready (Err e), this)
      | Ready None => (Ready (Ok []), this <| closed := true |>)
      | Pending => (Pending, this)
      end
  end.

Definition poll_read (this : WsStream) (remaining : nat) : Poll (Result string (list Z)) * WsStream :=
  match read_buf this with
  | _ :: _ =>
      let n := Nat.min (length (read_buf this)) remaining in
      (Ready (Ok (take n (read_buf this))), this <| read_buf ::= drop n |>)
  | [] =>
      if closed this then (Ready (Ok []), this)
      else next_data (inner this) this remaining
  end.

(** ** Writing *)

(** What [poll_ready] answers, and then [start_send]. *)
Inductive SendAnswer := SPending | SNotReady (e : string) | SFailed (e : string) | SSent.

Definition poll_write (this : WsStream) (buf : list Z) (answer : SendAnswer)
    : Poll (Result string nat) * WsStream :=
  if closed this then (Ready (Err "ws closed"), this)
  else
    match answer with
    | SSent => (Ready (Ok (length buf)), this <| sent ::= λ l, l ++ [Message.Binary buf] |>)
    | SFailed e | SNotReady e => (Ready (Err e), this)
    | SPending => (Pending, this)
    end.

(** [poll_flush] passes the answer on. *)
Definition poll_flush (this : WsStream) (answer : Poll (Result string unit))
    : Poll (Result string unit) * WsStream := (answer, this).

Definition poll_shutdown (this : WsStream) (answer : Poll (Result string unit))
    : Poll (Result string unit) * WsStream :=
  match answer with
  | Ready (Ok _) => (answer, this <| closed := true |>)
  | Ready (Err _) | Pending => (answer, this)
  end.

(** ** The handshake *)

Definition WS_SUBPROTOCOL_MQTT : string := "mqtt".

(** [negotiate_subprotocol]: the header of the request, as text if it is text,
    and whether the response names the protocol. *)
Definition negotiate_subprotocol (protos : option string) : option string :=
  match protos with
  | Some s =>
      let has_mqtt := existsb (λ p, String.eqb (trim p) WS_SUBPROTOCOL_MQTT) (str_split ","%char s) in
      if has_mqtt then Some WS_SUBPROTOCOL_MQTT else None
  | None => None
  end.

Example negotiate_some :
  negotiate_subprotocol (Some "foo, mqtt") = Some "mqtt" ∧ negotiate_subprotocol (Some "mqttv3.1") = None ∧
  negotiate_subprotocol None = None.
Proof. vm_compute. repeat split. Qed.

(** A sequence of reads with buffers of the given sizes. *)
Fixpoint reads (this : WsStream) (sizes : list nat) : list (Poll (Result string (list Z))) * WsStream :=
  match sizes with
  | [] => ([], this)
  | n :: sizes =>
      let '(r, this) := poll_read this n in
      let '(rs, this) := reads this sizes in (r :: rs, this)
  end.

(** A sequence of writes, each taken or left for another try. *)
Fixpoint writes (this : WsStream) (bufs : list (list Z * SendAnswer)) : WsStream :=
  match bufs with
  | [] => this
  | (buf, answer) :: bufs => writes (poll_write this buf answer).2 bufs
  end.
