(* ===== verification/WsTheorems.v ===== *)
(** * A WebSocket as a byte stream

    Whatever the sizes of frames and buffers, the reader gets the bytes that were
    written, once and in order, and the end of the stream only after the last of
    them; so MQTT over WebSocket decodes as over TCP. *)

From S2P Require Import Prelude Packet Messages Codec CodecProofs CodecTheorems WsStream.

(** ** Answers that carry the stream on *)

Definition is_data (a : Poll (option (Result string Message))) : bool :=
  match a with
  | Ready (Some (Ok (Message.Binary (_ :: _)))) => true
  | Ready (Some (Ok (Message.Ping _ | Message.Pong _ | Message.Frame))) => true
  | Pending => true
  | _ => false
  end.

Definition data_of (a : Poll (option (Result string Message))) : list Z :=
  match a with Ready (Some (Ok (Message.Binary d))) => d | _ => [] end.

Definition payload (answers : Answers) : list Z := concat (map data_of answers).

(** A clean end: the peer's Close frame, or the end of the WebSocket. *)
Definition is_end (a : Poll (option (Result string Message))) : Prop :=
  a = Ready (Some (Ok Message.Close)) ∨ a = Ready None.

(** The stream before its end: what is still to come, and the bytes of it. *)
Record reading (data : Answers) (stop : Poll (option (Result string Message))) (rest : Answers)
    (todo : list Z) (this : WsStream) : Prop := {
  rd_inner : inner this = data ++ stop :: rest;
  rd_data : Forall (λ a, is_data a = true) data;
  rd_closed : closed this = false;
  rd_todo : todo = read_buf this ++ payload data;
}.

(** The three outcomes of a read: nothing yet, at least one byte, the end. *)
Inductive read_outcome stop rest (len : nat) (todo : list Z)
    : Poll (Result string (list Z)) → WsStream → Prop :=
  | read_pending data this :
      reading data stop rest todo this → (length data < len)%nat →
      read_outcome stop rest len todo Pending this
  | read_bytes x chunk todo' data this :
      reading data stop rest todo' this → todo = x :: chunk ++ todo' → (length data ≤ len)%nat →
      read_outcome stop rest len todo (Ready (Ok (x :: chunk))) this
  | read_eof this :
      todo = [] → read_buf this = [] → closed this = true →
      read_outcome stop rest len todo (Ready (Ok [])) this.

Lemma next_data_outcome data stop rest this n :
  is_end stop → (0 < n)%nat → Forall (λ a, is_data a = true) data → closed this = false → read_buf this = [] →
  let '(r, this') := next_data (data ++ stop :: rest) this n in
  read_outcome stop rest (length data) (payload data) r this'.
Proof.
  intros Hstop Hn. revert this. induction data as [|a data IH]; intros this Hd Hc Hb; cbn [app next_data].
  { unfold is_end in Hstop. destruct Hstop as [E|E]; rewrite E; by apply read_eof. }
  apply Forall_cons in Hd as [Ha Hd].
  assert (Hskip : data_of a = [] →
    let '(r, this') := next_data (data ++ stop :: rest) (this <| inner := data ++ stop :: rest |>) n in
    read_outcome stop rest (length (a :: data)) (payload (a :: data)) r this').
  { intros Hp. set (this1 := this <| inner := data ++ stop :: rest |>). specialize (IH this1 Hd Hc Hb). unfold payload. cbn [map concat].
    rewrite Hp. cbn [app]. fold (payload data). destruct (next_data _ _ _) as [r this'].
    destruct IH as [data' this' Hr Hl|x chunk todo' data' this' Hr Ht Hl|this' Ht Hb' Hc'].
    - eapply (read_pending _ _ _ _ data'); [done|cbn; lia].
    - eapply (read_bytes _ _ _ _ x chunk todo' data'); [done|done|cbn; lia].
    - by apply read_eof. }
  destruct a as [[[[[|x d]| | | | |]|e]|]|]; try done; [|exact (Hskip eq_refl)..|].
  - remember (Nat.min (length (x :: d)) n) as k0 eqn:Ek. unfold payload. cbn [map data_of concat]. fold (payload data).
    destruct k0 as [|k]; [cbn [length] in Ek; lia|]. cbn [take].
    eapply (read_bytes _ _ _ _ x (take k d) (drop k d ++ payload data) data).
    + assert (Hb' : ∀ b, read_buf (if b : bool then (this <| inner := data ++ stop :: rest |>) <| read_buf ::= λ l, l ++ drop (S k) (x :: d) |>
                       else this <| inner := data ++ stop :: rest |>) = if b then drop k d else []).
      { intros []; cbn; rewrite Hb; done. }
      split; [by destruct (_ <? _)%nat|done|by destruct (_ <? _)%nat|]. rewrite Hb'.
      destruct (Nat.ltb_spec (S k) (length (x :: d))) as [Hlt|Hge]; [done|].
      cbn in Hge. by rewrite drop_ge by lia.
    + cbn. by rewrite app_assoc, take_drop.
    + cbn. lia.
  - eapply (read_pending _ _ _ _ data); [|cbn; lia]. split; [done..|]. unfold payload. cbn. by rewrite Hb.
Qed.

Lemma poll_read_outcome data stop rest todo this n :
  is_end stop → (0 < n)%nat → reading data stop rest todo this →
  let '(r, this') := poll_read this n in read_outcome stop rest (length data) todo r this'.
Proof.
  intros Hstop Hn [Hi Hd Hc Ht]. unfold poll_read. destruct (read_buf this) as [|x b] eqn:Eb.
  - rewrite Hc, Hi, Ht. by apply next_data_outcome.
  - destruct n as [|n]; [lia|]. cbn [length Nat.min take].
    eapply (read_bytes _ _ _ _ x (take (Nat.min (length b) n) b) (drop (Nat.min (length b) n) b ++ payload data) data).
    + split; [done..|]. cbn. by rewrite Eb.
    + rewrite Ht. cbn. by rewrite app_assoc, take_drop.
    + lia.
Qed.

(** ** Sequences of reads *)

(** The chunks a sequence of reads delivered. *)
Definition got (rs : list (Poll (Result string (list Z)))) : list (list Z) :=
  omap (λ r, match r with Ready (Ok chunk) => Some chunk | _ => None end) rs.

(** After the end, every read is the end. *)
Lemma reads_eof this sizes :
  read_buf this = [] → closed this = true → reads this sizes = (replicate (length sizes) (Ready (Ok [])), this).
Proof.
  intros Hb Hc. induction sizes as [|n sizes IH]; cbn [reads length replicate]; [done|].
  unfold poll_read. by rewrite Hb, Hc, IH.
Qed.

(** Reading on until the end: pending answers and chunks with at least a byte,
    which make up the bytes to come, then the end for ever. *)
Lemma reads_exact stop rest sizes : ∀ data todo this,
  is_end stop → Forall (λ n, (0 < n)%nat) sizes → reading data stop rest todo this →
  (length todo + length data < length sizes)%nat →
  ∃ before k, (reads this sizes).1 = before ++ replicate (S k) (Ready (Ok [])) ∧
    concat (got before) = todo ∧
    Forall (λ r, r = Pending ∨ ∃ x chunk, r = Ready (Ok (x :: chunk))) before.
Proof.
  induction sizes as [|n sizes IH]; intros data todo this Hstop Hn Hr Hlen; [cbn in Hlen; lia|].
  apply Forall_cons in Hn as [Hn0 Hn]. cbn [reads length] in Hlen |- *.
  pose proof (poll_read_outcome data stop rest todo this n Hstop Hn0 Hr) as Ho.
  destruct (poll_read this n) as [r this']. destruct Ho as [data' this' Hr' Hl|x chunk todo' data' this' Hr' -> Hl|this' -> Hb Hc].
  - destruct (IH data' todo this' Hstop Hn Hr' ltac:(lia)) as (before & k & E & Hg & Hf).
    destruct (reads this' sizes) as [rs this'']. exists (Pending :: before), k. cbn [fst] in E |- *. rewrite E.
    split; [done|]. split; [done|]. constructor; [by left|done].
  - destruct (IH data' todo' this' Hstop Hn Hr') as (before & k & E & Hg & Hf).
    { cbn in Hlen. rewrite length_app in Hlen. lia. }
    destruct (reads this' sizes) as [rs this'']. exists (Ready (Ok (x :: chunk)) :: before), k. cbn [fst] in E |- *.
    rewrite E. split; [done|]. split; [cbn; by rewrite <-Hg|]. constructor; [|done]. right. by exists x, chunk.
  - rewrite (reads_eof this' sizes Hb Hc). exists [], (length sizes). split; [done|]. by split.
Qed.

(** ** Writes *)

(** The buffers that were taken. *)
Definition taken (bufs : list (list Z * SendAnswer)) : list (list Z) :=
  omap (λ '(buf, answer), match answer with SSent => Some buf | _ => None end) bufs.

Lemma writes_sent bufs this :
  closed this = false →
  sent (WsStream.writes this bufs) = sent this ++ map Message.Binary (taken bufs).
Proof.
  revert this. induction bufs as [|[buf answer] bufs IH]; intros this Hc; cbn [WsStream.writes].
  { by rewrite app_nil_r. }
  unfold poll_write. rewrite Hc. destruct answer; cbn [snd]; rewrite IH by done; try done.
  cbn. by rewrite <-app_assoc.
Qed.

(** The frames a peer receives among other answers. *)
Definition frames (answers : Answers) : list Message :=
  omap (λ a, match a with Ready (Some (Ok (Message.Binary d))) => Some (Message.Binary d) | _ => None end) answers.

Lemma payload_frames answers bufs :
  frames answers = map Message.Binary bufs → payload answers = concat bufs.
Proof.
  revert bufs. induction answers as [|a answers IH]; intros bufs; cbn.
  { by destruct bufs. }
  destruct a as [[[[d| | | | |]|]|]|]; cbn; try apply IH.
  destruct bufs as [|b bufs]; [done|]. intros [= -> H]. unfold payload. cbn. f_equal. by apply IH.
Qed.

(** C26: A WebSocket carries the bytes of a connection.  Buffers written on one
    side, in any number of tries, are sent as binary frames; on the other side,
    if these frames arrive in order, among pings, pongs and polls that are not
    ready yet, and none of them is empty, before the Close frame or the end of
    the socket, then reads with buffers of any positive sizes give, after as many
    reads as there are bytes and answers, exactly the bytes written, at least one
    byte with each successful read, and the end of the stream only after all of
    them.  The codec therefore decodes the same packets and the same error from
    these reads as from the written bytes in one piece. *)
Theorem ws_transport bufs data stop rest sizes codec :
  is_end stop → Forall (λ a, is_data a = true) data → Forall (λ n, (0 < n)%nat) sizes →
  frames data = sent (WsStream.writes (WsStream_new []) bufs) →
  let bytes := concat (taken bufs) in
  (length bytes + length data < length sizes)%nat →
  ∃ before k, (reads (WsStream_new (data ++ stop :: rest)) sizes).1 = before ++ replicate (S k) (Ready (Ok [])) ∧
    concat (got before) = bytes ∧
    Forall (λ r, r = Pending ∨ ∃ x chunk, r = Ready (Ok (x :: chunk))) before ∧
    foldl (feed codec) stream_new (got before) = feed codec stream_new bytes.
Proof.
  intros Hstop Hd Hn Hf bytes Hlen. rewrite writes_sent in Hf by done. cbn [sent WsStream_new app] in Hf.
  assert (Hp : payload data = bytes) by by apply payload_frames.
  destruct (reads_exact stop rest sizes data bytes (WsStream_new (data ++ stop :: rest)) Hstop Hn) as (before & k & E & Hg & Hr).
  { split; [done|done|done|]. by rewrite Hp. }
  { done. }
  exists before, k. split; [done|]. split; [done|]. split; [done|].
  change stream_new with (feed codec stream_new []) at 1. by rewrite foldl_feed, Hg.
Qed.

Lemma ws_transport_witness :
  ∃ before k,
    (reads (WsStream_new [Pending; Ready (Some (Ok (Message.Binary [192]))); Ready (Some (Ok (Message.Ping [])));
                          Ready (Some (Ok (Message.Binary [0; 64; 2; 1; 2]))); Ready None])
       (replicate 12 2%nat)).1 = before ++ replicate (S k) (Ready (Ok [])) ∧
    foldl (feed MqttCodec_default) stream_new (got before) = feed MqttCodec_default stream_new [192; 0; 64; 2; 1; 2].
Proof.
  destruct (ws_transport [([192], SSent); ([0; 64; 2; 1; 2], SPending); ([0; 64; 2; 1; 2], SSent)]
    [Pending; Ready (Some (Ok (Message.Binary [192]))); Ready (Some (Ok (Message.Ping [])));
     Ready (Some (Ok (Message.Binary [0; 64; 2; 1; 2])))] (Ready None) [] (replicate 12 2%nat) MqttCodec_default)
    as (before & k & E & _ & _ & H).
  - right. reflexivity.
  - repeat constructor.
  - repeat constructor.
  - reflexivity.
  - apply Nat.ltb_lt. reflexivity.
  - exists before, k. split; [exact E|exact H].
Defined.

(** An empty binary frame reads as the end of the stream, although more frames
    follow. *)
Example empty_frame_ends_stream :
  (reads (WsStream_new [Ready (Some (Ok (Message.Binary []))); Ready (Some (Ok (Message.Binary [192; 0])))])
     [16%nat]).1 = [Ready (Ok [])].
Proof. reflexivity. Qed.
