(* ===== verification/Config.v ===== *)
(** * Configuration, [src/config/settings.rs] and [src/config/validate.rs]

    The settings with their defaults, and the checks they pass before the broker
    starts.  The sections that one component reads are declared with it:
    [AuthConfig] in [Auth], [SecurityConfig] in [Security], [PluginConfig] in
    [Plugin].  A [PathBuf] is its string. *)

From S2P Require Import Prelude Packet Messages NetAddr Metrics Auth IpFilter Limiter Security.
From S2P Require Import Subscription Plugin.

(** ** Sections *)

Record BrokerConfig := mkBrokerConfig {
  node_id : string;
  max_connections : Z;
  max_packet_size : Z;
  default_keep_alive : Z;
  max_subscriptions_per_client : nat;
  max_inflight : nat;
  retry_interval_secs : option Z;
  max_retries : option Z;
}.

Definition BrokerConfig_default : BrokerConfig :=
  mkBrokerConfig "lumenmq@127.0.0.1" 100000 (1024 * 1024) 120 256 1024 (Some 10) (Some 3).

Record TcpConfig := mkTcpConfig { tcp_enabled : bool; tcp_bind : string }.

Definition TcpConfig_default : TcpConfig := mkTcpConfig true "0.0.0.0:1883".

Record TlsConfig := mkTlsConfig {
  tls_enabled : bool;
  tls_bind : string;
  tls_cert : string;
  tls_key : string;
  tls_ca : string;
  tls_mutual : bool;
}.

Definition TlsConfig_default : TlsConfig := mkTlsConfig false "" "" "" "" false.

Record WebSocketConfig := mkWebSocketConfig {
  ws_enabled : bool;
  ws_bind : string;
  ws_path : string;
}.

Definition WebSocketConfig_default : WebSocketConfig := mkWebSocketConfig false "0.0.0.0:8083" "/mqtt".

Record MqttSnConfig := mkMqttSnConfig { sn_enabled : bool; sn_bind : string }.

Definition MqttSnConfig_default : MqttSnConfig := mkMqttSnConfig false "0.0.0.0:1884".

Definition AuthConfig_default : AuthConfig := mkAuthConfig AuthMode.Anonymous true [].

Record StorageConfig := mkStorageConfig {
  storage_enabled : bool;
  storage_path : string;
  cfg_max_offline_messages : nat;
  cfg_offline_message_ttl : Z;
}.

Definition StorageConfig_default : StorageConfig := mkStorageConfig false "./data/lumenmq" 1000 86400.

Module LogFormat.
Inductive LogFormat := Compact | Json | Full.
End LogFormat.
Abbreviation LogFormat := LogFormat.LogFormat.

Module LogRotation.
Inductive LogRotation := Hourly | Daily | Never.
End LogRotation.
Abbreviation LogRotation := LogRotation.LogRotation.

Record LogConfig := mkLogConfig {
  log_level : string;
  log_format : LogFormat;
  log_dir : string;
  log_rotation : LogRotation;
}.

Definition LogConfig_default : LogConfig := mkLogConfig "info" LogFormat.Compact "" LogRotation.Daily.

Record MonitorConfig := mkMonitorConfig { metrics_enabled : bool; health_check_interval : Z }.

Definition MonitorConfig_default : MonitorConfig := mkMonitorConfig false 0.

Record AdminConfig := mkAdminConfig {
  admin_enabled : bool;
  admin_bind : string;
  admin_token : string;
}.

Definition AdminConfig_default : AdminConfig := mkAdminConfig false "" "".

Definition SecurityConfig_default : SecurityConfig := mkSecurityConfig false [] [] 0 0 0.

Definition PluginConfig_default : PluginConfig :=
  mkPluginConfig false (mkTopicAclConfig [] [] [] []) (mkPayloadFilterConfig false [] [])
    (mkForwardConfig false "" "" 0 0 false).

Record Settings := mkSettings {
  s_broker : BrokerConfig;
  s_tcp : TcpConfig;
  s_tls : TlsConfig;
  s_websocket : WebSocketConfig;
  s_mqtt_sn : MqttSnConfig;
  s_auth : AuthConfig;
  s_storage : StorageConfig;
  s_log : LogConfig;
  s_monitor : MonitorConfig;
  s_admin : AdminConfig;
  s_security : SecurityConfig;
  s_plugin : PluginConfig;
}.

Definition Settings_default : Settings :=
  mkSettings BrokerConfig_default TcpConfig_default TlsConfig_default WebSocketConfig_default
    MqttSnConfig_default AuthConfig_default StorageConfig_default LogConfig_default
    MonitorConfig_default AdminConfig_default SecurityConfig_default PluginConfig_default.

#[export] Instance BrokerConfig_settable : Settable BrokerConfig :=
  λ b, mkBrokerConfig (node_id b) (max_connections b) (max_packet_size b) (default_keep_alive b)
         (max_subscriptions_per_client b) (max_inflight b) (retry_interval_secs b) (max_retries b).
#[export] Instance TcpConfig_settable : Settable TcpConfig :=
  λ c, mkTcpConfig (tcp_enabled c) (tcp_bind c).
#[export] Instance StorageConfig_settable : Settable StorageConfig :=
  λ c, mkStorageConfig (storage_enabled c) (storage_path c) (cfg_max_offline_messages c)
         (cfg_offline_message_ttl c).
#[export] Instance LogConfig_settable : Settable LogConfig :=
  λ c, mkLogConfig (log_level c) (log_format c) (log_dir c) (log_rotation c).
#[export] Instance Settings_settable : Settable Settings :=
  λ s, mkSettings (s_broker s) (s_tcp s) (s_tls s) (s_websocket s) (s_mqtt_sn s) (s_auth s)
         (s_storage s) (s_log s) (s_monitor s) (s_admin s) (s_security s) (s_plugin s).

(** ** Validation *)

Definition config_error {A} (msg : string) : BrokerResult A := Err (BrokerError.Config msg).

(** [if cond { return Err(..) }] *)
Definition reject_if (cond : bool) (msg : string) : BrokerResult unit :=
  if cond then config_error msg else Ok tt.

Definition validate_bind (bind name : string) : BrokerResult unit :=
  addr ← match parse_socket_addr bind with
         | Some addr => Ok addr
         | None => config_error (name +:+ ".bind invalid: '" +:+ bind +:+ "'")
         end;
  reject_if (sa_port addr =? 0) (name +:+ ".bind port must not be 0").

Definition is_loopback_bind (bind : string) : bool :=
  match parse_socket_addr bind with
  | Some addr => is_loopback (sa_ip addr)
  | None => false
  end.

Definition validate (s : Settings) : BrokerResult unit :=
  _ ← validate_bind (tcp_bind (s_tcp s)) "tcp";
  _ ← (if tls_enabled (s_tls s) then
         _ ← validate_bind (tls_bind (s_tls s)) "tls";
         reject_if (str_is_empty (tls_cert (s_tls s)) || str_is_empty (tls_key (s_tls s)))
           "tls.cert / tls.key must be set when tls enabled"
       else Ok tt);
  _ ← (if ws_enabled (s_websocket s) then validate_bind (ws_bind (s_websocket s)) "websocket" else Ok tt);
  _ ← (if sn_enabled (s_mqtt_sn s) then validate_bind (sn_bind (s_mqtt_sn s)) "mqtt_sn" else Ok tt);
  _ ← (if admin_enabled (s_admin s) then
         _ ← validate_bind (admin_bind (s_admin s)) "admin";
         reject_if (str_is_empty (admin_token (s_admin s)) && negb (is_loopback_bind (admin_bind (s_admin s))))
           "admin.token must be set when admin.bind is not loopback (non-127.0.0.1/::1)"
       else Ok tt);
  _ ← reject_if (max_connections (s_broker s) =? 0) "broker.max_connections must be > 0";
  _ ← reject_if (max_packet_size (s_broker s) <? 16) "broker.max_packet_size too small (<16)";
  _ ← reject_if (max_inflight (s_broker s) =? 0)%nat "broker.max_inflight must be > 0";
  _ ← reject_if (negb (allow_anonymous (s_auth s)) && bool_decide (mode (s_auth s) = AuthMode.Anonymous))
        "auth.mode=anonymous but allow_anonymous=false";
  _ ← reject_if (negb (allow_anonymous (s_auth s)) && bool_decide (users (s_auth s) = []))
        "no auth.users configured and anonymous disabled";
  Ok tt.
