(* ===== verification/Loader.v ===== *)
(** * Loading the configuration, [src/config/loader.rs]

    [default.toml], the profile's file merged over it, the environment over both,
    then deserialisation and validation.  The TOML parser and the derived
    deserialiser are the parameter [Toml]; the file system and the environment
    are the argument [LoadEnv]. *)

From S2P Require Import Prelude Packet Messages NetAddr Config.

(** ** [toml::Value]

    A table is a finite map.  A float is given by its 64 bits, a date by its
    text. *)

Unset Elimination Schemes.
Inductive Value :=
  | VString (s : string)
  | VInteger (n : Z)
  | VFloat (bits : Z)
  | VBoolean (b : bool)
  | VDatetime (text : string)
  | VArray (items : list Value)
  | VTable (t : gmap string Value).
Set Elimination Schemes.

(** [value.as_table_mut()] *)
Definition as_table (v : Value) : option (gmap string Value) :=
  match v with VTable t => Some t | _ => None end.

(** ** Merging *)

(** One round of the loop, with the recursive call as an argument of its own. *)
Definition merge_entry (merge_into : Value → Value) (k : string) (v : Value)
    (base_tbl : gmap string Value) : gmap string Value :=
  match base_tbl !! k with
  | Some existing => <[k := merge_into existing]> base_tbl
  | None => <[k := v]> base_tbl
  end.

Fixpoint deep_merge (base overlay : Value) {struct overlay} : Value :=
  match base, overlay with
  | VTable base_tbl, VTable overlay_tbl =>
      VTable (map_fold (λ k v tbl, merge_entry (λ existing, deep_merge existing v) k v tbl)
                base_tbl overlay_tbl)
  | _, overlay_val => overlay_val
  end.

(** ** The environment *)

Record LoadEnv := mkLoadEnv {
  env_var : string → option string;
  path_exists : string → bool;
  read_to_string : string → Result string string;
}.

(** The macro [get_sub_table!(key)] followed by [t.insert(field, String(v))]:
    the section is created when it is missing and left alone when it is not a
    table. *)
Definition override_field (tbl : gmap string Value) (key field v : string) : gmap string Value :=
  let entry := default (VTable ∅) (tbl !! key) in
  match as_table entry with
  | Some t => <[key := VTable (<[field := VString v]> t)]> tbl
  | None => tbl
  end.

Definition override_from (e : LoadEnv) (var key field : string) (tbl : gmap string Value)
    : gmap string Value :=
  match env_var e var with
  | Some v => override_field tbl key field v
  | None => tbl
  end.

Definition apply_env_overrides (e : LoadEnv) (value : Value) : Value :=
  match as_table value with
  | None => value
  | Some tbl =>
      let tbl := override_from e "LUMENMQ_TCP_BIND" "tcp" "bind" tbl in
      let tbl := override_from e "LUMENMQ_LOG_LEVEL" "log" "level" tbl in
      let tbl := override_from e "LUMENMQ_NODE_ID" "broker" "node_id" tbl in
      VTable tbl
  end.

(** ** [ConfigLoader] *)

Record ConfigLoader := mkConfigLoader { config_dir : string; profile : option string }.

Definition ConfigLoader_new (dir : string) : ConfigLoader := mkConfigLoader dir None.
Definition with_profile (self : ConfigLoader) (p : string) : ConfigLoader :=
  mkConfigLoader (config_dir self) (Some p).

Definition from_env (e : LoadEnv) : ConfigLoader :=
  let dir := default "config" (env_var e "LUMENMQ_CONFIG_DIR") in
  let loader := ConfigLoader_new dir in
  match env_var e "LUMENMQ_PROFILE" with
  | Some p => with_profile loader p
  | None => loader
  end.

Fixpoint ends_with_slash (s : string) : bool :=
  match s with
  | EmptyString => false
  | String c EmptyString => Ascii.eqb c slash
  | String _ s => ends_with_slash s
  end.

(** [Path::join] on Unix: an absolute path replaces the directory. *)
Definition path_join (dir file : string) : string :=
  match file with
  | String c _ =>
      if Ascii.eqb c slash then file
      else if str_is_empty dir || ends_with_slash dir then dir +:+ file
      else dir +:+ "/" +:+ file
  | EmptyString => if str_is_empty dir || ends_with_slash dir then dir else dir +:+ "/"
  end.

(** The [toml] crate: its parser and the derived [Deserialize] of [Settings],
    with their error texts. *)
Class Toml := {
  from_str : string → Result string Value;
  try_into : Value → Result string Settings;
}.

Section Load.
Context {T : Toml}.

Definition read_toml (e : LoadEnv) (path : string) : BrokerResult Value :=
  text ← map_err (λ err, BrokerError.Config ("read " +:+ path +:+ " failed: " +:+ err)) (read_to_string e path);
  map_err (λ err, BrokerError.Config ("parse " +:+ path +:+ " failed: " +:+ err)) (from_str text).

(** Steps 1 and 2: the default file, and the profile's over it if it exists. *)
Definition read_layers (self : ConfigLoader) (e : LoadEnv) : BrokerResult Value :=
  value ← read_toml e (path_join (config_dir self) "default.toml");
  match profile self with
  | Some p =>
      let profile_path := path_join (config_dir self) (p +:+ ".toml") in
      if path_exists e profile_path then
        overlay ← read_toml e profile_path;
        Ok (deep_merge value overlay)
      else Ok value
  | None => Ok value
  end.

Definition load (self : ConfigLoader) (e : LoadEnv) : BrokerResult Settings :=
  value ← read_layers self e;
  let value := apply_env_overrides e value in
  settings ← map_err (λ err, BrokerError.Config ("deserialize failed: " +:+ err)) (try_into value);
  _ ← validate settings;
  Ok settings.
End Load.
