(* ===== verification/ConfigTheorems.v ===== *)
(** * Properties of the configuration

    What [validate] accepts, what a merged configuration holds at each path, and
    which layer each setting comes from. *)

From S2P Require Import Prelude Packet Messages NetAddr Auth Config Loader.

(** ** Validation *)

(** A bind address a listener can use. *)
Definition bind_ok (bind : string) : Prop :=
  ∃ addr, parse_socket_addr bind = Some addr ∧ sa_port addr ≠ 0.

(** The contract of a valid configuration. *)
Record settings_ok (s : Settings) : Prop := {
  ok_tcp : bind_ok (tcp_bind (s_tcp s));
  ok_tls : tls_enabled (s_tls s) = true →
    bind_ok (tls_bind (s_tls s)) ∧ tls_cert (s_tls s) ≠ "" ∧ tls_key (s_tls s) ≠ "";
  ok_ws : ws_enabled (s_websocket s) = true → bind_ok (ws_bind (s_websocket s));
  ok_sn : sn_enabled (s_mqtt_sn s) = true → bind_ok (sn_bind (s_mqtt_sn s));
  ok_admin : admin_enabled (s_admin s) = true →
    bind_ok (admin_bind (s_admin s)) ∧
    (admin_token (s_admin s) ≠ "" ∨ is_loopback_bind (admin_bind (s_admin s)) = true);
  ok_connections : max_connections (s_broker s) ≠ 0;
  ok_packet_size : 16 ≤ max_packet_size (s_broker s);
  ok_inflight : max_inflight (s_broker s) ≠ 0%nat;
  ok_auth : allow_anonymous (s_auth s) = false →
    mode (s_auth s) ≠ AuthMode.Anonymous ∧ users (s_auth s) ≠ [];
}.

Lemma bind_err {A} (m : BrokerResult unit) (k : unit → BrokerResult A) a :
  (x ← m; k x) = Ok a ↔ m = Ok tt ∧ k tt = Ok a.
Proof. destruct m as [[]|e]; cbn; naive_solver. Qed.

Lemma if_ok (b : bool) (m : BrokerResult unit) : (if b then m else Ok tt) = Ok tt ↔ (b = true → m = Ok tt).
Proof. destruct b; naive_solver. Qed.

Lemma reject_if_ok cond msg : reject_if cond msg = Ok tt ↔ cond = false.
Proof. by destruct cond. Qed.

Lemma str_is_empty_false s : str_is_empty s = false ↔ s ≠ "".
Proof. by destruct s. Qed.

Lemma validate_bind_ok bind name : validate_bind bind name = Ok tt ↔ bind_ok bind.
Proof.
  unfold validate_bind, bind_ok. destruct (parse_socket_addr bind) as [addr|]; cbn [mbind result_bind].
  - rewrite reject_if_ok, Z.eqb_neq. naive_solver.
  - split; [done|]. by intros (? & ? & _).
Qed.

Lemma validate_ok s : validate s = Ok tt ↔ settings_ok s.
Proof.
  unfold validate. rewrite !bind_err, !if_ok, !bind_err, !validate_bind_ok, !reject_if_ok.
  rewrite orb_false_iff, !andb_false_iff, !negb_false_iff, !str_is_empty_false, Z.eqb_neq, Z.ltb_ge, Nat.eqb_neq.
  rewrite !bool_decide_eq_false. split.
  - intros (H1 & H2 & H3 & H4 & H5 & H6 & H7 & H8 & H9 & H10 & _).
    split; try done. intros Ha. rewrite Ha in H9, H10. naive_solver.
  - intros [H1 H2 H3 H4 H5 H6 H7 H8 H9]. repeat (split; [done|]). destruct (allow_anonymous (s_auth s)); naive_solver.
Qed.

(** The rules in the order they are checked, each with whether it is violated and
    the message that reports it. *)
Definition bind_rules (bind name : string) : list (bool * string) :=
  [(bool_decide (parse_socket_addr bind = None), name +:+ ".bind invalid: '" +:+ bind +:+ "'");
   (bool_decide (sa_port <$> parse_socket_addr bind = Some 0), name +:+ ".bind port must not be 0")].

Definition rules (s : Settings) : list (bool * string) :=
  bind_rules (tcp_bind (s_tcp s)) "tcp" ++
  (if tls_enabled (s_tls s) then
     bind_rules (tls_bind (s_tls s)) "tls" ++
     [(bool_decide (tls_cert (s_tls s) = "" ∨ tls_key (s_tls s) = ""), "tls.cert / tls.key must be set when tls enabled")]
   else []) ++
  (if ws_enabled (s_websocket s) then bind_rules (ws_bind (s_websocket s)) "websocket" else []) ++
  (if sn_enabled (s_mqtt_sn s) then bind_rules (sn_bind (s_mqtt_sn s)) "mqtt_sn" else []) ++
  (if admin_enabled (s_admin s) then
     bind_rules (admin_bind (s_admin s)) "admin" ++
     [(bool_decide (admin_token (s_admin s) = "" ∧ is_loopback_bind (admin_bind (s_admin s)) = false),
       "admin.token must be set when admin.bind is not loopback (non-127.0.0.1/::1)")]
   else []) ++
  [(bool_decide (max_connections (s_broker s) = 0), "broker.max_connections must be > 0");
   (bool_decide (max_packet_size (s_broker s) < 16), "broker.max_packet_size too small (<16)");
   (bool_decide (max_inflight (s_broker s) = 0%nat), "broker.max_inflight must be > 0");
   (bool_decide (allow_anonymous (s_auth s) = false ∧ mode (s_auth s) = AuthMode.Anonymous),
    "auth.mode=anonymous but allow_anonymous=false");
   (bool_decide (allow_anonymous (s_auth s) = false ∧ users (s_auth s) = []),
    "no auth.users configured and anonymous disabled")].

(** The report of the first violated rule. *)
Fixpoint first_violation (rs : list (bool * string)) : BrokerResult unit :=
  match rs with
  | [] => Ok tt
  | (violated, msg) :: rs => if violated then config_error msg else first_violation rs
  end.

Lemma first_violation_app l1 l2 :
  first_violation (l1 ++ l2) = (_ ← first_violation l1; first_violation l2).
Proof. induction l1 as [|[[] msg] l1 IH]; [done|done|]. exact IH. Qed.

Lemma first_violation_cons (c : bool) msg rs :
  first_violation ((c, msg) :: rs) = (_ ← reject_if c msg; first_violation rs).
Proof. by destruct c. Qed.

Lemma first_violation_one (c : bool) msg : first_violation [(c, msg)] = reject_if c msg.
Proof. by destruct c. Qed.

Lemma first_violation_if (c : bool) rs :
  first_violation (if c then rs else []) = if c then first_violation rs else Ok tt.
Proof. by destruct c. Qed.

Lemma first_violation_bind bind name : first_violation (bind_rules bind name) = validate_bind bind name.
Proof.
  unfold bind_rules, validate_bind. destruct (parse_socket_addr bind) as [addr|]; [|done].
  cbn [first_violation fmap option_fmap option_map mbind result_bind]. rewrite bool_decide_false by done.
  unfold reject_if. destruct (Z.eqb_spec (sa_port addr) 0) as [->|Hne]; [by rewrite bool_decide_true|].
  rewrite bool_decide_false; [done|]. by intros [= ?].
Qed.

Lemma first_violation_err rs e :
  first_violation rs = Err e ↔
  ∃ before msg after, rs = before ++ (true, msg) :: after ∧ Forall (λ r, r.1 = false) before ∧
    e = BrokerError.Config msg.
Proof.
  induction rs as [|[[] msg] rs IH]; cbn [first_violation].
  - split; [done|]. intros ([] & ? & ? & ? & _); done.
  - split.
    + intros [= <-]. by exists [], msg, rs.
    + intros ([|[b m] before] & msg' & after & E & Hf & ->); injection E; intros; subst; [done|].
      by apply Forall_cons_1 in Hf as [? _].
  - rewrite IH. split.
    + intros (before & m & after & -> & Hf & ->). exists ((false, msg) :: before), m, after.
      split; [done|]. split; [by constructor|done].
    + intros ([|[b m] before] & msg' & after & E & Hf & ->); injection E; intros; subst; [done|].
      apply Forall_cons_1 in Hf as [_ Hf]. by exists before, msg', after.
Qed.

Lemma bool_decide_or_empty a b : bool_decide (a = "" ∨ b = "") = str_is_empty a || str_is_empty b.
Proof. by destruct a, b. Qed.

Lemma validate_rules s : validate s = first_violation (rules s).
Proof.
  unfold rules, validate. rewrite !first_violation_app, !first_violation_if, !first_violation_app.
  rewrite !first_violation_bind, !first_violation_one, !first_violation_cons, bool_decide_or_empty.
  assert (Hadm : ∀ t b, bool_decide (t = "" ∧ is_loopback_bind b = false) = str_is_empty t && negb (is_loopback_bind b)).
  { intros [] b; by destruct (is_loopback_bind b). }
  assert (Hauth : ∀ (P : Prop) `{!Decision P} b, bool_decide (b = false ∧ P) = negb b && bool_decide P).
  { intros P HP b. rewrite bool_decide_and. by destruct b. }
  rewrite Hadm, !Hauth.
  replace (bool_decide (max_connections (s_broker s) = 0)) with (max_connections (s_broker s) =? 0)
    by (case_bool_decide; lia).
  replace (bool_decide (max_packet_size (s_broker s) < 16)) with (max_packet_size (s_broker s) <? 16)
    by (case_bool_decide; lia).
  replace (bool_decide (max_inflight (s_broker s) = 0%nat)) with (max_inflight (s_broker s) =? 0)%nat
    by (case_bool_decide; [by apply Nat.eqb_eq|by apply Nat.eqb_neq]).
  reflexivity.
Qed.

(** C25: What the validation accepts and what it reports.  Settings pass exactly
    when the TCP address and the addresses of all enabled listeners parse with a
    port other than zero, an enabled TLS listener has its certificate and key, an
    enabled admin API is on a loopback address or has a token, the connection limit
    and the inflight limit are not zero and packets of 16 bytes are allowed, and,
    when anonymous access is off, the mode is not the anonymous one and there are
    accounts; every
    other configuration is refused with a configuration error, whose message is
    that of the first violated rule in the order of [rules]. *)
Theorem validate_correct s :
  (validate s = Ok tt ↔ settings_ok s) ∧
  ∀ e, validate s = Err e ↔
    ∃ before msg after, rules s = before ++ (true, msg) :: after ∧ Forall (λ r, r.1 = false) before ∧
      e = BrokerError.Config msg.
Proof.
  split; [apply validate_ok|]. intros e. rewrite validate_rules. apply first_violation_err.
Qed.

Example defaults_valid : validate Settings_default = Ok tt.
Proof. reflexivity. Qed.

(** The validation does not look at [storage.max_offline_messages], with which
    the offline queue loops for ever when it is zero. *)
Example zero_offline_capacity_valid :
  validate (Settings_default <| s_storage ::= λ c, c <| cfg_max_offline_messages := 0%nat |> |>) = Ok tt.
Proof. reflexivity. Qed.

(** Nor at [broker.retry_interval_secs], the period of a timer that must not be zero. *)
Example zero_retry_interval_valid :
  validate (Settings_default <| s_broker ::= λ b, b <| retry_interval_secs := Some 0 |> |>) = Ok tt.
Proof. reflexivity. Qed.

(** The address of a disabled TCP listener is checked all the same. *)
Example disabled_tcp_checked :
  validate (Settings_default <| s_tcp := mkTcpConfig false "" |>)
  = Err (BrokerError.Config "tcp.bind invalid: ''").
Proof. reflexivity. Qed.

(** The admin section of [config/prod.toml] (line 36), for which no layer sets a
    token: whatever the rest, the production profile does not load. *)
Definition shipped_prod_admin : AdminConfig := mkAdminConfig true "0.0.0.0:9090" "".

Lemma shipped_prod_rejected s : s_admin s = shipped_prod_admin → validate s ≠ Ok tt.
Proof. intros Ha [_ _ _ _ H _ _ _ _]%validate_ok. rewrite Ha in H. destruct (H eq_refl) as [_ [?|?]]; done. Qed.

(** ** Merging *)

(** The value at a path of keys. *)
Fixpoint get (v : Value) (path : list string) : option Value :=
  match path with
  | [] => Some v
  | k :: path => t ← as_table v; v ← t !! k; get v path
  end.

(** A value that is not a table on the way to a path. *)
Fixpoint cut_off (v : Value) (path : list string) : bool :=
  match path with
  | [] => false
  | k :: path =>
      match v with
      | VTable t => match t !! k with Some v => cut_off v path | None => false end
      | _ => true
      end
  end.

Definition merge_tables (b o : gmap string Value) : gmap string Value :=
  map_fold (λ k v tbl, merge_entry (λ existing, deep_merge existing v) k v tbl) b o.

(** What a key of two merged tables holds. *)
Definition merged (base overlay : option Value) : option Value :=
  match overlay with
  | Some v => Some (match base with Some e => deep_merge e v | None => v end)
  | None => base
  end.

Lemma merge_entry_lookup f k v tbl i :
  merge_entry f k v tbl !! i =
  if decide (i = k) then Some (match tbl !! k with Some e => f e | None => v end) else tbl !! i.
Proof.
  unfold merge_entry. destruct (decide (i = k)) as [->|Hne].
  - by destruct (tbl !! k); rewrite lookup_insert_eq.
  - by destruct (tbl !! k); rewrite lookup_insert_ne.
Qed.

Lemma merge_tables_lookup b o i : merge_tables b o !! i = merged (b !! i) (o !! i).
Proof.
  unfold merge_tables.
  apply (map_fold_weak_ind (λ tbl o, tbl !! i = merged (b !! i) (o !! i))); [by rewrite lookup_empty|].
  intros k v m tbl Hk IH. rewrite merge_entry_lookup. destruct (decide (i = k)) as [->|Hne].
  - rewrite lookup_insert_eq. cbn. rewrite IH, Hk. done.
  - by rewrite lookup_insert_ne.
Qed.

Lemma deep_merge_tables b o : deep_merge (VTable b) (VTable o) = VTable (merge_tables b o).
Proof. done. Qed.

Lemma deep_merge_replaces base v : as_table base = None ∨ as_table v = None → deep_merge base v = v.
Proof. intros [?|?]; destruct base, v; done. Qed.

Lemma get_cut_off v path : cut_off v path = true → get v path = None.
Proof.
  revert v. induction path as [|k path IH]; intros v; cbn [cut_off get]; [done|].
  destruct v; try done. cbn. destruct (_ !! k); [|done]. apply IH.
Qed.

(** Merging a profile over the defaults: at every path, a value of the
    overlay is in the result: merged into the base's where both are tables, in
    its place otherwise; where the overlay has nothing, the base's value is
    kept, unless the overlay put something that is not a table further up. *)
Lemma deep_merge_get base overlay path :
  get (deep_merge base overlay) path =
  match get overlay path with
  | Some v => Some (match get base path with Some e => deep_merge e v | None => v end)
  | None => if cut_off overlay path then None else get base path
  end.
Proof.
  revert base overlay. induction path as [|k path IH]; intros base overlay; [done|].
  destruct (as_table overlay) as [o|] eqn:Eo.
  - destruct overlay as [| | | | | |o']; try done. injection Eo as ->.
    destruct base as [| | | | | |b];
      try (cbn; destruct (o !! k) as [v|]; cbn; [destruct (get v path) eqn:E;
             [done|by destruct (cut_off v path)]|done]).
    cbn [get as_table cut_off mbind option_bind]. rewrite deep_merge_tables. cbn [as_table mbind option_bind].
    rewrite merge_tables_lookup. destruct (o !! k) as [v|], (b !! k) as [e|]; cbn [merged mbind option_bind]; try done.
    destruct (get v path) eqn:E; [done|]. by destruct (cut_off v path).
  - rewrite deep_merge_replaces by auto. by destruct overlay.
Qed.

Lemma cut_off_deep_merge base overlay path :
  cut_off base path = false → cut_off overlay path = false → cut_off (deep_merge base overlay) path = false.
Proof.
  revert base overlay. induction path as [|k path IH]; intros base overlay; [done|].
  destruct base as [| | | | | |b], overlay as [| | | | | |o]; try done.
  rewrite deep_merge_tables. cbn [cut_off]. rewrite merge_tables_lookup.
  destruct (b !! k), (o !! k); cbn [merged]; eauto.
Qed.

(** ** The environment *)

Lemma override_get tbl sec key v :
  cut_off (VTable tbl) [sec; key] = false → get (VTable (override_field tbl sec key v)) [sec; key] = Some (VString v).
Proof.
  cbn [cut_off]. unfold override_field. intros Hc.
  assert (∃ t, as_table (default (VTable ∅) (tbl !! sec)) = Some t) as [t ->].
  { destruct (tbl !! sec) as [[]|]; try done; eexists; done. }
  cbn. rewrite lookup_insert_eq. cbn. by rewrite lookup_insert_eq.
Qed.

(** An override touches its own section only. *)
Lemma override_other e tbl var sec key sec' :
  sec' ≠ sec → override_from e var sec key tbl !! sec' = tbl !! sec'.
Proof.
  intros Hne. unfold override_from, override_field. destruct (env_var e var); [|done].
  destruct (as_table _); [by rewrite lookup_insert_ne|done].
Qed.

Lemma override_cut_off e tbl var sec key :
  cut_off (VTable tbl) [sec; key] = false → cut_off (VTable (override_from e var sec key tbl)) [sec; key] = false.
Proof.
  cbn [cut_off]. unfold override_from, override_field. destruct (env_var e var); [|done].
  destruct (tbl !! sec) as [[]|] eqn:Et; cbn; rewrite ?Et; try done;
    rewrite lookup_insert_eq; cbn; by rewrite lookup_insert_eq.
Qed.

(** What an override leaves at its own path. *)
Lemma override_from_get e tbl var sec key :
  cut_off (VTable tbl) [sec; key] = false →
  get (VTable (override_from e var sec key tbl)) [sec; key] =
  match env_var e var with Some v => Some (VString v) | None => get (VTable tbl) [sec; key] end.
Proof. intros H. unfold override_from. destruct (env_var e var); [by apply override_get|done]. Qed.

(** The settings an environment variable can override: the variable, the section,
    the key and the field. *)
Definition overridable : list (string * string * string * (Settings → string)) :=
  [("LUMENMQ_TCP_BIND", "tcp", "bind", λ s, tcp_bind (s_tcp s));
   ("LUMENMQ_LOG_LEVEL", "log", "level", λ s, log_level (s_log s));
   ("LUMENMQ_NODE_ID", "broker", "node_id", λ s, node_id (s_broker s))].

Lemma overrides_get e tbl var sec key f :
  (var, sec, key, f) ∈ overridable → cut_off (VTable tbl) [sec; key] = false →
  get (apply_env_overrides e (VTable tbl)) [sec; key] =
    match env_var e var with Some v => Some (VString v) | None => get (VTable tbl) [sec; key] end
  ∧ cut_off (apply_env_overrides e (VTable tbl)) [sec; key] = false.
Proof.
  intros Hin Hc. unfold apply_env_overrides. cbn [as_table].
  set (t1 := override_from e "LUMENMQ_TCP_BIND" _ _ tbl).
  set (t2 := override_from e "LUMENMQ_LOG_LEVEL" _ _ t1).
  set (t3 := override_from e "LUMENMQ_NODE_ID" _ _ t2).
  assert (Hsame : ∀ t t' : gmap string Value, t !! sec = t' !! sec →
            get (VTable t) [sec; key] = get (VTable t') [sec; key] ∧
            cut_off (VTable t) [sec; key] = cut_off (VTable t') [sec; key]).
  { intros t t' E. cbn. by rewrite E. }
  unfold overridable in Hin. repeat (apply elem_of_cons in Hin as [Hin|Hin]); [injection Hin as -> -> -> ->..|by apply not_elem_of_nil in Hin].
  - destruct (Hsame t3 t1) as [-> ->]; [by unfold t3, t2; rewrite !override_other|].
    split; [by apply override_from_get|by apply override_cut_off].
  - assert (Hc1 : cut_off (VTable t1) ["log"; "level"] = false)
      by (destruct (Hsame t1 tbl) as [_ ->]; [by apply override_other|done]).
    destruct (Hsame t3 t2) as [-> ->]; [by apply override_other|].
    unfold t2. rewrite override_from_get by done. split; [|by apply override_cut_off].
    by destruct (Hsame t1 tbl) as [-> _]; [apply override_other|].
  - assert (Hc2 : cut_off (VTable t2) ["broker"; "node_id"] = false)
      by (destruct (Hsame t2 tbl) as [_ ->]; [by unfold t2, t1; rewrite !override_other|done]).
    unfold t3. rewrite override_from_get by done. split; [|by apply override_cut_off].
    by destruct (Hsame t2 tbl) as [-> _]; [unfold t2, t1; rewrite !override_other|].
Qed.

(** ** Loading *)

(** What the code relies on in the [toml] crate: a document is a table; a string
    field of a section that is a table is the string at its key, and keeps its
    default when the key is missing ([#[serde(default)]]). *)
Class TomlLaws (T : Toml) := {
  document_table text v : from_str text = Ok v → ∃ t, v = VTable t;
  string_field v s var sec key f :
    (var, sec, key, f) ∈ overridable → try_into v = Ok s → cut_off v [sec; key] = false →
    match get v [sec; key] with
    | Some x => x = VString (f s)
    | None => f s = f Settings_default
    end;
}.

Section Load.
Context {T : Toml} {L : TomlLaws T}.

(** The profile's file, when there is one and it exists. *)
Definition overlay_file (self : ConfigLoader) (e : LoadEnv) : option (BrokerResult Value) :=
  p ← profile self;
  let path := path_join (config_dir self) (p +:+ ".toml") in
  if path_exists e path then Some (read_toml e path) else None.

(** The first of two layers that has a value. *)
Definition or_else {A} (x y : option A) : option A := match x with Some _ => x | None => y end.

(** The string a layer gives to a field. *)
Definition string_at (v : Value) (sec key : string) : option string :=
  match get v [sec; key] with Some (VString x) => Some x | _ => None end.

Lemma read_toml_table e path v : read_toml e path = Ok v → ∃ t, v = VTable t.
Proof.
  unfold read_toml. destruct (read_to_string e path) as [text|]; [|done]. cbn.
  destruct (from_str text) as [v'|] eqn:Ev; [|done]. cbn. intros [= <-]. by eapply document_table.
Qed.

Lemma read_layers_ok self e v :
  read_layers self e = Ok v →
  ∃ base, read_toml e (path_join (config_dir self) "default.toml") = Ok base ∧
    match overlay_file self e with
    | Some r => ∃ overlay, r = Ok overlay ∧ v = deep_merge base overlay
    | None => v = base
    end.
Proof.
  unfold read_layers, overlay_file. destruct (read_toml e _) as [base|] eqn:Eb; [|done]. cbn.
  intros H. exists base. split; [done|]. destruct (profile self) as [p|]; cbn [mbind option_bind]; [|congruence].
  destruct (path_exists e _); [|congruence].
  destruct (read_toml e (path_join (config_dir self) (p +:+ ".toml"))) as [o|]; [|done]. injection H as <-. by exists o.
Qed.

Lemma load_ok self e s :
  load self e = Ok s →
  ∃ v, read_layers self e = Ok v ∧ try_into (apply_env_overrides e v) = Ok s ∧ settings_ok s.
Proof.
  unfold load. destruct (read_layers self e) as [v|]; [|done]. cbn.
  destruct (try_into _) as [s'|] eqn:Et; [|done]. cbn. destruct (validate s') as [[]|] eqn:Ev; [|done].
  intros [= <-]. apply validate_ok in Ev. eauto.
Qed.

(** The field of a value that is the string at its path, else the default. *)
Lemma field_of v s var sec key f :
  (var, sec, key, f) ∈ overridable → try_into v = Ok s → cut_off v [sec; key] = false →
  f s = default (f Settings_default) (string_at v sec key) ∧
  (∀ x, get v [sec; key] = Some x → ∃ y, x = VString y).
Proof.
  intros Hin Ht Hc. pose proof (string_field _ _ _ _ _ _ Hin Ht Hc) as H. unfold string_at.
  destruct (get v [sec; key]) as [x|]; [|done]. subst x. split; [done|]. intros x [= <-]. eauto.
Qed.

(** C27: Which layer a setting comes from.  Settings that load satisfy the
    contract of the validation; and each setting with an environment variable,
    if its section is a table in the files, has the variable's value when it is
    set, else the string of the profile's file, else that of [default.toml],
    else the built-in default, where the profile's file counts only if a profile
    is selected and the file exists. *)
Theorem load_correct self e s :
  load self e = Ok s →
  settings_ok s ∧
  ∃ base, read_toml e (path_join (config_dir self) "default.toml") = Ok base ∧
  ∃ overlay, overlay_file self e = (Ok <$> overlay) ∧
  ∀ var sec key f, (var, sec, key, f) ∈ overridable →
    cut_off base [sec; key] = false → (∀ o, overlay = Some o → cut_off o [sec; key] = false) →
    f s = default (f Settings_default)
            (or_else (env_var e var) (or_else (o ← overlay; string_at o sec key) (string_at base sec key))).
Proof.
  intros (v & Hv & Ht & Hok)%load_ok. split; [done|].
  apply read_layers_ok in Hv as (base & Hb & Ho). exists base. split; [done|].
  apply read_toml_table in Hb as [bt Hbt].
  assert (∃ overlay, overlay_file self e = (Ok <$> overlay) ∧
            v = match overlay with Some o => deep_merge base o | None => base end ∧
            ∀ o, overlay = Some o → ∃ t, o = VTable t) as (overlay & Heq & -> & Hot).
  { destruct (overlay_file self e) as [r|] eqn:Ef; [|by exists None].
    destruct Ho as (o & -> & ->). exists (Some o). split; [done|]. split; [done|]. intros o' [= <-].
    unfold overlay_file in Ef. destruct (profile self) as [p|]; [|done]. cbn in Ef.
    destruct (path_exists e _); [|done]. injection Ef as Ef. by eapply read_toml_table. }
  exists overlay. split; [done|]. intros var sec key f Hin Hcb Hco.
  set (v := match overlay with Some o => _ | None => _ end) in Ht.
  assert (Hcv : cut_off v [sec; key] = false).
  { unfold v. destruct overlay; [|done]. apply cut_off_deep_merge; auto. }
  assert (∃ vt, v = VTable vt) as [vt Hvt].
  { unfold v. destruct overlay as [o|]; [|eauto]. destruct (Hot o eq_refl) as [ot ->]. subst base.
    rewrite deep_merge_tables. eauto. }
  rewrite Hvt in Ht, Hcv. destruct (overrides_get e vt var sec key f Hin Hcv) as [Hg Hc].
  destruct (field_of _ _ _ _ _ _ Hin Ht Hc) as [Hf Hstr]. rewrite Hf. unfold string_at at 1. rewrite Hg in Hstr |- *.
  destruct (env_var e var) as [x|]; [done|]. rewrite <-Hvt in Hstr |- *. f_equal. unfold v in *.
  destruct overlay as [o|]; cbn [mbind option_bind].
  - rewrite deep_merge_get in Hstr |- *. rewrite (Hco o eq_refl) in Hstr |- *. unfold string_at.
    destruct (get o [sec; key]) as [y|].
    + destruct (Hstr _ eq_refl) as [z Hz]. rewrite Hz. destruct (get base [sec; key]) as [b|]; [|by rewrite Hz].
      assert (y = VString z) as ->; [|done]. destruct b, y; done.
    + by destruct (get base [sec; key]) as [[]|].
  - unfold string_at. by destruct (get base [sec; key]) as [[]|].
Qed.
End Load.

(** ** A concrete configuration directory *)

Module TomlDemo.
(** Documents of the three overridable settings only. *)
Definition string_or (v : Value) (sec key dflt : string) : Result string string :=
  match get v [sec; key] with
  | Some (VString x) => Ok x
  | Some _ => Err "invalid type"
  | None => Ok dflt
  end.

Definition demo_into (v : Value) : Result string Settings :=
  bind ← string_or v "tcp" "bind" (tcp_bind TcpConfig_default);
  level ← string_or v "log" "level" (log_level LogConfig_default);
  node ← string_or v "broker" "node_id" (node_id BrokerConfig_default);
  Ok (Settings_default <| s_tcp ::= λ c, c <| tcp_bind := bind |> |>
                       <| s_log ::= λ c, c <| log_level := level |> |>
                       <| s_broker ::= λ b, b <| node_id := node |> |>).

Definition base : Value :=
  VTable {["tcp" := VTable {["bind" := VString "0.0.0.0:1883"]}; "log" := VTable {["level" := VString "info"]}]}.
Definition overlay : Value := VTable {["log" := VTable {["level" := VString "debug"]}]}.

#[export] Instance demo_toml : Toml := {
  from_str text := if String.eqb text "default" then Ok base else if String.eqb text "dev" then Ok overlay else Err "syntax";
  try_into := demo_into;
}.

#[export] Instance demo_laws : TomlLaws demo_toml.
Proof.
  split.
  - intros text v. cbn. destruct (String.eqb text "default"); [intros [= <-]; by eexists|].
    destruct (String.eqb text "dev"); [|done]. intros [= <-]. by eexists.
  - intros v s var sec key f Hin Ht _. cbn in Ht. unfold demo_into, string_or in Ht.
    unfold overridable in Hin.
    repeat (apply elem_of_cons in Hin as [Hin|Hin]); [injection Hin as -> -> -> ->..|by apply not_elem_of_nil in Hin].
    all: destruct (get v ["tcp"; "bind"]) as [[]|]; try done; cbn [mbind result_bind] in Ht.
    all: destruct (get v ["log"; "level"]) as [[]|]; try done; cbn [mbind result_bind] in Ht.
    all: destruct (get v ["broker"; "node_id"]) as [[]|]; try done; by injection Ht as <-.
Qed.

Definition env : LoadEnv :=
  mkLoadEnv (λ v, if String.eqb v "LUMENMQ_TCP_BIND" then Some "127.0.0.1:1884"
                  else if String.eqb v "LUMENMQ_PROFILE" then Some "dev" else None)
    (λ _, true)
    (λ p, if String.eqb p "config/default.toml" then Ok "default"
          else if String.eqb p "config/dev.toml" then Ok "dev" else Err "not found").

Definition settings : Settings :=
  Settings_default <| s_tcp := mkTcpConfig true "127.0.0.1:1884" |> <| s_log ::= λ c, c <| log_level := "debug" |> |>.

Lemma loads : load (from_env env) env = Ok settings.
Proof. vm_compute. reflexivity. Qed.
Lemma reads : read_toml env (path_join (config_dir (from_env env)) "default.toml") = Ok base.
Proof. reflexivity. Qed.
End TomlDemo.
Import TomlDemo.

Lemma load_correct_witness :
  settings_ok TomlDemo.settings ∧ tcp_bind (s_tcp TomlDemo.settings) = "127.0.0.1:1884".
Proof.
  destruct (load_correct (from_env TomlDemo.env) TomlDemo.env TomlDemo.settings loads)
    as (Hok & base & Hb & overlay & Ho & Hf).
  assert (Eb : base = TomlDemo.base) by (rewrite reads in Hb; congruence).
  split; [exact Hok|].
  rewrite (Hf "LUMENMQ_TCP_BIND" "tcp" "bind" (λ s, tcp_bind (s_tcp s))).
  - reflexivity.
  - left.
  - rewrite Eb. reflexivity.
  - intros o ->. cbn in Ho. injection Ho as <-. reflexivity.
Defined.

(** The profile's level wins over the default file's. *)
Example profile_level : log_level (s_log TomlDemo.settings) = "debug".
Proof. reflexivity. Qed.
