(* ===== verification/Handlers.v ===== *)
(** * Packet handlers, [src/broker/mod.rs]

    What the broker does with each packet of a connected client:
    [handle_publish], [handle_subscribe] and [handle_packet].  The state is the
    broker's shared state with its two guards, and the connection's own tables;
    the writer half of the connection (tokio's [FramedWrite]) is the parameter
    [Sink]. *)

From S2P Require Import Prelude Packet Messages OfflineQueue Subscription Storage Metrics.
From S2P Require Import Retain Session Qos Router Auth IpFilter Limiter Security Plugin.
From S2P Require Import Lifecycle Config.

(** ** The writer *)

Class Sink := {
  SinkState : Type;
  sink_send : SinkState → Packet → BrokerResult unit * SinkState;
}.

(** A packet whose [send] succeeds is written after the others. *)
Class SinkLaws (K : Sink) := {
  written : SinkState → list Packet;
  send_ok s p s' : sink_send s p = (Ok tt, s') → written s' = written s ++ [p];
}.

Section Handlers.
Context {M : Mpsc} {S : Sled} {JR : Json RetainedMessage} {JS : Json SessionSnapshot}
  {JO : Json OutboundPublish} {F : ForwardEnv} {K : Sink}.

Record Broker := mkBroker {
  b_shared : Shared M S;
  b_security : SecurityGuard;
  b_plugin : PluginGuard F;
  b_forward : FwChans;
  b_auth : AuthConfig;
  b_config : BrokerConfig;
}.

#[export] Instance Broker_settable : Settable Broker :=
  λ b, mkBroker (b_shared b) (b_security b) (b_plugin b) (b_forward b) (b_auth b) (b_config b).

(** The local variables of the connection loop. *)
Record Conn := mkConn {
  my_filters : gset string;
  next_pid : Z;
  outbound_inflight : InflightTable;
  inbound_qos2 : InboundQos2Tracker;
  sink : SinkState;
}.

#[export] Instance Conn_settable : Settable Conn :=
  λ c, mkConn (my_filters c) (next_pid c) (outbound_inflight c) (inbound_qos2 c) (sink c).

(** A handler: the broker and the connection are threaded through errors as
    well; [None] is a call that does not return. *)
Definition HM (A : Type) : Type := Broker * Conn → option (BrokerResult A * (Broker * Conn)).

#[export] Instance hm_ret : MRet HM := λ A a st, Some (Ok a, st).
#[export] Instance hm_bind : MBind HM := λ A B f m st,
  match m st with
  | Some (Ok a, st) => f a st
  | Some (Err e, st) => Some (Err e, st)
  | None => None
  end.

Definition hm_err {A} (e : BrokerError) : HM A := λ st, Some (Err e, st).
Definition gets {A} (f : Broker * Conn → A) : HM A := λ st, Some (Ok (f st), st).
Definition modify_broker (f : Broker → Broker) : HM unit := λ '(b, c), Some (Ok tt, (f b, c)).
Definition modify_conn (f : Conn → Conn) : HM unit := λ '(b, c), Some (Ok tt, (b, f c)).
Definition modify_shared (f : Shared M S → Shared M S) : HM unit := modify_broker (λ b, b <| b_shared ::= f |>).
Definition metrics (f : Metrics → Metrics) : HM unit := modify_shared (λ w, w <| sh_metrics ::= f |>).
(** An operation on the shared state that may not return. *)
Definition run_shared (f : Shared M S → option (Shared M S)) : HM unit := λ '(b, c),
  w ← f (b_shared b); Some (Ok tt, (b <| b_shared := w |>, c)).
(** [sink.send(p).await?] *)
Definition send (p : Packet) : HM unit := λ '(b, c),
  let '(r, k) := sink_send (sink c) p in Some (r, (b, c <| sink := k |>)).

Definition shared_of (st : Broker * Conn) : Shared M S := b_shared st.1.

(** ** PUBLISH *)

(** [security.check_publish], counted when it rejects. *)
Definition security_check (p : Publish) (client_id : string) (now : Instant) : HM bool := λ '(b, c),
  let '(r, g) := guard_check_publish (b_security b) client_id (Z.of_nat (length (p_payload p)))
                   (max_packet_size (b_config b)) now in
  let b := b <| b_security := g |> in
  match r with
  | Ok _ => Some (Ok false, (b, c))
  | Err _ => Some (Ok true, (b <| b_shared ::= λ w, w <| sh_metrics ::= inc_security_rejected |> |>, c))
  end.

Definition plugin_check (p : Publish) (security_rejected : bool) : HM bool :=
  if security_rejected then mret false
  else
    r ← gets (λ st, plugin_check_publish (b_plugin st.1) p);
    match r with
    | Ok _ => mret false
    | Err _ => _ ← metrics inc_plugin_rejected; mret true
    end.

(** Registration in the inbound QoS 2 table: whether this is the first receipt. *)
Definition qos2_first (p : Publish) : HM bool :=
  if bool_decide (p_qos p = QoS.ExactlyOnce) then
    match p_packet_id p with
    | Some id => λ '(b, c),
        let '(dup, tr) := on_publish (inbound_qos2 c) id in
        Some (Ok (negb dup), (b, c <| inbound_qos2 := tr |>))
    | None => hm_err (BrokerError.Codec (CodecError.MalformedBody "QoS2 PUBLISH missing packet_id"))
    end
  else mret true.

Definition forward_publish (p : Publish) (client_id : string) : HM unit := modify_broker (λ b,
  let w := b_shared b in
  let '(g, ch, m) := plugin_try_forward (b_plugin b) p (Some client_id) (b_forward b) (sh_metrics w) in
  b <| b_plugin := g |> <| b_forward := ch |> <| b_shared := w <| sh_metrics := m |> |>).

Definition acknowledge (p : Publish) : HM unit :=
  match p_qos p, p_packet_id p with
  | QoS.AtLeastOnce, Some id => send (PPuback id)
  | QoS.ExactlyOnce, Some id => send (PPubrec id)
  | _, _ => mret tt
  end.

Definition handle_publish (p : Publish) (client_id : string) (now : Instant) : HM unit :=
  security_rejected ← security_check p client_id now;
  plugin_rejected ← plugin_check p security_rejected;
  first ← qos2_first p;
  let should_route := first && negb security_rejected && negb plugin_rejected in
  _ ← (if should_route then
         _ ← metrics inc_publish;
         _ ← metrics (λ m, inc_publish_qos m (QoS.as_u8 (p_qos p)));
         _ ← run_shared (λ w, route_inbound_publish w p (Some client_id) now);
         forward_publish p client_id
       else mret tt);
  acknowledge p.

(** ** SUBSCRIBE *)

(** One topic of the packet: its return code, and the filter and QoS when it is
    accepted. *)
Definition subscribe_topic (client_id : string) (max_subs : nat) (t : SubscribeTopic)
    : HM (Z * option (string * QoS)) := λ '(b, c),
  let f := st_topic_filter t in
  if negb (bool_decide (f ∈ my_filters c)) && (max_subs <=? size (my_filters c))%nat then
    Some (Ok (suback_code.FAILURE, None), (b, c))
  else
    match plugin_check_subscribe (b_plugin b) f with
    | Err _ => Some (Ok (suback_code.FAILURE, None), (b, c))
    | Ok _ =>
        match subscribe (sh_subscriptions (b_shared b)) client_id f (st_qos t) with
        | Ok tree =>
            Some (Ok (QoS.as_u8 (st_qos t), Some (f, st_qos t)),
                  (b <| b_shared ::= λ w, w <| sh_subscriptions := tree |> <| sh_metrics ::= inc_subscribe |> |>,
                   c <| my_filters ::= λ s, {[f]} ∪ s |>))
        | Err _ => Some (Ok (suback_code.FAILURE, None), (b, c))
        end
    end.

Fixpoint subscribe_topics (client_id : string) (max_subs : nat) (ts : list SubscribeTopic)
    : HM (list Z * list (string * QoS)) :=
  match ts with
  | [] => mret ([], [])
  | t :: ts =>
      '(code, acc) ← subscribe_topic client_id max_subs t;
      '(codes, accepted) ← subscribe_topics client_id max_subs ts;
      mret (code :: codes, option_list acc ++ accepted)
  end.

(** [build_outbound_packet] on the connection's tables. *)
Definition build_for (b : Broker) (c : Conn) (req : OutboundPublish) (now : Instant)
    : option Packet * Conn :=
  let '(pkt, np, t) :=
    build_outbound_packet (max_inflight (b_config b)) req (next_pid c) (outbound_inflight c) now in
  (pkt, c <| next_pid := np |> <| outbound_inflight := t |>).

Definition build_outbound (req : OutboundPublish) (now : Instant) : HM (option Packet) := λ '(b, c),
  let '(pkt, c) := build_for b c req now in Some (Ok pkt, (b, c)).

(** [if sink.send(pkt).await.is_err() { return Err(e) }] *)
Definition send_or (e : BrokerError) (pkt : Packet) : HM unit := λ st,
  match send pkt st with
  | Some (Err _, st) => Some (Err e, st)
  | r => r
  end.

(** A retained message for a new subscription; a full table skips it, a broken
    connection ends the handler. *)
Definition deliver_retained (now : Instant) (sub_qos : QoS) (msg : RetainedMessage) : HM unit :=
  pkt ← build_outbound (Retain.build_outbound msg sub_qos) now;
  match pkt with
  | None => metrics inc_message_dropped
  | Some pkt => send_or (BrokerError.ConnectionClosed "sink closed during retained delivery") pkt
  end.

Fixpoint for_each {A} (f : A → HM unit) (l : list A) : HM unit :=
  match l with
  | [] => mret tt
  | a :: l => _ ← f a; for_each f l
  end.

Definition deliver_accepted (now : Instant) (fq : string * QoS) : HM unit :=
  retained ← gets (λ st, Retain.matches (sh_retain (shared_of st)) fq.1);
  for_each (deliver_retained now fq.2) retained.

Definition handle_subscribe (s : Subscribe) (client_id : string) (max_subs : nat) (now : Instant)
    : HM unit :=
  '(return_codes, accepted) ← subscribe_topics client_id max_subs (s_topics s);
  _ ← send (PSuback (mkSuback (s_packet_id s) return_codes));
  _ ← for_each (deliver_accepted now) accepted;
  modify_shared (λ w, persist_session_snapshot w client_id).

(** ** Dispatch *)

Inductive Control := Continue | Disconnect.

Definition unsubscribe_one (client_id : string) (f : string) : HM unit :=
  _ ← modify_shared (λ w, w <| sh_subscriptions ::= λ t, (unsubscribe t client_id f).2 |>);
  modify_conn (λ c, c <| my_filters ::= λ s, s ∖ {[f]} |>).

Definition handle_packet (packet : Packet) (client_id : string) (max_subs : nat) (now : Instant)
    : HM Control :=
  _ ← match packet with
      | PPublish p => handle_publish p client_id now
      | PSubscribe s => handle_subscribe s client_id max_subs now
      | PUnsubscribe u =>
          _ ← for_each (unsubscribe_one client_id) (u_topic_filters u);
          _ ← metrics inc_unsubscribe;
          _ ← send (PUnsuback (u_packet_id u));
          modify_shared (λ w, persist_session_snapshot w client_id)
      | PPingreq => send PPingresp
      | PDisconnect => mret tt
      | PPuback id => modify_conn (λ c, c <| outbound_inflight ::= λ t, on_puback t id |>)
      | PPubrec id =>
          _ ← modify_conn (λ c, c <| outbound_inflight ::= λ t, on_pubrec t id now |>);
          send (PPubrel id)
      | PPubrel id =>
          _ ← modify_conn (λ c, c <| inbound_qos2 ::= λ t, (on_pubrel t id).2 |>);
          send (PPubcomp id)
      | PPubcomp id => modify_conn (λ c, c <| outbound_inflight ::= λ t, on_pubcomp t id |>)
      | PConnect _ | PConnack _ | PSuback _ | PUnsuback _ | PPingresp =>
          hm_err (BrokerError.Codec (CodecError.MalformedBody "unexpected packet from client"))
      end;
  mret (match packet with PDisconnect => Disconnect | _ => Continue end).
End Handlers.
Arguments Broker M S F : clear implicits.
Arguments Conn K : clear implicits.
