(* ===== verification/HandlersProofs.v ===== *)
(** * Lemmas on the handlers

    A small program logic for handlers: [keeps P m] says that from a state that
    satisfies [P] the handler returns, in a state that satisfies [P].  With it,
    the invariant of the broker and of a connection is carried through every
    packet. *)

From S2P Require Import Prelude Packet Messages OfflineQueue Subscription SubscriptionProofs.
From S2P Require Import SubscriptionTheorems Storage StorageProofs Metrics Retain Session.
From S2P Require Import SessionProofs SessionTheorems Qos QosProofs QosTheorems Router.
From S2P Require Import RouterTheorems Auth IpFilter Limiter Security Plugin Lifecycle.
From S2P Require Import LifecycleTheorems Config Handlers.

(** The two gauges of connections; no handler of a packet moves them. *)
Definition gauges (m : Metrics) : Z * Z := (connections_current m, connections_pending m).

Section Gauges.
Context {M : Mpsc} {L : MpscLaws M} {S : Sled} {JR : Json RetainedMessage}
  {JS : Json SessionSnapshot} {JO : Json OutboundPublish}.
Implicit Types w : Shared M S.

Definition gauge_safe {A} (op : SE (Storage S * Metrics) BrokerError A) : Prop :=
  ∀ sm, gauges (op sm).2.2 = gauges sm.2.

Lemma gs_bind {A B} (m : SE (Storage S * Metrics) BrokerError A) (k : A → SE (Storage S * Metrics) BrokerError B) :
  gauge_safe m → (∀ a, gauge_safe (k a)) → gauge_safe (m ≫= k).
Proof.
  intros Hm Hk sm. unfold mbind, se_bind. specialize (Hm sm). destruct (m sm) as [[a|e] sm']; [|done].
  cbn in Hm. rewrite <-Hm. apply Hk.
Qed.
Lemma gs_ret {A} (a : A) : gauge_safe (mret a).
Proof. done. Qed.
Lemma gs_lift {A} (r : BrokerResult A) : gauge_safe (se_lift r).
Proof. done. Qed.
Lemma gs_metric f : (∀ m, gauges (f m) = gauges m) → gauge_safe (metric f).
Proof. intros Hf [s m]. apply Hf. Qed.
Lemma gs_run_db {A} label (op : Storage S → Result string A * Storage S) : gauge_safe (run_db label op).
Proof. intros [s m]. unfold run_db. by destruct (op s). Qed.
Lemma gs_remove_keys keys : gauge_safe (remove_keys keys).
Proof. induction keys as [|k keys IH]; cbn [remove_keys]; [apply gs_ret|]. apply gs_bind; [apply gs_run_db|done]. Qed.
Hint Resolve gs_ret gs_lift gs_run_db gs_remove_keys : gauge.

Lemma gs_push c m : gauge_safe (push_offline c m).
Proof. repeat first [apply gs_bind; [first [apply gs_metric; done|auto with gauge]|intros ?] | auto with gauge]. Qed.
Lemma gs_drain c : gauge_safe (drain_offline c).
Proof.
  apply gs_bind; [by apply gs_metric|intros _]. apply gs_bind; [by intros [s m]|]. intros [msgs keys].
  apply gs_bind; auto with gauge.
Qed.
Lemma gs_save_session c snap : gauge_safe (save_session c snap).
Proof. apply gs_bind; auto with gauge. Qed.
Lemma gs_delete_session c : gauge_safe (delete_session c).
Proof. apply gs_run_db. Qed.
Lemma gs_save_retained t m : gauge_safe (save_retained t m).
Proof. unfold save_retained. repeat first [apply gs_bind; [first [apply gs_metric; done|auto with gauge]|intros ?] | auto with gauge]. Qed.
Lemma gs_delete_retained t : gauge_safe (delete_retained t).
Proof. unfold delete_retained. repeat first [apply gs_bind; [first [apply gs_metric; done|auto with gauge]|intros ?] | auto with gauge]. Qed.

(** ** The shared state *)

Record shared_inv (g : Z * Z) w : Prop := {
  si_sess : sess_inv (sh_sessions w);
  si_max : (0 < max_offline_messages (sh_sessions w))%nat;
  si_tree : tree_inv (sh_subscriptions w);
  si_gauges : gauges (sh_metrics w) = g;
}.

Lemma with_storage_gauges {A} (op : SE (Storage S * Metrics) BrokerError A) env :
  gauge_safe op → gauges (with_storage op env).2.2 = gauges env.2.
Proof.
  intros Hop. destruct env as [[s|] m]; cbn; [|done]. specialize (Hop (s, m)).
  destruct (op (s, m)) as [r [s' m']]. exact Hop.
Qed.

Lemma try_storage_inv {A} (op : SE (Storage S * Metrics) BrokerError A) g w :
  gauge_safe op → shared_inv g w → shared_inv g (try_storage op w).
Proof.
  intros Hop [H1 H2 H3 H4]. split; [done..|]. rewrite <-H4.
  exact (with_storage_gauges op (env_of w) Hop).
Qed.

Lemma set_gauges (r : RetainStore) topic payload qos (env : Env S) :
  gauges (Retain.set r topic payload qos env).2.2 = gauges env.2.
Proof.
  unfold Retain.set. destruct (_ || _); [done|]. destruct (_ && _); [done|]. destruct env as [st m].
  destruct payload as [|z zs].
  - pose proof (with_storage_gauges (delete_retained topic) (st, inc_retained_stored m) (gs_delete_retained topic)) as H.
    by destruct (with_storage _ _) as [[[?|?]|] env'].
  - pose proof (with_storage_gauges (save_retained topic (mkRetainedMessage topic (z :: zs) qos))
                  (st, inc_retained_stored m) (gs_save_retained _ _)) as H.
    by destruct (with_storage _ _) as [[[?|?]|] env'].
Qed.

Lemma store_retained_inv g w topic payload qos retain :
  shared_inv g w → shared_inv g (store_retained w topic payload qos retain).
Proof.
  intros [H1 H2 H3 H4]. unfold store_retained. destruct retain; [|done].
  pose proof (set_gauges (sh_retain w) topic payload qos (env_of w)) as Hg.
  destruct (Retain.set _ _ _ _ _) as [r env]. split; [done..|]. rewrite <-H4. exact Hg.
Qed.

Lemma deliver_one_inv_kept g w c topic payload qos sub now :
  shared_inv g w → ∃ w', deliver_one w c topic payload qos sub now = Some w' ∧ shared_inv g w'.
Proof.
  intros [H1 H2 H3 H4]. destruct (deliver_one_total w c topic payload qos sub now H1 H2) as (w' & E & Hi & Hm).
  exists w'. split; [done|]. split; [done|lia| |].
  - by apply deliver_one_inv in E as (o & _ & -> & _).
  - revert E. unfold deliver_one. destruct (deliver_or_enqueue _ _ _ _ _) as [[[o s'] ch']|]; [|done].
    cbn [mbind option_bind]. intros [= <-]. rewrite <-H4. destruct o; try done.
    exact (with_storage_gauges _ (env_of _) (gs_push _ _)).
Qed.

Lemma deliver_each_inv g w targets exclude topic payload qos now :
  shared_inv g w → ∃ w', deliver_each w targets exclude topic payload qos now = Some w' ∧ shared_inv g w'.
Proof.
  revert w. induction targets as [|[c q] targets IH]; intros w Hi; cbn [deliver_each]; [eauto|].
  case_bool_decide; [by apply IH|].
  destruct (deliver_one_inv_kept g w c topic payload qos q now Hi) as (w1 & -> & Hi1). cbn [mbind option_bind]. by apply IH.
Qed.

Lemma publish_inv g w topic payload qos retain exclude now :
  shared_inv g w → ∃ w', publish w topic payload qos retain exclude now = Some w' ∧ shared_inv g w'.
Proof.
  intros Hi. unfold publish. apply (store_retained_inv g w topic payload qos retain) in Hi as [H1 H2 H3 H4].
  destruct (matches_shared_inv _ topic H3) as [H3' _].
  destruct (matches_shared (sh_subscriptions (store_retained w topic payload qos retain)) topic) as [tree sm].
  apply deliver_each_inv. by split.
Qed.

Lemma persist_inv g w c : shared_inv g w → shared_inv g (persist_session_snapshot w c).
Proof.
  intros Hi. unfold persist_session_snapshot. destruct (sh_storage w); [|done].
  destruct (is_clean_session _ _); [done|]. destruct (subscriptions_of _ _); [done|].
  apply try_storage_inv; [apply gs_save_session|done].
Qed.

Lemma delete_snapshot_inv g w c : shared_inv g w → shared_inv g (delete_session_snapshot w c).
Proof.
  intros Hi. unfold delete_session_snapshot. apply try_storage_inv; [apply gs_drain|].
  apply try_storage_inv; [apply gs_delete_session|done].
Qed.

Lemma forget_inv g w c sess :
  shared_inv g w → sess_inv sess → max_offline_messages sess = max_offline_messages (sh_sessions w) →
  shared_inv g (forget_session (w <| sh_sessions := sess |>) c).
Proof.
  intros [H1 H2 H3 H4] Hs Hm. unfold forget_session. apply delete_snapshot_inv.
  split; cbn; [done|lia|by apply unsubscribe_all_inv|done].
Qed.

Lemma remove_if_epoch_max (self : SessionManager M) c ep :
  max_offline_messages (remove_if_epoch self c ep).2 = max_offline_messages self.
Proof.
  unfold remove_if_epoch. destruct (sessions self !! c); [|done]. destruct (_ =? _); [|done]. by destruct (connected _).
Qed.

Lemma mark_offline_max (self : SessionManager M) c ep now :
  max_offline_messages (mark_offline self c ep now) = max_offline_messages self.
Proof. unfold mark_offline. destruct (sessions self !! c); [|done]. by destruct (_ && _). Qed.

Lemma cleanup_inv g w c ep cl now : shared_inv g w → shared_inv g (cleanup w c ep cl now).
Proof.
  intros Hi. unfold cleanup.
  assert (Hforget : ∀ w, shared_inv g w →
    shared_inv g (match remove_if_epoch (sh_sessions w) c ep with
                  | (None, _) => w
                  | (Some _, sess) => forget_session (w <| sh_sessions := sess |>) c
                  end)).
  { intros w0 Hi0. pose proof (remove_if_epoch_inv (sh_sessions w0) c ep (si_sess _ _ Hi0)) as Hr.
    pose proof (remove_if_epoch_max (sh_sessions w0) c ep) as Hm.
    destruct (remove_if_epoch _ _ _) as [[e|] sess]; [|done]. by apply forget_inv. }
  destruct cl; [by apply Hforget|].
  assert (Hi1 : shared_inv g (w <| sh_sessions ::= λ s, mark_offline s c ep now |>)).
  { destruct Hi as [H1 H2 H3 H4]. split; cbn; [by apply mark_offline_inv|by rewrite mark_offline_max|done..]. }
  destruct (negb _); [done|]. destruct (is_session_expired _ _ _); [by apply Hforget|by apply persist_inv].
Qed.

Lemma abnormal_inv g w c ep cl now :
  shared_inv g w → ∃ w', on_abnormal_disconnect w c ep cl now = Some w' ∧ shared_inv g w'.
Proof.
  intros Hi. unfold on_abnormal_disconnect.
  assert (H : ∃ w1, fire_will w c ep now = Some w1 ∧ shared_inv g w1).
  { unfold fire_will. destruct (owns _ _ _); [|eauto]. pose proof (take_will_inv (sh_sessions w) c ep (si_sess _ _ Hi)) as Ht.
    assert (Hm : max_offline_messages (take_will (sh_sessions w) c ep).2 = max_offline_messages (sh_sessions w)).
    { unfold take_will. destruct (sessions _ !! c); [|done]. by destruct (_ =? _). }
    destruct (take_will _ _ _) as [wl sess]. cbn in Ht, Hm.
    assert (Hi1 : shared_inv g (w <| sh_sessions := sess |>)).
    { destruct Hi as [H1 H2 H3 H4]. split; cbn; [done|lia|done..]. }
    destruct wl as [wl|]; [by apply publish_inv|eauto]. }
  destruct H as (w1 & -> & Hi1). cbn [mbind option_bind]. eexists. split; [done|]. by apply cleanup_inv.
Qed.
End Gauges.

(** ** Handlers *)

Section Keeps.
Context {M : Mpsc} {L : MpscLaws M} {S : Sled} {JR : Json RetainedMessage}
  {JS : Json SessionSnapshot} {JO : Json OutboundPublish} {F : ForwardEnv} {K : Sink}.
Abbreviation State := (Broker M S F * Conn K)%type.
Abbreviation HM := (@HM M S F K).
Implicit Types (P : State → Prop) (st : State).

Definition keeps {A} P (m : HM A) : Prop :=
  ∀ st, P st → ∃ r st', m st = Some (r, st') ∧ P st'.

Lemma keeps_ret {A} P (a : A) : keeps P (mret a).
Proof. intros st H. by exists (Ok a), st. Qed.
Lemma keeps_err {A} P e : keeps P (hm_err e : HM A).
Proof. intros st H. by exists (Err e), st. Qed.
Lemma keeps_gets {A} P (f : State → A) : keeps P (gets f).
Proof. intros st H. by exists (Ok (f st)), st. Qed.
Lemma keeps_bind {A B} P (m : HM A) (k : A → HM B) :
  keeps P m → (∀ a, keeps P (k a)) → keeps P (m ≫= k).
Proof.
  intros Hm Hk st H. destruct (Hm st H) as ([a|e] & st' & E & H'); unfold mbind, hm_bind; rewrite E; [|eauto].
  by apply Hk.
Qed.
Lemma keeps_modify_broker P f : (∀ b c, P (b, c) → P (f b, c)) → keeps P (modify_broker f).
Proof. intros Hf [b c] H. exists (Ok tt), (f b, c). split; [done|auto]. Qed.
Lemma keeps_modify_conn P f : (∀ b c, P (b, c) → P (b, f c)) → keeps P (modify_conn f).
Proof. intros Hf [b c] H. exists (Ok tt), (b, f c). split; [done|auto]. Qed.
Lemma keeps_for_each {A} P (f : A → HM unit) l : (∀ a, keeps P (f a)) → keeps P (for_each f l).
Proof. intros Hf. induction l as [|a l IH]; cbn [for_each]; [apply keeps_ret|]. by apply keeps_bind. Qed.

(** What of the security guard a packet handler leaves alone. *)
Definition guard_view (g : SecurityGuard) : SecurityPolicy * IpConnectionCounter := (policy g, ip_counter g).

(** The invariant of the broker and of one connection. *)
Record conn_inv (cfg : BrokerConfig) (g : Z * Z) (pg : SecurityPolicy * IpConnectionCounter) st : Prop := {
  ci_shared : shared_inv g (b_shared st.1);
  ci_config : b_config st.1 = cfg;
  ci_guard : guard_view (b_security st.1) = pg;
  ci_out : out_inv (max_inflight cfg) (default 3 (max_retries cfg))
             (next_pid st.2, outbound_inflight st.2);
}.

Context (cfg : BrokerConfig) (g : Z * Z) (pg : SecurityPolicy * IpConnectionCounter).
Hypothesis retries_nonneg : 0 ≤ default 3 (max_retries cfg).
Abbreviation I := (conn_inv cfg g pg).

Lemma keeps_modify_shared f :
  (∀ w, shared_inv g w → shared_inv g (f w)) → keeps I (modify_shared f).
Proof. intros Hf. apply keeps_modify_broker. intros b c [H1 H2 Hg H3]. split; cbn in *; auto. Qed.

Lemma keeps_metrics f : (∀ m, gauges (f m) = gauges m) → keeps I (metrics f).
Proof. intros Hf. apply keeps_modify_shared. intros w [H1 H2 H3 H4]. split; [done..|]. rewrite <-H4. apply Hf. Qed.

Lemma keeps_run_shared f :
  (∀ w, shared_inv g w → ∃ w', f w = Some w' ∧ shared_inv g w') → keeps I (run_shared f).
Proof.
  intros Hf [b c] [H1 H2 Hg H3]. destruct (Hf _ H1) as (w' & E & Hw). unfold run_shared. cbn in E |- *. rewrite E.
  cbn. do 2 eexists. split; [done|]. by split.
Qed.

Lemma keeps_send p : keeps I (send p).
Proof.
  intros [b c] [H1 H2 Hg H3]. unfold send. destruct (sink_send (sink c) p) as [r k].
  do 2 eexists. split; [done|]. by split.
Qed.

Lemma keeps_send_or e p : keeps I (send_or e p).
Proof.
  intros st H. destruct (keeps_send p st H) as (r & st' & E & H'). unfold send_or. rewrite E.
  destruct r; eauto.
Qed.

Lemma build_for_inv b c req now :
  I (b, c) → I (b, (build_for b c req now).2).
Proof.
  intros [H1 H2 Hg H3]. unfold build_for. cbn in H2. rewrite H2.
  destruct (build_outbound_packet _ _ _ _ _) as [[pkt np] t] eqn:E. split; [done..|].
  eapply (out_step_inv _ 0); [done|exact H3|]. by eapply step_send.
Qed.

Lemma keeps_build req now : keeps I (build_outbound req now).
Proof.
  intros [b c] H. unfold build_outbound. pose proof (build_for_inv b c req now H) as H'.
  destruct (build_for b c req now) as [pkt c']. by do 2 eexists.
Qed.

Hint Resolve keeps_ret keeps_err keeps_gets keeps_send keeps_send_or keeps_build : keeps.

Ltac keeps_auto := repeat first [apply keeps_bind; [|intros ?] | progress auto with keeps].

Lemma guard_check_view gd c len max now :
  guard_view (guard_check_publish gd c len max now).2 = guard_view gd.
Proof.
  unfold guard_check_publish. destruct (negb _); [done|]. destruct (_ >? _); [done|].
  destruct (_ >? 0); [|done]. destruct (limiter_try_consume _ _ _) as [[] l]; done.
Qed.

Lemma keeps_security p c now : keeps I (security_check p c now).
Proof.
  intros [b k] [[H1 H2 H3 H4] Hc Hg Ho]. unfold security_check.
  pose proof (guard_check_view (b_security b) c (Z.of_nat (length (p_payload p)))
                (max_packet_size (b_config b)) now) as Hv.
  destruct (guard_check_publish _ _ _ _ _) as [r s]. cbn in Hv, Hg. rewrite Hg in Hv.
  destruct r; (do 2 eexists; split; [done|]; split; [by split|done..]).
Qed.

Lemma keeps_plugin p (rej : bool) : keeps I (plugin_check p rej).
Proof.
  unfold plugin_check. destruct rej; keeps_auto. case_match; keeps_auto. by apply keeps_metrics.
Qed.

Lemma keeps_qos2 p : keeps I (qos2_first p).
Proof.
  unfold qos2_first. case_bool_decide; [|keeps_auto]. destruct (p_packet_id p); [|keeps_auto].
  intros [b c] [H1 H2 Hg H3]. cbn. do 2 eexists. split; [done|]. by split.
Qed.

Lemma keeps_forward p c : keeps I (forward_publish p c).
Proof.
  apply keeps_modify_broker. intros b k [[H1 H2 H3 H4] Hc Hg Ho]. unfold plugin_try_forward, try_forward.
  destruct (fw_tx _); [|by split]. destruct (match topic_filter _ with Some _ => _ | None => _ end); [by split|].
  destruct (fw_try_send _ _ _) as [[] ?]; by split.
Qed.

Lemma keeps_acknowledge p : keeps I (acknowledge p).
Proof. unfold acknowledge. destruct (p_qos p), (p_packet_id p); keeps_auto. Qed.

Lemma keeps_publish p c now : keeps I (handle_publish p c now).
Proof.
  unfold handle_publish. apply keeps_bind; [apply keeps_security|intros sr].
  apply keeps_bind; [apply keeps_plugin|intros pr]. apply keeps_bind; [apply keeps_qos2|intros fst].
  apply keeps_bind; [|intros _; apply keeps_acknowledge].
  destruct (fst && negb sr && negb pr); [|keeps_auto].
  apply keeps_bind; [by apply keeps_metrics|intros _].
  apply keeps_bind; [|intros _].
  { apply keeps_metrics. intros m. unfold inc_publish_qos. by repeat case_match. }
  apply keeps_bind; [|intros _; apply keeps_forward].
  apply keeps_run_shared. intros w Hw. by apply publish_inv.
Qed.

Lemma keeps_subscribe_topic c max_subs t : keeps I (subscribe_topic c max_subs t).
Proof.
  intros [b k] H. unfold subscribe_topic. destruct (_ && _); [by do 2 eexists|].
  destruct (plugin_check_subscribe _ _); [|by do 2 eexists].
  destruct (subscribe _ _ _ _) as [tree|] eqn:E; [|by do 2 eexists].
  do 2 eexists. split; [done|]. destruct H as [[H1 H2 H3 H4] Hc Hg Ho].
  split; [split; [exact H1|exact H2| |exact H4]|exact Hc|exact Hg|exact Ho]. cbn. by eapply subscribe_inv.
Qed.

Lemma keeps_subscribe_topics c max_subs ts : keeps I (subscribe_topics c max_subs ts).
Proof.
  induction ts as [|t ts IH]; cbn [subscribe_topics]; [keeps_auto|].
  apply keeps_bind; [apply keeps_subscribe_topic|intros [code acc]].
  apply keeps_bind; [done|intros [codes accepted]]. keeps_auto.
Qed.

Lemma keeps_deliver_accepted now fq : keeps I (deliver_accepted now fq).
Proof.
  unfold deliver_accepted. apply keeps_bind; [keeps_auto|intros l]. apply keeps_for_each. intros m.
  unfold deliver_retained. apply keeps_bind; [keeps_auto|]. intros [p|]; [keeps_auto|by apply keeps_metrics].
Qed.

Lemma keeps_subscribe s c max_subs now : keeps I (handle_subscribe s c max_subs now).
Proof.
  unfold handle_subscribe. apply keeps_bind; [apply keeps_subscribe_topics|intros [codes accepted]].
  apply keeps_bind; [keeps_auto|intros _].
  apply keeps_bind; [apply keeps_for_each, keeps_deliver_accepted|intros _].
  apply keeps_modify_shared. intros w. apply persist_inv.
Qed.

Lemma keeps_unsubscribe c f : keeps I (unsubscribe_one c f).
Proof.
  apply keeps_bind; [|intros _; apply keeps_modify_conn; intros b k [H1 H2 Hg H3]; by split].
  apply keeps_modify_shared. intros w [H1 H2 H3 H4]. split; [exact H1|exact H2| |exact H4]. cbn.
  destruct (unsubscribe (sh_subscriptions w) c f) as [r t] eqn:E. by eapply unsubscribe_inv.
Qed.

(** Updates of the outbound table are steps of its state machine. *)
Lemma keeps_outbound (f : InflightTable → InflightTable) :
  (∀ np t, ∃ out, out_step (max_inflight cfg) 0 (default 3 (max_retries cfg)) (np, t) out (np, f t)) →
  keeps I (modify_conn (λ c, c <| outbound_inflight ::= f |>)).
Proof.
  intros Hf. apply keeps_modify_conn. intros b c [H1 H2 Hg H3]. split; [done..|]. cbn in *.
  destruct (Hf (next_pid c) (outbound_inflight c)) as [out Hs]. by eapply out_step_inv.
Qed.

Lemma keeps_packet p c max_subs now : keeps I (handle_packet p c max_subs now).
Proof.
  unfold handle_packet. apply keeps_bind; [|intros _; keeps_auto].
  destruct p as [?|?|pb|id|id|id|id|s|?|u|?| | |]; try (keeps_auto; fail).
  - apply keeps_publish.
  - apply keeps_outbound. intros np t. exists []. constructor.
  - apply keeps_bind; [|intros _; keeps_auto]. apply keeps_outbound. intros np t. exists [PPubrel id]. constructor.
  - apply keeps_bind; [|intros _; keeps_auto]. apply keeps_modify_conn. intros b k [H1 H2 Hg H3]. by split.
  - apply keeps_outbound. intros np t. exists []. constructor.
  - apply keeps_subscribe.
  - apply keeps_bind; [apply keeps_for_each, keeps_unsubscribe|intros _].
    apply keeps_bind; [by apply keeps_metrics|intros _]. apply keeps_bind; [keeps_auto|intros _].
    apply keeps_modify_shared. intros w. apply persist_inv.
Qed.
End Keeps.
