(* ===== verification/HandlersTheorems.v ===== *)
(** * Correctness of the packet handlers

    Totality and invariants for every packet, and what PUBLISH and SUBSCRIBE do,
    case by case. *)

From S2P Require Import Prelude Packet Messages OfflineQueue Subscription SubscriptionProofs.
From S2P Require Import SubscriptionTheorems Storage StorageProofs Metrics Retain Session.
From S2P Require Import SessionProofs SessionTheorems Qos QosProofs QosTheorems Router.
From S2P Require Import RouterTheorems Auth IpFilter Limiter Security Plugin PluginTheorems.
From S2P Require Import Lifecycle LifecycleTheorems Config Handlers HandlersProofs.

Section Handled.
Context {M : Mpsc} {L : MpscLaws M} {S : Sled} {JR : Json RetainedMessage}
  {JS : Json SessionSnapshot} {JO : Json OutboundPublish} {F : ForwardEnv} {K : Sink} {LK : SinkLaws K}.
Implicit Types (b : Broker M S F) (c : Conn K).

(** C18: Every packet a client can send, in any state within the invariants, is
    handled to the end: the handler returns (with a result or an error), the
    session table, the subscription tree and the outbound table still satisfy
    their invariants, the configuration and the guard's policy and per-IP counters
    are unchanged, and the gauges of connections have not moved. *)
Theorem handle_packet_safe cfg g pg packet client_id max_subs now b c :
  0 ≤ default 3 (max_retries cfg) → conn_inv cfg g pg (b, c) →
  ∃ r b' c', handle_packet packet client_id max_subs now (b, c) = Some (r, (b', c')) ∧
    conn_inv cfg g pg (b', c').
Proof.
  intros Hr Hi. destruct (keeps_packet cfg g pg Hr packet client_id max_subs now (b, c) Hi)
    as (r & [b' c'] & ? & ?). eauto.
Qed.

(** ** PUBLISH *)

(** The acknowledgement a PUBLISH is owed. *)
Definition ack_of (p : Publish) : list Packet :=
  match p_qos p, p_packet_id p with
  | QoS.AtLeastOnce, Some id => [PPuback id]
  | QoS.ExactlyOnce, Some id => [PPubrec id]
  | _, _ => []
  end.

(** The guards' answer, and whether a QoS 2 handshake is already open. *)
Definition rejected b (p : Publish) (client_id : string) (now : Instant) : bool :=
  negb (is_ok (guard_check_publish (b_security b) client_id (Z.of_nat (length (p_payload p)))
                 (max_packet_size (b_config b)) now).1)
  || negb (is_ok (plugin_check_publish (b_plugin b) p)).

Definition duplicate c (p : Publish) : bool :=
  match p_qos p, p_packet_id p with
  | QoS.ExactlyOnce, Some id => bool_decide (id ∈ seen (inbound_qos2 c))
  | _, _ => false
  end.

(** Everything but the counters. *)
Definition same_world (w w' : Shared M S) : Prop :=
  sh_subscriptions w' = sh_subscriptions w ∧ sh_sessions w' = sh_sessions w ∧
  sh_retain w' = sh_retain w ∧ sh_storage w' = sh_storage w ∧ sh_chans w' = sh_chans w.

Definition tracked (p : Publish) (t : InboundQos2Tracker) : InboundQos2Tracker :=
  match p_qos p, p_packet_id p with
  | QoS.ExactlyOnce, Some id => (on_publish t id).2
  | _, _ => t
  end.

(** The guards: the verdict, and a world that differs in counters only. *)
Lemma guards_verdict b c p client_id now :
  ∃ sr pr b1, security_check p client_id now (b, c) = Some (Ok sr, (b1, c)) ∧
    (∃ b2, plugin_check p sr (b1, c) = Some (Ok pr, (b2, c)) ∧ same_world (b_shared b) (b_shared b2)) ∧
    sr || pr = rejected b p client_id now.
Proof.
  unfold rejected, security_check. destruct (guard_check_publish _ _ _ _ _) as [[u|e] g]; cbn [fst is_ok negb orb].
  - exists false, (negb (is_ok (plugin_check_publish (b_plugin b) p))). eexists. split; [done|]. split; [|done].
    unfold plugin_check, mbind, hm_bind, gets. cbn.
    destruct (plugin_check_publish (b_plugin b) p); (eexists; split; [done|]; by repeat split).
  - exists true, false. eexists. split; [done|]. split; [|done]. by eexists.
Qed.

(** The outcome of a PUBLISH that is handled without error. *)
Lemma handle_publish_outcome p client_id now b c b' c' :
  handle_publish p client_id now (b, c) = Some (Ok tt, (b', c')) →
  written (sink c') = written (sink c) ++ ack_of p ∧
  inbound_qos2 c' = tracked p (inbound_qos2 c) ∧
  (rejected b p client_id now || duplicate c p = true → same_world (b_shared b) (b_shared b')) ∧
  (rejected b p client_id now || duplicate c p = false →
   ∃ w0 w1, same_world (b_shared b) w0 ∧
     publish w0 (p_topic p) (p_payload p) (p_qos p) (p_retain p) (Some client_id) now = Some w1 ∧
     same_world w1 (b_shared b')).
Proof.
  unfold handle_publish. destruct (guards_verdict b c p client_id now) as (sr & pr & b1 & Hs & (b2 & Hp & Hw) & Hrej).
  unfold mbind at 1, hm_bind at 1. rewrite Hs. unfold mbind at 1, hm_bind at 1. rewrite Hp.
  (* the QoS 2 table *)
  unfold mbind at 1, hm_bind at 1.
  assert (Hq : qos2_first p (b2, c) = Some (Ok (negb (duplicate c p)), (b2, c <| inbound_qos2 := tracked p (inbound_qos2 c) |>))
               ∨ ∃ e st, qos2_first p (b2, c) = Some (Err e, st)).
  { unfold qos2_first, duplicate, tracked. destruct (p_qos p); cbn.
    - left. by destruct c.
    - left. by destruct c.
    - destruct (p_packet_id p) as [id|]; [by left|right; eauto]. }
  destruct Hq as [->|(e & st & ->)]; [|done].
  set (c1 := c <| inbound_qos2 := _ |>).
  (* the acknowledgement *)
  assert (Hack : ∀ b4 b5 c5, acknowledge p (b4, c1) = Some (Ok tt, (b5, c5)) →
            b5 = b4 ∧ written (sink c5) = written (sink c) ++ ack_of p ∧ inbound_qos2 c5 = inbound_qos2 c1).
  { intros b4 b5 c5. unfold acknowledge, ack_of.
    assert (Hsend : ∀ pk, send pk (b4, c1) = Some (Ok tt, (b5, c5)) →
              b5 = b4 ∧ written (sink c5) = written (sink c) ++ [pk] ∧ inbound_qos2 c5 = inbound_qos2 c1).
    { intros pk. unfold send. destruct (sink_send (sink c1) pk) as [[[]|e] k] eqn:Ek; [|done].
      intros [= <- <-]. split; [done|]. split; [|done]. by apply send_ok in Ek. }
    assert (Hret : (mret tt : HM unit) (b4, c1) = Some (Ok tt, (b5, c5)) →
              b5 = b4 ∧ written (sink c5) = written (sink c) ++ [] ∧ inbound_qos2 c5 = inbound_qos2 c1).
    { intros [= <- <-]. by rewrite app_nil_r. }
    destruct (p_qos p), (p_packet_id p); auto. }
  assert (Hroute : negb (duplicate c p) && negb sr && negb pr = negb (rejected b p client_id now || duplicate c p)).
  { rewrite <-Hrej. by destruct sr, pr, (duplicate c p). }
  cbv zeta. rewrite Hroute. destruct (rejected b p client_id now || duplicate c p); cbn [negb].
  - unfold mbind, hm_bind. cbn. intros [-> [Hwr Ht]]%Hack. by split_and!.
  - unfold mbind, hm_bind, metrics, modify_shared, modify_broker, run_shared. cbn.
    unfold route_inbound_publish. match goal with |- context [publish ?w _ _ _ _ _ _] => set (w0 := w) end.
    destruct (publish w0 _ _ _ _ _ _) as [w1|] eqn:Ep; [|done]. cbn.
    unfold plugin_try_forward. destruct (try_forward _ _ _ _ _) as [[f ch] m].
    intros [-> [Hwr Ht]]%Hack. split_and!; [done..|]. intros _. exists w0, w1. by split_and!.
Qed.

(** C19: A PUBLISH that is handled without error gets exactly the acknowledgement
    its QoS demands, PUBACK or PUBREC with its identifier or nothing for QoS 0,
    and no other packet, whether or not it was accepted.  If a guard rejected it
    or it repeats an open QoS 2 handshake, nothing is routed: subscriptions,
    sessions, channels, retained messages and database are untouched.  Otherwise
    it has been published under its topic, payload, QoS and retain flag to
    everybody but its sender.  A QoS 2 identifier is recorded in either case. *)
Theorem publish_handled p client_id now b c b' c' :
  handle_publish p client_id now (b, c) = Some (Ok tt, (b', c')) →
  written (sink c') = written (sink c) ++ ack_of p ∧
  inbound_qos2 c' = tracked p (inbound_qos2 c) ∧
  (rejected b p client_id now || duplicate c p = true → same_world (b_shared b) (b_shared b')) ∧
  (rejected b p client_id now || duplicate c p = false →
   ∃ w0 w1, same_world (b_shared b) w0 ∧
     publish w0 (p_topic p) (p_payload p) (p_qos p) (p_retain p) (Some client_id) now = Some w1 ∧
     same_world w1 (b_shared b')).
Proof. apply handle_publish_outcome. Qed.

(** ** SUBSCRIBE *)

(** The subscriptions a list of return codes grants. *)
Definition granted (ts : list SubscribeTopic) (codes : list Z) : list (string * QoS) :=
  omap (λ tc : SubscribeTopic * Z,
          if tc.2 =? suback_code.FAILURE then None else Some (st_topic_filter tc.1, st_qos tc.1)) (zip ts codes).

(** The QoS of filter [f] after these subscriptions, in order. *)
Definition resubscribed (f : string) (old : option QoS) (gs : list (string * QoS)) : option QoS :=
  foldl (λ o fq, if decide (fq.1 = f) then Some fq.2 else o) old gs.

Definition code_ok (t : SubscribeTopic) (code : Z) : Prop :=
  code = suback_code.FAILURE ∨ code = QoS.as_u8 (st_qos t).

(** What subscribing leaves alone. *)
Definition subs_frame b b' : Prop :=
  sh_sessions (b_shared b') = sh_sessions (b_shared b) ∧ sh_retain (b_shared b') = sh_retain (b_shared b) ∧
  sh_chans (b_shared b') = sh_chans (b_shared b).

(** The outcome of one topic. *)
Definition topic_outcome (client_id : string) (max_subs : nat) (t : SubscribeTopic) b c
    (r : option (BrokerResult (Z * option (string * QoS)) * (Broker M S F * Conn K))) : Prop :=
  ∃ code acc b' c', r = Some (Ok (code, acc), (b', c')) ∧ code_ok t code ∧
    acc = (if code =? suback_code.FAILURE then None else Some (st_topic_filter t, st_qos t)) ∧
    (∀ d f, sub_lookup (sh_subscriptions (b_shared b')) d f =
       if decide (d = client_id) then resubscribed f (sub_lookup (sh_subscriptions (b_shared b)) d f) (option_list acc)
       else sub_lookup (sh_subscriptions (b_shared b)) d f) ∧
    (size (my_filters c') ≤ Nat.max max_subs (size (my_filters c)))%nat ∧
    subs_frame b b' ∧ sink c' = sink c.

Lemma topic_refused client_id max_subs t b c :
  topic_outcome client_id max_subs t b c (Some (Ok (suback_code.FAILURE, None), (b, c))).
Proof.
  do 4 eexists. split; [done|]. split; [by left|]. split; [done|]. split; [|split; [lia|done]].
  intros d f. by destruct (decide _).
Qed.

Lemma subscribe_topic_spec client_id max_subs t b c :
  topic_outcome client_id max_subs t b c (subscribe_topic client_id max_subs t (b, c)).
Proof.
  pose proof (topic_refused client_id max_subs t b c) as Hfail. unfold subscribe_topic.
  destruct (negb (bool_decide (st_topic_filter t ∈ my_filters c)) && _) eqn:Elim; [done|].
  destruct (plugin_check_subscribe _ _); [|done].
  destruct (subscribe _ _ _ _) as [tree|] eqn:E; [|done]. clear Hfail.
  do 4 eexists. split; [done|]. split; [by right|]. split; [by destruct (st_qos t)|]. split.
  - intros d f. cbn. rewrite (subscribe_lookup _ _ _ _ _ _ _ E).
    destruct (decide (d = client_id)) as [->|]; [|by rewrite decide_False by naive_solver].
    destruct (decide (st_topic_filter t = f)) as [->|]; [by rewrite decide_True|by rewrite decide_False by naive_solver].
  - split; [|done]. cbn. case_bool_decide as Hin.
    + assert (Hs : {[st_topic_filter t]} ∪ my_filters c = my_filters c) by set_solver. rewrite Hs. lia.
    + cbn in Elim. apply Nat.leb_gt in Elim. pose proof (size_union_alt {[st_topic_filter t]} (my_filters c)) as Hu.
      rewrite Hu, size_singleton. pose proof (subseteq_size (my_filters c ∖ {[st_topic_filter t]}) (my_filters c) ltac:(set_solver)). lia.
Qed.

Lemma subscribe_topics_spec client_id max_subs ts b c :
  ∃ codes b' c', subscribe_topics client_id max_subs ts (b, c) = Some (Ok (codes, granted ts codes), (b', c')) ∧
    Forall2 code_ok ts codes ∧
    (∀ d f, sub_lookup (sh_subscriptions (b_shared b')) d f =
       if decide (d = client_id) then resubscribed f (sub_lookup (sh_subscriptions (b_shared b)) d f) (granted ts codes)
       else sub_lookup (sh_subscriptions (b_shared b)) d f) ∧
    (size (my_filters c') ≤ Nat.max max_subs (size (my_filters c)))%nat ∧
    subs_frame b b' ∧ sink c' = sink c.
Proof.
  revert b c. induction ts as [|t ts IH]; intros b c; cbn [subscribe_topics].
  { exists [], b, c. split; [done|]. split; [constructor|]. split; [intros d f; by destruct (decide _)|].
    split; [lia|done]. }
  destruct (subscribe_topic_spec client_id max_subs t b c) as (code & acc & b1 & c1 & E1 & Hc & Ha & Hl1 & Hs1 & Hf1 & Hk1).
  destruct (IH b1 c1) as (codes & b2 & c2 & E2 & Hcs & Hl2 & Hs2 & Hf2 & Hk2).
  exists (code :: codes), b2, c2. unfold mbind at 1, hm_bind at 1. rewrite E1. unfold mbind, hm_bind. rewrite E2.
  assert (Hg : granted (t :: ts) (code :: codes) = option_list acc ++ granted ts codes).
  { unfold granted. cbn. rewrite Ha. by destruct (code =? suback_code.FAILURE). }
  rewrite Hg. split; [done|]. split; [by constructor|]. split.
  - intros d f. rewrite Hl2, Hl1. destruct (decide (d = client_id)); [|done].
    unfold resubscribed. by rewrite foldl_app.
  - split; [lia|]. split; [|congruence]. unfold subs_frame in *. destruct Hf1 as (? & ? & ?), Hf2 as (? & ? & ?).
    split_and!; congruence.
Qed.

(** A packet that delivers a retained message to one of the subscriptions. *)
Definition retained_packet (r : RetainStore) (gs : list (string * QoS)) (pk : Packet) : Prop :=
  ∃ fq m pid, fq ∈ gs ∧ m ∈ Retain.matches r fq.1 ∧ pk = build_publish (Retain.build_outbound m fq.2) pid.

(** What a delivery phase does when it succeeds. *)
Definition delivers (r : RetainStore) (gs : list (string * QoS)) (m : HM unit) : Prop :=
  ∀ b c b' c', sh_retain (b_shared b) = r → m (b, c) = Some (Ok tt, (b', c')) →
  ∃ pkts, written (sink c') = written (sink c) ++ pkts ∧ Forall (retained_packet r gs) pkts ∧
    same_world (b_shared b) (b_shared b') ∧ my_filters c' = my_filters c.

Lemma same_world_trans (w1 w2 w3 : Shared M S) : same_world w1 w2 → same_world w2 w3 → same_world w1 w3.
Proof. intros (?&?&?&?&?) (?&?&?&?&?). unfold same_world. split_and!; congruence. Qed.

Lemma delivers_for_each {A} r gs (f : A → HM unit) l :
  (∀ a, a ∈ l → delivers r gs (f a)) → delivers r gs (for_each f l).
Proof.
  induction l as [|a l IH]; intros Hf b c b' c' Hr; cbn [for_each].
  { intros [= <- <-]. exists []. rewrite app_nil_r. split; [done|]. split; [constructor|]. by split. }
  unfold mbind, hm_bind. destruct (f a (b, c)) as [[[[]|e] [b1 c1]]|] eqn:E1; [|done..]. intros E2.
  destruct (Hf a ltac:(by left) b c b1 c1 Hr E1) as (p1 & Hw1 & Hp1 & Hs1 & Hm1).
  assert (Hr1 : sh_retain (b_shared b1) = r) by (destruct Hs1 as (_ & _ & -> & _); done).
  destruct (IH ltac:(intros; apply Hf; by right) b1 c1 b' c' Hr1 E2) as (p2 & Hw2 & Hp2 & Hs2 & Hm2).
  exists (p1 ++ p2). rewrite Hw2, Hw1, app_assoc. split; [done|]. split; [by apply Forall_app|].
  split; [by eapply same_world_trans|congruence].
Qed.

Lemma delivers_accepted r gs now fq : fq ∈ gs → delivers r gs (deliver_accepted now fq).
Proof.
  intros Hin b c b' c' Hr. unfold deliver_accepted, mbind, hm_bind, gets, shared_of. cbn [fst]. rewrite Hr.
  apply (delivers_for_each r gs); [|done]. clear -Hin. intros m Hm b c b' c' Hr.
  unfold deliver_retained, mbind, hm_bind, build_outbound, build_for.
  destruct (build_outbound_packet _ _ _ _ _) as [[pkt np] t] eqn:Eb. destruct pkt as [pkt|].
  - unfold send_or, send. cbn [sink upd]. match goal with |- context [sink_send ?k pkt] => destruct (sink_send k pkt) as [[[]|e] k'] eqn:Ek end; [|done].
    intros [= <- <-]. exists [pkt]. split; [by apply send_ok in Ek|]. split; [|by split].
    constructor; [|constructor]. revert Eb. unfold build_outbound_packet.
    case_bool_decide; [intros [= <- _ _]; by exists fq, m, None|]. destruct (_ <=? _)%nat; [done|].
    destruct (allocate_pid _ _) as [pid np']. destruct (pid =? 0); [done|]. intros [= <- _ _]. by exists fq, m, (Some pid).
  - unfold metrics, modify_shared, modify_broker. intros [= <- <-]. exists []. rewrite app_nil_r.
    split; [done|]. split; [constructor|]. by repeat split.
Qed.

(** C20: A SUBSCRIBE that is handled without error writes one SUBACK with the
    packet's identifier and one return code per topic filter, each the
    requested QoS or the failure code, followed by nothing but retained messages
    that match a granted filter, with the retain flag set; the client's
    subscriptions are the old ones updated, in order, with exactly those
    granted, and no other client's change; the filters the connection holds do
    not exceed the configured maximum, nor what it held before. *)
Theorem subscribe_handled s client_id max_subs now b c b' c' :
  handle_subscribe s client_id max_subs now (b, c) = Some (Ok tt, (b', c')) →
  ∃ codes pkts,
    written (sink c') = written (sink c) ++ PSuback (mkSuback (s_packet_id s) codes) :: pkts ∧
    Forall2 code_ok (s_topics s) codes ∧
    Forall (retained_packet (sh_retain (b_shared b)) (granted (s_topics s) codes)) pkts ∧
    (∀ d f, sub_lookup (sh_subscriptions (b_shared b')) d f =
       if decide (d = client_id)
       then resubscribed f (sub_lookup (sh_subscriptions (b_shared b)) d f) (granted (s_topics s) codes)
       else sub_lookup (sh_subscriptions (b_shared b)) d f) ∧
    (size (my_filters c') ≤ Nat.max max_subs (size (my_filters c)))%nat ∧ subs_frame b b'.
Proof.
  unfold handle_subscribe.
  destruct (subscribe_topics_spec client_id max_subs (s_topics s) b c) as (codes & b1 & c1 & E1 & Hcs & Hl & Hs & Hf & Hk).
  unfold mbind at 1, hm_bind at 1. rewrite E1. unfold mbind at 1, hm_bind at 1, send.
  destruct (sink_send (sink c1) _) as [[[]|e] k] eqn:Ek; [|done]. apply send_ok in Ek. rewrite Hk in Ek.
  set (c2 := c1 <| sink := k |>). unfold mbind, hm_bind.
  destruct (for_each _ _ (b1, c2)) as [[[[]|e] [b3 c3]]|] eqn:Ed; [|done..].
  destruct Hf as (Hf1 & Hf2 & Hf3).
  destruct (delivers_for_each (sh_retain (b_shared b)) (granted (s_topics s) codes) (deliver_accepted now)
              (granted (s_topics s) codes) ltac:(intros; by apply delivers_accepted) b1 c2 b3 c3 Hf2 Ed)
    as (pkts & Hw & Hp & (H1 & H2 & H3 & H4 & H5) & Hm).
  unfold modify_shared, modify_broker. intros [= <- <-]. exists codes, pkts.
  destruct (persist_frame (b_shared b3) client_id) as (Hp1 & Hp2 & Hp3).
  assert (Hp4 : sh_retain (persist_session_snapshot (b_shared b3) client_id) = sh_retain (b_shared b3)).
  { unfold persist_session_snapshot. destruct (sh_storage _); [|done]. destruct (is_clean_session _ _); [done|].
    by destruct (subscriptions_of _ _). }
  split; [|split; [done|split; [done|split; [|split]]]].
  - rewrite Hw. subst c2. cbn [sink]. change (sink (c1 <| sink := k |>)) with k. rewrite Ek, <-app_assoc. done.
  - intros d f. cbn. by rewrite Hp2, H1, Hl.
  - rewrite Hm. exact Hs.
  - unfold subs_frame. cbn. rewrite Hp1, Hp3, Hp4. split_and!; congruence.
Qed.
End Handled.

(** ** A concrete connection *)

Import ListChan MapDb ListForward Demo.

Module HandlerDemo.
(** A writer that never fails and keeps what was written. *)
#[export] Instance list_sink : Sink := {|
  SinkState := list Packet;
  sink_send s p := (Ok tt, s ++ [p]);
|}.
#[export] Program Instance list_sink_laws : SinkLaws list_sink := {| written := λ s, s |}.
Next Obligation. by intros s p s' [= <-]. Qed.

Definition config : BrokerConfig := mkBrokerConfig "node" 100 1024 60 4 8 (Some 10) (Some 3).
Definition server : Broker list_mpsc map_sled list_forward :=
  mkBroker broker guard_disabled plugin_disabled ∅ (mkAuthConfig AuthMode.Anonymous true []) config.
Definition client : Conn list_sink := mkConn ∅ 1 ∅ tracker_new [].

Lemma broker_inv0 : shared_inv (0, 0) broker.
Proof.
  split; [apply manager_inv|apply Nat.ltb_lt; reflexivity| |reflexivity].
  apply ok_tree_subscribe, ok_tree_subscribe, tree_inv_new.
Qed.

Lemma client_inv : conn_inv config (0, 0) (guard_view guard_disabled) (server, client).
Proof.
  split; [apply broker_inv0|reflexivity..|]. apply (reachable_inv _ 0); [cbn; lia|apply reach_init].
Qed.
End HandlerDemo.
Import HandlerDemo.

Lemma handle_packet_safe_witness :
  ∃ r b' c', handle_packet (PPubrec 7) "c2" 4 9 (server, client) = Some (r, (b', c')) ∧
    conn_inv config (0, 0) (guard_view guard_disabled) (b', c').
Proof. apply handle_packet_safe; [cbn; lia|exact client_inv]. Defined.

(** Whether a handler returned without error. *)
Definition succeeded {A St} (r : option (BrokerResult A * St)) : bool :=
  match r with Some (Ok _, _) => true | _ => false end.

Lemma succeeded_unit {St} (r : option (BrokerResult unit * St)) :
  succeeded r = true → ∃ st, r = Some (Ok tt, st).
Proof. destruct r as [[[[]|e] st]|]; [eauto|done..]. Qed.

(** A QoS 2 message of "c2": routed to "c1" and acknowledged. *)
Lemma publish_handled_witness :
  ∃ b' c', handle_publish (mkPublish false QoS.ExactlyOnce false "a/b" (Some 5) [7]) "c2" 9 (server, client)
           = Some (Ok tt, (b', c')) ∧ written (sink c') = [PPubrec 5] ∧ seen (inbound_qos2 c') = {[5]}.
Proof.
  destruct (succeeded_unit (handle_publish (mkPublish false QoS.ExactlyOnce false "a/b" (Some 5) [7]) "c2" 9
    (server, client))) as [[b' c'] E]; [vm_compute; reflexivity|].
  exists b', c'. split; [exact E|]. destruct (publish_handled _ _ _ _ _ _ _ E) as (Hw & Ht & _).
  split; [exact Hw|]. rewrite Ht. reflexivity.
Defined.

Lemma subscribe_handled_witness :
  ∃ b' c' codes pkts,
    handle_subscribe (mkSubscribe 3 [mkSubscribeTopic "x/#" QoS.AtLeastOnce; mkSubscribeTopic "bad#" QoS.AtMostOnce])
      "c2" 4 9 (server, client) = Some (Ok tt, (b', c')) ∧
    written (sink c') = PSuback (mkSuback 3 codes) :: pkts ∧ length codes = 2%nat.
Proof.
  destruct (succeeded_unit (handle_subscribe (mkSubscribe 3 [mkSubscribeTopic "x/#" QoS.AtLeastOnce;
    mkSubscribeTopic "bad#" QoS.AtMostOnce]) "c2" 4 9 (server, client))) as [[b' c'] E]; [vm_compute; reflexivity|].
  destruct (subscribe_handled _ _ _ _ _ _ _ _ E) as (codes & pkts & Hw & Hc & _).
  exists b', c', codes, pkts. split; [exact E|]. split; [exact Hw|]. by apply Forall2_length in Hc.
Defined.
