(* ===== verification/Utils.v ===== *)
(** * Identifiers, [src/utils/time.rs]

    The identifiers of connections and of traced messages are digits of a random
    UUID, which is a parameter. *)

From S2P Require Import Prelude.

(** ** Identifiers *)

(** The [uuid] crate: [simple] writes the 32 hexadecimal digits of the value. *)
Class UuidCrate := {
  Uuid : Type;
  as_u128 : Uuid → Z;
  simple : Uuid → string;
}.

(** [count] digits of [n], the last ones. *)
Fixpoint hex_padded (count : nat) (n : Z) (acc : string) : string :=
  match count with
  | O => acc
  | S count => hex_padded count (n / 16) (String (hex_digit (n mod 16)) acc)
  end.

(** A value of 128 bits, of version 4 in the variant of RFC 4122: the two bits
    above the last 62 are fixed. *)
Class UuidLaws (U : UuidCrate) := {
  as_u128_range u : 0 ≤ as_u128 u < 2 ^ 128;
  simple_digits u : simple u = hex_padded 32 (as_u128 u) "";
  variant_bits u : as_u128 u / 2 ^ 62 mod 4 = 2;
}.

(** [format!("{:016x}", n)]: at least 16 digits; a [u64] has no more. *)
Definition fmt_016x (n : Z) : string := hex_padded 16 n "".

Section Ids.
Context {U : UuidCrate}.

(** [s[..12]] panics when it is out of range. *)
Definition short_id (new_v4 : Uuid) : option string :=
  let s := simple new_v4 in
  if (12 <=? String.length s)%nat then Some (String.substring 0 12 s) else None.

Definition trace_id (new_v4 : Uuid) : string :=
  let rand_part := as_u128 new_v4 mod u64_mod in
  fmt_016x rand_part.

(** ** What the digits say *)

Context {LU : UuidLaws U}.

Definition hex_value_of (c : Ascii.ascii) : Z :=
  let b := byte_of_ascii c in if b <? 58 then b - 48 else b - 87.

(** The number a string of digits stands for, after the digits of [acc]. *)
Fixpoint hex_value (s : string) (acc : Z) : Z :=
  match s with
  | EmptyString => acc
  | String c s => hex_value s (acc * 16 + hex_value_of c)
  end.

Lemma hex_digit_value d : 0 ≤ d < 16 → hex_value_of (hex_digit d) = d.
Proof.
  intros H. unfold hex_value_of, hex_digit. destruct (Z.ltb_spec d 10); rewrite byte_of_ascii_of_byte by lia.
  - destruct (Z.ltb_spec (48 + d) 58); lia.
  - destruct (Z.ltb_spec (87 + d) 58); lia.
Qed.

Lemma hex_padded_length count n acc : String.length (hex_padded count n acc) = (count + String.length acc)%nat.
Proof. revert n acc. induction count as [|count IH]; intros n acc; cbn; [done|]. rewrite IH. cbn. lia. Qed.

Lemma hex_padded_acc count n acc : hex_padded count n acc = (hex_padded count n "" +:+ acc).
Proof.
  revert n acc. induction count as [|count IH]; intros n acc; cbn [hex_padded]; [done|].
  rewrite IH, (IH _ (String _ "")). by rewrite <-string_app_assoc.
Qed.

(** The digits in front and the digits behind. *)
Lemma hex_padded_split a b n acc :
  hex_padded (a + b) n acc = hex_padded a (n / 16 ^ Z.of_nat b) (hex_padded b n acc).
Proof.
  revert n acc. induction b as [|b IH]; intros n acc.
  { rewrite Nat.add_0_r, Z.div_1_r. done. }
  rewrite Nat.add_succ_r. cbn [hex_padded]. rewrite IH. f_equal.
  rewrite Nat2Z.inj_succ, Z.pow_succ_r, Z.div_div by lia. done.
Qed.

Lemma hex_padded_value count n acc v :
  0 ≤ n → hex_value (hex_padded count n acc) v = hex_value acc (v * 16 ^ Z.of_nat count + n mod 16 ^ Z.of_nat count).
Proof.
  revert n acc v. induction count as [|count IH]; intros n acc v Hn; cbn [hex_padded].
  { rewrite Z.mod_1_r. f_equal. cbn. lia. }
  rewrite IH by (apply Z.div_pos; lia). cbn [hex_value]. rewrite hex_digit_value by (apply Z.mod_pos_bound; lia). f_equal.
  rewrite Nat2Z.inj_succ, Z.pow_succ_r by lia. rewrite (Z.rem_mul_r n 16) by lia. lia.
Qed.

Lemma substring_prefix a b n : String.length a = n → String.substring 0 n (a +:+ b) = a.
Proof.
  intros <-. induction a as [|c a IH]; [by destruct b|]. exact (f_equal (String c) IH).
Qed.

(** Twelve digits, those of the first 48 bits: the slice is never out of range. *)
Lemma short_id_spec u :
  ∃ s, short_id u = Some s ∧ String.length s = 12%nat ∧ hex_value s 0 = as_u128 u / 2 ^ 80.
Proof.
  pose proof (as_u128_range u) as Hr. unfold short_id. rewrite simple_digits.
  rewrite hex_padded_length. cbn [Nat.add Nat.leb String.length]. eexists. split; [done|].
  rewrite (hex_padded_split 12 20), hex_padded_acc, substring_prefix by apply hex_padded_length.
  split; [apply hex_padded_length|]. change (16 ^ Z.of_nat 20) with (2 ^ 80).
  rewrite hex_padded_value by (apply Z.div_pos; lia). cbn [hex_value].
  rewrite Z.mod_small; [lia|]. change (16 ^ Z.of_nat 12) with (2 ^ 48). split; [apply Z.div_pos; lia|].
  apply Z.div_lt_upper_bound; lia.
Qed.

(** Sixteen digits, those of the last 64 bits, which can be read back from them. *)
Lemma trace_id_spec u :
  String.length (trace_id u) = 16%nat ∧ hex_value (trace_id u) 0 = as_u128 u mod 2 ^ 64.
Proof.
  pose proof (as_u128_range u) as Hr. unfold trace_id, fmt_016x. split; [apply hex_padded_length|].
  change u64_mod with (2 ^ 64). rewrite hex_padded_value by (apply Z.mod_pos_bound; lia). cbn [hex_value].
  change (16 ^ Z.of_nat 16) with (2 ^ 64). rewrite Z.mod_mod by lia. lia.
Qed.

(** The two fixed bits are among them: 62 bits are random, and the first digit is
    8, 9, a or b. *)
Lemma trace_id_range u : 2 ^ 63 ≤ hex_value (trace_id u) 0 < 2 ^ 63 + 2 ^ 62.
Proof.
  destruct (trace_id_spec u) as [_ ->]. pose proof (variant_bits u) as Hv.
  assert (E : as_u128 u mod 2 ^ 64 / 2 ^ 62 = 2).
  { transitivity (as_u128 u / 2 ^ 62 mod 4); [|done]. change (2 ^ 64) with (2 ^ 62 * 4). rewrite Z.rem_mul_r by lia.
    rewrite Z.add_comm, Z.mul_comm, Z.div_add_l by lia.
    rewrite (Z.div_small (as_u128 u mod 2 ^ 62)) by (apply Z.mod_pos_bound; lia). lia. }
  pose proof (Z.div_mod (as_u128 u mod 2 ^ 64) (2 ^ 62) ltac:(lia)).
  pose proof (Z.mod_pos_bound (as_u128 u mod 2 ^ 64) (2 ^ 62) ltac:(lia)). lia.
Qed.
End Ids.

(** Such a crate exists. *)
Module OneUuid.
#[export] Instance one_uuid : UuidCrate := {| Uuid := unit; as_u128 _ := 2 ^ 63 + 5; simple _ := hex_padded 32 (2 ^ 63 + 5) "" |}.
#[export] Instance one_uuid_laws : UuidLaws one_uuid.
Proof. split; intros u; vm_compute; (split; [discriminate|reflexivity]) || reflexivity. Qed.

Example trace_id_example : trace_id tt = "8000000000000005" ∧ short_id tt = Some "000000000000".
Proof. split; reflexivity. Qed.
End OneUuid.
