(* ===== verification/Logging.v ===== *)
(** * The log, [src/monitor/log.rs]

    How the subscriber is put together from the configuration, and the writer that
    sends every line to the console and to the log file.  The console, the rolling
    file and the filter syntax are parameters. *)

From S2P Require Import Prelude Config.

(** [stdout], [tracing_appender] and [tracing_subscriber].  A [NonBlocking] is a
    handle that its clones share; what is written goes to the state [Outputs]. *)
Class LogEnv := {
  EnvFilter : Type;
  filter_new : string → EnvFilter;
  NonBlocking : Type;
  WorkerGuard : Type;
  Outputs : Type;
  stdout_write_all : Outputs → list Z → Result string unit * Outputs;
  stdout_flush : Outputs → Result string unit * Outputs;
  file_write_all : Outputs → NonBlocking → list Z → Result string unit * Outputs;
  file_flush : Outputs → NonBlocking → Result string unit * Outputs;
  (* the rolling file in a directory, with the prefix and suffix of its names *)
  rolling_build : LogRotation → string → string → string → Result string (NonBlocking * WorkerGuard);
}.

Section Logging.
Context {E : LogEnv}.

Record Tee := mkTee { tee_file : option NonBlocking }.
Record TeeMaker := mkTeeMaker { maker_file : option NonBlocking }.

(** [Write for Tee]: what the outputs say is ignored. *)
Definition tee_write (self : Tee) (buf : list Z) (out : Outputs) : Result string nat * Outputs :=
  let out := (stdout_write_all out buf).2 in
  let out := match tee_file self with Some f => (file_write_all out f buf).2 | None => out end in
  (Ok (length buf), out).

Definition tee_flush (self : Tee) (out : Outputs) : Result string unit * Outputs :=
  let out := (stdout_flush out).2 in
  let out := match tee_file self with Some f => (file_flush out f).2 | None => out end in
  (Ok tt, out).

Definition make_writer (self : TeeMaker) : Tee := mkTee (maker_file self).

(** [None] also when the file cannot be opened, which is reported on the console. *)
Definition build_file_writer (cfg : LogConfig) : option (NonBlocking * WorkerGuard) :=
  if str_is_empty (log_dir cfg) then None
  else
    match rolling_build (log_rotation cfg) "lumenmq" "log" (log_dir cfg) with
    | Ok r => Some r
    | Err _ => None
    end.

(** The subscriber that is installed. *)
Record Subscriber := mkSubscriber {
  sub_filter : EnvFilter;
  sub_format : LogFormat;
  sub_ansi : bool;
  sub_writer : TeeMaker;
}.

(** [env]: the filter that the environment variable asks for, if it is valid. *)
Definition init_logging (cfg : LogConfig) (env : option EnvFilter) : Subscriber * option WorkerGuard :=
  let env_filter := default (filter_new (log_level cfg)) env in
  let '(file_writer, guard) :=
    match build_file_writer cfg with
    | Some (w, g) => (Some w, Some g)
    | None => (None, None)
    end in
  let maker := mkTeeMaker file_writer in
  let ansi := match guard with None => true | Some _ => false end in
  (mkSubscriber env_filter (log_format cfg) ansi maker, guard).

(** ** Lemmas *)

(** Lines one after the other. *)
Fixpoint tee_write_all (self : Tee) (bufs : list (list Z)) (out : Outputs) : Outputs :=
  match bufs with
  | [] => out
  | buf :: bufs => tee_write_all self bufs (tee_write self buf out).2
  end.

(** Colours are used exactly when there is no file that they would end up in, and
    the guard that keeps the file's worker alive is returned exactly when there is
    one. *)
Lemma init_logging_spec cfg env sub guard :
  init_logging cfg env = (sub, guard) →
  sub_format sub = log_format cfg ∧
  (sub_ansi sub = true ↔ tee_file (make_writer (sub_writer sub)) = None) ∧
  (guard = None ↔ tee_file (make_writer (sub_writer sub)) = None) ∧
  (guard = None ↔ log_dir cfg = ""%string ∨
     ∃ e, rolling_build (log_rotation cfg) "lumenmq" "log" (log_dir cfg) = Err e).
Proof.
  unfold init_logging, build_file_writer. destruct (log_dir cfg) as [|c d] eqn:Ed; cbn [str_is_empty].
  { intros [= <- <-]. cbn. split_and!; (done || naive_solver). }
  destruct (rolling_build _ _ _ _) as [[w g]|e]; intros [= <- <-]; cbn; split_and!; try (done || naive_solver).
Qed.

(** What reaches the log file, when its writer takes everything: all that was
    logged, in order, whatever the console did. *)
Lemma tee_complete f (content : Outputs → list Z) bufs out :
  (∀ o b, content (stdout_write_all o b).2 = content o) →
  (∀ o b, content (file_write_all o f b).2 = content o ++ b) →
  content (tee_write_all (mkTee (Some f)) bufs out) = content out ++ concat bufs.
Proof.
  intros Hs Hf. revert out. induction bufs as [|buf bufs IH]; intros out; cbn [tee_write_all concat].
  { by rewrite app_nil_r. }
  rewrite IH. cbn. by rewrite Hf, Hs, app_assoc.
Qed.
End Logging.
