(* ===== verification/Heartbeat.v ===== *)
(** * The heartbeat of a connection, [src/net/heartbeat.rs]

    The timer on top of [tokio::time::Interval], which is a parameter: what its
    documentation says of the times of the ticks are laws.  The ticks of a timer
    that is polled in time are never more than a period apart. *)

From S2P Require Import Prelude Messages.

(** ** [tokio::time::Interval] *)

(** [tick_at i now]: a [tick] that is polled at [now] completes, and leaves the
    interval in this state; [None]: it does not complete yet. *)
Class TokioTime := {
  Interval : Type;
  interval_at : Instant → Duration → Interval;
  set_missed_tick_delay : Interval → Interval;
  tick_at : Interval → Instant → option Interval;
}.

(** The first tick completes at the start.  With [MissedTickBehavior::Delay] the
    tick after one that was late comes a period after it, and otherwise a period
    after the time it was due. *)
Class TokioTimeLaws (N : TokioTime) := {
  due : Interval → Instant;
  period : Interval → Duration;
  delays : Interval → bool;
  interval_at_due start p : due (interval_at start p) = start ∧ period (interval_at start p) = p;
  set_delay_same i :
    due (set_missed_tick_delay i) = due i ∧ period (set_missed_tick_delay i) = period i ∧
    delays (set_missed_tick_delay i) = true;
  tick_due i now : is_Some (tick_at i now) ↔ due i ≤ now;
  tick_next i now i' : tick_at i now = Some i' → delays i = true →
    period i' = period i ∧ delays i' = true ∧ (due i' = due i + period i ∨ due i' = now + period i);
}.

(** ** [HeartbeatTimer] *)

Section Heartbeat.
Context {N : TokioTime}.

Record HeartbeatTimer := mkHeartbeatTimer { timer_inner : Interval }.

(** The time to the first tick and between ticks. *)
Definition heartbeat_period (keep_alive_secs : Z) : Duration :=
  from_secs (if keep_alive_secs =? 0 then 3600 else keep_alive_secs * 3 / 2 + 1).

Definition HeartbeatTimer_new (keep_alive_secs : Z) (now : Instant) : HeartbeatTimer :=
  let secs := heartbeat_period keep_alive_secs in
  let start := now + secs in
  mkHeartbeatTimer (set_missed_tick_delay (interval_at start secs)).

Definition tick (self : HeartbeatTimer) (now : Instant) : option HeartbeatTimer :=
  mkHeartbeatTimer <$> tick_at (timer_inner self) now.

(** ** The times of the ticks *)

Context {LN : TokioTimeLaws N}.

(** The timer completes its ticks at these times, each polled at most [jitter]
    after it was due. *)
Fixpoint ticks (jitter : Duration) (self : HeartbeatTimer) (ts : list Instant) : Prop :=
  match ts with
  | [] => True
  | t :: ts => t ≤ due (timer_inner self) + jitter ∧ ∃ self', tick self t = Some self' ∧ ticks jitter self' ts
  end.

(** The next tick is due within a period of [t]. *)
Definition paced_from (p : Duration) (t : Instant) (self : HeartbeatTimer) : Prop :=
  delays (timer_inner self) = true ∧ period (timer_inner self) = p ∧ due (timer_inner self) ≤ t + p.

Lemma new_paced ka now : paced_from (heartbeat_period ka) now (HeartbeatTimer_new ka now).
Proof.
  unfold HeartbeatTimer_new, paced_from. cbn.
  destruct (set_delay_same (interval_at (now + heartbeat_period ka) (heartbeat_period ka))) as (H1 & H2 & H3).
  destruct (interval_at_due (now + heartbeat_period ka) (heartbeat_period ka)) as [H4 H5].
  rewrite H1, H2, H4, H5. split; [done|]. split; [done|lia].
Qed.

Lemma paced_later p t t' self : t ≤ t' → paced_from p t self → paced_from p t' self.
Proof. intros Hle (H1 & H2 & H3). split; [done|]. split; [done|lia]. Qed.

Lemma tick_paced p t0 t self self' :
  paced_from p t0 self → tick self t = Some self' → due (timer_inner self) ≤ t ∧ paced_from p t self'.
Proof.
  intros (H1 & H2 & H3). unfold tick. destruct (tick_at (timer_inner self) t) as [i|] eqn:E; [|done]. intros [= <-].
  assert (Hd : due (timer_inner self) ≤ t) by (apply tick_due; eauto).
  destruct (tick_next _ _ _ E H1) as (E1 & E2 & E3). split; [done|]. split; [done|]. cbn. split; [congruence|]. lia.
Qed.

(** The ticks up to a time leave the next one due within a period of it. *)
Lemma ticks_split jitter p t0 self ts0 ts t :
  paced_from p t0 self → t0 ≤ t → Forall (λ x, x ≤ t) ts0 → ticks jitter self (ts0 ++ ts) →
  ∃ self', paced_from p t self' ∧ ticks jitter self' ts.
Proof.
  revert t0 self. induction ts0 as [|x ts0 IH]; intros t0 self Hp Ht Hall Hts.
  { exists self. split; [by eapply paced_later|done]. }
  apply Forall_cons in Hall as [Hx Hall]. destruct Hts as (_ & self' & E & Hts).
  destruct (tick_paced _ _ _ _ _ Hp E) as [_ Hp']. by eapply (IH x).
Qed.
End Heartbeat.

(** ** A timer *)

Module DelayTimer.
(** A tick that is more than five milliseconds late counts as missed. *)
Definition lenience : Duration := 5000000.
Definition next_tick (i : Instant * Duration * bool) (now : Instant) : option (Instant * Duration * bool) :=
  let '(at_, p, d) := i in
  if at_ <=? now then Some (if d && (at_ + lenience <? now) then now + p else at_ + p, p, d) else None.

#[export] Instance delay_time : TokioTime := {|
  Interval := Instant * Duration * bool;
  interval_at start p := (start, p, false);
  set_missed_tick_delay i := (i.1, true);
  tick_at := next_tick;
|}.

#[export] Instance delay_time_laws : TokioTimeLaws delay_time.
Proof.
  refine {| due i := i.1.1; period i := i.1.2; delays i := i.2 |}.
  - done.
  - by intros [[at_ p] d].
  - intros [[at_ p] d] now. cbn. destruct (Z.leb_spec at_ now) as [H|H]; split; intros H1; [done|by eexists|by destruct H1|lia].
  - intros [[at_ p] d] now i'. cbn. destruct (at_ <=? now); [|done]. intros [= <-] Hd. cbn in *. subst d.
    split; [done|]. split; [done|]. cbn. destruct (_ <? _); auto.
Defined.
End DelayTimer.
