(* ===== verification/Connection.v ===== *)
(** * The life of a connection, [src/broker/mod.rs] and [src/net/conn_context.rs]

    From the first packet to the last counter: admission, CONNECT, replay of
    offline messages, the main loop, and the ways it ends.  What the network,
    the timers and the shutdown signal do is given as events; the model is the
    code's reaction to each. *)

From S2P Require Import Prelude Packet Messages OfflineQueue Subscription Storage Metrics.
From S2P Require Import Retain Session Qos Router Auth IpFilter Limiter Security Plugin.
From S2P Require Import Lifecycle Config Handlers.

(** ** [ConnContext] *)

Record ConnContext := mkConnContext {
  conn_id : string;
  ctx_peer_addr : SocketAddr;
  ctx_connected_at : Instant;
  ctx_client_id : option string;
  keep_alive : Z;
  last_activity : Instant;
  authenticated : bool;
  ctx_protocol_level : Z;
  ctx_username : option string;
}.

#[export] Instance ConnContext_settable : Settable ConnContext :=
  λ c, mkConnContext (conn_id c) (ctx_peer_addr c) (ctx_connected_at c) (ctx_client_id c)
         (keep_alive c) (last_activity c) (authenticated c) (ctx_protocol_level c) (ctx_username c).

(** The identifier comes from a random UUID. *)
Definition ConnContext_new (id : string) (peer : SocketAddr) (now : Instant) : ConnContext :=
  mkConnContext id peer now None 0 now false 4 None.

Definition touch (self : ConnContext) (now : Instant) : ConnContext := self <| last_activity := now |>.

Definition is_keep_alive_expired (self : ConnContext) (now : Instant) : bool :=
  if keep_alive self =? 0 then false
  else
    let elapsed := duration_since now (last_activity self) in
    let timeout := from_secs (keep_alive self * 3 / 2 + 1) in
    elapsed >? timeout.

#[export] Instance Connect_settable : Settable Connect :=
  λ c, mkConnect (c_protocol_level c) (c_keep_alive c) (c_client_id c) (c_clean_session c)
         (c_will c) (c_username c) (c_password c) (c_properties c).

Section Connection.
Context {M : Mpsc} {S : Sled} {JR : Json RetainedMessage} {JS : Json SessionSnapshot}
  {JO : Json OutboundPublish} {F : ForwardEnv} {K : Sink}.
Implicit Types b : Broker M S F.

Definition on_metrics (f : Metrics → Metrics) b : Broker M S F :=
  b <| b_shared ::= λ w, w <| sh_metrics ::= f |> |>.

(** ** [PendingGuard] *)

Record PendingGuard := mkPendingGuard { promoted : bool }.

Definition pending_new b : PendingGuard * Broker M S F := (mkPendingGuard false, on_metrics inc_pending b).
Definition promote (g : PendingGuard) b : PendingGuard * Broker M S F :=
  if promoted g then (g, b) else (mkPendingGuard true, on_metrics dec_pending b).
Definition drop_pending (g : PendingGuard) b : Broker M S F :=
  if promoted g then b else on_metrics dec_pending b.

(** ** CONNECT *)

(** The outcome of reading the first packet within ten seconds. *)
Inductive FirstRead :=
  | ReadTimeout
  | ReadEnd
  | ReadErr (e : BrokerError)
  | ReadPacket (p : Packet).

(** What the rest of the function knows of the session. *)
Record SessionInfo := mkSessionInfo {
  si_client_id : string;
  si_epoch : Z;
  si_clean : bool;
  si_rx : Sender;   (* the receiver of the channel whose sender is in the session *)
}.

(** [let _ = sink.send(p).await] *)
Definition send_quiet (k : SinkState) (p : Packet) : SinkState := (sink_send k p).2.

Definition auth_code (e : AuthError) : Z :=
  match e with
  | AuthError.BadCredentials => connack_code.BAD_USERNAME_PASSWORD
  | AuthError.UnauthorizedClientId => connack_code.IDENTIFIER_REJECTED
  | AuthError.AnonymousForbidden => connack_code.NOT_AUTHORIZED
  | AuthError.TooManyConnections => connack_code.SERVER_UNAVAILABLE
  end.

(** Steps 1 to 3: the packet, the protocol level, the client identifier, the
    credentials.  [None] in the first component: the connection is refused. *)
Definition check_connect b (k : SinkState) (first : FirstRead) (auto_id : string)
    : option (Connect * AuthIdentity) * Broker M S F * SinkState :=
  match first with
  | ReadTimeout | ReadEnd | ReadErr _ => (None, b, k)
  | ReadPacket (PConnect c) =>
      if negb (c_protocol_level c =? MQTT_3_1_1_LEVEL) && negb (c_protocol_level c =? MQTT_5_LEVEL) then
        (None, b, send_quiet k (connack_error connack_code.BAD_PROTOCOL_VERSION))
      else if str_is_empty (c_client_id c) && negb (c_clean_session c) then
        (None, on_metrics inc_disconnect b, send_quiet k (connack_error connack_code.IDENTIFIER_REJECTED))
      else
        let c := if str_is_empty (c_client_id c) then c <| c_client_id := auto_id |> else c in
        match authenticate (b_auth b) (c_client_id c) (c_username c) (c_password c) with
        | Ok identity => (Some (c, identity), b, k)
        | Err e => (None, on_metrics inc_disconnect b, send_quiet k (connack_error (auth_code e)))
        end
  | ReadPacket _ => (None, b, k)
  end.

(** Step 5: the channel and the registration. *)
Definition register_session b (c : Connect) (peer : SocketAddr) (now : Instant)
    : (Sender * (Z * bool * list OutboundPublish)) * Broker M S F :=
  let w := b_shared b in
  let cap := Nat.max (max_inflight (b_config b)) 16 in
  let '(tx, ch) := channel (sh_chans w) cap in
  let session_expiry := p ← c_properties c; session_expiry_interval p in
  let '(r, sess) := register (sh_sessions w) (c_client_id c) (c_clean_session c) tx
                      (WillMessage_from <$> c_will c) (c_protocol_level c) peer session_expiry now in
  ((tx, r), b <| b_shared := w <| sh_chans := ch |> <| sh_sessions := sess |> |>).

Definition run_cleanup b (si : SessionInfo) (now : Instant) : Broker M S F :=
  b <| b_shared ::= λ w, cleanup w (si_client_id si) (si_epoch si) (si_clean si) now |>.

(** [on_abnormal_disconnect]; [None]: the will's delivery does not return. *)
Definition run_abnormal b (si : SessionInfo) (now : Instant) : option (Broker M S F) :=
  w ← on_abnormal_disconnect (b_shared b) (si_client_id si) (si_epoch si) (si_clean si) now;
  Some (b <| b_shared := w |>).

(** [METRICS.dec_connections(); METRICS.inc_disconnect()] *)
Definition count_closed b : Broker M S F := on_metrics inc_disconnect (on_metrics dec_connections b).

(** ** Replay of offline messages *)

(** Which branch of the [select!] runs for a message: the shutdown signal
    (whether it is a real shutdown), the heartbeat at an instant, or the send.
    The first two are polled first, but they can also become ready while the send
    waits for the network: [started] says that the frame is in the writer's
    buffer by then, where it stays when the send is dropped. *)
Inductive ReplayEvent :=
  | RShutdown (signalled started : bool)
  | RHeartbeat (at_ : Instant) (started : bool)
  | RSend.

Definition dropped_send (c : Conn K) (pkt : Packet) (started : bool) : Conn K :=
  if started then c <| sink ::= λ k, send_quiet k pkt |> else c.

(** The state of a loop: going on, or closed with the counters settled. *)
Inductive Phase (A : Type) := Open (a : A) | Closed (b : Broker M S F) (k : SinkState).
Arguments Open {A} a.
Arguments Closed {A} b k.

(** One event per message that has a packet; when the list is used up, the
    remaining messages are sent.  In the first two branches, when they do not
    end the connection, the loop goes on with the next message. *)
Fixpoint replay (si : SessionInfo) (ctx : ConnContext) (msgs : list OutboundPublish)
    (evs : list ReplayEvent) (now : Instant) (st : Broker M S F * Conn K)
    : option (Phase (Broker M S F * Conn K)) :=
  match msgs with
  | [] => Some (Open st)
  | msg :: msgs =>
      let '(b, c) := st in
      match build_for b c msg now with
      | (None, c) => replay si ctx msgs evs now (on_metrics inc_message_dropped b, c)
      | (Some pkt, c) =>
          match evs with
          | RShutdown signalled started :: evs =>
              let c := dropped_send c pkt started in
              if signalled then
                let k := send_quiet (sink c) PDisconnect in
                Some (Closed (count_closed (run_cleanup b si now)) k)
              else replay si ctx msgs evs now (b, c)
          | RHeartbeat at_ started :: evs =>
              let c := dropped_send c pkt started in
              if is_keep_alive_expired ctx at_ then
                b ← run_abnormal b si at_; Some (Closed (count_closed b) (sink c))
              else replay si ctx msgs evs now (b, c)
          | (RSend :: _ | []) as evs =>
              match sink_send (sink c) pkt with
              | (Ok _, k) => replay si ctx msgs (tail evs) now (b, c <| sink := k |>)
              | (Err _, k) => b ← run_abnormal b si now; Some (Closed (count_closed b) k)
              end
          end
      end
  end.

(** ** The main loop *)

Inductive LoopEvent :=
  | LShutdown (signalled : bool)
  | LHeartbeat
  | LRetry
  | LPacket (item : option (BrokerResult Packet))
  | LOutbound (req : option OutboundPublish).

(** The loop's variables. *)
Record LoopState := mkLoopState {
  l_broker : Broker M S F;
  l_conn : Conn K;
  l_ctx : ConnContext;
}.

Fixpoint send_all (k : SinkState) (pkts : list Packet) : bool * SinkState :=
  match pkts with
  | [] => (true, k)
  | p :: pkts =>
      match sink_send k p with
      | (Ok _, k) => send_all k pkts
      | (Err _, k) => (false, k)
      end
  end.

(** [self.on_abnormal_disconnect(..); break], then the code after the loop. *)
Definition close_abnormal b (k : SinkState) (si : SessionInfo) (now : Instant)
    : option (Phase LoopState) :=
  b ← run_abnormal b si now; Some (Closed (count_closed b) k).

Definition loop_step (si : SessionInfo) (max_subs : nat) (retry_timeout : Duration) (max_retries : Z)
    (l : LoopState) (ev : LoopEvent) (now : Instant) : option (Phase LoopState) :=
  let b := l_broker l in
  let c := l_conn l in
  let ctx := l_ctx l in
  match ev with
  | LShutdown signalled =>
      if signalled then
        let k := send_quiet (sink c) PDisconnect in
        Some (Closed (count_closed (run_cleanup b si now)) k)
      else Some (Open l)
  | LHeartbeat =>
      if is_keep_alive_expired ctx now then close_abnormal b (sink c) si now else Some (Open l)
  | LRetry =>
      let '(to_resend, failed, t) := retry_expired (outbound_inflight c) retry_timeout max_retries now in
      let c := c <| outbound_inflight := t |> in
      match send_all (sink c) to_resend.*2 with
      | (true, k) => Some (Open (mkLoopState b (c <| sink := k |>) ctx))
      | (false, k) => close_abnormal b k si now
      end
  | LPacket (Some (Ok packet)) =>
      let ctx := touch ctx now in
      match handle_packet packet (si_client_id si) max_subs now (b, c) with
      | None => None
      | Some (Ok Continue, (b, c)) => Some (Open (mkLoopState b c ctx))
      | Some (Ok Disconnect, (b, c)) =>
          let b := b <| b_shared ::= λ w, w <| sh_sessions ::= λ s, clear_will s (si_client_id si) (si_epoch si) |> |> in
          Some (Closed (count_closed (run_cleanup b si now)) (sink c))
      | Some (Err _, (b, c)) => close_abnormal b (sink c) si now
      end
  | LPacket (Some (Err _)) | LPacket None => close_abnormal b (sink c) si now
  | LOutbound None => Some (Closed (count_closed b) (sink c))
  | LOutbound (Some req) =>
      match build_for b c req now with
      | (None, c) => Some (Open (mkLoopState (on_metrics inc_message_dropped b) c ctx))
      | (Some pkt, c) =>
          match sink_send (sink c) pkt with
          | (Ok _, k) => Some (Open (mkLoopState b (c <| sink := k |>) ctx))
          | (Err _, k) => close_abnormal b k si now
          end
      end
  end.

Fixpoint run_loop (si : SessionInfo) (max_subs : nat) (retry_timeout : Duration) (max_retries : Z)
    (l : LoopState) (evs : list (LoopEvent * Instant)) : option (Phase LoopState) :=
  match evs with
  | [] => Some (Open l)
  | (ev, now) :: evs =>
      match loop_step si max_subs retry_timeout max_retries l ev now with
      | Some (Open l) => run_loop si max_subs retry_timeout max_retries l evs
      | r => r
      end
  end.

(** ** The whole function *)

(** What the outside does during one connection. *)
Record Script := mkScript {
  sc_first : FirstRead;
  sc_auto_id : string;
  sc_conn_id : string;
  sc_replay : list ReplayEvent;
  sc_loop : list (LoopEvent * Instant);
}.

(** The start of [handle_connection_inner], up to the CONNACK: what the rest of
    it works with, or that the connection is closed already; with the guard and
    [client_id_out]. *)
Definition establish b (k : SinkState) (peer : SocketAddr) (first : FirstRead) (auto_id id : string)
    (guard : PendingGuard) (now : Instant)
    : Phase (SessionInfo * ConnContext * list OutboundPublish * (Broker M S F * Conn K)) * PendingGuard
      * option string :=
  let ctx := ConnContext_new id peer now in
  match check_connect b k first auto_id with
  | (None, b, k) => (Closed b k, guard, None)
  | (Some (connect, identity), b, k) =>
      let cid := c_client_id connect in
      let clean := c_clean_session connect in
      let ctx := touch (ctx <| ctx_client_id := Some cid |> <| keep_alive := c_keep_alive connect |>
                            <| ctx_protocol_level := c_protocol_level connect |>
                            <| authenticated := true |>
                            <| ctx_username := identity_username identity |>) now in
      let '((rx, (epoch, session_present, offline_messages)), b) := register_session b connect peer now in
      let session_present := session_present && negb clean in
      let si := mkSessionInfo cid epoch clean rx in
      let '(guard, b) := promote guard b in
      let b := on_metrics inc_connections b in
      let connack := PConnack (mkConnack session_present connack_code.ACCEPTED (c_protocol_level connect)) in
      match sink_send k connack with
      | (Err _, k) => (Closed (count_closed (run_cleanup b si now)) k, guard, Some cid)
      | (Ok _, k) => (Open (si, ctx, offline_messages, (b, mkConn ∅ 1 ∅ tracker_new k)), guard, Some cid)
      end
  end.

(** The parameters of the main loop, from the configuration. *)
Definition loop_max_subs b : nat := max_subscriptions_per_client (b_config b).
Definition loop_timeout b : Duration := from_secs (default 10 (retry_interval_secs (b_config b))).
Definition loop_retries b : Z := default 3 (max_retries (b_config b)).

(** [tokio::time::interval], which panics on a zero period; the panic of one task
    aborts the process ([panic = "abort"] in [Cargo.toml]). *)
Definition interval (period : Duration) : option Duration := if period =? 0 then None else Some period.

(** [handle_connection_inner]: how far it got.  [None]: a call does not return, or
    the process is aborted. *)
Definition handle_connection_inner b (k : SinkState) (peer : SocketAddr) (sc : Script)
    (guard : PendingGuard) (now : Instant)
    : option (Phase LoopState * PendingGuard * option string) :=
  match establish b k peer (sc_first sc) (sc_auto_id sc) (sc_conn_id sc) guard now with
  | (Closed b k, guard, client_id) => Some (Closed b k, guard, client_id)
  | (Open (si, ctx, offline_messages, (b, conn)), guard, client_id) =>
      let max_subs := loop_max_subs b in
      let max_retries := loop_retries b in
      retry_timeout ← interval (loop_timeout b);
      match replay si ctx offline_messages (sc_replay sc) now (b, conn) with
      | None => None
      | Some (Closed b k) => Some (Closed b k, guard, client_id)
      | Some (Open (b, conn)) =>
          let b := b <| b_shared ::= λ w, clear_disk_offline w (si_client_id si) |> in
          l ← run_loop si max_subs retry_timeout max_retries (mkLoopState b conn ctx) (sc_loop sc);
          Some (l, guard, client_id)
      end
  end.

(** The guards of [handle_connection] around it: the check, the registration,
    and what is undone in the end. *)
Definition check_peer b (peer : SocketAddr) : bool * Broker M S F :=
  let '(r, m) := check_connection (b_security b) peer (sh_metrics (b_shared b)) in
  (is_ok r, on_metrics (λ _, m) b).
Definition enter b (peer : SocketAddr) : PendingGuard * Broker M S F :=
  pending_new (b <| b_security ::= λ g, on_connect g peer |>).
Definition leave b (guard : PendingGuard) (peer : SocketAddr) (client_id : option string) : Broker M S F :=
  drop_pending guard (b <| b_security ::= λ g, on_disconnect g peer client_id |>).

(** [handle_connection].  [Open]: the script ends while the connection is still
    served.  [None]: a call does not return, or the process is aborted. *)
Definition handle_connection b (k : SinkState) (peer : SocketAddr) (sc : Script) (now : Instant)
    : option (Phase LoopState) :=
  match check_peer b peer with
  | (false, b) => Some (Closed b k)
  | (true, b) =>
      let '(guard, b) := enter b peer in
      '(l, guard, client_id) ← handle_connection_inner b k peer sc guard now;
      Some match l with
           | Open l => Open l
           | Closed b k => Closed (leave b guard peer client_id) k
           end
  end.

(** ** Start of the broker *)

(** [BrokerState::new]; every failure falls back to a disabled part.  [None]:
    the recovery of a session does not return. *)
Definition BrokerState_new (cfg : Settings) (m : Metrics) (ch : Chans) (fw : FwChans) (now : Instant)
    : option (Broker M S F) :=
  let sessions := with_limits (cfg_max_offline_messages (s_storage cfg))
                    (from_secs (cfg_offline_message_ttl (s_storage cfg))) in
  let storage := if storage_enabled (s_storage cfg) then
                   match Storage.open (storage_path (s_storage cfg)) with Ok s => Some s | Err _ => None end
                 else None in
  let retain := with_max_payload_bytes RetainStore_new (max_packet_size (s_broker cfg)) in
  let retain := match storage with
                | Some s => match load_from_storage retain s with Ok r => r | Err _ => retain end
                | None => retain
                end in
  let security := match guard_new (s_security cfg) with Ok g => g | Err _ => guard_disabled end in
  let '(plugin, fw) := plugin_new (s_plugin cfg) fw in
  let w := mkShared SubscriptionTree_new sessions retain storage m ch in
  '(_, w) ← load_persistent_sessions w now;
  Some (mkBroker w security plugin fw (s_auth cfg) (s_broker cfg)).
End Connection.
Arguments Phase M S F K A : clear implicits.
Arguments Open {M S F K A} a.
Arguments Closed {M S F K A} b k.
Arguments LoopState M S F K : clear implicits.
