(* ===== verification/ConnectionTheorems.v ===== *)
(** * Correctness of connections

    Every packet is handled to the end within the invariants, and a connection,
    however it goes, gives back what it took: its place in the connection
    gauges and in the per-IP counter. *)

From S2P Require Import Prelude Packet Messages OfflineQueue Subscription SubscriptionProofs.
From S2P Require Import SubscriptionTheorems Storage StorageProofs Metrics Retain Session.
From S2P Require Import SessionProofs SessionTheorems Qos QosProofs QosTheorems Router.
From S2P Require Import RouterTheorems Auth IpFilter Limiter Security Plugin PluginTheorems.
From S2P Require Import Lifecycle LifecycleTheorems Handlers HandlersProofs HandlersTheorems Config.
From S2P Require Import Heartbeat Connection.

Section Accounting.
Context {M : Mpsc} {L : MpscLaws M} {S : Sled} {JR : Json RetainedMessage}
  {JS : Json SessionSnapshot} {JO : Json OutboundPublish} {F : ForwardEnv} {K : Sink}.
Implicit Types (b : Broker M S F) (k : SinkState).

(** ** Gauges *)

Definition in_i64 (z : Z) : Prop := - 2 ^ 63 ≤ z < 2 ^ 63.

Lemma wrap_i64_id z : - 2 ^ 63 ≤ z < 2 ^ 63 → wrap_i64 z = z.
Proof. intros H. unfold wrap_i64, u64_mod. change (18446744073709551616 / 2) with (2 ^ 63). rewrite Z.mod_small; lia. Qed.

Lemma wrap_i64_add x y : wrap_i64 (wrap_i64 x + y) = wrap_i64 (x + y).
Proof.
  unfold wrap_i64. set (h := u64_mod / 2). f_equal.
  replace ((x + h) mod u64_mod - h + y + h) with ((x + h) mod u64_mod + y) by lia.
  rewrite Zplus_mod_idemp_l. f_equal. lia.
Qed.

Lemma i64_inc_dec z : in_i64 z → sub_i64 (add_i64 z) = z.
Proof.
  unfold in_i64, sub_i64, add_i64. intros H. change (wrap_i64 (z + 1) - 1) with (wrap_i64 (z + 1) + -1).
  rewrite wrap_i64_add, wrap_i64_id by lia. lia.
Qed.

(** The part of a broker's state a connection's handler relies on, with the
    gauges [gs] and the view [pg] of the security guard. *)
Record broker_inv (cfg : BrokerConfig) (gs : Z * Z) (pg : SecurityPolicy * IpConnectionCounter) b : Prop := {
  bi_shared : shared_inv gs (b_shared b);
  bi_config : b_config b = cfg;
  bi_guard : guard_view (b_security b) = pg;
}.

Lemma on_metrics_inv cfg gs gs' pg f b :
  (∀ m, gauges m = gs → gauges (f m) = gs') → broker_inv cfg gs pg b → broker_inv cfg gs' pg (on_metrics f b).
Proof. intros Hf [[H1 H2 H3 H4] Hc Hg]. split; [split|..]; cbn; auto. Qed.

Lemma count_closed_inv cfg cur pend pg b :
  in_i64 cur → broker_inv cfg (add_i64 cur, pend) pg b → broker_inv cfg (cur, pend) pg (count_closed b).
Proof.
  intros Hr. apply (on_metrics_inv _ _ _ _ (λ m, inc_disconnect (dec_connections m))).
  unfold gauges. intros m [= E1 E2]. cbn. rewrite E1, E2. by rewrite i64_inc_dec.
Qed.

Lemma run_cleanup_inv cfg gs pg b si now : broker_inv cfg gs pg b → broker_inv cfg gs pg (run_cleanup b si now).
Proof. intros [H1 H2 H3]. split; [by apply cleanup_inv|done..]. Qed.

Lemma run_abnormal_inv cfg gs pg b si now :
  broker_inv cfg gs pg b → ∃ b', run_abnormal b si now = Some b' ∧ broker_inv cfg gs pg b'.
Proof.
  intros [H1 H2 H3]. unfold run_abnormal.
  destruct (abnormal_inv gs (b_shared b) (si_client_id si) (si_epoch si) (si_clean si) now H1) as (w & -> & Hw).
  cbn. eexists. split; [done|]. by split.
Qed.

(** ** The loops *)

Context (cfg : BrokerConfig) (cur pend : Z) (pg : SecurityPolicy * IpConnectionCounter).
Hypothesis retries_nonneg : 0 ≤ default 3 (max_retries cfg).
Hypothesis cur_range : in_i64 cur.

(** While a connection is served it counts once more in the first gauge. *)
Abbreviation open_inv := (conn_inv cfg (add_i64 cur, pend) pg).
Abbreviation closed_inv := (broker_inv cfg (cur, pend) pg).

(** A phase of a loop is good: still open within the invariant, or closed with
    the gauge given back. *)
Definition phase_ok {A} (Q : A → Prop) (p : Phase M S F K A) : Prop :=
  match p with
  | Open a => Q a
  | Closed b _ => closed_inv b
  end.

Lemma open_broker b (c : Conn K) : open_inv (b, c) → broker_inv cfg (add_i64 cur, pend) pg b.
Proof. intros [H1 H2 H3 H4]. by split. Qed.

Lemma open_change b b' (c c' : Conn K) :
  broker_inv cfg (add_i64 cur, pend) pg b' → open_inv (b, c) →
  next_pid c' = next_pid c → outbound_inflight c' = outbound_inflight c → open_inv (b', c').
Proof. intros [H1 H2 H3] [_ _ _ H4] E1 E2. split; [done..|]. cbn in *. by rewrite E1, E2. Qed.

Lemma close_abnormal_ok b k si now (Q : LoopState M S F K → Prop) :
  broker_inv cfg (add_i64 cur, pend) pg b →
  ∃ p, close_abnormal b k si now = Some p ∧ phase_ok Q p.
Proof.
  intros Hb. unfold close_abnormal. destruct (run_abnormal_inv _ _ _ b si now Hb) as (b' & -> & Hb').
  cbn. eexists. split; [done|]. by apply count_closed_inv.
Qed.

Lemma replay_ok si ctx msgs evs now b c :
  open_inv (b, c) → ∃ p, replay si ctx msgs evs now (b, c) = Some p ∧ phase_ok (λ st, open_inv st) p.
Proof.
  revert evs b c. induction msgs as [|msg msgs IH]; intros evs b c H; cbn [replay]; [by eexists|].
  pose proof (build_for_inv _ _ _ retries_nonneg b c msg now H) as H'.
  destruct (build_for b c msg now) as [[pkt|] c']; cbn in H'.
  2:{ apply IH. eapply open_change; [|exact H'|done..]. eapply on_metrics_inv; [|by eapply open_broker]. done. }
  assert (Hb : broker_inv cfg (add_i64 cur, pend) pg b) by by eapply open_broker.
  assert (Hsend : ∀ evs, ∃ p, match sink_send (sink c') pkt with
      | (Ok _, k) => replay si ctx msgs evs now (b, c' <| sink := k |>)
      | (Err _, k) => b ← run_abnormal b si now; Some (Closed (count_closed b) k)
      end = Some p ∧ phase_ok (λ st, open_inv st) p).
  { intros evs'. destruct (sink_send (sink c') pkt) as [[u|e] k].
    - apply IH. by eapply open_change.
    - destruct (run_abnormal_inv _ _ _ b si now Hb) as (b' & -> & Hb'). cbn. eexists. split; [done|].
      by apply count_closed_inv. }
  assert (Hdrop : ∀ started, open_inv (b, dropped_send c' pkt started)).
  { intros []; [by eapply open_change|done]. }
  destruct evs as [|[[] started|at_ started|] evs]; [apply (Hsend [])| | | |apply (Hsend evs)].
  - eexists. split; [done|]. cbn. by apply count_closed_inv, run_cleanup_inv.
  - by apply IH.
  - destruct (is_keep_alive_expired ctx at_); [|by apply IH].
    destruct (run_abnormal_inv _ _ _ b si at_ Hb) as (b' & -> & Hb'). cbn. eexists. split; [done|].
    by apply count_closed_inv.
Qed.

Abbreviation loop_inv := (λ l : LoopState M S F K, open_inv (l_broker l, l_conn l)).

Lemma loop_step_ok si max_subs timeout l ev now :
  loop_inv l →
  ∃ p, loop_step si max_subs timeout (default 3 (max_retries cfg)) l ev now = Some p ∧ phase_ok loop_inv p.
Proof.
  destruct l as [b c ctx]. cbn [l_broker l_conn]. intros H.
  assert (Hb : broker_inv cfg (add_i64 cur, pend) pg b) by by eapply open_broker.
  destruct ev as [[]| | |[[packet|e]|]|[req|]]; cbn [loop_step l_broker l_conn l_ctx].
  - eexists. split; [done|]. cbn. by apply count_closed_inv, run_cleanup_inv.
  - by eexists.
  - destruct (is_keep_alive_expired ctx now); [by apply close_abnormal_ok|by eexists].
  - destruct (retry_expired (outbound_inflight c) timeout (default 3 (max_retries cfg)) now)
      as [[to_resend failed] t] eqn:Er.
    destruct (send_all _ _) as [[] k]; [|by apply close_abnormal_ok].
    eexists. split; [done|]. destruct H as [H1 H2 H3 H4]. split; [done..|]. cbn in *.
    eapply (out_step_inv _ timeout); [done|exact H4|]. by eapply step_retry.
  - destruct (keeps_packet _ _ _ retries_nonneg packet (si_client_id si) max_subs now (b, c) H)
      as (r & [b' c'] & -> & H').
    assert (Hb' : broker_inv cfg (add_i64 cur, pend) pg b') by by eapply open_broker.
    destruct r as [[]|e]; [by eexists| |by apply close_abnormal_ok].
    eexists. split; [done|]. cbn. apply count_closed_inv; [done|]. apply run_cleanup_inv.
    destruct Hb' as [[H1 H2 H3 H4] Hc Hg]. split; [split|..]; cbn; [by apply clear_will_inv| |done..].
    unfold clear_will. destruct (sessions _ !! _); [|done]. by destruct (_ =? _).
  - by apply close_abnormal_ok.
  - by apply close_abnormal_ok.
  - pose proof (build_for_inv _ _ _ retries_nonneg b c req now H) as H'.
    destruct (build_for b c req now) as [[pkt|] c']; cbn in H'.
    + destruct (sink_send (sink c') pkt) as [[u|e] k]; [|by apply close_abnormal_ok].
      eexists. split; [done|]. cbn. by eapply open_change.
    + eexists. split; [done|]. cbn. eapply open_change; [|exact H'|done..].
      eapply on_metrics_inv; [|done]. done.
  - eexists. split; [done|]. cbn. by apply count_closed_inv.
Qed.

Lemma run_loop_ok si max_subs timeout l evs :
  loop_inv l →
  ∃ p, run_loop si max_subs timeout (default 3 (max_retries cfg)) l evs = Some p ∧ phase_ok loop_inv p.
Proof.
  revert l. induction evs as [|[ev now] evs IH]; intros l H; cbn [run_loop]; [by eexists|].
  destruct (loop_step_ok si max_subs timeout l ev now H) as ([l'|b k] & -> & Hp); [by apply IH|by eexists].
Qed.
End Accounting.

(** ** The whole connection *)

Section Whole.
Context {M : Mpsc} {L : MpscLaws M} {S : Sled} {JR : Json RetainedMessage}
  {JS : Json SessionSnapshot} {JO : Json OutboundPublish} {F : ForwardEnv} {K : Sink}
  {N : TokioTime} {LN : TokioTimeLaws N}.
Implicit Types (b : Broker M S F) (k : SinkState).

Lemma check_connect_inv cfg gs pg b k first auto_id r b' k' :
  broker_inv cfg gs pg b → check_connect b k first auto_id = (r, b', k') →
  broker_inv cfg gs pg b' ∧ epoch_counter (sh_sessions (b_shared b')) = epoch_counter (sh_sessions (b_shared b)).
Proof.
  intros Hb. assert (Hd : broker_inv cfg gs pg (on_metrics inc_disconnect b)) by by eapply on_metrics_inv.
  unfold check_connect. destruct first as [| | |p]; try (by intros [= <- <- <-]).
  destruct p; try (by intros [= <- <- <-]). destruct (_ && _); [by intros [= <- <- <-]|].
  destruct (_ && _); [by intros [= <- <- <-]|]. cbv zeta. destruct (authenticate _ _ _ _); by intros [= <- <- <-].
Qed.

Lemma register_session_inv cfg gs pg b c peer now r b' :
  broker_inv cfg gs pg b → epoch_counter (sh_sessions (b_shared b)) + 1 < u64_mod →
  register_session b c peer now = (r, b') → broker_inv cfg gs pg b'.
Proof.
  intros [[H1 H2 H3 H4] Hc Hg] Hep. unfold register_session.
  destruct (channel _ _) as [tx_ ch].
  pose proof (register_inv (sh_sessions (b_shared b)) (c_client_id c) (c_clean_session c) tx_
    (WillMessage_from <$> c_will c) (c_protocol_level c) peer (p ← c_properties c; session_expiry_interval p) now H1 Hep) as Hr.
  assert (Hm : ∀ cl ex, max_offline_messages (register (sh_sessions (b_shared b)) (c_client_id c) cl tx_
    (WillMessage_from <$> c_will c) (c_protocol_level c) peer ex now).2 = max_offline_messages (sh_sessions (b_shared b))).
  { intros cl ex. unfold register. destruct (sessions _ !! _) as [old|]; [|done]. by destruct (connected old). }
  specialize (Hm (c_clean_session c) (p ← c_properties c; session_expiry_interval p)).
  destruct (register _ _ _ _ _ _ _ _ _) as [r' sess]. intros [= <- <-]. split; [split|..]; cbn in *; [done|lia|done..].
Qed.

Definition inner_ok (cfg : BrokerConfig) (cur pend : Z) (pg : SecurityPolicy * IpConnectionCounter)
    (p : Phase M S F K (LoopState M S F K)) (guard : PendingGuard) : Prop :=
  match p with
  | Open l => promoted guard = true ∧ conn_inv cfg (add_i64 cur, pend) pg (l_broker l, l_conn l)
  | Closed b _ =>
      if promoted guard then broker_inv cfg (cur, pend) pg b else broker_inv cfg (cur, add_i64 pend) pg b
  end.

(** Before the CONNECT a connection counts as pending, after it as current. *)
Lemma establish_ok cfg cur pend pg b k peer first auto_id id now :
  0 ≤ default 3 (max_retries cfg) → in_i64 cur → in_i64 pend →
  broker_inv cfg (cur, add_i64 pend) pg b → epoch_counter (sh_sessions (b_shared b)) + 1 < u64_mod →
  let '(p, guard, cid) := establish b k peer first auto_id id (mkPendingGuard false) now in
  match p with
  | Open (_, st) => promoted guard = true ∧ conn_inv cfg (add_i64 cur, pend) pg st
  | Closed b' _ =>
      if promoted guard then broker_inv cfg (cur, pend) pg b' else broker_inv cfg (cur, add_i64 pend) pg b'
  end.
Proof.
  intros Hmr Hcur Hpend Hb Hep. unfold establish.
  destruct (check_connect b k first auto_id) as [[r b1] k1] eqn:Ec.
  destruct (check_connect_inv _ _ _ _ _ _ _ _ _ _ Hb Ec) as [Hb1 Hep1].
  destruct r as [[connect identity]|]; [|done].
  destruct (register_session b1 connect peer now) as [[rx [[ep sp] msgs]] b2] eqn:Er.
  apply (register_session_inv cfg (cur, add_i64 pend) pg) in Er as Hb2; [|done|by rewrite Hep1].
  unfold promote. cbn [promoted]. set (b3 := on_metrics inc_connections _).
  assert (Hb3 : broker_inv cfg (add_i64 cur, pend) pg b3).
  { subst b3. apply (on_metrics_inv _ (cur, pend)).
    - unfold gauges. intros m [= E1 E2]. cbn. by rewrite E1, E2.
    - apply (on_metrics_inv _ (cur, add_i64 pend)); [|done]. unfold gauges. intros m [= E1 E2]. cbn.
      by rewrite E1, E2, i64_inc_dec. }
  clearbody b3. cbv zeta. destruct (sink_send k1 _) as [[u|e] k2].
  - split; [done|]. destruct Hb3 as [H1 H2 H3]. split; [done..|]. apply (reachable_inv _ 0); [done|apply reach_init].
  - cbn. by apply count_closed_inv, run_cleanup_inv.
Qed.

Lemma clear_disk_ok cfg gs pg b (c : Conn K) cid :
  conn_inv cfg gs pg (b, c) → conn_inv cfg gs pg (b <| b_shared ::= λ w, clear_disk_offline w cid |>, c).
Proof.
  intros [H1 H2 H3 H4]. split; [|done..]. cbn. apply try_storage_inv; [apply gs_drain|done].
Qed.

Lemma inner_accounts cfg cur pend pg b k peer sc now :
  0 ≤ default 3 (max_retries cfg) → default 10 (retry_interval_secs cfg) ≠ 0 → in_i64 cur → in_i64 pend →
  broker_inv cfg (cur, add_i64 pend) pg b → epoch_counter (sh_sessions (b_shared b)) + 1 < u64_mod →
  ∃ p guard cid, handle_connection_inner b k peer sc (mkPendingGuard false) now = Some (p, guard, cid) ∧
    inner_ok cfg cur pend pg p guard.
Proof.
  intros Hmr Hri Hcur Hpend Hb Hep. unfold handle_connection_inner.
  pose proof (establish_ok cfg cur pend pg b k peer (sc_first sc) (sc_auto_id sc) (sc_conn_id sc) now Hmr Hcur Hpend Hb Hep) as He.
  destruct (establish b k peer _ _ _ _ now) as [[p guard] cid].
  destruct p as [[[[si ctx] msgs] [b3 conn]]|b3 k3]; [|by do 3 eexists].
  destruct He as [Hg Hopen]. unfold loop_retries. pose proof (ci_config _ _ _ _ Hopen) as Hcfg. cbn in Hcfg.
  assert (Hint : interval (loop_timeout b3) = Some (loop_timeout b3)).
  { unfold interval, loop_timeout. rewrite Hcfg. destruct (Z.eqb_spec (from_secs (default 10 (retry_interval_secs cfg))) 0) as [E0|]; [|done].
    unfold from_secs, nanos_per_sec in E0. lia. }
  rewrite Hint, Hcfg. cbn [mbind option_bind].
  destruct (replay_ok cfg cur pend pg Hmr Hcur si ctx msgs (sc_replay sc) now b3 conn Hopen) as ([[b4 c4]|b4 k4] & -> & Hp).
  2:{ do 3 eexists. split; [done|]. cbn. by rewrite Hg. }
  pose proof (clear_disk_ok _ _ _ _ _ (si_client_id si) Hp) as Hopen5.
  match goal with |- context [run_loop ?si ?ms ?t _ ?l ?evs] =>
    destruct (run_loop_ok cfg cur pend pg Hmr Hcur si ms t l evs Hopen5) as (p & -> & Hl) end.
  cbn [mbind option_bind]. do 3 eexists. split; [done|]. destruct p; [done|]. cbn. by rewrite Hg.
Qed.

(** The per-IP counter around a connection. *)
Lemma inc_dec_counter (c : IpConnectionCounter) ip :
  (∀ v, c !! ip = Some v → 0 < v < u64_mod - 1) → ip_dec (ip_inc c ip).2 ip = c.
Proof.
  intros Hc. unfold ip_dec, ip_inc. cbn. rewrite lookup_insert_eq. unfold wrap_u64.
  destruct (c !! ip) as [v|] eqn:E; cbn [default from_option id].
  - specialize (Hc v eq_refl). rewrite Z.mod_small by lia. replace (v + 1 =? 0) with false by lia.
    replace (v + 1 - 1) with v by lia. replace (v =? 0) with false by lia.
    rewrite insert_insert_eq. by apply insert_id.
  - change (0 + 1) with 1. rewrite Z.mod_small by (unfold u64_mod; lia). cbn. by rewrite delete_insert_id.
Qed.

Lemma guard_round_trip g peer cid (g' : SecurityGuard) :
  (∀ v, ip_counter g !! sa_ip peer = Some v → 0 < v < u64_mod - 1) →
  0 ≤ max_connections_per_ip (policy g) →
  guard_view g' = guard_view (on_connect g peer) →
  guard_view (on_disconnect g' peer cid) = guard_view g.
Proof.
  intros Hc Hm Hv. unfold guard_view in *. injection Hv as Hp Hi.
  assert (Hpol : policy (on_connect g peer) = policy g) by (unfold on_connect; by destruct (_ || _)).
  assert (Hd : guard_view (on_disconnect g' peer cid) =
    (policy g', if sp_enabled (policy g') && (max_connections_per_ip (policy g') >? 0)
                then ip_dec (ip_counter g') (sa_ip peer) else ip_counter g')).
  { unfold on_disconnect. destruct (_ && _), cid; done. }
  unfold guard_view in Hd. rewrite Hd, Hi, Hp, Hpol. unfold on_connect.
  destruct (sp_enabled (policy g)); cbn [negb orb andb]; [|done].
  destruct (Z.eqb_spec (max_connections_per_ip (policy g)) 0) as [E|E].
  - by rewrite Z_gtb_false by lia.
  - rewrite Z_gtb_true by lia. cbn. f_equal. by apply inc_dec_counter.
Qed.

Lemma check_connection_gauges g peer m : gauges (check_connection g peer m).2 = gauges m.
Proof.
  unfold check_connection. destruct (negb _); [done|]. destruct (acl_check _ _); [|done..].
  destruct (_ >? 0); [|done]. by destruct (_ >=? _).
Qed.

(** Accounting of connections.  Whatever the client, the network, the
    timers and the shutdown signal do, and with a retry interval that is not zero,
    [handle_connection] never gets stuck, and
    once the connection is closed, by whichever path (refused by the security
    guard, no or a bad CONNECT, failed authentication, a failed write at any
    point, DISCONNECT, a protocol error, the keep-alive, a takeover or the
    shutdown), the gauges of current and of pending connections and the guard's
    per-IP counters are exactly what they were before it; while it is served it
    counts as one current connection and as no pending one. *)
Theorem connection_accounting b k peer sc now :
  let m := sh_metrics (b_shared b) in
  shared_inv (gauges m) (b_shared b) →
  in_i64 (connections_current m + 1) → in_i64 (connections_current m) → in_i64 (connections_pending m) →
  0 ≤ default 3 (max_retries (b_config b)) → default 10 (retry_interval_secs (b_config b)) ≠ 0 →
  epoch_counter (sh_sessions (b_shared b)) + 1 < u64_mod →
  0 ≤ max_connections_per_ip (policy (b_security b)) →
  (∀ v, ip_counter (b_security b) !! sa_ip peer = Some v → 0 < v < u64_mod - 1) →
  ∃ p, handle_connection b k peer sc now = Some p ∧
  match p with
  | Open l => connections_current (sh_metrics (b_shared (l_broker l))) = connections_current m + 1 ∧
              connections_pending (sh_metrics (b_shared (l_broker l))) = connections_pending m
  | Closed b' _ => connections_current (sh_metrics (b_shared b')) = connections_current m ∧
                   connections_pending (sh_metrics (b_shared b')) = connections_pending m ∧
                   ip_counter (b_security b') = ip_counter (b_security b)
  end.
Proof.
  intros m Hsh Hcur1 Hcur Hpend Hmr Hri Hep Hmax Hcnt. unfold handle_connection, check_peer.
  destruct (check_connection (b_security b) peer (sh_metrics (b_shared b))) as [r m'] eqn:Ec.
  pose proof (check_connection_gauges (b_security b) peer m) as Hm'. unfold m in Hm' at 1. rewrite Ec in Hm'. cbn in Hm'.
  set (b1 := on_metrics (λ _, m') b).
  assert (Hb1 : broker_inv (b_config b) (gauges m) (guard_view (b_security b)) b1).
  { apply (on_metrics_inv _ (gauges m)); [done|]. by split. }
  destruct r as [u|e]; [|].
  2:{ eexists. split; [done|]. destruct Hb1 as [[_ _ _ Hg] _ _].
      split; [exact (f_equal fst Hg)|]. split; [exact (f_equal snd Hg)|done]. }
  cbn [is_ok]. unfold enter. set (b2 := b1 <| b_security ::= _ |>). unfold pending_new. set (b3 := on_metrics inc_pending b2).
  assert (Hb3 : broker_inv (b_config b) (connections_current m, add_i64 (connections_pending m))
                  (guard_view (on_connect (b_security b) peer)) b3).
  { apply (on_metrics_inv _ (gauges m)); [unfold gauges; intros m0 [= E1 E2]; cbn; by rewrite E1, E2|].
    destruct Hb1 as [H1 H2 H3]. by split. }
  destruct (inner_accounts _ _ _ _ b3 k peer sc now Hmr Hri Hcur Hpend Hb3 Hep) as (p & guard & cid & -> & Hp).
  cbn [mbind option_bind]. eexists. split; [done|]. destruct p as [l|b4 k4]; cbn in Hp.
  - destruct Hp as [_ [[_ _ _ Hg] _ _ _]]. split; [|exact (f_equal snd Hg)].
    etrans; [exact (f_equal fst Hg)|]. cbn. unfold add_i64, in_i64 in *. by rewrite wrap_i64_id by lia.
  - unfold leave. set (b5 := b4 <| b_security ::= _ |>).
    assert (H5 : broker_inv (b_config b) (connections_current m, connections_pending m) (guard_view (b_security b))
                   (drop_pending guard b5)).
    { unfold drop_pending. destruct (promoted guard).
      - destruct Hp as [H1 H2 H3]. split; [done..|]. by apply guard_round_trip.
      - apply (on_metrics_inv _ (connections_current m, add_i64 (connections_pending m))).
        + unfold gauges. intros m0 [= E1 E2]. cbn. by rewrite E1, E2, i64_inc_dec.
        + destruct Hp as [H1 H2 H3]. split; [done..|]. by apply guard_round_trip. }
    destruct H5 as [[_ _ _ Hg] _ Hv]. split; [exact (f_equal fst Hg)|]. split; [exact (f_equal snd Hg)|].
    exact (f_equal snd Hv).
Qed.

(** ** Keep-alive *)

Definition heartbeats (ts : list Instant) : list (LoopEvent * Instant) := (λ t, (LHeartbeat, t)) <$> ts.

Lemma heartbeat_step si max_subs timeout retries (l : LoopState M S F K) now :
  let ka := keep_alive (l_ctx l) in
  0 ≤ ka →
  loop_step si max_subs timeout retries l LHeartbeat now =
  if (ka =? 0) || (now - last_activity (l_ctx l) <=? heartbeat_period ka) then Some (Open l)
  else close_abnormal (l_broker l) (sink (l_conn l)) si now.
Proof.
  cbv zeta. intros Hka. cbn [loop_step]. unfold is_keep_alive_expired, heartbeat_period, duration_since.
  destruct (Z.eqb_spec (keep_alive (l_ctx l)) 0); [done|]. cbn [orb]. unfold from_secs, nanos_per_sec.
  assert (0 ≤ keep_alive (l_ctx l) * 3 / 2) by (apply Z.div_pos; lia).
  set (p := keep_alive (l_ctx l) * 3 / 2) in *.
  destruct (Z.leb_spec (now - last_activity (l_ctx l)) ((p + 1) * 1000000000)).
  - by rewrite Z_gtb_false by lia.
  - by rewrite Z_gtb_true by lia.
Qed.

Lemma silent_closes si max_subs timeout retries (l : LoopState M S F K) ts jitter prev self :
  let ka := keep_alive (l_ctx l) in
  let la := last_activity (l_ctx l) in
  let deadline := la + heartbeat_period ka in
  0 < ka → shared_inv (gauges (sh_metrics (b_shared (l_broker l)))) (b_shared (l_broker l)) →
  paced_from (heartbeat_period ka) prev self → ticks jitter self ts → prev ≤ deadline → (∃ t, t ∈ ts ∧ deadline < t) →
  ∃ pre t post b k, ts = pre ++ t :: post ∧ Forall (λ t, t ≤ deadline) pre ∧
    deadline < t ≤ deadline + heartbeat_period ka + jitter ∧
    run_loop si max_subs timeout retries l (heartbeats pre) = Some (Open l) ∧
    run_loop si max_subs timeout retries l (heartbeats ts) = Some (Closed b k).
Proof.
  cbv zeta. set (ka := keep_alive (l_ctx l)). set (deadline := last_activity (l_ctx l) + heartbeat_period ka).
  intros Hka Hi. revert prev self. induction ts as [|t ts IH]; intros prev self Hp Hts Hprev (t' & Ht' & Hlate).
  { by apply elem_of_nil in Ht'. }
  destruct Hts as (Ht & self' & E & Hts). pose proof Hp as (_ & _ & Hdue). destruct (tick_paced _ _ _ _ _ Hp E) as [_ Hp'].
  cbn [heartbeats fmap list_fmap run_loop].
  pose proof (heartbeat_step si max_subs timeout retries l t ltac:(fold ka; lia)) as Hstep. cbv zeta in Hstep.
  fold ka in Hstep. replace (ka =? 0) with false in Hstep by lia. cbn [orb] in Hstep.
  destruct (Z.leb_spec (t - last_activity (l_ctx l)) (heartbeat_period ka)) as [Hle|Hgt].
  - destruct (IH t self' Hp' Hts) as (pre & t1 & post & b & k & -> & Hpre & Ht1 & Hrun & Hclose); [subst deadline; lia| |].
    { apply elem_of_cons in Ht' as [->|Hin]; [subst deadline; lia|eauto]. }
    exists (t :: pre), t1, post, b, k. split; [done|]. split; [constructor; [subst deadline; lia|done]|]. split; [done|].
    cbn [heartbeats fmap list_fmap run_loop]. by rewrite Hstep.
  - destruct (abnormal_inv _ (b_shared (l_broker l)) (si_client_id si) (si_epoch si) (si_clean si) t Hi) as (w' & Ew & _).
    exists [], t, ts. do 2 eexists. split; [done|]. split; [constructor|]. split; [subst deadline; lia|]. split; [done|].
    rewrite Hstep. unfold close_abnormal, run_abnormal. by rewrite Ew.
Qed.

(** C36: Keep-alive, with the real timer.  Of a connection whose heartbeat was
    started at [t0], whose ticks came at [ts0] before its client was last heard of
    and come at [ts] after that, each polled at most [jitter] after it is due: a
    heartbeat leaves the connection open, and untouched, when the client asked for
    no keep-alive or has been heard of within one and a half times the interval
    (plus a second); and when the client falls silent the connection is closed by
    the first heartbeat after that time, which comes no later than one further
    period. *)
Theorem keep_alive_enforced si max_subs timeout retries (l : LoopState M S F K) t0 ts0 ts jitter :
  let ka := keep_alive (l_ctx l) in
  let la := last_activity (l_ctx l) in
  let period := heartbeat_period ka in
  0 ≤ ka → shared_inv (gauges (sh_metrics (b_shared (l_broker l)))) (b_shared (l_broker l)) →
  t0 ≤ la → Forall (λ t, t ≤ la) ts0 → ticks jitter (HeartbeatTimer_new ka t0) (ts0 ++ ts) →
  (∀ t, ka = 0 ∨ t - la ≤ from_secs (ka * 3 / 2) →
     loop_step si max_subs timeout retries l LHeartbeat t = Some (Open l)) ∧
  (0 < ka → (∃ t, t ∈ ts ∧ la + period < t) →
   ∃ pre t post b k, ts = pre ++ t :: post ∧ la + period < t ≤ la + 2 * period + jitter ∧
     run_loop si max_subs timeout retries l (heartbeats pre) = Some (Open l) ∧
     run_loop si max_subs timeout retries l (heartbeats ts) = Some (Closed b k)).
Proof.
  cbv zeta. intros Hka Hi Ht0 Hall Hticks. split.
  - intros t Ht. rewrite heartbeat_step by done. destruct (Z.eqb_spec (keep_alive (l_ctx l)) 0) as [|Hne]; [done|].
    cbn [orb]. destruct Ht as [|Ht]; [done|]. unfold heartbeat_period, from_secs, nanos_per_sec in *.
    replace (keep_alive (l_ctx l) =? 0) with false by lia.
    destruct (Z.leb_spec (t - last_activity (l_ctx l)) ((keep_alive (l_ctx l) * 3 / 2 + 1) * 1000000000)); [done|lia].
  - intros Hpos Hlate. assert (0 ≤ heartbeat_period (keep_alive (l_ctx l))).
    { unfold heartbeat_period, from_secs, nanos_per_sec. replace (keep_alive (l_ctx l) =? 0) with false by lia.
      pose proof (Z.div_pos (keep_alive (l_ctx l) * 3) 2). lia. }
    destruct (ticks_split _ _ _ _ _ _ _ (new_paced (keep_alive (l_ctx l)) t0) Ht0 Hall Hticks) as (self & Hself & Hts).
    destruct (silent_closes si max_subs timeout retries l ts jitter (last_activity (l_ctx l)) self)
      as (pre & t & post & b & k & -> & _ & Ht & Hrun & Hclose); [done|done|done|done|lia|done|].
    exists pre, t, post, b, k. split; [done|]. split; [lia|done].
Qed.
End Whole.

Import ListChan MapDb ListForward Demo HandlerDemo DelayTimer.

(** A client that connects, subscribes and disconnects. *)
Definition visit : Script :=
  mkScript (ReadPacket (PConnect (mkConnect 4 60 "c9" true None None None None))) "auto" "conn" []
    [(LPacket (Some (Ok (PSubscribe (mkSubscribe 1 [mkSubscribeTopic "a/#" QoS.AtLeastOnce])))), 2);
     (LPacket (Some (Ok PDisconnect)), 3)].

Lemma connection_accounting_witness :
  ∃ p, handle_connection server ([] : @SinkState list_sink) (mkSocketAddr (V4 5) 9) visit 1 = Some p ∧
  match p with
  | Open l => connections_current (sh_metrics (b_shared (l_broker l))) = 0 + 1 ∧
              connections_pending (sh_metrics (b_shared (l_broker l))) = 0
  | Closed b' _ => connections_current (sh_metrics (b_shared b')) = 0 ∧
                   connections_pending (sh_metrics (b_shared b')) = 0 ∧
                   ip_counter (b_security b') = ip_counter (b_security server)
  end.
Proof.
  apply (connection_accounting server _ (mkSocketAddr (V4 5) 9) visit 1).
  - exact broker_inv0.
  - unfold in_i64. cbn. lia.
  - unfold in_i64. cbn. lia.
  - unfold in_i64. cbn. lia.
  - cbn. lia.
  - vm_compute. discriminate.
  - vm_compute. reflexivity.
  - cbn. lia.
  - intros v Hv. cbn in Hv. discriminate Hv.
Defined.

(** With a retry interval of zero, which the validation accepts, the first client that
    is let in aborts the process. *)
Example zero_retry_interval_aborts :
  let cfg := config <| retry_interval_secs := Some 0 |> in
  handle_connection (server <| b_config := cfg |>) ([] : @SinkState list_sink) (mkSocketAddr (V4 5) 9) visit 1 = None.
Proof.
  cbv zeta. match goal with |- ?o = None => assert (H : match o with None => true | Some _ => false end = true) by (vm_compute; reflexivity) end.
  revert H. by destruct (handle_connection _ _ _ _ _).
Qed.

(** A client with a keep-alive of two seconds that connected at time 0 and was last
    heard of a second later, and heartbeats every four seconds. *)
Lemma keep_alive_enforced_witness :
  let ctx := mkConnContext "id" (mkSocketAddr (V4 5) 9) 0 (Some "c9") 2 (from_secs 1) true 4 None in
  let l := mkLoopState server client ctx in
  ∃ pre t post b k, [from_secs 4; from_secs 8] = pre ++ t :: post ∧ from_secs 5 < t ≤ from_secs 9 ∧
    run_loop (mkSessionInfo (M := list_mpsc) "c9" 1 true 0%nat) 4 (from_secs 10) 3 l (heartbeats pre) = Some (Open l) ∧
    run_loop (mkSessionInfo (M := list_mpsc) "c9" 1 true 0%nat) 4 (from_secs 10) 3 l (heartbeats [from_secs 4; from_secs 8]) = Some (Closed b k).
Proof.
  intros ctx l.
  destruct (keep_alive_enforced (N := delay_time) (mkSessionInfo (M := list_mpsc) "c9" 1 true 0%nat) 4 (from_secs 10) 3 l
              0 [] [from_secs 4; from_secs 8] 0) as [_ H].
  - cbn. lia.
  - exact broker_inv0.
  - vm_compute. discriminate.
  - constructor.
  - split; [vm_compute; discriminate|]. eexists. split; [vm_compute; reflexivity|].
    split; [vm_compute; discriminate|]. eexists. split; [vm_compute; reflexivity|exact I].
  - apply H; [reflexivity|]. exists (from_secs 8). split; [right; left|vm_compute; reflexivity].
Defined.
