(* ===== verification/LoopTheorems.v ===== *)
(** * The main loop of a connection: QoS 2 and the last will

    What a stretch of the loop routes of the QoS 2 messages of its client, whatever
    the other tasks do to the broker between its steps; and which of the ways in
    which the loop ends publish the last will. *)

From S2P Require Import Prelude Packet Messages OfflineQueue Subscription Storage StorageProofs Metrics Retain Session.
From S2P Require Import SessionProofs SessionTheorems Qos Router RouterTheorems Auth IpFilter Limiter Security Plugin PluginTheorems.
From S2P Require Import Lifecycle LifecycleTheorems Config Handlers HandlersProofs HandlersTheorems Connection.

(** ** The table of open QoS 2 handshakes *)

Section Tracker.
Context {M : Mpsc} {S : Sled} {JR : Json RetainedMessage} {JS : Json SessionSnapshot} {JO : Json OutboundPublish}
  {F : ForwardEnv} {K : Sink}.
Implicit Types (b : Broker M S F) (c : Conn K).

(** A handler that leaves the table alone. *)
Definition untracked {A} (m : HM (M := M) (S := S) (F := F) (K := K) A) : Prop :=
  ∀ st r st', m st = Some (r, st') → inbound_qos2 st'.2 = inbound_qos2 st.2.

Lemma untracked_pure {A} (f : Broker M S F * Conn K → BrokerResult A) : untracked (λ st, Some (f st, st)).
Proof. by intros st r st' [= _ <-]. Qed.
Lemma untracked_bind {A B} (m : HM A) (k : A → HM B) : untracked m → (∀ a, untracked (k a)) → untracked (m ≫= k).
Proof.
  intros Hm Hk st r st'. unfold mbind, hm_bind. destruct (m st) as [[[a|e] st1]|] eqn:E; [| |done].
  - intros H%Hk. by rewrite H, (Hm _ _ _ E).
  - intros [= _ <-]. by eapply Hm.
Qed.
Lemma untracked_broker f : untracked (modify_broker f).
Proof. by intros [b c] r st' [= _ <-]. Qed.
Lemma untracked_conn f : (∀ c, inbound_qos2 (f c) = inbound_qos2 c) → untracked (modify_conn f).
Proof. intros Hf [b c] r st' [= _ <-]. apply Hf. Qed.
Lemma untracked_send p : untracked (send p).
Proof. intros [b c] r st'. unfold send. destruct (sink_send _ _) as [r' k]. by intros [= _ <-]. Qed.
Lemma untracked_send_or e p : untracked (send_or e p).
Proof. intros [b c] r st'. unfold send_or, send. by destruct (sink_send _ _) as [[u|e'] k]; intros [= _ <-]. Qed.
Lemma untracked_for_each {A} (f : A → HM unit) l : (∀ a, untracked (f a)) → untracked (for_each f l).
Proof. intros Hf. induction l as [|a l IH]; cbn [for_each]; [apply untracked_pure|]. by apply untracked_bind. Qed.

Lemma build_for_tracker b c req now : inbound_qos2 (build_for b c req now).2 = inbound_qos2 c.
Proof. unfold build_for. by destruct (build_outbound_packet _ _ _ _ _) as [[pkt np] t]. Qed.
Lemma untracked_build req now : untracked (build_outbound req now).
Proof.
  intros [b c] r st'. unfold build_outbound. pose proof (build_for_tracker b c req now) as H.
  destruct (build_for b c req now). by intros [= _ <-].
Qed.

Hint Resolve untracked_pure untracked_broker untracked_send untracked_send_or untracked_build : untracked.
Hint Extern 1 (untracked (modify_conn _)) => (apply untracked_conn; done) : untracked.
Hint Extern 1 (untracked (mret _)) => (apply (untracked_pure (λ _, Ok _))) : untracked.
Hint Extern 1 (untracked (hm_err _)) => (apply (untracked_pure (λ _, Err _))) : untracked.
Hint Extern 1 (untracked (gets ?f)) => (apply (untracked_pure (λ st, Ok (f st)))) : untracked.
Hint Extern 1 (untracked (modify_shared _)) => (apply untracked_broker) : untracked.
Hint Extern 1 (untracked (Handlers.metrics _)) => (apply untracked_broker) : untracked.
Ltac untracked_auto := repeat first [apply untracked_bind; [|intros ?] | progress auto with untracked].

Lemma untracked_subscribe_topics cid max_subs ts : untracked (subscribe_topics cid max_subs ts).
Proof.
  induction ts as [|t ts IH]; cbn [subscribe_topics]; [untracked_auto|]. apply untracked_bind.
  - intros [b c] r st'. unfold subscribe_topic. destruct (_ && _); [by intros [= _ <-]|].
    destruct (plugin_check_subscribe _ _); [|by intros [= _ <-]].
    destruct (subscribe _ _ _ _); by intros [= _ <-].
  - intros [code acc]. apply untracked_bind; [done|]. intros [codes accepted]. untracked_auto.
Qed.

(** Only PUBLISH and PUBREL touch it. *)
Lemma untracked_packet p cid max_subs now :
  (∀ q, p ≠ PPublish q) → (∀ id, p ≠ PPubrel id) → untracked (handle_packet p cid max_subs now).
Proof.
  intros Hp Hr. unfold handle_packet. apply untracked_bind; [|intros _; untracked_auto].
  destruct p as [?|?|pb|id|id|id|id|s|?|u|?| | |]; try (untracked_auto; fail); try (by destruct (Hp pb)); try (by destruct (Hr id)).
  - unfold handle_subscribe. apply untracked_bind; [apply untracked_subscribe_topics|]. intros [codes accepted].
    untracked_auto. apply untracked_for_each. intros fq. unfold deliver_accepted. untracked_auto.
    apply untracked_for_each. intros m. unfold deliver_retained. untracked_auto. case_match; untracked_auto.
  - untracked_auto. apply untracked_for_each. intros f. unfold unsubscribe_one. untracked_auto.
Qed.

Lemma pubrel_tracker id cid max_subs now b c r b' c' :
  handle_packet (PPubrel id) cid max_subs now (b, c) = Some (r, (b', c')) →
  seen (inbound_qos2 c') = seen (inbound_qos2 c) ∖ {[id]}.
Proof.
  unfold handle_packet, mbind, hm_bind, modify_conn, send. cbn.
  destruct (sink_send (sink c) (PPubcomp id)) as [[u|e] k]; by intros [= _ _ <-].
Qed.
End Tracker.

(** ** Exactly once *)

Section ExactlyOnce.
Context {M : Mpsc} {S : Sled} {JR : Json RetainedMessage} {JS : Json SessionSnapshot} {JO : Json OutboundPublish}
  {F : ForwardEnv} {K : Sink} {LK : SinkLaws K}.
Implicit Types (b : Broker M S F) (c : Conn K).

(** A step of the loop, with the broker it finds and the broker it leaves. *)
Record Move := mkMove {
  mv_event : LoopEvent;
  mv_now : Instant;
  mv_before : Broker M S F;
  mv_after : Broker M S F;
}.

Context (si : SessionInfo (M := M)) (max_subs : nat) (timeout : Duration) (retries : Z).

(** The loop makes these steps.  Between two of them the other tasks do with the
    broker what they like. *)
Inductive loop_moves : Conn K → ConnContext → list Move → Conn K → Prop :=
  | moves_nil c ctx : loop_moves c ctx [] c
  | moves_cons c ctx ev now b l ms c' :
      loop_step si max_subs timeout retries (mkLoopState b c ctx) ev now = Some (Open l) →
      loop_moves (l_conn l) (l_ctx l) ms c' →
      loop_moves c ctx (mkMove ev now b (l_broker l) :: ms) c'.

(** The step handles a QoS 2 PUBLISH, or a PUBREL, of the identifier. *)
Definition qos2_message (id : Z) (m : Move) : option Publish :=
  match mv_event m with
  | LPacket (Some (Ok (PPublish p))) =>
      if bool_decide (p_qos p = QoS.ExactlyOnce ∧ p_packet_id p = Some id) then Some p else None
  | _ => None
  end.
Definition publishes (id : Z) (m : Move) : bool := match qos2_message id m with Some _ => true | None => false end.
Definition releases (id : Z) (m : Move) : bool :=
  match mv_event m with LPacket (Some (Ok (PPubrel id'))) => id' =? id | _ => false end.

(** A handshake of [id] is open after these steps: its last one is a PUBLISH. *)
Fixpoint handshake_open (id : Z) (open : bool) (ms : list Move) : bool :=
  match ms with
  | [] => open
  | m :: ms => handshake_open id (if publishes id m then true else if releases id m then false else open) ms
  end.

(** The guards reject the message of the step; it is routed, or nothing but the
    counters and the guards' own state changes. *)
Definition turned_down (m : Move) : bool :=
  match mv_event m with
  | LPacket (Some (Ok (PPublish p))) => rejected (mv_before m) p (si_client_id si) (mv_now m)
  | _ => false
  end.
Definition routed (m : Move) : Prop :=
  ∃ p w0 w1, mv_event m = LPacket (Some (Ok (PPublish p))) ∧ same_world (b_shared (mv_before m)) w0 ∧
    publish w0 (p_topic p) (p_payload p) (p_qos p) (p_retain p) (Some (si_client_id si)) (mv_now m) = Some w1 ∧
    same_world w1 (b_shared (mv_after m)).
Definition no_effect (m : Move) : Prop := same_world (b_shared (mv_before m)) (b_shared (mv_after m)).

(** The packet of a step that goes on. *)
Lemma packet_step p now b c ctx l :
  loop_step si max_subs timeout retries (mkLoopState b c ctx) (LPacket (Some (Ok p))) now = Some (Open l) →
  handle_packet p (si_client_id si) max_subs now (b, c) = Some (Ok Continue, (l_broker l, l_conn l)).
Proof.
  cbn [loop_step l_broker l_conn l_ctx]. destruct (handle_packet _ _ _ _ _) as [[[[]|e] [b' c']]|]; try done.
  - by intros [= <-].
  - unfold close_abnormal. by destruct (run_abnormal _ _ _).
Qed.

Lemma publish_step p now b c ctx l :
  loop_step si max_subs timeout retries (mkLoopState b c ctx) (LPacket (Some (Ok (PPublish p)))) now = Some (Open l) →
  handle_publish p (si_client_id si) now (b, c) = Some (Ok tt, (l_broker l, l_conn l)).
Proof.
  intros H%packet_step. unfold handle_packet, mbind, hm_bind in H.
  destruct (handle_publish _ _ _ _) as [[[[]|e] st]|]; [|done..]. by injection H as ->.
Qed.

(** The other steps leave the table alone. *)
Lemma other_step ev now b c ctx l :
  (∀ p, ev ≠ LPacket (Some (Ok (PPublish p)))) → (∀ id, ev ≠ LPacket (Some (Ok (PPubrel id)))) →
  loop_step si max_subs timeout retries (mkLoopState b c ctx) ev now = Some (Open l) →
  inbound_qos2 (l_conn l) = inbound_qos2 c.
Proof.
  intros Hp Hr. assert (Hclose : ∀ b (k : SinkState), close_abnormal b k si now ≠ Some (Open l)).
  { intros b0 k. unfold close_abnormal. by destruct (run_abnormal _ _ _). }
  destruct ev as [[]| | |[[packet|e]|]|[req|]]; cbn [loop_step l_broker l_conn l_ctx]; try done; try (by intros []%Hclose).
  - by intros [= <-].
  - destruct (is_keep_alive_expired ctx now); [by intros []%Hclose|by intros [= <-]].
  - destruct (retry_expired _ _ _ _) as [[to_resend failed] t]. destruct (send_all _ _) as [[] k]; [by intros [= <-]|by intros []%Hclose].
  - intros H. apply (packet_step packet now b c ctx l) in H. apply untracked_packet in H; [exact H| |].
    + intros p ->. by destruct (Hp p).
    + intros id ->. by destruct (Hr id).
  - pose proof (build_for_tracker b c req now) as H. destruct (build_for b c req now) as [[pkt|] c']; cbn in H.
    + destruct (sink_send _ _) as [[u|e] k]; [by intros [= <-]|by intros []%Hclose].
    + by intros [= <-].
Qed.

(** What a step does to the table, as far as [id] goes. *)
Lemma step_tracks id ev now b c ctx l :
  loop_step si max_subs timeout retries (mkLoopState b c ctx) ev now = Some (Open l) →
  let m := mkMove ev now b (l_broker l) in
  bool_decide (id ∈ seen (inbound_qos2 (l_conn l))) =
  if publishes id m then true else if releases id m then false else bool_decide (id ∈ seen (inbound_qos2 c)).
Proof.
  intros H. cbv zeta. unfold publishes, qos2_message, releases. cbn [mv_event].
  destruct ev as [?| | |[[packet|e]|]|?]; try (apply other_step in H; [by rewrite H|done|done]).
  destruct packet as [?|?|p|?|?|pid|?|?|?|?|?| | |]; try (apply other_step in H; [by rewrite H|done|done]).
  - apply publish_step in H. apply handle_publish_outcome in H as (_ & -> & _). unfold tracked.
    destruct (p_qos p), (p_packet_id p) as [pid|]; cbn [on_publish snd seen];
      try (rewrite (bool_decide_eq_false_2 (_ ∧ _)) by (intros [? ?]; congruence); done).
    destruct (decide (pid = id)) as [->|Hne].
    + rewrite (bool_decide_eq_true_2 (_ ∧ _)) by done. apply bool_decide_eq_true_2. set_solver.
    + rewrite (bool_decide_eq_false_2 (_ ∧ _)) by (intros [_ ?]; congruence). apply bool_decide_ext. set_solver.
  - apply packet_step, pubrel_tracker in H. rewrite H. destruct (Z.eqb_spec pid id) as [->|Hne].
    + apply bool_decide_eq_false_2. set_solver.
    + apply bool_decide_ext. set_solver.
Qed.

Lemma moves_track id c ctx ms c' :
  loop_moves c ctx ms c' →
  bool_decide (id ∈ seen (inbound_qos2 c')) = handshake_open id (bool_decide (id ∈ seen (inbound_qos2 c))) ms.
Proof. induction 1 as [|c ctx ev now b l ms c' Hs _ IH]; [done|]. cbn [handshake_open]. by rewrite IH, (step_tracks id _ _ _ _ _ _ Hs). Qed.

Lemma moves_app c ctx ms1 ms2 c' :
  loop_moves c ctx (ms1 ++ ms2) c' → ∃ c1 ctx1, loop_moves c ctx ms1 c1 ∧ loop_moves c1 ctx1 ms2 c'.
Proof.
  revert c ctx. induction ms1 as [|m ms1 IH]; intros c ctx H; [exists c, ctx; split; [constructor|done]|].
  inversion H; subst. destruct (IH _ _ ltac:(eassumption)) as (c1 & ctx1 & H1 & H2).
  exists c1, ctx1. split; [by econstructor|done].
Qed.

(** A QoS 2 PUBLISH of [id]. *)
Lemma publish_effect id ev now b c ctx l :
  loop_step si max_subs timeout retries (mkLoopState b c ctx) ev now = Some (Open l) →
  let m := mkMove ev now b (l_broker l) in
  publishes id m = true →
  if turned_down m || bool_decide (id ∈ seen (inbound_qos2 c)) then no_effect m else routed m.
Proof.
  intros H. cbv zeta. unfold publishes, qos2_message, turned_down, routed, no_effect. cbn [mv_event mv_before mv_after mv_now].
  destruct ev as [?| | |[[[?|?|p|?|?|?|?|?|?|?|?| | |]|e]|]|?]; try done. case_bool_decide as Hid; [|done]. intros _.
  destruct Hid as [Hq Hi]. apply publish_step, handle_publish_outcome in H as (_ & _ & Hno & Hyes).
  assert (Hd : duplicate c p = bool_decide (id ∈ seen (inbound_qos2 c))) by (unfold duplicate; by rewrite Hq, Hi).
  rewrite Hd in Hno, Hyes. destruct (rejected b p (si_client_id si) now || _); [by apply Hno|].
  destruct (Hyes eq_refl) as (w0 & w1 & H0 & H1 & H2). by exists p, w0, w1.
Qed.

Lemma stretch_routes id c ctx ms c' :
  loop_moves c ctx ms c' → Forall (λ m, releases id m = false) ms →
  match filter (λ m, publishes id m = true) ms with
  | [] => True
  | m :: again =>
      (if turned_down m || bool_decide (id ∈ seen (inbound_qos2 c)) then no_effect m else routed m) ∧ Forall no_effect again
  end.
Proof.
  induction 1 as [c ctx|c ctx ev now b l ms c' Hs _ IH]; intros Hr; [done|]. apply Forall_cons in Hr as [Hr Hrs].
  specialize (IH Hrs). pose proof (step_tracks id _ _ _ _ _ _ Hs) as Ht. pose proof (publish_effect id _ _ _ _ _ _ Hs) as He.
  cbv zeta in Ht, He. set (m := mkMove ev now b (l_broker l)) in *. rewrite Hr in Ht. rewrite filter_cons.
  destruct (publishes id m) eqn:Hp.
  - rewrite decide_True by done. split; [by apply He|]. rewrite Ht in IH.
    destruct (filter _ ms) as [|m' again]; [constructor|]. rewrite orb_true_r in IH. destruct IH. by constructor.
  - rewrite decide_False by done. by rewrite Ht in IH.
Qed.

(** C17: Exactly once.  The main loop of a connection, from its start and as long as
    it goes on, handles packets, deliveries, retries and heartbeats, while the other
    tasks do with the broker what they like in between.  In any stretch without a PUBREL of an
    identifier, of all QoS 2 PUBLISH packets with it at most the first one is routed,
    as the router publishes its message, and it is routed exactly if no handshake of
    the identifier was open when the stretch began and neither the security guard nor
    a plugin rejects it.  Every repetition, also that of a rejected message, leaves
    subscriptions, sessions, channels, retained messages and database as they are. *)
Theorem qos2_exactly_once c0 ctx history stretch c id :
  inbound_qos2 c0 = tracker_new → loop_moves c0 ctx (history ++ stretch) c →
  Forall (λ m, releases id m = false) stretch →
  match filter (λ m, publishes id m = true) stretch with
  | [] => True
  | m :: again =>
      (if turned_down m || handshake_open id false history then no_effect m else routed m) ∧ Forall no_effect again
  end.
Proof.
  intros H0 (c1 & ctx1 & H1 & H2)%moves_app Hr. pose proof (stretch_routes id _ _ _ _ H2 Hr) as Hs.
  rewrite (moves_track id _ _ _ _ H1), H0 in Hs. change (seen tracker_new) with (∅ : gset Z) in Hs.
  by rewrite (bool_decide_eq_false_2 (id ∈ ∅)) in Hs by set_solver.
Qed.
End ExactlyOnce.

(** ** The last will *)

Section Will.
Context {M : Mpsc} {L : MpscLaws M} {S : Sled} {JR : Json RetainedMessage} {JS : Json SessionSnapshot}
  {JO : Json OutboundPublish} {F : ForwardEnv} {K : Sink}.
Implicit Types (b : Broker M S F) (c : Conn K).

Context (si : SessionInfo (M := M)) (max_subs : nat) (timeout : Duration) (retries : Z).

(** The events that end the loop abnormally, with the broker they find at the end:
    the stream ends or does not decode, the keep-alive has run out, a handler fails,
    a retransmission or a delivery cannot be written. *)
Inductive abnormal_end (l : LoopState M S F K) (now : Instant) : LoopEvent → Broker M S F → Prop :=
  | ends_stream : abnormal_end l now (LPacket None) (l_broker l)
  | ends_codec e : abnormal_end l now (LPacket (Some (Err e))) (l_broker l)
  | ends_keep_alive : is_keep_alive_expired (l_ctx l) now = true → abnormal_end l now LHeartbeat (l_broker l)
  | ends_handler p e b c :
      handle_packet p (si_client_id si) max_subs now (l_broker l, l_conn l) = Some (Err e, (b, c)) →
      abnormal_end l now (LPacket (Some (Ok p))) b
  | ends_retry to_resend failed t :
      retry_expired (outbound_inflight (l_conn l)) timeout retries now = (to_resend, failed, t) →
      (send_all (sink (l_conn l)) to_resend.*2).1 = false → abnormal_end l now LRetry (l_broker l)
  | ends_outbound req pkt c :
      build_for (l_broker l) (l_conn l) req now = (Some pkt, c) → is_ok (sink_send (sink c) pkt).1 = false →
      abnormal_end l now (LOutbound (Some req)) (l_broker l).

Lemma abnormal_closes l now ev b :
  abnormal_end l now ev b → ∃ k, loop_step si max_subs timeout retries l ev now = close_abnormal b k si now.
Proof.
  intros H. destruct H as [|e|He|p e b c Hp|rs fs t Hr Hs|req pkt c Hb Hs]; cbn [loop_step]; [by eexists..| | | |].
  - rewrite He. by eexists.
  - rewrite Hp. by eexists.
  - rewrite Hr. destruct l as [b c ctx]. cbn in *. destruct (send_all _ _) as [ok k]. cbn in Hs. subst. by eexists.
  - rewrite Hb. destruct (sink_send (sink c) pkt) as [[u|e] k]; [done|by eexists].
Qed.

(** C15: The last will.  When the main loop of the connection that owns a session
    ends abnormally, because the stream ends or does not decode, the keep-alive runs
    out, a handler fails or a write fails, and the session has a will, the will is
    published: every other connected client with room on its own channel receives one
    copy per match of the will's topic, with the smaller QoS; and the session, if it
    is kept, has no will any more.  When the client sends DISCONNECT instead, or the
    broker shuts down, nothing is published: channels, retained messages and the
    sessions of all other clients stay as they are; after DISCONNECT the session, if
    it is kept, has no will either. *)
Theorem last_will b e wl :
  let w := b_shared b in
  let cid := si_client_id si in
  sess_inv (sh_sessions w) → (0 < max_offline_messages (sh_sessions w))%nat →
  sessions (sh_sessions w) !! cid = Some e → epoch e = si_epoch si → connected e = true → will e = Some wl →
  (∀ l ev now, abnormal_end l now ev b →
     ∃ b' k, loop_step si max_subs timeout retries l ev now = Some (Closed b' k) ∧
       (∀ d ed, d ≠ cid → own_channel (sh_sessions w) d ed → connected ed = true →
          let cs := copies d (wm_topic wl) (wm_message wl) (wm_qos wl) (targets_of w (wm_topic wl)) in
          (length cs ≤ room (sh_chans w) (tx ed))%nat →
          queued (sh_chans (b_shared b')) (tx ed) = queued (sh_chans w) (tx ed) ++ cs) ∧
       sessions (sh_sessions (b_shared b')) !! cid =
         if expires_at_once (si_clean si) e then None else Some (gone_offline (without_will e) now)) ∧
  (∀ c ctx ev now e', ev = LPacket (Some (Ok PDisconnect)) ∧ e' = without_will e ∨ ev = LShutdown true ∧ e' = e →
     ∃ b' k, loop_step si max_subs timeout retries (mkLoopState b c ctx) ev now = Some (Closed b' k) ∧
       sh_chans (b_shared b') = sh_chans w ∧ sh_retain (b_shared b') = sh_retain w ∧
       (∀ d, d ≠ cid → sessions (sh_sessions (b_shared b')) !! d = sessions (sh_sessions w) !! d) ∧
       sessions (sh_sessions (b_shared b')) !! cid =
         if expires_at_once (si_clean si) e then None else Some (gone_offline e' now)).
Proof using L.
  intros w cid Hi Hm He Hep Hc Hw. split.
  - intros l ev now (k & Hs)%abnormal_closes. rewrite Hs.
    destruct (abnormal_will w cid e wl (si_clean si) now Hi Hm He Hc Hw) as (w' & E & Hd & Hself).
    exists (count_closed (b <| b_shared := w' |>)), k. split; [|by split].
    unfold close_abnormal, run_abnormal. fold w cid. by rewrite <-Hep, E.
  - intros c ctx ev now e' Hev.
    assert (Hclean : ∀ b0 : Broker M S F, sh_chans (b_shared b0) = sh_chans w → sh_retain (b_shared b0) = sh_retain w →
              sessions (sh_sessions (b_shared b0)) = <[cid := e']> (sessions (sh_sessions w)) → epoch e' = si_epoch si →
              connected e' = true → session_expiry e' = session_expiry e →
              let b' := count_closed (run_cleanup b0 si now) in
              sh_chans (b_shared b') = sh_chans w ∧ sh_retain (b_shared b') = sh_retain w ∧
              (∀ d, d ≠ cid → sessions (sh_sessions (b_shared b')) !! d = sessions (sh_sessions w) !! d) ∧
              sessions (sh_sessions (b_shared b')) !! cid =
                if expires_at_once (si_clean si) e then None else Some (gone_offline e' now)).
    { intros b0 H1 H2 H3 Hep' Hc' Hx b'.
      assert (E0 : sessions (sh_sessions (b_shared b0)) !! cid = Some e') by (rewrite H3; apply lookup_insert_eq).
      pose proof (λ d, cleanup_sessions (b_shared b0) cid e' (si_clean si) now d E0 Hc') as Hcl. rewrite Hep' in Hcl.
      split; [etrans; [apply cleanup_chans|exact H1]|]. split; [etrans; [apply cleanup_retain|exact H2]|]. split.
      - intros d Hd. etrans; [apply Hcl|]. by rewrite decide_False, H3, lookup_insert_ne.
      - etrans; [apply Hcl|]. rewrite decide_True by done. unfold expires_at_once. by rewrite Hx. }
    destruct Hev as [[-> ->]|[-> ->]]; cbn [loop_step l_broker l_conn l_ctx].
    + do 2 eexists. split; [reflexivity|]. apply Hclean; try done. cbn. fold w cid.
      by rewrite <-Hep, (clear_will_owner _ _ _ He).
    + do 2 eexists. split; [reflexivity|]. apply Hclean; try done. by rewrite insert_id.
Qed.
End Will.

(** ** Concrete loops *)

Import ListChan MapDb ListForward Demo HandlerDemo.

Module LoopDemo.
Definition si : SessionInfo (M := list_mpsc) := mkSessionInfo "c2" 2 false 1%nat.
Definition ctx : ConnContext := mkConnContext "id" (mkSocketAddr (V4 5) 9) 0 (Some "c2") 60 0 true 4 None.

(** The connection of "c2", whose session has a will. *)
Definition willing : Broker list_mpsc map_sled list_forward := server <| b_shared := WillDemo.broker |>.

(** The client sends a QoS 2 message twice; a heartbeat comes in between. *)
Definition message : Publish := mkPublish false QoS.ExactlyOnce false "a/b" (Some 5) [7].
Definition from_client (p : Packet) : LoopEvent := LPacket (Some (Ok p)).
Definition opened (r : option (Phase list_mpsc map_sled list_forward list_sink (LoopState list_mpsc map_sled list_forward list_sink)))
    (l : LoopState list_mpsc map_sled list_forward list_sink) : LoopState list_mpsc map_sled list_forward list_sink :=
  match r with Some (Open l) => l | _ => l end.
Definition step (ev : LoopEvent) (l : LoopState list_mpsc map_sled list_forward list_sink) :=
  opened (loop_step si 4 10 3 l ev 9) l.

Definition l0 := mkLoopState server client ctx.
Definition l1 := step (from_client (PPublish message)) l0.
Definition l2 := step LHeartbeat l1.
Definition l3 := step (from_client (PPublish message)) l2.

Definition moves : list (Move (M := list_mpsc) (S := map_sled) (F := list_forward)) :=
  [mkMove (from_client (PPublish message)) 9 (l_broker l0) (l_broker l1);
   mkMove LHeartbeat 9 (l_broker l1) (l_broker l2);
   mkMove (from_client (PPublish message)) 9 (l_broker l2) (l_broker l3)].

Lemma is_open l ev :
  match loop_step si 4 10 3 l ev 9 with Some (Open _) => true | _ => false end = true →
  loop_step si 4 10 3 l ev 9 = Some (Open (step ev l)).
Proof. unfold step. by destruct (loop_step si 4 10 3 l ev 9) as [[l'|b k]|]. Qed.

Lemma three_moves k0 k1 k2 k3 e1 e2 e3 :
  loop_step si 4 10 3 k0 e1 9 = Some (Open k1) → loop_step si 4 10 3 k1 e2 9 = Some (Open k2) →
  loop_step si 4 10 3 k2 e3 9 = Some (Open k3) →
  loop_moves si 4 10 3 (l_conn k0) (l_ctx k0)
    [mkMove e1 9 (l_broker k0) (l_broker k1); mkMove e2 9 (l_broker k1) (l_broker k2); mkMove e3 9 (l_broker k2) (l_broker k3)]
    (l_conn k3).
Proof.
  destruct k0 as [b0 c0 x0], k1 as [b1 c1 x1], k2 as [b2 c2 x2]. intros H1 H2 H3. cbn [l_conn l_ctx l_broker].
  eapply moves_cons in H1; [exact H1|]. eapply moves_cons in H2; [exact H2|]. eapply moves_cons in H3; [exact H3|]. constructor.
Qed.

Lemma moved : loop_moves si 4 10 3 (l_conn l0) (l_ctx l0) moves (l_conn l3).
Proof. apply three_moves; apply is_open; vm_compute; reflexivity. Qed.
End LoopDemo.
Import LoopDemo.

(** The first message is routed, its repetition is not. *)
Lemma qos2_exactly_once_witness :
  routed si (mkMove (from_client (PPublish message)) 9 (l_broker l0) (l_broker l1)) ∧
  same_world (b_shared (l_broker l2)) (b_shared (l_broker l3)).
Proof.
  pose proof (qos2_exactly_once si 4 10 3 (l_conn l0) (l_ctx l0) [] moves (l_conn l3) 5 eq_refl moved
    ltac:(repeat constructor)) as H.
  destruct H as [H1 H2]. split; [exact H1|]. exact (Forall_inv H2).
Defined.

(** The stream of "c2" ends: "c1" receives its will. *)
Lemma last_will_witness :
  ∃ b' k, loop_step si 4 10 3 (mkLoopState willing client ctx) (LPacket None) 9 = Some (Closed b' k) ∧
    queued (sh_chans (b_shared b')) 0%nat = [mkOutboundPublish "a/b" [9] QoS.AtMostOnce false].
Proof.
  destruct (last_will si 4 10 3 willing WillDemo.c2 WillDemo.the_will WillDemo.will_manager_inv
              ltac:(apply Nat.ltb_lt; reflexivity) eq_refl eq_refl eq_refl eq_refl) as [H _].
  destruct (H (mkLoopState willing client ctx) (LPacket None) 9 (ends_stream si 4 10 3 (mkLoopState willing client ctx) 9))
    as (b' & k & E & Hd & _).
  exists b', k. split; [exact E|].
  etrans; [apply (Hd "c1" (@clean list_mpsc "c1" 0%nat None 4 addr 1 0)); [done| |reflexivity|]|reflexivity].
  - split; [reflexivity|]. intros c' e' Hne E' _.
    exact (or_ind (λ Hc, False_ind _ (Hne Hc)) (λ Ht, Ht) (WillDemo.will_senders_distinct c' e' E')).
  - apply Nat.leb_le. reflexivity.
Defined.
