(* ===== verification/Listeners.v ===== *)
(** * The listeners, [src/net/tcp_server.rs], [tls_layer.rs] and [ws_server.rs]

    The accept loops in front of [handle_connection].  The three loops are the
    same but for the handshake that a TLS or WebSocket connection makes in its own
    task before [handle_connection]; the sockets are events. *)

From S2P Require Import Prelude Packet Messages NetAddr OfflineQueue Subscription Storage Metrics.
From S2P Require Import Retain Session Router Auth IpFilter Limiter Security Plugin.
From S2P Require Import Lifecycle Config Handlers Connection.

Section Listeners.
Context {M : Mpsc} {S : Sled} {JR : Json RetainedMessage} {JS : Json SessionSnapshot}
  {JO : Json OutboundPublish} {F : ForwardEnv} {K : Sink}.
Implicit Types b : Broker M S F.

(** What becomes of an accepted socket: closed by the security guard, closed
    because the broker is full, or handed to a task. *)
Inductive Admission := Rejected | Full | Spawned.

(** [(current + pending) as usize >= self.max_connections] *)
Definition at_capacity (max_connections : Z) (m : Metrics) : bool :=
  wrap_u64 (wrap_i64 (connections_current m + pending_connections m)) >=? max_connections.

Definition admission (max_connections : Z) (peer : SocketAddr) b : Admission * Broker M S F :=
  let '(ok, b) := check_peer b peer in
  if negb ok then (Rejected, b)
  else if at_capacity max_connections (sh_metrics (b_shared b)) then (Full, b)
  else (Spawned, b).

(** ** The loop *)

(** The shutdown watch changes ([None]: its sender is gone), or a connection is
    accepted or fails to be. *)
Inductive AcceptEvent :=
  | EShutdown (value : option bool)
  | EAccept (res : Result string SocketAddr).

(** A round: whether the loop goes on, and the peer of a new task. *)
Definition accept_step (max_connections : Z) b (ev : AcceptEvent)
    : bool * option SocketAddr * Broker M S F :=
  match ev with
  | EShutdown (Some true) => (false, None, b)
  | EShutdown (Some false) | EShutdown None => (true, None, b)
  | EAccept (Err _) => (true, None, b)
  | EAccept (Ok peer) =>
      match admission max_connections peer b with
      | (Spawned, b) => (true, Some peer, b)
      | (_, b) => (true, None, b)
      end
  end.

(** [run]: the tasks it spawned, in order. *)
Fixpoint run_listener (max_connections : Z) b (evs : list AcceptEvent)
    : list SocketAddr * Broker M S F :=
  match evs with
  | [] => ([], b)
  | ev :: evs =>
      let '(go_on, task, b) := accept_step max_connections b ev in
      if go_on then
        let '(tasks, b) := run_listener max_connections b evs in (option_list task ++ tasks, b)
      else ([], b)
  end.

(** The body of a task: on TCP [handle_connection] at once, on TLS and WebSocket
    behind a handshake that may fail or take longer than ten seconds. *)
Inductive Transport := Tcp | Tls | WebSocket.
Inductive Handshake := HandshakeOk | HandshakeFailed | HandshakeTimeout.

Definition serve_socket (t : Transport) (h : Handshake) b (k : SinkState) (peer : SocketAddr) (sc : Script)
    (now : Instant) : option (Phase M S F K (LoopState M S F K)) :=
  match t, h with
  | Tcp, _ | _, HandshakeOk => handle_connection b k peer sc now
  | _, (HandshakeFailed | HandshakeTimeout) => Some (Closed b k)
  end.

(** The [run] of each server: the same loop, and the transport of its tasks. *)
Definition run_on (t : Transport) (max_connections : Z) b (evs : list AcceptEvent)
    : list (Transport * SocketAddr) * Broker M S F :=
  let '(tasks, b) := run_listener max_connections b evs in (pair t <$> tasks, b).
Definition TcpServer_run := run_on Tcp.
Definition TlsServer_run := run_on Tls.
Definition WsServer_run := run_on WebSocket.
End Listeners.
