(* ===== verification/Admin.v ===== *)
(** * The admin API, [src/admin/mod.rs]

    The routes, the token check in front of them, and every handler.  The HTTP
    framework (axum: path matching, body extraction, header text) is the
    parameter [Axum]; a request is given by what the code reads of it.  The log
    lines are left out; the HTML page is a constant of [dashboard.rs]. *)

From S2P Require Import Prelude Packet Messages NetAddr OfflineQueue Subscription Storage Metrics.
From S2P Require Import Retain Session Router Auth IpFilter Limiter Security Plugin.
From S2P Require Import Lifecycle Config Handlers Connection.

(** ** Requests *)

Module Method.
Inductive Method := GET | HEAD | POST | PUT | DELETE | PATCH | OPTIONS | CONNECT | TRACE | Extension (name : string).
End Method.
Abbreviation Method := Method.Method.

#[export] Instance Method_eq_dec : EqDecision Method.
Proof. solve_decision. Defined.

Record Request := mkRequest {
  req_method : Method;
  req_path : string;
  authorization : option (list Z);
  content_type : option (list Z);
  req_body : list Z;
}.

Record ManualPublishRequest := mkManualPublishRequest {
  mp_topic : string;
  mp_payload : string;
  mp_qos : Z;
  mp_retain : bool;
}.

(** ** Responses *)

Module StatusCode.
Definition OK : Z := 200.
Definition BAD_REQUEST : Z := 400.
Definition UNAUTHORIZED : Z := 401.
Definition FORBIDDEN : Z := 403.
Definition NOT_FOUND : Z := 404.
Definition METHOD_NOT_ALLOWED : Z := 405.
Definition CONFLICT : Z := 409.
Definition SWITCHING_PROTOCOLS : Z := 101.
End StatusCode.

Record HealthResponse := mkHealthResponse {
  hr_status : string;
  hr_node_id : string;
  hr_version : string;
  online_connections : Z;
  total_sessions : nat;
  hr_subscriptions : nat;
  uptime_hint : string;
}.

(** [SessionInfo] of the API; another type of this name is local to [Connection]. *)
Record SessionInfo := mkSessionInfo {
  info_client_id : string;
  info_connected : bool;
  info_peer_addr : string;
  connected_at_unix : option Z;
}.

Record SessionsListResponse := mkSessionsListResponse {
  sl_total : nat;
  sl_online : nat;
  sl_offline : nat;
  sl_sessions : list SessionInfo;
}.

Record ActionResponse := mkActionResponse { ar_ok : bool; ar_message : string }.

Inductive Body :=
  | JHealth (h : HealthResponse)
  | JSessions (l : SessionsListResponse)
  | JAction (a : ActionResponse)
  | Text (content_type text : string)
  | Dashboard
  | NoBody.

Definition Response : Type := Z * Body.

Definition action (status : Z) (ok : bool) (message : string) : Response :=
  (status, JAction (mkActionResponse ok message)).

(** ** Routes *)

Module Handler.
Inductive Handler :=
  | dashboard_page | ws_dashboard | health | metrics | list_sessions | delete_session
  | reload_security | reload_plugin | manual_publish.
End Handler.
Abbreviation Handler := Handler.Handler.

(** The table of [build_router]. *)
Definition routes : list (string * Method * Handler) :=
  [("/dashboard", Method.GET, Handler.dashboard_page);
   ("/api/v1/ws", Method.GET, Handler.ws_dashboard);
   ("/health", Method.GET, Handler.health);
   ("/metrics", Method.GET, Handler.metrics);
   ("/api/v1/sessions", Method.GET, Handler.list_sessions);
   ("/api/v1/sessions/:client_id", Method.DELETE, Handler.delete_session);
   ("/api/v1/reload/security", Method.POST, Handler.reload_security);
   ("/api/v1/reload/plugin", Method.POST, Handler.reload_plugin);
   ("/api/v1/publish", Method.POST, Handler.manual_publish)].

(** The outcome of matching a request against the table: a handler with its path
    parameter (percent-decoded), or an answer of the framework's own. *)
Inductive RouteMatch :=
  | Matched (h : Handler) (param : string)
  | Unmatched (status : Z).

Class Axum := {
  ax_match : list (string * Method * Handler) → Method → string → RouteMatch;
  (** [HeaderValue::to_str] *)
  header_to_str : list Z → option string;
  (** The [Json] extractor at the three types: the value, or the status it
      answers with. *)
  json_security : Request → Result Z SecurityConfig;
  json_plugin : Request → Result Z PluginConfig;
  json_publish : Request → Result Z ManualPublishRequest;
}.

(** [str::starts_with] and [strip_prefix] on strings. *)
Fixpoint str_strip_prefix (p s : string) : option string :=
  match p, s with
  | EmptyString, _ => Some s
  | String a p, String b s => if Ascii.eqb a b then str_strip_prefix p s else None
  | String _ _, EmptyString => None
  end.
Definition starts_with (p s : string) : bool := bool_decide (is_Some (str_strip_prefix p s)).

(** [env!("CARGO_PKG_VERSION")], from [Cargo.toml]. *)
Definition CARGO_PKG_VERSION : string := "0.1.0".

Section Admin.
Context {M : Mpsc} {S : Sled} {JR : Json RetainedMessage} {JS : Json SessionSnapshot}
  {JO : Json OutboundPublish} {F : ForwardEnv} {A : Axum}.
Implicit Types b : Broker M S F.

(** ** Read operations *)

Definition health b : HealthResponse :=
  let w := b_shared b in
  let snap := snapshot (sh_metrics w) in
  mkHealthResponse "ok" (node_id (b_config b)) CARGO_PKG_VERSION (ms_connections_current snap)
    (total_count (sh_sessions w)) (subscriber_count (sh_subscriptions w)) "see process start time".

(** The gauges set from the tables; [as i64] of the counts. *)
Definition sync_gauges b : Broker M S F :=
  let w := b_shared b in
  let '(normal_subs, shared_subs) := subscription_counts (sh_subscriptions w) in
  let m := set_subscriptions (sh_metrics w) (wrap_i64 (Z.of_nat normal_subs)) in
  let m := set_shared_subscriptions m (wrap_i64 (Z.of_nat shared_subs)) in
  let total := Z.of_nat (total_count (sh_sessions w)) in
  let online := online_count (sh_sessions w) in
  let m := set_sessions_total m (wrap_i64 total) in
  let m := set_sessions_offline m (wrap_i64 (Z.max 0 (total - online))) in
  b <| b_shared := w <| sh_metrics := m |> |>.

Definition metrics b : Response * Broker M S F :=
  let b := sync_gauges b in
  ((StatusCode.OK, Text "text/plain; version=0.0.4; charset=utf-8" (prometheus_text (sh_metrics (b_shared b)))), b).

Definition session_info (s : string * bool * SocketAddr * Instant) : SessionInfo :=
  let '(client_id, connected, peer_addr, _) := s in
  mkSessionInfo client_id connected (fmt_socket_addr peer_addr) None.

Definition list_sessions b : SessionsListResponse :=
  let snap := iter_snapshot (sh_sessions (b_shared b)) in
  let total := length snap in
  let online := length (filter (λ s, s.1.1.2 = true) snap) in
  mkSessionsListResponse total online (total - online) (map session_info snap).

Record DashboardSnapshot := mkDashboardSnapshot {
  timestamp : Z;
  ds_node_id : string;
  ds_version : string;
  ds_metrics : MetricsSnapshot;
  ds_sessions : list SessionInfo;
}.

(** [unix_secs]: the wall clock. *)
Definition build_dashboard_snapshot b (unix_secs : Z) : DashboardSnapshot * Broker M S F :=
  let b := sync_gauges b in
  let w := b_shared b in
  (mkDashboardSnapshot unix_secs (node_id (b_config b)) CARGO_PKG_VERSION (snapshot (sh_metrics w))
     (map session_info (iter_snapshot (sh_sessions w))), b).

(** ** Write operations *)

(** What follows the check: subscriptions, session, snapshot and offline
    messages; errors of the storage are dropped. *)
Definition remove_client (client_id : string) (w : Shared M S) : Shared M S :=
  let w := w <| sh_subscriptions ::= λ t, unsubscribe_all t client_id |> in
  let w := w <| sh_sessions ::= λ s, (remove s client_id).2 |> in
  let w := try_storage (Storage.delete_session client_id) w in
  try_storage (drain_offline client_id) w.

Definition delete_session (client_id : string) b : Response * Broker M S F :=
  if is_online (sh_sessions (b_shared b)) client_id then
    (action StatusCode.CONFLICT false
       ("session '" +:+ client_id +:+ "' is currently online; disconnect the client first"), b)
  else
    (action StatusCode.OK true ("session '" +:+ client_id +:+ "' cleaned up"),
     b <| b_shared ::= remove_client client_id |>).

(** [BrokerState::reload_security] and [reload_plugin] *)
Definition broker_reload_security (cfg : SecurityConfig) b : BrokerResult unit * Broker M S F :=
  let '(r, g) := guard_reload (b_security b) cfg in (r, b <| b_security := g |>).
Definition broker_reload_plugin (cfg : PluginConfig) b : BrokerResult unit * Broker M S F :=
  let '(g, ch) := plugin_reload (b_plugin b) cfg (b_forward b) in
  (Ok tt, b <| b_plugin := g |> <| b_forward := ch |>).

Definition reload_security (cfg : SecurityConfig) b : Response * Broker M S F :=
  match broker_reload_security cfg b with
  | (Ok _, b) => (action StatusCode.OK true "security config reloaded", b)
  | (Err e, b) => (action StatusCode.BAD_REQUEST false ("reload failed: " +:+ fmt_BrokerError e), b)
  end.

Definition reload_plugin (cfg : PluginConfig) b : Response * Broker M S F :=
  match broker_reload_plugin cfg b with
  | (Ok _, b) => (action StatusCode.OK true "plugin config reloaded", b)
  | (Err e, b) => (action StatusCode.BAD_REQUEST false ("reload failed: " +:+ fmt_BrokerError e), b)
  end.

Definition qos_of_request (q : Z) : option QoS :=
  match q with
  | 0 => Some QoS.AtMostOnce
  | 1 => Some QoS.AtLeastOnce
  | 2 => Some QoS.ExactlyOnce
  | _ => None
  end.

(** [route_inbound_publish] has no error to return ([publish] always ends in
    [Ok]); [None]: it does not return. *)
Definition manual_publish (req : ManualPublishRequest) (now : Instant) b
    : option (Response * Broker M S F) :=
  match qos_of_request (mp_qos req) with
  | None => Some (action StatusCode.BAD_REQUEST false "qos must be 0, 1, or 2", b)
  | Some qos =>
      let publish := mkPublish false qos (mp_retain req) (mp_topic req) None (as_bytes (mp_payload req)) in
      let '(r, g) := guard_check_publish (b_security b) "admin-api" (Z.of_nat (length (p_payload publish)))
                       (max_packet_size (b_config b)) now in
      let b := b <| b_security := g |> in
      match r with
      | Err e => Some (action StatusCode.FORBIDDEN false ("rejected by security guard: " +:+ fmt_BrokerError e),
                       on_metrics inc_security_rejected b)
      | Ok _ =>
          match plugin_check_publish (b_plugin b) publish with
          | Err e => Some (action StatusCode.FORBIDDEN false ("rejected by plugin guard: " +:+ fmt_BrokerError e),
                           on_metrics inc_plugin_rejected b)
          | Ok _ =>
              w ← route_inbound_publish (b_shared b) publish (Some "admin-api") now;
              let b := on_metrics inc_publish (b <| b_shared := w |>) in
              let b := on_metrics (λ m, inc_publish_qos m (mp_qos req)) b in
              Some (action StatusCode.OK true ("published to '" +:+ mp_topic req +:+ "'"), b)
          end
      end
  end.

(** ** Dispatch *)

(** A body that the extractor refuses is answered by the framework. *)
Definition with_json {B} (r : Result Z B) (k : B → option (Response * Broker M S F)) b
    : option (Response * Broker M S F) :=
  match r with
  | Ok x => k x
  | Err status => Some ((status, NoBody), b)
  end.

(** [next.run(req)]: the router behind the middleware. *)
Definition run_route (req : Request) (now : Instant) b
    : option (Response * Broker M S F) :=
  match ax_match routes (req_method req) (req_path req) with
  | Unmatched status => Some ((status, NoBody), b)
  | Matched h param =>
      match h with
      | Handler.dashboard_page => Some ((StatusCode.OK, Dashboard), b)
      | Handler.ws_dashboard => Some ((StatusCode.SWITCHING_PROTOCOLS, NoBody), b)
      | Handler.health => Some ((StatusCode.OK, JHealth (health b)), b)
      | Handler.metrics => Some (metrics b)
      | Handler.list_sessions => Some ((StatusCode.OK, JSessions (list_sessions b)), b)
      | Handler.delete_session => Some (delete_session param b)
      | Handler.reload_security =>
          with_json (json_security req) (λ cfg, Some (reload_security cfg b)) b
      | Handler.reload_plugin =>
          with_json (json_plugin req) (λ cfg, Some (reload_plugin cfg b)) b
      | Handler.manual_publish =>
          with_json (json_publish req) (λ p, manual_publish p now b) b
      end
  end.

(** [admin_token_auth] *)
Definition is_protected (req : Request) : bool :=
  starts_with "/api/v1/" (req_path req)
  && (bool_decide (req_method req = Method.POST) || bool_decide (req_method req = Method.DELETE)).

Definition auth_ok (token : string) (req : Request) : bool :=
  match (v ← authorization req; s ← header_to_str v; str_strip_prefix "Bearer " s) with
  | Some provided => constant_time_eq (as_bytes provided) (as_bytes token)
  | None => false
  end.

Definition admin_token_auth (token : string) (req : Request)
    (next : Broker M S F → option (Response * Broker M S F)) b : option (Response * Broker M S F) :=
  if str_is_empty token then next b
  else if negb (is_protected req) then next b
  else if negb (auth_ok token req) then
    Some (action StatusCode.UNAUTHORIZED false "missing or invalid admin token", b)
  else next b.

(** A request through the router of [build_router]; the token is the one of the
    broker's settings. *)
Definition serve (admin : AdminConfig) (req : Request) (now : Instant) b
    : option (Response * Broker M S F) :=
  admin_token_auth (admin_token admin) req (run_route req now) b.

(** ** The dashboard's socket *)

(** What happens on the socket: a tick of the timer at a wall-clock second, with
    whether the snapshot could be serialised and sent, or a frame from the
    client ([None]: the stream ended). *)
Inductive WsFrame := FClose | FPing (payload : list Z) | FOther.
Inductive DashEvent :=
  | DTick (unix_secs : Z) (serialised sent : bool)
  | DRecv (msg : option (Result string WsFrame)).

(** What was sent. *)
Inductive DashOut := OSnapshot (s : DashboardSnapshot) | OPong (payload : list Z) | OClose.

(** One round of the loop: [false] when it breaks. *)
Definition dashboard_step b (ev : DashEvent) : bool * list DashOut * Broker M S F :=
  match ev with
  | DTick unix_secs serialised sent =>
      let '(snap, b) := build_dashboard_snapshot b unix_secs in
      if negb serialised then (true, [], b)
      else if negb sent then (false, [], b)
      else (true, [OSnapshot snap], b)
  | DRecv (Some (Ok FClose)) | DRecv (Some (Err _)) | DRecv None => (false, [], b)
  | DRecv (Some (Ok (FPing p))) => (true, [OPong p], b)
  | DRecv (Some (Ok FOther)) => (true, [], b)
  end.

(** The loop over its events; the socket is closed after it. *)
Fixpoint handle_ws_dashboard b (evs : list DashEvent) : list DashOut * Broker M S F :=
  match evs with
  | [] => ([], b)
  | ev :: evs =>
      let '(go_on, out, b) := dashboard_step b ev in
      if go_on then let '(outs, b) := handle_ws_dashboard b evs in (out ++ outs, b)
      else (out ++ [OClose], b)
  end.
End Admin.
