(* ===== verification/AdminTheorems.v ===== *)
(** * Properties of the admin API

    Who may change the broker through it, what each change does, and that what
    it reports is the state of the tables. *)

From S2P Require Import Prelude Packet Messages NetAddr OfflineQueue Subscription.
From S2P Require Import SubscriptionProofs SubscriptionTheorems SubscriptionCount Storage.
From S2P Require Import StorageProofs Metrics Retain Session SessionProofs SessionTheorems.
From S2P Require Import Router RouterTheorems Lifecycle LifecycleTheorems RestartTheorems.
From S2P Require Import SweepTheorems Auth IpFilter IpFilterTheorems Limiter Security Plugin.
From S2P Require Import PluginTheorems Config ConfigTheorems Handlers HandlersProofs.
From S2P Require Import HandlersTheorems Connection Admin.

(** ** What the code relies on in the framework *)

(** The text of a pattern before its parameter. *)
Fixpoint fixed_part (pat : string) : string :=
  match pat with
  | EmptyString => EmptyString
  | String c pat => if Ascii.eqb c ":"%char then EmptyString else String c (fixed_part pat)
  end.

(** A path goes to a handler only if it is the pattern, or begins with the
    pattern's fixed part when it has a parameter, and if the method is the
    route's (a GET route also answers HEAD); the text of a header is its bytes. *)
Class AxumLaws (A : Axum) := {
  match_sound rs m p h param :
    ax_match rs m p = Matched h param →
    ∃ pat m', (pat, m', h) ∈ rs ∧ (m = m' ∨ (m = Method.HEAD ∧ m' = Method.GET)) ∧
      (p = pat ∨ (fixed_part pat ≠ pat ∧ starts_with (fixed_part pat) p = true));
  to_str_bytes v s : header_to_str v = Some s → as_bytes s = v;
}.

Lemma str_strip_prefix_spec p s r : str_strip_prefix p s = Some r ↔ s = p +:+ r.
Proof.
  revert s. induction p as [|a p IH]; intros s; cbn [str_strip_prefix].
  { split; [by intros [= ->]|by intros ->]. }
  destruct s as [|b s]; [done|]. change (String a p +:+ r) with (String a (p +:+ r)).
  destruct (Ascii.eqb_spec a b) as [->|Hne]; [rewrite IH|]; split; [by intros ->|by intros [= ->]|done|by intros [= -> _]].
Qed.

Lemma starts_with_spec p s : starts_with p s = true ↔ ∃ r, s = p +:+ r.
Proof.
  unfold starts_with. rewrite bool_decide_eq_true. unfold is_Some. by setoid_rewrite str_strip_prefix_spec.
Qed.

Lemma str_app_assoc a b c : (a +:+ b) +:+ c = a +:+ (b +:+ c).
Proof. induction a as [|x a IH]; [done|]. exact (f_equal (String x) IH). Qed.

Section Admin.
Context {M : Mpsc} {S : Sled} {JR : Json RetainedMessage} {JS : Json SessionSnapshot}
  {JO : Json OutboundPublish} {F : ForwardEnv} {A : Axum}.
Implicit Types b : Broker M S F.

(** ** Protection *)

(** The handlers that change more than the reported gauges. *)
Definition writes (h : Handler) : bool :=
  match h with
  | Handler.delete_session | Handler.reload_security | Handler.reload_plugin | Handler.manual_publish => true
  | _ => false
  end.

(** The request carries exactly the token. *)
Definition bears (token : string) (req : Request) : Prop :=
  ∃ v, authorization req = Some v ∧ header_to_str v = Some ("Bearer " +:+ token).

Lemma auth_ok_spec token req : auth_ok token req = true ↔ bears token req.
Proof.
  unfold auth_ok, bears. destruct (authorization req) as [v|]; cbn [mbind option_bind]; [|split; [done|by intros (? & ? & _)]].
  destruct (header_to_str v) as [s|] eqn:Es; cbn [mbind option_bind]; [|split; [done|intros (? & [= <-] & E); congruence]].
  split.
  - destruct (str_strip_prefix "Bearer " s) as [r|] eqn:Er; [|done].
    intros H%constant_time_eq_spec%as_bytes_inj. exists v. split; [done|]. rewrite Es.
    apply str_strip_prefix_spec in Er. congruence.
  - intros (? & [= <-] & E). assert (Es' : str_strip_prefix "Bearer " s = Some token) by (apply str_strip_prefix_spec; congruence).
    rewrite Es'. by apply constant_time_eq_spec.
Qed.

Lemma read_route req now b h param :
  ax_match routes (req_method req) (req_path req) = Matched h param → writes h = false →
  ∃ r b', run_route req now b = Some (r, b') ∧ (b' = b ∨ b' = sync_gauges b).
Proof.
  intros E Hw. unfold run_route. rewrite E.
  destruct h; try done; (do 2 eexists; split; [done|]); auto.
Qed.

Context {L : AxumLaws A}.

(** Every route that writes is under the protected prefix with a protected
    method. *)
Lemma write_route_protected req h param :
  ax_match routes (req_method req) (req_path req) = Matched h param → writes h = true → is_protected req = true.
Proof.
  intros (pat & m' & Hin & Hm & Hp)%match_sound Hw. unfold is_protected. apply andb_true_intro.
  assert (Hcase : starts_with "/api/v1/" pat = true ∧ starts_with "/api/v1/" (fixed_part pat) = true ∧
            (m' = Method.POST ∨ m' = Method.DELETE)).
  { unfold routes in Hin.
    repeat (apply elem_of_cons in Hin as [Hin|Hin]); [injection Hin as -> -> ->..|by apply not_elem_of_nil in Hin];
      try done; (split; [reflexivity|split; [reflexivity|auto]]). }
  destruct Hcase as (Hpat & Hfix & Hm'). split.
  - destruct Hp as [->|[_ Hp]]; [done|]. apply starts_with_spec in Hfix as [r Hr], Hp as [r' ->].
    apply starts_with_spec. exists (r +:+ r'). by rewrite Hr, str_app_assoc.
  - destruct Hm as [->|[_ ->]]; [|by destruct Hm']. apply orb_true_iff. rewrite !bool_decide_eq_true. done.
Qed.

(** C21: Protection of the write operations.  If the settings passed the
    validation, the admin API is enabled, and it listens on an address that is
    not loopback (or has a token anyway), then a request that does not carry
    exactly the configured token is answered without any effect on the broker,
    except that reading the metrics sets the four reported gauges; a POST or
    DELETE under [/api/v1/] is answered with 401.  A request that carries the
    token is served as if there were no check. *)
Theorem admin_write_protected s req now b :
  validate s = Ok tt → admin_enabled (s_admin s) = true →
  is_loopback_bind (admin_bind (s_admin s)) = false ∨ admin_token (s_admin s) ≠ "" →
  (¬ bears (admin_token (s_admin s)) req →
     (is_protected req = true →
        serve (s_admin s) req now b =
        Some (action StatusCode.UNAUTHORIZED false "missing or invalid admin token", b)) ∧
     ∃ r b', serve (s_admin s) req now b = Some (r, b') ∧ (b' = b ∨ b' = sync_gauges b)) ∧
  (bears (admin_token (s_admin s)) req → serve (s_admin s) req now b = run_route req now b).
Proof.
  intros Hv Hen Hreach. apply validate_ok in Hv. destruct (ok_admin s Hv Hen) as [_ Htok].
  assert (Hne : str_is_empty (admin_token (s_admin s)) = false) by (apply str_is_empty_false; destruct Hreach, Htok; congruence).
  unfold serve, admin_token_auth. rewrite Hne. split.
  - intros Hb. assert (Ha : auth_ok (admin_token (s_admin s)) req = false)
      by (apply not_true_is_false; by rewrite auth_ok_spec).
    rewrite Ha. cbn [negb]. split; [by intros ->|].
    destruct (is_protected req) eqn:Hp; cbn [negb]; [do 2 eexists; split; [done|by left]|].
    destruct (ax_match routes (req_method req) (req_path req)) as [h param|status] eqn:Em.
    + apply (read_route req now b h param Em). apply not_true_is_false. intros Hw.
      rewrite (write_route_protected req h param Em Hw) in Hp. done.
    + unfold run_route. rewrite Em. do 2 eexists. split; [done|by left].
  - intros Hb%auth_ok_spec. rewrite Hb. by destruct (is_protected req).
Qed.

(** ** Deletion of a session *)

Lemma remove_sessions (self : SessionManager M) c d :
  sessions (remove self c).2 !! d = if decide (d = c) then None else sessions self !! d.
Proof.
  unfold remove. destruct (sessions self !! c) as [v|] eqn:E.
  - assert (Hd : sessions (if connected v then online_dec (self <| sessions ::= delete c |>)
                     else self <| sessions ::= delete c |>) = delete c (sessions self)) by by destruct (connected v).
    cbn [snd]. rewrite Hd. destruct (decide (d = c)) as [->|?]; [apply lookup_delete_eq|by apply lookup_delete_ne].
  - cbn. destruct (decide (d = c)) as [->|?]; done.
Qed.

Context {SL : SledLaws S} {LS : JsonLaws SessionSnapshot} {LO : JsonLaws OutboundPublish}.

(** Deletion of a session.  For a connected client the answer is 409 and
    nothing changes.  Otherwise the client is forgotten, in memory and on disk:
    its session, every subscription, its snapshot and its offline messages are
    gone, so that a restart does not bring it back; the session table keeps its
    invariant, and sessions, subscriptions, snapshots and messages of all other
    clients, channels, retained messages and guards are untouched. *)
Theorem delete_session_correct c b s snaps log :
  sess_inv (sh_sessions (b_shared b)) → readable → str_len c ≤ u16_max →
  sh_storage (b_shared b) = Some s → sessions_on_disk snaps s → offline_log log s →
  let '((status, _), b') := delete_session c b in
  if is_online (sh_sessions (b_shared b)) c then status = StatusCode.CONFLICT ∧ b' = b
  else
    let w := b_shared b in
    let w' := b_shared b' in
    status = StatusCode.OK ∧ sess_inv (sh_sessions w') ∧
    (∀ d, sessions (sh_sessions w') !! d = if decide (d = c) then None else sessions (sh_sessions w) !! d) ∧
    (∀ d f, sub_lookup (sh_subscriptions w') d f = if decide (d = c) then None else sub_lookup (sh_subscriptions w) d f) ∧
    (sh_chans w' = sh_chans w ∧ sh_retain w' = sh_retain w ∧
     b_security b' = b_security b ∧ b_plugin b' = b_plugin b) ∧
    ∃ s' log', sh_storage w' = Some s' ∧ sessions_on_disk (delete c snaps) s' ∧ offline_log log' s' ∧
      ∀ d, messages_of d log' = if decide (d = c) then [] else messages_of d log.
Proof.
  intros Hi Hr Hlen Hst Hd Hl. unfold delete_session. destruct (is_online _ c) eqn:Eon; [done|]. cbn [action fst].
  set (w1 := (b_shared b) <| sh_subscriptions ::= λ t, unsubscribe_all t c |> <| sh_sessions ::= λ s, (remove s c).2 |>).
  assert (Er : remove_client c (b_shared b) = delete_session_snapshot w1 c) by done.
  destruct (delete_snapshot_disk snaps log w1 s c Hr Hlen Hst Hd Hl) as (s' & m' & E & Hd' & Hl').
  change (b_shared (b <| b_shared ::= remove_client c |>)) with (remove_client c (b_shared b)).
  rewrite Er, E. cbv zeta. split; [done|]. split; [by apply remove_inv|].
  split; [intros d; apply remove_sessions|]. split; [intros d f; cbn; apply unsubscribe_all_lookup|]. split; [done|].
  exists s', (not_of_client c log). split; [done|]. split; [done|]. split; [done|]. intros d. apply messages_of_removed.
Qed.

(** ** Reloading *)

(** The entries of both IP lists are addresses or ranges. *)
Definition lists_parse (cfg : SecurityConfig) : Prop :=
  Forall (λ s, is_Some (cidr_of s)) (ip_blacklist cfg) ∧ Forall (λ s, is_Some (cidr_of s)) (ip_whitelist cfg).

Lemma filter_new_ok entries :
  match filter_new entries with
  | Ok _ => Forall (λ s, is_Some (cidr_of s)) entries
  | Err _ => ¬ Forall (λ s, is_Some (cidr_of s)) entries
  end.
Proof.
  pose proof (add_entries_spec filter_empty entries ltac:(done)) as H. unfold filter_new.
  destruct (add_entries filter_empty entries); [by destruct H as [H _]|].
  intros Hf. apply Exists_exists in H as (x & Hin & E). rewrite Forall_forall in Hf.
  specialize (Hf _ Hin). rewrite E in Hf. by destruct Hf.
Qed.

(** Hot reload.  A security configuration is accepted exactly when all
    entries of its IP lists parse; a refused one is answered with 400 and the
    error's text and changes nothing.  An accepted one leaves the guard a fresh
    start would build from it, with the counts of live connections carried
    over.  A plugin configuration always replaces the rules, and the forwarder
    becomes the one of a fresh start if its target is accepted and otherwise
    stays as it was. *)
Theorem reload_correct scfg pcfg b :
  (lists_parse scfg ↔ ∃ g, guard_new scfg = Ok g) ∧
  reload_security scfg b =
    match guard_new scfg with
    | Ok g => (action StatusCode.OK true "security config reloaded",
               b <| b_security := g <| ip_counter := ip_counter (b_security b) |> |>)
    | Err e => (action StatusCode.BAD_REQUEST false ("reload failed: " +:+ fmt_BrokerError e), b)
    end ∧
  let g := (plugin_new pcfg (b_forward b)).1 in
  let b' := (reload_plugin pcfg b).2 in
  pg_policy (b_plugin b') = pg_policy g ∧
  pg_forwarder (b_plugin b') =
    (if is_ok (forwarder_new (pc_forward pcfg) (b_forward b)).1 then pg_forwarder g else pg_forwarder (b_plugin b)) ∧
  b_shared b' = b_shared b ∧ b_security b' = b_security b.
Proof.
  split; [|split].
  - unfold lists_parse, guard_new, build_policy.
    pose proof (filter_new_ok (ip_blacklist scfg)) as H1. pose proof (filter_new_ok (ip_whitelist scfg)) as H2.
    destruct (filter_new (ip_blacklist scfg)), (filter_new (ip_whitelist scfg)); cbn; naive_solver.
  - unfold reload_security, broker_reload_security, guard_reload, guard_new.
    destruct (build_policy scfg) as [p|e]; cbn; [done|]. by destruct b.
  - unfold reload_plugin, broker_reload_plugin, plugin_reload, plugin_new.
    by destruct (forwarder_new (pc_forward pcfg) (b_forward b)) as [[f|e] ch].
Qed.

(** ** Manual publication *)

Context {ML : MpscLaws M}.

Definition manual_packet (req : ManualPublishRequest) (qos : QoS) : Publish :=
  mkPublish false qos (mp_retain req) (mp_topic req) None (as_bytes (mp_payload req)).

Lemma metrics_kept g (f : Metrics → Metrics) b :
  (∀ m, gauges (f m) = gauges m) → shared_inv g (b_shared b) → shared_inv g (b_shared (on_metrics f b)).
Proof. intros Hf [H1 H2 H3 H4]. split; [done..|]. rewrite <-H4. apply Hf. Qed.

Lemma inc_publish_qos_gauges q m : gauges (inc_publish_qos m q) = gauges m.
Proof. unfold inc_publish_qos. by repeat case_match. Qed.

(** Manual publication.  It always returns and keeps the broker's invariant
    and the guard's policy and counts.  A QoS other than 0, 1 and 2 is answered
    with 400 and no effect.  A message that the guards reject, by the very test
    that a PUBLISH packet passes, is answered with 403 and nothing is routed.
    Every other message is answered with 200 and has been published to the
    subscribers as the router publishes any message. *)
Theorem manual_publish_correct g req now b :
  shared_inv g (b_shared b) →
  ∃ r b', manual_publish req now b = Some (r, b') ∧ shared_inv g (b_shared b') ∧
    guard_view (b_security b') = guard_view (b_security b) ∧
    match qos_of_request (mp_qos req) with
    | None => r.1 = StatusCode.BAD_REQUEST ∧ b' = b
    | Some qos =>
        if rejected b (manual_packet req qos) "admin-api" now
        then r.1 = StatusCode.FORBIDDEN ∧ same_world (b_shared b) (b_shared b')
        else r.1 = StatusCode.OK ∧
             ∃ w1, publish (b_shared b) (mp_topic req) (as_bytes (mp_payload req)) qos (mp_retain req)
                     (Some "admin-api") now = Some w1 ∧ same_world w1 (b_shared b')
    end.
Proof.
  intros Hi. unfold manual_publish, rejected. destruct (qos_of_request (mp_qos req)) as [qos|]; [|by exists (action StatusCode.BAD_REQUEST false "qos must be 0, 1, or 2"), b].
  fold (manual_packet req qos).
  pose proof (guard_check_view (b_security b) "admin-api" (Z.of_nat (length (p_payload (manual_packet req qos))))
                (max_packet_size (b_config b)) now) as Hv.
  destruct (guard_check_publish _ _ _ _ _) as [[u|e] gd]; cbn [fst snd is_ok negb orb] in Hv |- *.
  - change (b_plugin (b <| b_security := gd |>)) with (b_plugin b).
    destruct (plugin_check_publish (b_plugin b) (manual_packet req qos)) as [u'|e] eqn:Ep; cbn [is_ok negb].
    + unfold route_inbound_publish.
      destruct (publish_inv g (b_shared b) (mp_topic req) (as_bytes (mp_payload req)) qos (mp_retain req)
                  (Some "admin-api") now Hi) as (w1 & Ew & Hi1).
      cbn [manual_packet p_topic p_payload p_qos p_retain]. change (b_shared (b <| b_security := gd |>)) with (b_shared b).
      rewrite Ew. cbn [mbind option_bind]. do 2 eexists. split; [done|].
      split; [apply metrics_kept; [apply inc_publish_qos_gauges|]; by apply metrics_kept|].
      split; [done|]. split; [done|]. exists w1. split; [done|]. by repeat split.
    + do 2 eexists. split; [done|]. split; [by apply metrics_kept|]. split; [done|]. split; [done|]. by repeat split.
  - do 2 eexists. split; [done|]. split; [by apply metrics_kept|]. split; [done|]. split; [done|]. by repeat split.
Qed.

(** ** Reports *)

Definition is_offline (ke : string * SessionEntry M) : Prop := connected ke.2 = false.
#[export] Instance is_offline_dec ke : Decision (is_offline ke).
Proof. unfold is_offline. apply _. Defined.

Lemma wrap_i64_small z : 0 ≤ z < u64_mod / 2 → wrap_i64 z = z.
Proof.
  unfold wrap_i64. change (u64_mod / 2) with 9223372036854775808. intros H.
  rewrite Z.mod_small; unfold u64_mod; lia.
Qed.

Lemma online_offline (m : gmap string (SessionEntry M)) :
  online m + Z.of_nat (size (filter is_offline m)) = Z.of_nat (size m).
Proof.
  unfold online. assert (Hx : filter is_offline m = filter (λ ke, ¬ is_connected ke) m).
  { apply map_filter_ext. intros c e _. unfold is_offline, is_connected. cbn. by destruct (connected e). }
  rewrite Hx. rewrite <-Nat2Z.inj_add, <-map_size_disj_union by apply map_disjoint_filter_complement.
  by rewrite map_filter_union_complement.
Qed.

(** What the list says of one session. *)
Definition info_of (c : string) (e : SessionEntry M) : SessionInfo :=
  mkSessionInfo c (connected e) (fmt_socket_addr (peer_addr e)) None.

Lemma size_filter_list (m : gmap string (SessionEntry M)) (P : string * SessionEntry M → Prop) `{!∀ x, Decision (P x)} :
  size (filter P m) = length (filter P (map_to_list m)).
Proof.
  rewrite <-length_map_to_list. apply Permutation_length, NoDup_Permutation.
  - apply NoDup_map_to_list.
  - apply NoDup_filter, NoDup_map_to_list.
  - intros [c e]. rewrite elem_of_map_to_list, list_elem_of_filter, elem_of_map_to_list, map_lookup_filter_Some. tauto.
Qed.

Lemma list_sessions_counts b :
  Z.of_nat (sl_total (list_sessions b)) = Z.of_nat (size (sessions (sh_sessions (b_shared b)))) ∧
  Z.of_nat (sl_online (list_sessions b)) = online (sessions (sh_sessions (b_shared b))) ∧
  sl_offline (list_sessions b) = (sl_total (list_sessions b) - sl_online (list_sessions b))%nat.
Proof.
  unfold list_sessions, iter_snapshot. cbn [sl_total sl_online sl_offline]. set (m := sessions _).
  split; [by rewrite length_map, length_map_to_list|]. split; [|done].
  unfold online. rewrite size_filter_list. f_equal.
  induction (map_to_list m) as [|[c e] l IH]; [done|]. cbn [map].
  rewrite !filter_cons. unfold is_connected at 1. cbn [fst snd].
  destruct (decide (connected e = true)); cbn [length]; by rewrite IH.
Qed.

Lemma list_sessions_entries b info :
  sess_inv (sh_sessions (b_shared b)) →
  info ∈ sl_sessions (list_sessions b) ↔
  ∃ c e, sessions (sh_sessions (b_shared b)) !! c = Some e ∧ info = info_of c e.
Proof.
  intros Hi. unfold list_sessions, iter_snapshot. cbn [sl_sessions]. rewrite map_map.
  rewrite list_elem_of_fmap. split.
  - intros ([c e] & -> & He%elem_of_map_to_list). exists c, e. split; [done|]. cbn.
    destruct (inv_entries _ Hi c e He) as (-> & _). done.
  - intros (c & e & He & ->). exists (c, e). split; [|by apply elem_of_map_to_list]. cbn.
    destruct (inv_entries _ Hi c e He) as (-> & _). done.
Qed.

Lemma list_sessions_nodup b :
  sess_inv (sh_sessions (b_shared b)) → NoDup (map info_client_id (sl_sessions (list_sessions b))).
Proof.
  intros Hi. unfold list_sessions, iter_snapshot. cbn [sl_sessions]. rewrite !map_map.
  assert (E : map (λ x : string * SessionEntry M, info_client_id (session_info
            (client_id x.2, connected x.2, peer_addr x.2, connected_at x.2)))
            (map_to_list (sessions (sh_sessions (b_shared b)))) = (map_to_list (sessions (sh_sessions (b_shared b)))).*1).
  { apply map_ext_in. intros [c e] He%list_elem_of_In%elem_of_map_to_list. cbn. by apply (inv_entries _ Hi c e). }
  rewrite E. apply NoDup_fst_map_to_list.
Qed.

(** What the API reports is what the tables hold.  When the metrics are read,
    the gauges are the numbers of ordinary and of shared subscriptions in the
    abstract table that the tree implements, of sessions, and of sessions that
    are not connected; the health report gives the number of sessions and of all
    subscriptions; and the session list has each session once, with its own
    identifier, state and address, and counts of all, connected and other
    sessions that agree with the table. *)
Theorem admin_reports_exact g b m :
  shared_inv g (b_shared b) → refines (sh_subscriptions (b_shared b)) m →
  let table := sessions (sh_sessions (b_shared b)) in
  Z.of_nat (size table) < u64_mod / 2 → Z.of_nat (size m) < u64_mod / 2 →
  let mt := sh_metrics (b_shared (sync_gauges b)) in
  (subscriptions_current mt = Z.of_nat (size (filter (λ kv, parse_shared_filter kv.1.2 = None) m)) ∧
   shared_subscriptions_current mt = Z.of_nat (size (filter (λ kv, parse_shared_filter kv.1.2 ≠ None) m)) ∧
   sessions_total mt = Z.of_nat (size table) ∧
   sessions_offline mt = Z.of_nat (size (filter is_offline table))) ∧
  (total_sessions (health b) = size table ∧ hr_subscriptions (health b) = size m) ∧
  (Z.of_nat (sl_total (list_sessions b)) = Z.of_nat (size table) ∧
   Z.of_nat (sl_online (list_sessions b)) = online table ∧
   Z.of_nat (sl_offline (list_sessions b)) = Z.of_nat (size (filter is_offline table))) ∧
  NoDup (map info_client_id (sl_sessions (list_sessions b))) ∧
  ∀ info, info ∈ sl_sessions (list_sessions b) ↔ ∃ c e, table !! c = Some e ∧ info = info_of c e.
Proof.
  intros Hi Hr table Hsz Hm mt. destruct (refines_counts _ _ Hr) as [Hc Hall].
  destruct (list_sessions_counts b) as (Ht & Ho & Hf). pose proof (online_offline table) as Hoff.
  fold table in Ht, Ho.
  assert (Hon : online_count (sh_sessions (b_shared b)) = online table).
  { rewrite (inv_online _ (si_sess _ _ Hi)). apply Z.mod_small.
    change (u64_mod / 2) with 9223372036854775808 in Hsz. unfold online in *. unfold u64_mod. lia. }
  split; [|split; [|split; [|split]]].
  - unfold mt, sync_gauges. rewrite Hc. cbn. unfold total_count. fold table. rewrite Hon.
    assert (Hle : ∀ (P : (string * string) * QoS → Prop) `{!∀ x, Decision (P x)}, (size (filter P m) ≤ size m)%nat)
      by (intros; apply map_subseteq_size, map_filter_subseteq).
    rewrite !wrap_i64_small.
    + split; [done|]. split; [done|]. split; [done|lia].
    + unfold online in *. lia.
    + lia.
    + specialize (Hle (λ kv, parse_shared_filter kv.1.2 ≠ None) _). lia.
    + specialize (Hle (λ kv, parse_shared_filter kv.1.2 = None) _). lia.
  - split; [done|]. exact Hall.
  - split; [done|]. split; [done|]. rewrite Hf. lia.
  - apply list_sessions_nodup, Hi.
  - intros info. apply list_sessions_entries, Hi.
Qed.
End Admin.

(** ** A concrete server *)

Import ListChan MapDb ListForward Demo RestartDemo HandlerDemo.

Module AdminDemo.
Definition method_fits (m m' : Method) : bool :=
  bool_decide (m = m') || (bool_decide (m = Method.HEAD) && bool_decide (m' = Method.GET)).

(** The first route that fits; a parameter is the rest of the path. *)
Fixpoint first_match (rs : list (string * Method * Handler)) (m : Method) (p : string) : RouteMatch :=
  match rs with
  | [] => Unmatched StatusCode.NOT_FOUND
  | (pat, m', h) :: rs =>
      if method_fits m m' && String.eqb p pat then Matched h ""
      else if method_fits m m' && negb (String.eqb (fixed_part pat) pat) && starts_with (fixed_part pat) p
      then Matched h (default "" (str_strip_prefix (fixed_part pat) p))
      else first_match rs m p
  end.

#[export] Instance demo_axum : Axum := {
  ax_match := first_match;
  header_to_str v := if forallb (in_range 32 126) v then Some (string_of_bytes v) else None;
  json_security _ := Ok SecurityConfig_default;
  json_plugin _ := Ok PluginConfig_default;
  json_publish _ := Ok (mkManualPublishRequest "a/b" "hello" 1 false);
}.

Lemma method_fits_spec m m' : method_fits m m' = true → m = m' ∨ (m = Method.HEAD ∧ m' = Method.GET).
Proof. unfold method_fits. rewrite orb_true_iff, andb_true_iff, !bool_decide_eq_true. tauto. Qed.

#[export] Instance demo_axum_laws : AxumLaws demo_axum.
Proof.
  split.
  - intros rs m p h param. cbn. induction rs as [|[[pat m'] h'] rs IH]; cbn [first_match]; [done|].
    destruct (method_fits m m' && String.eqb p pat) eqn:E1.
    { intros [= <- <-]. apply andb_true_iff in E1 as [Hm%method_fits_spec Hp%String.eqb_eq].
      exists pat, m'. split; [left|]. auto. }
    destruct (method_fits m m' && negb _ && starts_with _ p) eqn:E2.
    { intros [= <- <-]. destruct_andb. exists pat, m'. split; [left|]. split; [by apply method_fits_spec|].
      right. split; [|done]. by apply String.eqb_neq, negb_true_iff. }
    intros (pat' & m'' & Hin & H)%IH. exists pat', m''. split; [by right|done].
  - intros v s. cbn. destruct (forallb (in_range 32 126) v) eqn:E; [|done]. intros [= <-]. apply as_bytes_of_bytes.
    unfold is_bytes. rewrite forallb_forall in E |- *. intros x Hx. specialize (E x Hx).
    unfold in_range in E. apply is_u8_spec. lia.
Qed.

Definition settings : Settings :=
  Settings_default <| s_admin := mkAdminConfig true "0.0.0.0:9090" "secret" |>.
Definition delete_c1 (auth : option (list Z)) : Request :=
  mkRequest Method.DELETE "/api/v1/sessions/c1" auth None [].

(** "c1" offline, with a snapshot and a message on disk. *)
Definition offline_server : Broker list_mpsc map_sled list_forward :=
  mkBroker SweepDemo.broker guard_disabled plugin_disabled ∅ (mkAuthConfig AuthMode.Anonymous true []) config.

(** Two subscriptions, one of them shared. *)
Definition cmds : list SubCmd :=
  [CSubscribe "c1" "a/+" QoS.AtLeastOnce; CSubscribe "c2" "$share/g/a/b" QoS.AtMostOnce].
Definition two_tree : SubscriptionTree := (run tree_step SubscriptionTree_new cmds).1.
Definition two_table : SubTable := (run spec_step ∅ cmds).1.

Lemma two_refines : refines two_tree two_table.
Proof.
  assert (H0 : refines SubscriptionTree_new ∅).
  { split; [apply tree_inv_new|]. intros c f. unfold sub_lookup. rewrite lookup_empty.
    destruct (parse_shared_filter f); [done|]. change (Subscription.root SubscriptionTree_new) with Node_default.
    by rewrite sub_at_default. }
  pose proof (run_refines cmds _ _ H0) as H. unfold two_tree, two_table.
  destruct (run tree_step SubscriptionTree_new cmds), (run spec_step ∅ cmds). apply H.
Qed.

Definition two_server : Broker list_mpsc map_sled list_forward :=
  server <| b_shared ::= λ w, w <| sh_subscriptions := two_tree |> |>.

Lemma two_inv : shared_inv (0, 0) (b_shared two_server).
Proof.
  destruct broker_inv0 as [H1 H2 _ H4]. split; [exact H1|exact H2|apply two_refines|exact H4].
Qed.
End AdminDemo.
Import AdminDemo.

Lemma admin_write_protected_witness :
  serve (s_admin settings) (delete_c1 None) 9 server =
  Some (action StatusCode.UNAUTHORIZED false "missing or invalid admin token", server).
Proof.
  destruct (admin_write_protected settings (delete_c1 None) 9 server eq_refl eq_refl (or_introl eq_refl)) as [H _].
  destruct H as [H _].
  - intros (v & E & _). discriminate E.
  - apply H. reflexivity.
Defined.

Lemma delete_session_correct_witness :
  sessions (sh_sessions (b_shared (delete_session "c1" offline_server).2)) !! "c1" = None.
Proof.
  pose proof (delete_session_correct "c1" offline_server disk {["c1" := snap]} [("c1", 0, msg)]
    SweepDemo.expired_manager_inv map_readable ltac:(vm_compute; discriminate) eq_refl disk_sessions disk_log) as H.
  destruct (delete_session "c1" offline_server) as [[status body] b'].
  destruct H as (_ & _ & H & _). cbn [snd]. rewrite H. reflexivity.
Defined.

Lemma manual_publish_correct_witness :
  ∃ r b', manual_publish (mkManualPublishRequest "a/b" "hello" 1 false) 9 server = Some (r, b') ∧ r.1 = 200.
Proof.
  destruct (manual_publish_correct (0, 0) (mkManualPublishRequest "a/b" "hello" 1 false) 9 server broker_inv0)
    as (r & b' & E & _ & _ & H).
  exists r, b'. split; [exact E|]. destruct H as [H _]. exact H.
Defined.

Lemma admin_reports_exact_witness :
  subscriptions_current (sh_metrics (b_shared (sync_gauges two_server))) = 1 ∧
  hr_subscriptions (health two_server) = 2%nat.
Proof.
  destruct (admin_reports_exact (0, 0) two_server two_table two_inv two_refines) as ((H1 & _) & (_ & H2) & _).
  - apply Z.ltb_lt. reflexivity.
  - apply Z.ltb_lt. reflexivity.
  - split; [rewrite H1; reflexivity|rewrite H2; reflexivity].
Defined.

(** The handler checks that the client is offline and removes its session later:
    a client that connects in between loses the session it has just registered,
    with its new connection still running. *)
Example delete_session_race :
  let w := b_shared offline_server in
  let online := (register (sh_sessions w) "c1" false 1%nat None 4 addr None 9).2 in
  let w' := remove_client "c1" (w <| sh_sessions := online |>) in
  is_online (sh_sessions w) "c1" = false ∧ is_online online "c1" = true ∧
  sessions (sh_sessions w') !! "c1" = None.
Proof. vm_compute. repeat split. Qed.

(** A reload to a policy without a limit, between the arrival and the end of a
    connection, leaves the connection counted for ever. *)
Example reload_leaks_count :
  let limited := mkSecurityConfig true [] [] 1 0 0 in
  let peer := mkSocketAddr (V4 0x01020304) 5 in
  let g0 := match guard_new limited with Ok g => g | Err _ => guard_disabled end in
  let g1 := on_connect g0 peer in
  let g2 := (guard_reload g1 SecurityConfig_default).2 in
  let g3 := on_disconnect g2 peer None in
  let g4 := (guard_reload g3 limited).2 in
  ip_connection_count g4 (V4 0x01020304) = 1 ∧ is_ok (check_connection g4 peer METRICS).1 = false.
Proof. vm_compute. split; reflexivity. Qed.

(** A forwarding target that is refused is reported as a success. *)
Example refused_forwarder_reported_ok :
  let cfg := mkPluginConfig true (mkTopicAclConfig [] [] [] []) (mkPayloadFilterConfig false [] [])
               (mkForwardConfig true "http://127.0.0.1/hook" "" 5 10 false) in
  is_ok (forwarder_new (pc_forward cfg) (b_forward server)).1 = false ∧
  (reload_plugin cfg server).1 = action StatusCode.OK true "plugin config reloaded".
Proof. vm_compute. split; reflexivity. Qed.
