(* ===== verification/Dashboard.v ===== *)
(** * The dashboard page, [src/admin/dashboard.rs]

    The script of the page: what it makes of the snapshots that the broker pushes,
    and how it keeps its socket.  Numbers are IEEE 754 doubles; the text of a number
    is the browser's ([Browser]).  The document is a table of element texts, the
    markup of the session table, and the drawings on the two canvases. *)

From Stdlib Require Import SpecFloat.
From stdpp Require Import pretty.
From S2P Require Import Prelude Packet Messages Metrics Limiter Admin.

(** [Number::toString]: the decimal digits of an integer that is exact. *)
Class Browser := { number_to_string : f64 → string }.
Class BrowserLaws (B : Browser) := {
  number_to_string_int n : - 2 ^ 53 < n < 2 ^ 53 → number_to_string (f64_of_Z n) = pretty n;
}.

(** ** Numbers *)

(** A number of the JSON text: the nearest double. *)
Abbreviation num := f64_of_Z.

(** The integer nearest to [m * 2 ^ e * k], halves upwards. *)
Definition nearest (neg : bool) (m : positive) (e k : Z) : Z :=
  let v := (if neg then Zneg m else Zpos m) * k in
  if 0 <=? e then v * 2 ^ e else (2 * v + 2 ^ (- e)) / (2 * 2 ^ (- e)).

(** [Math.round] *)
Definition math_round (x : f64) : f64 :=
  match x with
  | S754_finite s m e => num (nearest s m e 1)
  | _ => x
  end.

(** [Math.max] of two numbers. *)
Definition math_max (a b : f64) : f64 :=
  match a, b with
  | S754_nan, _ | _, S754_nan => S754_nan
  | _, _ => if SFltb a b then b else a
  end.

(** [x.toFixed(1)] for a positive number below [1e21]. *)
Definition to_fixed1 (x : f64) : string :=
  let n := match x with S754_finite s m e => nearest s m e 10 | _ => 0 end in
  pretty (n / 10) +:+ "." +:+ pretty (n mod 10).

(** ** Markup *)

Definition dq : string := String (ascii_of_nat 34) EmptyString.

(** The markup of a text node (the serialisation of the HTML standard): [&], [<], [>]
    and the no-break space, which is the bytes [C2 A0]. *)
Fixpoint text_markup (s : string) : string :=
  match s with
  | EmptyString => EmptyString
  | String c s' =>
      if Ascii.eqb c "&" then "&amp;" +:+ text_markup s'
      else if Ascii.eqb c "<" then "&lt;" +:+ text_markup s'
      else if Ascii.eqb c ">" then "&gt;" +:+ text_markup s'
      else match s' with
           | String a s'' =>
               if Ascii.eqb c (ascii_of_nat 194) && Ascii.eqb a (ascii_of_nat 160) then "&nbsp;" +:+ text_markup s''
               else String c (text_markup s')
           | EmptyString => String c EmptyString
           end
  end.

(** An element whose [textContent] is set, and its [innerHTML]. *)
Definition escapeHtml (str : string) : string := text_markup str.

(** ** The page *)

Inductive CanvasOp :=
  | ClearRect (w h : f64)
  | BeginPath
  | MoveTo (x y : f64)
  | LineTo (x y : f64)
  | ClosePath
  | FillGradient (from_color to_color : string)
  | Stroke (color : string).

Definition MAX_POINTS : nat := 60.

Record Page := mkPage {
  pubHistory : list f64;
  sendHistory : list f64;
  lastPubTotal : option f64;
  lastSendTotal : option f64;
  lastTime : option f64;
  texts : gmap string string;          (* [textContent] of the elements *)
  statusClass : string;
  sessionsBody : string;               (* [innerHTML] of the table's body *)
  canvases : gmap string (list CanvasOp);
}.

#[export] Instance Page_settable : Settable Page :=
  λ p, mkPage (pubHistory p) (sendHistory p) (lastPubTotal p) (lastSendTotal p) (lastTime p) (texts p)
         (statusClass p) (sessionsBody p) (canvases p).

Section Page.
Context {B : Browser}.

Definition setStatus (connected : bool) (p : Page) : Page :=
  if connected then
    p <| statusClass := "status-badge status-connected" |> <| texts ::= <["status-text" := "实时连接"]> |>
  else
    p <| statusClass := "status-badge status-disconnected" |> <| texts ::= <["status-text" := "已断开"]> |>.

Definition fmt (n : f64) : string :=
  if SFleb (num 1000000) n then to_fixed1 (f64_div n (num 1000000)) +:+ "M"
  else if SFleb (num 1000) n then to_fixed1 (f64_div n (num 1000)) +:+ "K"
  else number_to_string n.

(** The points of a line over the canvas: [x = i * step],
    [y = h - (v / max) * (h - 4) - 2]. *)
Definition points (w h : f64) (data : list f64) : list (f64 * f64) :=
  let max := math_max (foldl math_max (S754_infinity true) data) (num 1) in
  let step := f64_div w (num (Z.of_nat MAX_POINTS - 1)) in
  imap (λ i v, (f64_mul (num (Z.of_nat i)) step,
                f64_sub (f64_sub h (f64_mul (f64_div v max) (f64_sub h (num 4)))) (num 2))) data.

(** [w] and [h] are the canvas' [offsetWidth] and [offsetHeight]. *)
Definition drawSparkline (w h : f64) (data : list f64) (color : string) : list CanvasOp :=
  if (length data <? 2)%nat then [ClearRect w h]
  else
    let pts := points w h data in
    let step := f64_div w (num (Z.of_nat MAX_POINTS - 1)) in
    [ClearRect w h; BeginPath; MoveTo (num 0) h]
    ++ (uncurry LineTo <$> pts)
    ++ [LineTo (f64_mul (num (Z.of_nat (length data) - 1)) step) h; ClosePath;
        FillGradient (color +:+ "40") (color +:+ "00"); BeginPath]
    ++ imap (λ i xy, if (i =? 0)%nat then MoveTo xy.1 xy.2 else LineTo xy.1 xy.2) pts
    ++ [Stroke color].

(** [history.push(rate); if (history.length > MAX_POINTS) history.shift()] *)
Definition push_point (history : list f64) (rate : f64) : list f64 :=
  let history := history ++ [rate] in
  if (MAX_POINTS <? length history)%nat then tail history else history.

(** A rate; [null] counts as zero. *)
Definition rate_of (total : f64) (last : option f64) (dt : f64) : f64 :=
  math_max (num 0) (math_round (f64_div (f64_sub total (default (num 0) last)) dt)).

Definition session_row (s : SessionInfo) : string :=
  "<tr><td>" +:+ escapeHtml (info_client_id s) +:+ "</td>" +:+
  "<td><span class=" +:+ dq +:+ "tag " +:+ (if info_connected s then "tag-online" else "tag-offline") +:+ dq +:+ ">" +:+
  (if info_connected s then "在线" else "离线") +:+ "</span></td>" +:+
  "<td>" +:+ escapeHtml (info_peer_addr s) +:+ "</td></tr>".

Definition sessions_markup (sessions : list SessionInfo) : string :=
  match sessions with
  | [] => "<tr><td colspan=" +:+ dq +:+ "3" +:+ dq +:+ " class=" +:+ dq +:+ "empty-state" +:+ dq +:+ ">暂无会话</td></tr>"
  | _ => foldr (λ s m, session_row s +:+ m) "" sessions
  end.

(** [now]: [Date.now()], in milliseconds; [size]: [offsetWidth] and [offsetHeight] of each
    canvas. *)
Definition update (data : DashboardSnapshot) (now : Z) (size : string → f64 * f64) (p : Page) : Page :=
  let m := ds_metrics data in
  let now := num now in
  let rates :=
    match lastTime p, lastPubTotal p with
    | Some last, Some _ =>
        let dt := f64_div (f64_sub now last) (num 1000) in
        if SFltb (num 0) dt then
          (rate_of (num (ms_publish_received m)) (lastPubTotal p) dt, rate_of (num (ms_messages_sent m)) (lastSendTotal p) dt)
        else (num 0, num 0)
    | _, _ => (num 0, num 0)
    end in
  let pub := push_point (pubHistory p) rates.1 in
  let send := push_point (sendHistory p) rates.2 in
  mkPage pub send (Some (num (ms_publish_received m))) (Some (num (ms_messages_sent m))) (Some now)
    (<["node-id" := ds_node_id data]> $
     <["version" := ds_version data]> $
     <["m-connections" := number_to_string (num (ms_connections_current m))]> $
     <["m-connections-total" := fmt (num (ms_connections_total m))]> $
     <["m-pub-rate" := fmt rates.1]> $
     <["m-publish-total" := fmt (num (ms_publish_received m))]> $
     <["m-send-rate" := fmt rates.2]> $
     <["m-sent-total" := fmt (num (ms_messages_sent m))]> $
     <["m-sessions" := number_to_string (num (ms_sessions_total m))]> $
     <["m-sessions-offline" := number_to_string (num (ms_sessions_offline m))]> $
     <["m-subscriptions" := number_to_string (num (ms_subscriptions_current m))]> $
     <["m-shared-subs" := number_to_string (num (ms_shared_subscriptions_current m))]> $
     <["m-dropped" := number_to_string (num (ms_messages_dropped m))]> $
     <["m-security-rejected" := number_to_string (num (ms_security_rejected m))]> $
     <["session-count" := number_to_string (num (Z.of_nat (length (ds_sessions data)))) +:+ " 个会话"]> (texts p))
    (statusClass p) (sessions_markup (ds_sessions data))
    (<["chart-pub" := drawSparkline (size "chart-pub").1 (size "chart-pub").2 pub "#40a9ff"]> $
     <["chart-send" := drawSparkline (size "chart-send").1 (size "chart-send").2 send "#b37feb"]> (canvases p)).

(** ** The socket *)

Inductive SocketState := Connecting | SocketOpen | Closing.

(** The sockets that may still have events, and the timers that will reconnect. *)
Record Client := mkClient { page : Page; sockets : gmap nat SocketState; timers : nat }.

#[export] Instance Client_settable : Settable Client := λ c, mkClient (page c) (sockets c) (timers c).

Definition connect (c : Client) : Client := c <| sockets ::= λ s, <[fresh (dom s) := Connecting]> s |>.

(** What the browser calls.  A message is the snapshot it parses to, or none. *)
Inductive PageEvent :=
  | OnOpen (id : nat)
  | OnMessage (id : nat) (data : option DashboardSnapshot) (now : Z) (size : string → f64 * f64)
  | OnError (id : nat)
  | OnClose (id : nat)
  | OnTimer.

(** [None]: the browser makes no such call in this state. *)
Definition page_step (c : Client) (ev : PageEvent) : option Client :=
  match ev with
  | OnOpen id =>
      match sockets c !! id with
      | Some Connecting => Some (c <| sockets ::= <[id := SocketOpen]> |> <| page ::= setStatus true |>)
      | _ => None
      end
  | OnMessage id data now size =>
      match sockets c !! id with
      | Some SocketOpen => Some (match data with Some d => c <| page ::= update d now size |> | None => c end)
      | _ => None
      end
  | OnError id =>
      match sockets c !! id with
      | Some _ => Some (c <| sockets ::= <[id := Closing]> |>)
      | None => None
      end
  | OnClose id =>
      match sockets c !! id with
      | Some _ => Some (c <| sockets ::= delete id |> <| page ::= setStatus false |> <| timers ::= S |>)
      | None => None
      end
  | OnTimer =>
      match timers c with
      | S n => Some (connect (c <| timers := n |>))
      | O => None
      end
  end.

Fixpoint page_run (c : Client) (evs : list PageEvent) : option Client :=
  match evs with
  | [] => Some c
  | ev :: evs => c ← page_step c ev; page_run c evs
  end.
End Page.

(** The page as it is loaded: the elements that the script changes. *)
Definition page_new : Page :=
  mkPage [] [] None None None
    (list_to_map ([("node-id", "—"); ("version", "—"); ("status-text", "连接中..."); ("session-count", "0 个会话")] ++
       ((.,"0") <$> ["m-connections"; "m-connections-total"; "m-pub-rate"; "m-publish-total"; "m-send-rate"; "m-sent-total";
                     "m-sessions"; "m-sessions-offline"; "m-subscriptions"; "m-shared-subs"; "m-dropped";
                     "m-security-rejected"])))
    "status-badge status-disconnected"
    ("
      <tr><td colspan=" +:+ dq +:+ "3" +:+ dq +:+ " class=" +:+ dq +:+ "empty-state" +:+ dq +:+ ">等待数据...</td></tr>
    ") ∅.

(** The last line of the script. *)
Definition client_new : Client := connect (mkClient page_new ∅ 0).
