(* ===== verification/DashboardTheorems.v ===== *)
(** * What the dashboard page shows

    The session table is read back by a tokenizer of markup: whatever the identifiers
    of the clients are, it holds the sessions of the last snapshot and no other
    element.  The charts hold the last sixty rates; the badge follows the socket, of
    which there is always one, open or to be opened by the timer. *)

From Stdlib Require Import SpecFloat.
From stdpp Require Import pretty.
From S2P Require Import Prelude Packet Messages Metrics Limiter LimiterTheorems Admin Dashboard.

#[local] Arguments String.append : simpl nomatch.

(** ** Quotients of integers *)

Lemma round_even_near m l : m ≤ round_nearest_even m l ≤ m + 1.
Proof. destruct l as [|[]]; cbn; try case_match; lia. Qed.

Lemma shr_1_half m r s : 0 ≤ m → shr_m (shr_1 (Build_shr_record m r s)) = m / 2.
Proof.
  intros Hm. destruct m as [|[p|p|]|p]; [done| | |done|lia]; cbn [shr_1 shr_m].
  - rewrite (Pos2Z.inj_xI p). by apply (Z.div_unique_pos _ _ _ 1).
  - rewrite (Pos2Z.inj_xO p). apply (Z.div_unique_pos _ _ _ 0); lia.
Qed.

(** The first step of rounding keeps 53 of 53 or 54 digits. *)
Lemma shr_54 q e l :
  -1000 ≤ e → 2 ^ 52 ≤ Zpos q < 2 ^ 54 →
  ∃ mrs k, shr_fexp f64_prec f64_emax (Zpos q) e l = (mrs, e + k)
    ∧ (k = 0 ∧ shr_m mrs = Zpos q ∧ Zpos q < 2 ^ 53 ∨ k = 1 ∧ shr_m mrs = Zpos q / 2 ∧ 2 ^ 53 ≤ Zpos q).
Proof.
  intros He Hq. assert (Hm : shr_m (shr_record_of_loc (Zpos q) l) = Zpos q) by by destruct l as [|[]].
  unfold shr_fexp. cbn [Zdigits2]. destruct (Z.ltb_spec (Zpos q) (2 ^ 53)) as [Hlt|Hge].
  - rewrite (digits_range q 53) by lia. replace (fexp f64_prec f64_emax (53 + e) - e) with 0
      by (unfold fexp, emin, f64_prec, f64_emax; lia).
    exists (shr_record_of_loc (Zpos q) l), 0. rewrite Z.add_0_r. split; [done|]. by left.
  - rewrite (digits_range q 54) by lia. replace (fexp f64_prec f64_emax (54 + e) - e) with 1
      by (unfold fexp, emin, f64_prec, f64_emax; lia).
    eexists _, 1. split; [reflexivity|]. right. split; [done|]. split; [|done]. cbn [SpecFloat.iter_pos].
    destruct (shr_record_of_loc (Zpos q) l) as [m r s]. cbn in Hm. subst m. by apply shr_1_half.
Qed.

(** Rounding to 53 digits is off by at most one unit of the last of them. *)
Lemma round_aux_near q e l :
  -1000 ≤ e ≤ 900 → 2 ^ 52 ≤ Zpos q < 2 ^ 54 →
  ∃ m k, binary_round_aux f64_prec f64_emax false (Zpos q) e l = S754_finite false m (e + k)
    ∧ 2 ^ 52 ≤ Zpos m < 2 ^ 53 ∧ 0 ≤ k ≤ 2 ∧ (Zpos m - 1) * 2 ^ k ≤ Zpos q ∧ Zpos q + 1 ≤ (Zpos m + 1) * 2 ^ k.
Proof.
  intros He Hq. destruct (shr_54 q e l) as (mrs & k & E & Hk); [lia..|].
  unfold binary_round_aux. rewrite E. set (m := round_nearest_even _ _).
  pose proof (round_even_near (shr_m mrs) (loc_of_shr_record mrs)) as Hm. fold m in Hm.
  assert (Hb : 2 ^ 52 ≤ m ≤ 2 ^ 53).
  { destruct Hk as [(_ & Es & ?)|(_ & Es & ?)]; rewrite Es in Hm; [lia|].
    pose proof (Z.div_le_lower_bound (Zpos q) 2 (2 ^ 52)). pose proof (Z.div_lt_upper_bound (Zpos q) 2 (2 ^ 53)). lia. }
  assert (Hw : (m - 1) * 2 ^ k ≤ Zpos q ∧ Zpos q + 1 ≤ (m + 1) * 2 ^ k).
  { destruct Hk as [(-> & Es & _)|(-> & Es & _)]; rewrite Es in Hm; [lia|].
    pose proof (Z.div_mod (Zpos q) 2). pose proof (Z.mod_pos_bound (Zpos q) 2). lia. }
  assert (Hk2 : 0 ≤ k ≤ 1) by (destruct Hk as [[-> _]|[-> _]]; lia).
  clearbody m. clear Hm E Hk. destruct m as [|m|m]; [lia| |lia].
  destruct (shr_54 m (e + k) loc_Exact) as (mrs2 & k2 & E2 & Hk'); [lia..|]. rewrite E2.
  destruct Hk' as [(-> & Es & Hlt)|(-> & Es & Hge)].
  - rewrite Es. rewrite Z.add_0_r. replace (e + k <=? f64_emax - f64_prec) with true by (unfold f64_emax, f64_prec; lia).
    exists m, k. split; [done|]. lia.
  - assert (Zpos m = 2 ^ 53) as Em by lia. rewrite Es, Em. change (2 ^ 53 / 2) with (Zpos (2 ^ 52)).
    replace (e + k + 1 <=? f64_emax - f64_prec) with true by (unfold f64_emax, f64_prec; lia).
    exists (2 ^ 52)%positive, (k + 1). rewrite <-(Z.add_assoc e). split; [done|]. rewrite Em in Hw.
    rewrite Z.pow_add_r by lia. change (Zpos (2 ^ 52)) with (2 ^ 52).
    pose proof (Z.pow_pos_nonneg 2 k). lia.
Qed.

(** The quotient of two integers is off by at most one unit of its last digit,
    [2 ^ - s]. *)
Lemma div_near x y a b :
  is_int x a → is_int y b → 0 < a → 4 ≤ b →
  ∃ m s, f64_div x y = S754_finite false m (- s) ∧ 2 ^ 52 ≤ Zpos m ∧ 0 < s
    ∧ (Zpos m - 1) * b ≤ a * 2 ^ s ∧ a * 2 ^ s ≤ (Zpos m + 1) * b.
Proof.
  intros Hx Hy Ha Hb. destruct Hx as [|m1 d1 a Hd1 Hm1 E1]; [lia|]. destruct Hy as [|m2 d2 b Hd2 Hm2 E2]; [lia|].
  pose proof (int_range _ _ _ Hd2 Hm2 E2) as Hr.
  assert (3 ≤ d2). { destruct (Z.leb_spec 3 d2); [done|]. pose proof (Z.pow_le_mono_r 2 d2 2 ltac:(lia)). lia. }
  unfold f64_div. cbn [SFdiv xorb]. unfold SFdiv_core_binary. cbn [Zdigits2].
  rewrite (digits_range m1 53), (digits_range m2 53) by lia.
  replace (Z.min (fexp f64_prec f64_emax (53 + (d1 - 53) - (53 + (d2 - 53)))) (d1 - 53 - (d2 - 53))) with (d1 - d2 - 53)
    by (unfold fexp, emin, f64_prec, f64_emax; lia).
  replace (d1 - 53 - (d2 - 53) - (d1 - d2 - 53)) with 53 by lia. rewrite Z.shiftl_mul_pow2 by lia.
  pose proof (Z_div_mod (Zpos m1 * 2 ^ 53) (Zpos m2) ltac:(lia)) as Hdiv.
  destruct (Z.div_eucl (Zpos m1 * 2 ^ 53) (Zpos m2)) as [q r]. destruct Hdiv as [Hq Hrem].
  assert (Hqr : 2 ^ 52 ≤ q < 2 ^ 54) by nia. destruct q as [|q|q]; [lia| |lia].
  destruct (round_aux_near q (d1 - d2 - 53) (new_location (Zpos m2) r)) as (m & k & -> & Hm & Hk & Hlo & Hhi); [lia..|].
  exists m, (53 + d2 - d1 - k). split; [f_equal; lia|]. split; [lia|]. split; [lia|].
  set (s := 53 + d2 - d1 - k). pose proof (Z.pow_pos_nonneg 2 (53 - d2) ltac:(lia) ltac:(lia)) as Hp2.
  pose proof (Z.pow_pos_nonneg 2 k ltac:(lia) ltac:(lia)) as Hpk.
  assert (Ea : Zpos m1 * 2 ^ 53 = a * 2 ^ s * 2 ^ k * 2 ^ (53 - d2)).
  { rewrite E1, <-!Z.mul_assoc, <-!Z.pow_add_r by lia. do 2 f_equal. lia. }
  rewrite Ea, E2 in Hq. rewrite E2 in Hrem. set (P := 2 ^ (53 - d2)) in *. set (K := 2 ^ k) in *. set (A := a * 2 ^ s) in *.
  assert (Hq1 : Zpos q * b ≤ A * K) by (apply (Z.mul_le_mono_pos_r _ _ P); lia).
  assert (Hq2 : A * K ≤ (Zpos q + 1) * b) by (apply (Z.mul_le_mono_pos_r _ _ P); lia).
  pose proof (Z.mul_le_mono_nonneg_r _ _ b ltac:(lia) Hlo). pose proof (Z.mul_le_mono_nonneg_r _ _ b ltac:(lia) Hhi).
  split; apply (Z.mul_le_mono_pos_r _ _ K); lia.
Qed.

(** A number shown to a tenth of a unit, from one unit on. *)
Lemma to_fixed_near a b :
  Z.even b = true → 4 ≤ b ≤ a → b < 2 ^ 53 → a < 2 ^ 48 →
  ∃ q, to_fixed1 (f64_div (num a) (num b)) = pretty (q / 10) +:+ "." +:+ pretty (q mod 10) ∧ 2 * Z.abs (b * q - 10 * a) ≤ b.
Proof.
  intros Hb Hab Hb53 Ha. apply Z.even_spec in Hb as [c ->].
  destruct (div_near (num a) (num (2 * c)) a (2 * c)) as (m & s & -> & Hm & Hs & Hlo & Hhi);
    [apply of_Z_exact; lia..|lia|lia|].
  eexists. split; [reflexivity|]. unfold nearest. replace (0 <=? - s) with false by lia. rewrite Z.opp_involutive.
  pose proof (Z.pow_pos_nonneg 2 s ltac:(lia) ltac:(lia)) as Hp. set (P := 2 ^ s) in *. set (M := Zpos m) in *.
  pose proof (Z.div_mod (2 * (M * 10) + P) (2 * P) ltac:(lia)) as Hd.
  pose proof (Z.mod_pos_bound (2 * (M * 10) + P) (2 * P) ltac:(lia)) as Hr.
  set (q := _ / (2 * P)) in *. set (r := _ mod (2 * P)) in *. clearbody P M q r.
  assert (Hsmall : 10 * (2 * c) < P).
  { assert (a * P ≤ (2 ^ 48 - 1) * P) by (apply Z.mul_le_mono_nonneg_r; lia).
    assert ((2 ^ 52 - 1) * (2 * c) ≤ (M - 1) * (2 * c)) by (apply Z.mul_le_mono_nonneg_r; lia). lia. }
  (* in units of [1 / P], with everything even *)
  assert (Hq : 20 * (M * c) = P * (c * (2 * q - 1)) + r * c) by (clear - Hd; nia).
  assert (H1 : c * (2 * q - 1) - 10 * a < 1).
  { apply (Z.mul_lt_mono_pos_l P); [done|]. rewrite Z.mul_sub_distr_l. pose proof (Z.mul_nonneg_nonneg r c). lia. }
  assert (H2 : 10 * a - c * (2 * q + 1) < 1).
  { apply (Z.mul_lt_mono_pos_l P); [done|]. pose proof (Z.mul_lt_mono_pos_r c r (2 * P)). lia. }
  lia.
Qed.

(** ** Reading markup *)

Inductive Token := TTag (content : string) | TText (chars : string).

#[export] Instance Token_eq_dec : EqDecision Token.
Proof. solve_decision. Defined.

Fixpoint starts_with (p s : string) : bool :=
  match p, s with
  | EmptyString, _ => true
  | String c p', String d s' => Ascii.eqb c d && starts_with p' s'
  | _, EmptyString => false
  end.

(** The character references of text, with the number of characters behind the [&]. *)
Definition entity (s : string) : option (string * nat) :=
  if starts_with "amp;" s then Some ("&", 4%nat)
  else if starts_with "lt;" s then Some ("<", 3%nat)
  else if starts_with "gt;" s then Some (">", 3%nat)
  else if starts_with "nbsp;" s then Some (String (ascii_of_nat 194) (String (ascii_of_nat 160) ""), 5%nat)
  else None.

Fixpoint decode_text (skip : nat) (s : string) : string :=
  match s with
  | EmptyString => EmptyString
  | String c s' =>
      match skip with
      | S n => decode_text n s'
      | O =>
          if Ascii.eqb c "&" then
            match entity s' with
            | Some (t, n) => t +:+ decode_text n s'
            | None => String c (decode_text 0 s')
            end
          else String c (decode_text 0 s')
      end
  end.

Definition text_token (s : string) : list Token := match s with EmptyString => [] | _ => [TText s] end.

Fixpoint tokens (tag : bool) (acc s : string) : list Token :=
  match s with
  | EmptyString => if tag then [TTag acc] else text_token (decode_text 0 acc)
  | String c s' =>
      if tag then
        if Ascii.eqb c ">" then TTag acc :: tokens false "" s' else tokens true (acc +:+ String c "") s'
      else
        if Ascii.eqb c "<" then text_token (decode_text 0 acc) ++ tokens true "" s'
        else tokens false (acc +:+ String c "") s'
  end.

(** A session of the table. *)
Definition row_tokens (s : SessionInfo) : list Token :=
  [TTag "tr"; TTag "td"] ++ text_token (info_client_id s) ++ [TTag "/td"; TTag "td"]
  ++ [TTag ("span class=" +:+ dq +:+ (if info_connected s then "tag tag-online" else "tag tag-offline") +:+ dq);
      TText (if info_connected s then "在线" else "离线"); TTag "/span"; TTag "/td"; TTag "td"]
  ++ text_token (info_peer_addr s) ++ [TTag "/td"; TTag "/tr"].

Definition table_tokens (sessions : list SessionInfo) : list Token :=
  match sessions with
  | [] => [TTag "tr"; TTag ("td colspan=" +:+ dq +:+ "3" +:+ dq +:+ " class=" +:+ dq +:+ "empty-state" +:+ dq);
           TText "暂无会话"; TTag "/td"; TTag "/tr"]
  | _ => sessions ≫= row_tokens
  end.

(** Two characters at a time. *)
Lemma string_ind2 (P : string → Prop) :
  P "" → (∀ c, P (String c "")) → (∀ c a s, P s → P (String a s) → P (String c (String a s))) → ∀ s, P s.
Proof.
  intros H0 H1 H2 s. enough (P s ∧ ∀ c, P (String c s)) as [? _] by done.
  induction s as [|a s [IH1 IH2]]; (split; [by apply H0 || apply IH2|]); [exact H1|]. intros c. by apply H2.
Qed.

Lemma decode_char c s : Ascii.eqb c "&" = false → decode_text 0 (String c s) = String c (decode_text 0 s).
Proof. intros H. cbn. by rewrite H. Qed.

(** The cases of a character with another behind it. *)
Lemma markup_cons2 (P : string → string → Prop) c a s :
  let u := text_markup (String a s) in
  (c = "&"%char → P (String c (String a s)) ("&amp;" +:+ u)) →
  (c = "<"%char → P (String c (String a s)) ("&lt;" +:+ u)) →
  (c = ">"%char → P (String c (String a s)) ("&gt;" +:+ u)) →
  (c = ascii_of_nat 194 → a = ascii_of_nat 160 → P (String c (String a s)) ("&nbsp;" +:+ text_markup s)) →
  (c ≠ "&"%char → c ≠ "<"%char → P (String c (String a s)) (String c u)) →
  P (String c (String a s)) (text_markup (String c (String a s))).
Proof.
  intros u Hamp Hlt Hgt Hnb Hc. change (text_markup (String c (String a s))) with
    (if Ascii.eqb c "&" then "&amp;" +:+ u else if Ascii.eqb c "<" then "&lt;" +:+ u
     else if Ascii.eqb c ">" then "&gt;" +:+ u
     else if Ascii.eqb c (ascii_of_nat 194) && Ascii.eqb a (ascii_of_nat 160) then "&nbsp;" +:+ text_markup s
     else String c u).
  destruct (Ascii.eqb_spec c "&"); [by auto|]. destruct (Ascii.eqb_spec c "<"); [by auto|].
  destruct (Ascii.eqb_spec c ">"); [by auto|].
  destruct (Ascii.eqb_spec c (ascii_of_nat 194)), (Ascii.eqb_spec a (ascii_of_nat 160)); cbn; auto.
Qed.

Lemma markup_cons1 (P : string → string → Prop) c :
  (c = "&"%char → P (String c "") "&amp;") → (c = "<"%char → P (String c "") "&lt;") →
  (c = ">"%char → P (String c "") "&gt;") → (c ≠ "&"%char → c ≠ "<"%char → P (String c "") (String c "")) →
  P (String c "") (text_markup (String c "")).
Proof.
  intros Hamp Hlt Hgt Hc. cbn [text_markup].
  destruct (Ascii.eqb_spec c "&"); [by auto|]. destruct (Ascii.eqb_spec c "<"); [by auto|].
  destruct (Ascii.eqb_spec c ">"); by auto.
Qed.

Lemma decode_markup s : decode_text 0 (text_markup s) = s.
Proof.
  induction s as [|c|c a s IH IHa] using string_ind2; [done| |].
  - apply (markup_cons1 (λ s m, decode_text 0 m = s)); [by intros ->..|].
    intros ?%Ascii.eqb_neq _. by apply decode_char.
  - apply (markup_cons2 (λ s m, decode_text 0 m = s)); [intros ->..|]; revert IHa; generalize (text_markup (String a s)).
    1-3: intros u <-; done.
    + intros _ _ ->. by rewrite <-IH at 2.
    + intros u IHa ?%Ascii.eqb_neq _. rewrite decode_char by done. by rewrite IHa.
Qed.

(** No character of escaped text opens a tag. *)
Fixpoint no_tag (s : string) : bool :=
  match s with EmptyString => true | String c s' => negb (Ascii.eqb c "<") && no_tag s' end.

Lemma no_tag_markup s : no_tag (text_markup s) = true.
Proof.
  induction s as [|c|c a s IH IHa] using string_ind2; [done| |].
  - apply (markup_cons1 (λ _ m, no_tag m = true)); [done..|]. intros _ Hc%Ascii.eqb_neq. cbn. by rewrite Hc.
  - apply (markup_cons2 (λ _ m, no_tag m = true)); [intros _; exact IHa..|intros _ _; exact IH|].
    intros _ Hc%Ascii.eqb_neq. cbn [no_tag]. by rewrite Hc.
Qed.

Lemma tokens_text acc u s : no_tag u = true → tokens false acc (u +:+ s) = tokens false (acc +:+ u) s.
Proof.
  revert acc. induction u as [|c u IH]; intros acc H; [by rewrite string_app_nil|].
  cbn in H |- *. apply andb_true_iff in H as [->%negb_true_iff Hu].
  rewrite IH by done. by rewrite <-string_app_assoc.
Qed.

(** Escaped text up to the next tag. *)
Lemma tokens_escaped str s :
  tokens false "" (escapeHtml str +:+ String "<" s) = text_token str ++ tokens true "" s.
Proof. rewrite tokens_text by apply no_tag_markup. cbn. by rewrite decode_markup. Qed.

Lemma tokens_row s rest : tokens false "" (session_row s +:+ rest) = row_tokens s ++ tokens false "" rest.
Proof.
  destruct s as [id [] addr sub]; unfold session_row, row_tokens; cbn [info_client_id info_connected info_peer_addr];
    rewrite <-!string_app_assoc; cbn -[escapeHtml]; rewrite tokens_escaped, <-(assoc_L (++)); cbn -[escapeHtml];
    do 2 f_equal; f_equal; rewrite tokens_escaped, <-(assoc_L (++)); done.
Qed.

Lemma tokens_sessions sessions : tokens false "" (sessions_markup sessions) = table_tokens sessions.
Proof.
  destruct sessions as [|s sessions]; [done|]. unfold sessions_markup, table_tokens.
  generalize (s :: sessions). intros l. induction l as [|x l IH]; [done|].
  cbn [foldr]. by rewrite tokens_row, IH.
Qed.

(** ** The charts *)

(** The snapshots that the page has received, with the time of their arrival. *)
Definition snapshot_of (ev : PageEvent) : list (Z * DashboardSnapshot) :=
  match ev with OnMessage _ (Some d) now _ => [(now, d)] | _ => [] end.

Definition snapshots (evs : list PageEvent) : list (Z * DashboardSnapshot) := evs ≫= snapshot_of.

(** The rate of a counter between two snapshots. *)
Definition rate (count : MetricsSnapshot → Z) (prev : option (Z * DashboardSnapshot)) (cur : Z * DashboardSnapshot) : f64 :=
  match prev with
  | Some (t, d) =>
      let dt := f64_div (f64_sub (num cur.1) (num t)) (num 1000) in
      if SFltb (num 0) dt then
        math_max (num 0) (math_round (f64_div (f64_sub (num (count (ds_metrics cur.2))) (num (count (ds_metrics d)))) dt))
      else num 0
  | None => num 0
  end.

Fixpoint rates (count : MetricsSnapshot → Z) (prev : option (Z * DashboardSnapshot)) (l : list (Z * DashboardSnapshot))
    : list f64 :=
  match l with
  | [] => []
  | cur :: l => rate count prev cur :: rates count (Some cur) l
  end.

Lemma rates_snoc count prev l x :
  rates count prev (l ++ [x]) = rates count prev l ++ [rate count (match last l with Some y => Some y | None => prev end) x].
Proof.
  revert prev. induction l as [|y l IH]; intros prev; [done|]. cbn [rates app]. rewrite IH.
  destruct l as [|z l]; [done|]. rewrite last_cons_cons. by destruct (last (z :: l)) eqn:E; [|apply last_None in E].
Qed.

Lemma push_last_n l x : push_point (last_n MAX_POINTS l) x = last_n MAX_POINTS (l ++ [x]).
Proof.
  unfold push_point, last_n. rewrite !length_app, length_drop. cbn [length].
  destruct (Nat.ltb_spec MAX_POINTS (length l - (length l - MAX_POINTS) + 1)).
  - rewrite <-drop_app_le by lia.
    assert (∀ k : list f64, tail k = drop 1 k) as -> by (by intros []). rewrite drop_drop. f_equal. lia.
  - rewrite <-drop_app_le by lia. f_equal. lia.
Qed.

(** ** The state of the page *)

Section Page.
Context {B : Browser} {BL : BrowserLaws B}.

(** Counters shown in full, and counters shown by [fmt]. *)
Definition plain_cards : list (string * (MetricsSnapshot → Z)) :=
  [("m-connections", ms_connections_current); ("m-sessions", ms_sessions_total); ("m-sessions-offline", ms_sessions_offline);
   ("m-subscriptions", ms_subscriptions_current); ("m-shared-subs", ms_shared_subscriptions_current);
   ("m-dropped", ms_messages_dropped); ("m-security-rejected", ms_security_rejected)].

Definition short_cards : list (string * (MetricsSnapshot → Z)) :=
  [("m-connections-total", ms_connections_total); ("m-publish-total", ms_publish_received);
   ("m-sent-total", ms_messages_sent)].

(** How [fmt] shows a number: in full below a thousand, from there on to a tenth of a
    thousand or of a million. *)
Definition shown_short (n : Z) (s : string) : Prop :=
  if n <? 1000 then s = pretty n
  else
    let '(unit, suffix) := if n <? 1000000 then (1000, "K") else (1000000, "M") in
    ∃ q, s = pretty (q / 10) +:+ "." +:+ pretty (q mod 10) +:+ suffix ∧ 2 * Z.abs (unit * q - 10 * n) ≤ unit.

(** The card of a rate shows the last point of its chart. *)
Definition shows_rate (p : Page) (id : string) (history : list f64) : Prop :=
  ∀ n, last history = Some (num n) → 0 ≤ n < 2 ^ 48 → ∃ s, texts p !! id = Some s ∧ shown_short n s.

(** The page shows the snapshot [d]. *)
Record shows (p : Page) (d : DashboardSnapshot) : Prop := {
  shows_table : tokens false "" (sessionsBody p) = table_tokens (ds_sessions d);
  shows_node : texts p !! "node-id" = Some (ds_node_id d) ∧ texts p !! "version" = Some (ds_version d);
  shows_count : Z.of_nat (length (ds_sessions d)) < 2 ^ 53 →
    texts p !! "session-count" = Some (pretty (Z.of_nat (length (ds_sessions d))) +:+ " 个会话");
  shows_plain id f : (id, f) ∈ plain_cards → - 2 ^ 53 < f (ds_metrics d) < 2 ^ 53 → texts p !! id = Some (pretty (f (ds_metrics d)));
  shows_short id f : (id, f) ∈ short_cards → 0 ≤ f (ds_metrics d) < 2 ^ 48 →
    ∃ s, texts p !! id = Some s ∧ shown_short (f (ds_metrics d)) s;
}.

(** The page after the snapshots [l]. *)
Record page_ok (p : Page) (l : list (Z * DashboardSnapshot)) : Prop := {
  ok_pub : pubHistory p = last_n MAX_POINTS (rates ms_publish_received None l);
  ok_send : sendHistory p = last_n MAX_POINTS (rates ms_messages_sent None l);
  ok_time : lastTime p = (λ x, num x.1) <$> last l;
  ok_last_pub : lastPubTotal p = (λ x, num (ms_publish_received (ds_metrics x.2))) <$> last l;
  ok_last_send : lastSendTotal p = (λ x, num (ms_messages_sent (ds_metrics x.2))) <$> last l;
  ok_shows now d : last l = Some (now, d) → shows p d;
  ok_rates : shows_rate p "m-pub-rate" (pubHistory p) ∧ shows_rate p "m-send-rate" (sendHistory p);
  ok_empty : last l = None → sessionsBody p = sessionsBody page_new;
}.

Lemma fmt_short n : 0 ≤ n < 2 ^ 48 → shown_short n (fmt (num n)).
Proof using BL.
  intros H. unfold fmt, shown_short. assert (∀ k, 0 ≤ k < 2 ^ 53 → SFleb (num k) (num n) = (k <=? n)) as Hle.
  { intros k Hk. apply leb_int; apply of_Z_exact; lia. }
  rewrite !Hle by done. destruct (Z.ltb_spec n 1000); [|destruct (Z.ltb_spec n 1000000)].
  - rewrite !(proj2 (Z.leb_gt _ _)) by lia. apply number_to_string_int. lia.
  - rewrite (proj2 (Z.leb_gt 1000000 n)), (proj2 (Z.leb_le 1000 n)) by lia.
    destruct (to_fixed_near n 1000) as (q & -> & Hq); [done|lia..|]. exists q. by rewrite <-!string_app_assoc.
  - rewrite (proj2 (Z.leb_le 1000000 n)) by lia.
    destruct (to_fixed_near n 1000000) as (q & -> & Hq); [done|lia..|]. exists q. by rewrite <-!string_app_assoc.
Qed.

Lemma last_push_point l x : last (push_point l x) = Some x.
Proof.
  unfold push_point. case_match; [|apply last_snoc]. destruct l as [|y l]; [done|apply last_snoc].
Qed.

Ltac find_text := repeat (rewrite lookup_insert_ne by done); rewrite lookup_insert_eq.

Lemma update_shows d now size p : shows (update d now size p) d.
Proof using BL.
  split; unfold update; cbn [texts sessionsBody].
  - apply tokens_sessions.
  - split; find_text; done.
  - intros H. find_text. rewrite number_to_string_int by lia. done.
  - intros id f Hin H. unfold plain_cards in Hin.
    repeat (apply elem_of_cons in Hin as [[= -> ->]|Hin]; [find_text; by rewrite number_to_string_int|]). by apply elem_of_nil in Hin.
  - intros id f Hin H. unfold short_cards in Hin.
    repeat (apply elem_of_cons in Hin as [[= -> ->]|Hin]; [find_text; eexists; split; [done|by apply fmt_short]|]). by apply elem_of_nil in Hin.
Qed.

(** The card of a rate after a snapshot. *)
Lemma update_rate p id h r : texts p !! id = Some (fmt r) → shows_rate p id (push_point h r).
Proof using BL.
  intros Ht n. rewrite last_push_point. intros [= ->] Hn. exists (fmt (num n)). split; [done|by apply fmt_short].
Qed.

Lemma update_ok d now size p l : page_ok p l → page_ok (update d now size p) (l ++ [(now, d)]).
Proof using BL.
  intros [Hp Hs Ht Hlp Hls _ _ _].
  split; [..|intros ? ? H; rewrite last_snoc in H; injection H as <- <-; apply update_shows
            |split; apply update_rate; unfold update; cbn [texts]; find_text; done|by rewrite last_snoc];
    unfold update; cbn [pubHistory sendHistory lastTime lastPubTotal lastSendTotal].
  1-2: rewrite Ht, Hlp, Hls, rates_snoc, <-push_last_n, <-?Hp, <-?Hs; f_equal;
       destruct (last l) as [[t d']|]; cbn; [by case_match|done].
  all: by rewrite last_snoc.
Qed.

Lemma shows_frame p q d :
  sessionsBody q = sessionsBody p → (∀ id, id ≠ "status-text" → texts q !! id = texts p !! id) → shows p d → shows q d.
Proof.
  intros Hb Ht [Htab [Hn Hv] Hc Hpl Hsh]. split; [by rewrite Hb|split; by rewrite Ht|intros ?; rewrite Ht; auto|..].
  all: intros id f Hin; rewrite Ht; [eauto|].
  all: intros ->; repeat (apply elem_of_cons in Hin as [[=]|Hin]); by apply elem_of_nil in Hin.
Qed.

Lemma status_ok b p l : page_ok p l → page_ok (setStatus b p) l.
Proof.
  intros [Hp Hs Ht Hlp Hls Hsh [Hr1 Hr2] He].
  assert (∀ id, id ≠ "status-text" → texts (setStatus b p) !! id = texts p !! id) as Htexts.
  { intros id Hid. destruct b; by apply lookup_insert_ne. }
  assert (∀ id h, id ≠ "status-text" → shows_rate p id h → shows_rate (setStatus b p) id h) as Hrate.
  { intros id h Hid H n Hl Hn. rewrite Htexts by done. by apply H. }
  split; [by destruct b..| | |by destruct b].
  - intros now d H%Hsh. revert H. apply shows_frame; [by destruct b|done].
  - destruct b; split; by apply Hrate.
Qed.

(** ** The socket *)

Definition badge (c : Client) : string := statusClass (page c).
Definition badge_on : string := "status-badge status-connected".
Definition badge_off : string := "status-badge status-disconnected".

(** One socket or one timer, and the badge that goes with it. *)
Inductive client_ok (c : Client) : Prop :=
  | ok_waiting : timers c = 1%nat → sockets c = ∅ → badge c = badge_off → client_ok c
  | ok_connecting id : timers c = 0%nat → sockets c = {[id := Connecting]} → badge c = badge_off → client_ok c
  | ok_open id : timers c = 0%nat → sockets c = {[id := SocketOpen]} → badge c = badge_on → client_ok c
  | ok_closing id : timers c = 0%nat → sockets c = {[id := Closing]} → client_ok c.

Lemma page_step_ok c ev c' : client_ok c → page_step c ev = Some c' → client_ok c'.
Proof.
  intros Hc Hs.
  destruct ev as [i|i d now size|i|i|], Hc as [Ht Hk Hb|id Ht Hk Hb|id Ht Hk Hb|id Ht Hk]; cbn in Hs;
    rewrite ?Hk, ?Ht in Hs; rewrite ?lookup_empty in Hs; try done;
    try (destruct (decide (i = id)) as [->|]; [rewrite lookup_singleton_eq in Hs|by rewrite lookup_singleton_ne in Hs]); try done;
    injection Hs as <-.
  - eapply ok_open; cbn; [done|apply insert_singleton_eq|done].
  - destruct d; eapply ok_open; cbn; done.
  - eapply ok_closing; cbn; [done|apply insert_singleton_eq].
  - eapply ok_closing; cbn; [done|apply insert_singleton_eq].
  - eapply ok_closing; cbn; [done|apply insert_singleton_eq].
  - apply ok_waiting; cbn; [done|apply delete_singleton_eq|done].
  - apply ok_waiting; cbn; [done|apply delete_singleton_eq|done].
  - apply ok_waiting; cbn; [done|apply delete_singleton_eq|done].
  - eapply ok_connecting; cbn; done.
Qed.

Lemma page_step_page c ev c' l :
  page_ok (page c) l → page_step c ev = Some c' → page_ok (page c') (l ++ snapshot_of ev).
Proof using BL.
  intros Hp Hs. destruct ev as [i|i [d|] now size|i|i|]; cbn in Hs; repeat case_match; try done; injection Hs as <-;
    cbn [snapshot_of]; rewrite ?app_nil_r;
    first [exact Hp|exact (status_ok true _ _ Hp)|exact (status_ok false _ _ Hp)|exact (update_ok _ _ _ _ _ Hp)].
Qed.

Lemma page_run_ok c evs c' l :
  client_ok c → page_ok (page c) l → page_run c evs = Some c' → client_ok c' ∧ page_ok (page c') (l ++ snapshots evs).
Proof using BL.
  revert c l. induction evs as [|ev evs IH]; intros c l Hc Hp Hr.
  - injection Hr as <-. by rewrite app_nil_r.
  - cbn in Hr. apply bind_Some in Hr as (c1 & Hs & Hr).
    change (snapshots (ev :: evs)) with (snapshot_of ev ++ snapshots evs). rewrite (assoc_L (++)).
    apply (IH c1); [by eapply page_step_ok|by eapply page_step_page|done].
Qed.

Lemma client_new_ok : client_ok client_new ∧ page_ok (page client_new) [].
Proof. split; [by eapply ok_connecting|done]. Qed.

(** C22: After any sequence of socket and timer events, the dashboard has exactly one
    socket or, when none is left, one timer that will open the next one; the badge says
    connected while the socket is open, and disconnected while there is none or it is
    still connecting.  The two charts hold the rates between the snapshots received so
    far, the last sixty of them.  When there is a last snapshot, the markup of the table
    reads back as one row for each of its sessions with the client's identifier and
    address as text, whatever characters they contain, and no other element; the node, the
    version and the number of sessions are shown, and so are the gauges and the counters
    of dropped and rejected messages, in full, as long as they are below 2^53 in
    magnitude.  The totals of connections and of messages received and sent, and the
    last rate of each chart, are shown in full below 1000, and up to 2^48 to the nearest
    tenth of a thousand, followed by [K], or from a million on to the nearest tenth of a
    million, followed by [M]. *)
Theorem dashboard_correct evs c :
  page_run client_new evs = Some c →
  (size (sockets c) + timers c = 1)%nat
  ∧ (∀ id, sockets c !! id = Some SocketOpen → badge c = badge_on)
  ∧ ((∀ id s, sockets c !! id = Some s → s = Connecting) → badge c = badge_off)
  ∧ pubHistory (page c) = last_n MAX_POINTS (rates ms_publish_received None (snapshots evs))
  ∧ sendHistory (page c) = last_n MAX_POINTS (rates ms_messages_sent None (snapshots evs))
  ∧ match last (snapshots evs) with
    | Some (_, d) => shows (page c) d
    | None => sessionsBody (page c) = sessionsBody page_new
    end
  ∧ shows_rate (page c) "m-pub-rate" (pubHistory (page c))
  ∧ shows_rate (page c) "m-send-rate" (sendHistory (page c)).
Proof using BL.
  intros Hr. destruct client_new_ok as [Hc0 Hp0]. pose proof (page_run_ok _ _ _ _ Hc0 Hp0 Hr) as [Hc Hp].
  split_and!; [| | |by destruct Hp|by destruct Hp| |by destruct Hp as [_ _ _ _ _ _ [] _]..].
  - by destruct Hc as [Ht Hk|? Ht Hk|? Ht Hk|? Ht Hk]; rewrite Ht, Hk, ?map_size_empty, ?map_size_singleton.
  - intros i Hi. destruct Hc as [Ht Hk|? Ht Hk|? Ht Hk|? Ht Hk]; rewrite Hk in Hi; try done;
      by apply lookup_singleton_Some in Hi as [? [=]].
  - intros Hi. destruct Hc as [Ht Hk|id Ht Hk|id Ht Hk|id Ht Hk]; try done;
      (discriminate (Hi id _ ltac:(rewrite Hk; apply lookup_singleton_eq))).
  - destruct (last (snapshots evs)) as [[now d]|] eqn:E; [by apply (ok_shows _ _ Hp now)|by apply (ok_empty _ _ Hp)].
Qed.
End Page.

(** ** A run *)

Module PageDemo.
(** Integers in decimal; other numbers cut. *)
Definition int_text (x : f64) : string :=
  match x with
  | S754_finite neg m e => pretty (nearest neg m e 1)
  | S754_infinity neg => if neg then "-Infinity" else "Infinity"
  | S754_nan => "NaN"
  | S754_zero _ => "0"
  end.

#[export] Instance browser : Browser := {| number_to_string := int_text |}.

Lemma int_text_int x n : is_int x n → int_text x = pretty n.
Proof.
  intros [|m d z Hd Hm E]; [done|]. cbn. unfold nearest. destruct (Z.leb_spec 0 (d - 53)).
  - assert (d = 53) as -> by lia. replace (53 - 53) with 0 in * by lia. f_equal. lia.
  - replace (- (d - 53)) with (53 - d) by lia. rewrite E.
    pose proof (Z.pow_pos_nonneg 2 (53 - d) ltac:(lia) ltac:(lia)). f_equal.
    symmetry. apply (Z.div_unique_pos _ _ _ (2 ^ (53 - d))); lia.
Qed.

Lemma of_Z_opp n : 0 < n → num (- n) = SFopp (num n).
Proof.
  destruct n as [|p|p]; [done| |done]. intros _. unfold num, f64_of_Z. change (- Zpos p) with (Zneg p). cbn [binary_normalize].
  unfold binary_round. destruct (shl_align _ _ _) as [m e]. unfold binary_round_aux.
  destruct (shr_fexp _ _ _ _ _) as [r1 e1]. destruct (shr_fexp _ _ _ _ _) as [r2 e2].
  by destruct (shr_m r2), (e2 <=? f64_emax - f64_prec).
Qed.

Lemma int_text_opp x n : 0 < n → is_int x n → int_text (SFopp x) = pretty (- n).
Proof.
  intros Hn. intros [|m d z Hd Hm E]; [done|]. cbn. unfold nearest. destruct (Z.leb_spec 0 (d - 53)).
  - assert (d = 53) as -> by lia. replace (53 - 53) with 0 in * by lia. f_equal. lia.
  - replace (- (d - 53)) with (53 - d) by lia. change (Zneg m) with (- Zpos m). rewrite E.
    pose proof (Z.pow_pos_nonneg 2 (53 - d) ltac:(lia) ltac:(lia)). f_equal.
    symmetry. apply (Z.div_unique_pos _ _ _ (2 ^ (53 - d))); lia.
Qed.

#[export] Instance browser_laws : BrowserLaws browser.
Proof.
  split. intros n Hn. destruct (Z.leb_spec 0 n) as [Hge|Hlt]; [apply int_text_int, of_Z_exact; lia|].
  rewrite <-(Z.opp_involutive n), of_Z_opp by lia. apply int_text_opp; [lia|apply of_Z_exact; lia].
Qed.

Definition snapshot_with (published : Z) : DashboardSnapshot :=
  mkDashboardSnapshot 0 "n1" "1.0"
    (mkMetricsSnapshot 1 1 0 0 0 0 published 0 0 0 0 0 0 0 0 1 0 0 0 0 0 0 0 0)
    [mkSessionInfo "<b>&amp;" true "1.2.3.4:5" None].

(** A connection that brings two snapshots, one second and fifty messages apart, is
    lost, and opened again by the timer. *)
Definition events : list PageEvent :=
  [OnOpen 0; OnMessage 0 (Some (snapshot_with 10)) 5000 (λ _, (num 240, num 60));
   OnMessage 0 None 5500 (λ _, (num 240, num 60));
   OnMessage 0 (Some (snapshot_with 60)) 6000 (λ _, (num 240, num 60)); OnError 0; OnClose 0; OnTimer].

End PageDemo.
Import PageDemo.

Lemma dashboard_correct_witness :
  ∃ c, page_run client_new events = Some c
       ∧ pubHistory (page c) = [num 0; num 50]
       ∧ tokens false "" (sessionsBody (page c)) = row_tokens (mkSessionInfo "<b>&amp;" true "1.2.3.4:5" None)
       ∧ (size (sockets c) + timers c = 1)%nat.
Proof.
  destruct (page_run client_new events) as [c|] eqn:E; [|exfalso; revert E; vm_compute; discriminate].
  destruct (dashboard_correct events c E) as (Hsize & _ & _ & Hpub & _ & Hshow & _).
  exists c. split; [reflexivity|]. split; [rewrite Hpub; vm_compute; reflexivity|].
  split; [|exact Hsize]. rewrite (shows_table _ _ Hshow). reflexivity.
Defined.
