(* ===== verification/TlsLoad.v ===== *)
(** * Certificates of the TLS listener, [src/net/tls_layer.rs]

    [load_tls_acceptor]: the files it reads, the errors it reports, and which of
    the two modes (server certificate only, or client certificates required) the
    acceptor it builds works in. *)

From S2P Require Import Prelude Packet Storage Config.

(** The crates [rustls] and [rustls_pemfile], with their error texts. *)
Class Rustls := {
  CertificateDer : Type;
  PrivateKeyDer : Type;
  RootCertStore : Type;
  ClientVerifier : Type;
  TlsAcceptor : Type;
  certs : list Z → Result string (list CertificateDer);
  private_key : list Z → Result string (option PrivateKeyDer);
  store_empty : RootCertStore;
  store_add : RootCertStore → CertificateDer → Result string RootCertStore;
  store_is_empty : RootCertStore → bool;
  (** [WebPkiClientVerifier::builder(store).build()] *)
  build_verifier : RootCertStore → Result string ClientVerifier;
  (** [builder.with_client_cert_verifier(v)] or [with_no_client_auth()], then
      [with_single_cert(certs, key)], then [TlsAcceptor::from] *)
  with_client_cert_verifier : ClientVerifier → list CertificateDer → PrivateKeyDer → Result string TlsAcceptor;
  with_no_client_auth : list CertificateDer → PrivateKeyDer → Result string TlsAcceptor;
}.

Section Load.
Context {R : Rustls}.

(** [File::open] and what can be read from the file. *)
Variable open_file : string → Result string (list Z).

Definition load_certs (path : string) : BrokerResult (list CertificateDer) :=
  file ← storage_err ("open cert file " +:+ path) (open_file path);
  storage_err ("read certs from " +:+ path) (certs file).

Definition load_private_key (path : string) : BrokerResult PrivateKeyDer :=
  file ← storage_err ("open key file " +:+ path) (open_file path);
  key ← storage_err ("read private key from " +:+ path) (private_key file);
  match key with
  | Some k => Ok k
  | None => Err (BrokerError.Storage ("no private key found in " +:+ path))
  end.

Fixpoint add_certs (store : RootCertStore) (cs : list CertificateDer) : BrokerResult RootCertStore :=
  match cs with
  | [] => Ok store
  | c :: cs => store ← storage_err "add CA cert" (store_add store c); add_certs store cs
  end.

Definition load_ca_store (path : string) : BrokerResult RootCertStore :=
  cs ← load_certs path;
  store ← add_certs store_empty cs;
  if store_is_empty store then Err (BrokerError.Storage ("no CA certs loaded from " +:+ path)) else Ok store.

Definition load_tls_acceptor (cfg : TlsConfig) : BrokerResult TlsAcceptor :=
  cs ← load_certs (tls_cert cfg);
  key ← load_private_key (tls_key cfg);
  if tls_mutual cfg then
    ca_store ← load_ca_store (tls_ca cfg);
    verifier ← storage_err "build client verifier" (build_verifier ca_store);
    storage_err "build server config (mutual)" (with_client_cert_verifier verifier cs key)
  else storage_err "build server config (one-way)" (with_no_client_auth cs key).
End Load.

Module TlsDemo.
(** Certificates are bytes, a file is the list of them; a key is the first byte. *)
#[export] Instance demo_rustls : Rustls := {|
  CertificateDer := Z; PrivateKeyDer := Z; RootCertStore := list Z; ClientVerifier := list Z;
  TlsAcceptor := option (list Z) * (list Z * Z);
  certs := Ok; private_key file := Ok (head file);
  store_empty := []; store_add store c := Ok (store ++ [c]); store_is_empty store := bool_decide (store = []);
  build_verifier := Ok;
  with_client_cert_verifier v cs k := Ok (Some v, (cs, k)); with_no_client_auth cs k := Ok (None, (cs, k));
|}.
End TlsDemo.
