(* ===== verification/Start.v ===== *)
(** * Start and stop of the process, [src/main.rs]

    From the configuration to the running tasks, and what is left to do when they
    have ended. *)

From S2P Require Import Prelude Packet Messages NetAddr OfflineQueue Subscription Storage Metrics.
From S2P Require Import Retain Session Router Auth IpFilter Limiter Security Plugin.
From S2P Require Import Lifecycle Config Loader Handlers Connection TlsLoad.

Section Start.
Context {M : Mpsc} {S : Sled} {JR : Json RetainedMessage} {JS : Json SessionSnapshot}
  {JO : Json OutboundPublish} {F : ForwardEnv} {T : Toml} {R : Rustls}.

(** The tasks that [main] waits for. *)
Inductive Service :=
  | TcpServer (bind : SocketAddr) (max_connections : Z)
  | TlsServer (bind : SocketAddr) (max_connections : Z) (acceptor : TlsAcceptor)
  | WsServer (bind : SocketAddr) (max_connections : Z) (path : string)
  | MqttSnServer (bind : SocketAddr) (max_connections : Z)
  | AdminServer (bind : SocketAddr).

(** [parse_bind]; [None]: the process exits. *)
Definition parse_bind (bind : string) : option SocketAddr := parse_socket_addr bind.

Definition when (enabled : bool) (service : option (list Service)) : option (list Service) :=
  if enabled then service else Some [].

Definition tcp_service (s : Settings) : option (list Service) :=
  when (tcp_enabled (s_tcp s))
    (bind ← parse_bind (tcp_bind (s_tcp s)); Some [TcpServer bind (max_connections (s_broker s))]).

(** Without its certificates the TLS listener is left out. *)
Definition tls_service (open_file : string → Result string (list Z)) (s : Settings) : option (list Service) :=
  when (tls_enabled (s_tls s))
    match load_tls_acceptor open_file (s_tls s) with
    | Ok acceptor =>
        bind ← parse_bind (tls_bind (s_tls s)); Some [TlsServer bind (max_connections (s_broker s)) acceptor]
    | Err _ => Some []
    end.

Definition ws_service (s : Settings) : option (list Service) :=
  when (ws_enabled (s_websocket s))
    (let path := if str_is_empty (ws_path (s_websocket s)) then "/mqtt" else ws_path (s_websocket s) in
     bind ← parse_bind (ws_bind (s_websocket s)); Some [WsServer bind (max_connections (s_broker s)) path]).

Definition sn_service (s : Settings) : option (list Service) :=
  when (sn_enabled (s_mqtt_sn s))
    (bind ← parse_bind (sn_bind (s_mqtt_sn s)); Some [MqttSnServer bind (max_connections (s_broker s))]).

Definition admin_service (s : Settings) : option (list Service) :=
  when (admin_enabled (s_admin s))
    (bind ← parse_bind (admin_bind (s_admin s)); Some [AdminServer bind]).

(** Step 5: [handles]. *)
Definition start_services (open_file : string → Result string (list Z)) (s : Settings) : option (list Service) :=
  tcp ← tcp_service s;
  tls ← tls_service open_file s;
  ws ← ws_service s;
  sn ← sn_service s;
  admin ← admin_service s;
  Some (tcp ++ tls ++ ws ++ sn ++ admin).

(** How far [main] gets: [exit(1)], or everything is running. *)
Inductive Process :=
  | Exited (code : Z)
  | Running (b : Broker M S F) (handles : list Service).

(** Steps 1 to 5, from the environment variables and files [e]; [None]: the
    recovery of the sessions does not return. *)
Definition main_start (e : LoadEnv) (open_file : string → Result string (list Z)) (ch : Chans) (fw : FwChans)
    (now : Instant) : option Process :=
  match load (from_env e) e with
  | Err _ => Some (Exited 1)
  | Ok settings =>
      b ← BrokerState_new settings METRICS ch fw now;
      Some match start_services open_file settings with
           | Some handles => Running b handles
           | None => Exited 1
           end
  end.

(** Step 8, after the handles and the sweeper have ended: whatever the flush
    answers is only logged. *)
Definition main_stop (b : Broker M S F) : Broker M S F :=
  b <| b_shared ::= try_storage flush |>.
End Start.
Arguments Process M S F {R}.
