(* ===== verification/SnCodec.v ===== *)
(** * MQTT-SN datagrams, [src/net/mqtt_sn.rs]

    The packet types, [parse_packet] and [encode_packet] of the UDP gateway, and
    [String::from_utf8_lossy], with which it reads names. *)

From S2P Require Import Prelude Packet.

(** ** [String::from_utf8_lossy]

    Every maximal ill-formed part becomes U+FFFD. *)

Definition replacement : list Z := [239; 191; 189].

(** The second byte of a three-byte and of a four-byte form. *)
Definition second_of_3 (b0 b1 : Z) : bool :=
  if b0 =? 224 then in_range 160 191 b1 else if b0 =? 237 then in_range 128 159 b1 else is_cont b1.
Definition second_of_4 (b0 b1 : Z) : bool :=
  if b0 =? 240 then in_range 144 191 b1 else if b0 =? 244 then in_range 128 143 b1 else is_cont b1.

Fixpoint lossy (l : list Z) : list Z :=
  match l with
  | [] => []
  | b0 :: l0 =>
      if in_range 0 127 b0 then b0 :: lossy l0
      else if in_range 194 223 b0 then
        match l0 with
        | b1 :: l1 => if is_cont b1 then b0 :: b1 :: lossy l1 else replacement ++ lossy l0
        | [] => replacement
        end
      else if in_range 224 239 b0 then
        match l0 with
        | b1 :: l1 =>
            if second_of_3 b0 b1 then
              match l1 with
              | b2 :: l2 => if is_cont b2 then b0 :: b1 :: b2 :: lossy l2 else replacement ++ lossy l1
              | [] => replacement
              end
            else replacement ++ lossy l0
        | [] => replacement
        end
      else if in_range 240 244 b0 then
        match l0 with
        | b1 :: l1 =>
            if second_of_4 b0 b1 then
              match l1 with
              | b2 :: l2 =>
                  if is_cont b2 then
                    match l2 with
                    | b3 :: l3 =>
                        if is_cont b3 then b0 :: b1 :: b2 :: b3 :: lossy l3 else replacement ++ lossy l2
                    | [] => replacement
                    end
                  else replacement ++ lossy l1
              | [] => replacement
              end
            else replacement ++ lossy l0
        | [] => replacement
        end
      else replacement ++ lossy l0
  end.

Definition from_utf8_lossy (raw : list Z) : string := string_of_bytes (lossy raw).

(** ** Constants *)

Definition MSG_CONNECT : Z := 0x04.
Definition MSG_CONNACK : Z := 0x05.
Definition MSG_REGISTER : Z := 0x0A.
Definition MSG_REGACK : Z := 0x0B.
Definition MSG_PUBLISH : Z := 0x0C.
Definition MSG_PUBACK : Z := 0x0D.
Definition MSG_SUBSCRIBE : Z := 0x11.
Definition MSG_SUBACK : Z := 0x12.
Definition MSG_UNSUBSCRIBE : Z := 0x13.
Definition MSG_UNSUBACK : Z := 0x14.
Definition MSG_PINGREQ : Z := 0x15.
Definition MSG_PINGRESP : Z := 0x16.
Definition MSG_DISCONNECT : Z := 0x17.

Definition RC_ACCEPTED : Z := 0x00.
Definition RC_CONGESTION : Z := 0x01.
Definition RC_INVALID_TOPIC_ID : Z := 0x02.
Definition RC_NOT_SUPPORTED : Z := 0x03.
Definition RC_REJECTED : Z := 0xFF.

Definition PROTOCOL_ID_MQTTSN : Z := 0x01.
Definition TOPIC_ID_MIN : Z := 0x0001.
Definition TOPIC_ID_MAX : Z := 0xFFFE.

Definition FLAG_QOS_MASK : Z := 0x60.
Definition FLAG_QOS_SHIFT : Z := 5.
Definition FLAG_RETAIN : Z := 0x10.
Definition FLAG_CLEAN : Z := 0x04.
Definition FLAG_TOPIC_ID_TYPE_MASK : Z := 0x03.
Definition TOPIC_ID_TYPE_SHORT : Z := 0x02.

Definition flags_to_qos (flags : Z) : Result Z QoS :=
  let q := Z.shiftr (Z.land flags FLAG_QOS_MASK) FLAG_QOS_SHIFT in
  match q with
  | 0 => Ok QoS.AtMostOnce
  | 1 => Ok QoS.AtLeastOnce
  | 2 => Ok QoS.ExactlyOnce
  | _ => Err RC_NOT_SUPPORTED
  end.

Definition qos_to_flags (qos : QoS) : Z :=
  match qos with
  | QoS.AtMostOnce => 0x00
  | QoS.AtLeastOnce => 0x20
  | QoS.ExactlyOnce => 0x40
  end.

(** ** Packets *)

Inductive SnPacket :=
  | SnConnect (flags protocol_id duration : Z) (client_id : string)
  | SnConnack (return_code : Z)
  | SnRegister (flags topic_id msg_id : Z) (topic_name : string)
  | SnRegack (flags topic_id msg_id return_code : Z)
  | SnPublish (flags topic_id msg_id : Z) (data : list Z)
  | SnPuback (flags topic_id msg_id return_code : Z)
  | SnSubscribe (flags msg_id : Z) (topic : list Z)
  | SnSuback (flags topic_id msg_id return_code : Z)
  | SnUnsubscribe (flags msg_id : Z) (topic : list Z)
  | SnUnsuback (msg_id : Z)
  | SnPingreq
  | SnPingresp
  | SnDisconnect (duration : option Z)
  | SnUnknown (msg_type : Z).

(** The bytes after the length field: the type and the body.  [body[i]] is only
    read where the source has checked the length. *)
Definition parse_body (msg_type : Z) (body : list Z) : Result string SnPacket :=
  if msg_type =? MSG_CONNECT then
    match body with
    | flags :: protocol_id :: d1 :: d2 :: rest =>
        Ok (SnConnect flags protocol_id (u16_from_be_bytes d1 d2) (from_utf8_lossy rest))
    | _ => Err "connect body too short"
    end
  else if msg_type =? MSG_CONNACK then
    match body with
    | code :: _ => Ok (SnConnack code)
    | [] => Err "connack body empty"
    end
  else if msg_type =? MSG_REGISTER then
    match body with
    | flags :: t1 :: t2 :: m1 :: m2 :: rest =>
        Ok (SnRegister flags (u16_from_be_bytes t1 t2) (u16_from_be_bytes m1 m2) (from_utf8_lossy rest))
    | _ => Err "register body too short"
    end
  else if msg_type =? MSG_REGACK then
    match body with
    | flags :: t1 :: t2 :: m1 :: m2 :: code :: _ =>
        Ok (SnRegack flags (u16_from_be_bytes t1 t2) (u16_from_be_bytes m1 m2) code)
    | _ => Err "regack body too short"
    end
  else if msg_type =? MSG_PUBLISH then
    match body with
    | flags :: t1 :: t2 :: m1 :: m2 :: data =>
        Ok (SnPublish flags (u16_from_be_bytes t1 t2) (u16_from_be_bytes m1 m2) data)
    | _ => Err "publish body too short"
    end
  else if msg_type =? MSG_PUBACK then
    match body with
    | flags :: t1 :: t2 :: m1 :: m2 :: code :: _ =>
        Ok (SnPuback flags (u16_from_be_bytes t1 t2) (u16_from_be_bytes m1 m2) code)
    | _ => Err "puback body too short"
    end
  else if msg_type =? MSG_SUBSCRIBE then
    match body with
    | flags :: m1 :: m2 :: topic => Ok (SnSubscribe flags (u16_from_be_bytes m1 m2) topic)
    | _ => Err "subscribe body too short"
    end
  else if msg_type =? MSG_SUBACK then
    match body with
    | flags :: t1 :: t2 :: m1 :: m2 :: code :: _ =>
        Ok (SnSuback flags (u16_from_be_bytes t1 t2) (u16_from_be_bytes m1 m2) code)
    | _ => Err "suback body too short"
    end
  else if msg_type =? MSG_UNSUBSCRIBE then
    match body with
    | flags :: m1 :: m2 :: topic => Ok (SnUnsubscribe flags (u16_from_be_bytes m1 m2) topic)
    | _ => Err "unsubscribe body too short"
    end
  else if msg_type =? MSG_UNSUBACK then
    match body with
    | m1 :: m2 :: _ => Ok (SnUnsuback (u16_from_be_bytes m1 m2))
    | _ => Err "unsuback body too short"
    end
  else if msg_type =? MSG_PINGREQ then Ok SnPingreq
  else if msg_type =? MSG_PINGRESP then Ok SnPingresp
  else if msg_type =? MSG_DISCONNECT then
    match body with
    | d1 :: d2 :: _ => Ok (SnDisconnect (Some (u16_from_be_bytes d1 d2)))
    | _ => Ok (SnDisconnect None)
    end
  else Ok (SnUnknown msg_type).

(** The length field, and what follows it. *)
Definition parse_header (buf : list Z) : Result string (list Z) :=
  match buf with
  | b0 :: b1 :: rest =>
      if negb (b0 =? 1) then
        if Z.of_nat (length buf) <? b0 then Err "incomplete packet" else Ok (b1 :: rest)
      else
        match rest with
        | b2 :: b3 :: rest =>
            if Z.of_nat (length buf) <? u16_from_be_bytes b1 b2 then Err "incomplete long packet"
            else Ok (b3 :: rest)
        | _ => Err "incomplete long packet"
        end
  | _ => Err "packet too short"
  end.

Definition parse_packet (buf : list Z) : Result string SnPacket :=
  hdr ← parse_header buf;
  match hdr with
  | msg_type :: body => parse_body msg_type body
  | [] => Err "empty header"
  end.

(** Type and body of a packet the gateway sends. *)
Definition encode_content (p : SnPacket) : option (list Z) :=
  match p with
  | SnConnack code => Some [MSG_CONNACK; code]
  | SnRegack flags tid mid code =>
      Some ([MSG_REGACK; flags] ++ u16_to_be_bytes tid ++ u16_to_be_bytes mid ++ [code])
  | SnSuback flags tid mid code =>
      Some ([MSG_SUBACK; flags] ++ u16_to_be_bytes tid ++ u16_to_be_bytes mid ++ [code])
  | SnPuback flags tid mid code =>
      Some ([MSG_PUBACK; flags] ++ u16_to_be_bytes tid ++ u16_to_be_bytes mid ++ [code])
  | SnUnsuback mid => Some (MSG_UNSUBACK :: u16_to_be_bytes mid)
  | SnPingresp => Some [MSG_PINGRESP]
  | SnDisconnect duration =>
      Some (MSG_DISCONNECT :: match duration with Some d => u16_to_be_bytes d | None => [] end)
  | SnPublish flags tid mid data =>
      Some ([MSG_PUBLISH; flags] ++ u16_to_be_bytes tid ++ u16_to_be_bytes mid ++ data)
  | SnRegister flags tid mid topic_name =>
      Some ([MSG_REGISTER; flags] ++ u16_to_be_bytes tid ++ u16_to_be_bytes mid ++ as_bytes topic_name)
  | SnConnect _ _ _ _ | SnSubscribe _ _ _ | SnUnsubscribe _ _ _ | SnPingreq | SnUnknown _ => None
  end.

Definition encode_packet (p : SnPacket) : list Z :=
  match encode_content p with
  | None => []
  | Some content =>
      let total := 1 + Z.of_nat (length content) in
      if total <=? 0xFF then as_u8 total :: content
      else 1 :: u16_to_be_bytes (as_u16 (total + 2)) ++ content
  end.
