(* ===== verification/SnCodecTheorems.v ===== *)
(** * Correctness of the MQTT-SN codec

    Lossy decoding of names, the round trip of the packets the gateway sends,
    and the ranges of what it parses. *)

From S2P Require Import Prelude Packet SnCodec.

(** ** Lossy decoding *)

Lemma lossy_valid l : valid_utf8 l = true → lossy l = l.
Proof.
  remember (length l) as n eqn:Hn. assert (Hle : (length l ≤ n)%nat) by lia. clear Hn.
  revert l Hle. induction n as [|n IH]; intros l Hle; [by destruct l; cbn in *; [|lia]|].
  destruct l as [|b0 l0]; [done|]. cbn [valid_utf8 lossy].
  destruct (in_range 0 127 b0) eqn:E1; [intros H; f_equal; apply IH; [cbn in Hle; lia|done]|].
  destruct l0 as [|b1 l1]; [done|]. destruct (in_range 194 223 b0) eqn:E2.
  { intros [-> H]%andb_prop. do 2 f_equal. apply IH; [cbn in Hle; lia|done]. }
  destruct l1 as [|b2 l2]; [done|]. destruct (in_range 224 239 b0) eqn:E3.
  { fold (second_of_3 b0 b1). intros [[-> ->]%andb_prop H]%andb_prop.
    do 3 f_equal. apply IH; [cbn in Hle; lia|done]. }
  destruct l2 as [|b3 l3]; [done|]. fold (second_of_4 b0 b1).
  intros H. destruct_andb. rewrite H, H3, H2, H1. do 4 f_equal. apply IH; [cbn in Hle; lia|done].
Qed.

Lemma from_utf8_lossy_as_bytes s : is_str s = true → from_utf8_lossy (as_bytes s) = s.
Proof. intros H. unfold from_utf8_lossy. rewrite lossy_valid by done. apply string_of_as_bytes. Qed.

Lemma valid_replacement l : valid_utf8 (replacement ++ l) = valid_utf8 l.
Proof. reflexivity. Qed.

(** Each step of [lossy] emits a well-formed character. *)
Lemma valid_lossy l : valid_utf8 (lossy l) = true.
Proof.
  remember (length l) as n eqn:Hn. assert (Hle : (length l ≤ n)%nat) by lia. clear Hn.
  revert l Hle. induction n as [|n IH]; intros l Hle; [by destruct l; cbn in *; [|lia]|].
  assert (IHr : ∀ k, (length k ≤ n)%nat → valid_utf8 (replacement ++ lossy k) = true).
  { intros k Hk. rewrite valid_replacement. by apply IH. }
  destruct l as [|b0 l0]; [done|]. cbn [lossy length] in *.
  destruct (in_range 0 127 b0) eqn:E1; [cbn [valid_utf8]; rewrite E1; apply IH; lia|].
  destruct (in_range 194 223 b0) eqn:E2.
  { destruct l0 as [|b1 l1]; [done|]. cbn [length] in *.
    destruct (is_cont b1) eqn:C1; [|apply IHr; cbn; lia].
    cbn [valid_utf8]. rewrite E1, E2, C1. apply IH. lia. }
  destruct (in_range 224 239 b0) eqn:E3.
  { destruct l0 as [|b1 l1]; [done|]. cbn [length] in *.
    destruct (second_of_3 b0 b1) eqn:C1; [|apply IHr; cbn; lia].
    destruct l1 as [|b2 l2]; [done|]. cbn [length] in *.
    destruct (is_cont b2) eqn:C2; [|apply IHr; cbn; lia].
    cbn [valid_utf8]. rewrite E1, E2, E3. unfold second_of_3 in C1. rewrite C1, C2. apply IH. lia. }
  destruct (in_range 240 244 b0) eqn:E4; [|apply IHr; lia].
  destruct l0 as [|b1 l1]; [done|]. cbn [length] in *.
  destruct (second_of_4 b0 b1) eqn:C1; [|apply IHr; cbn; lia].
  destruct l1 as [|b2 l2]; [done|]. cbn [length] in *.
  destruct (is_cont b2) eqn:C2; [|apply IHr; cbn; lia].
  destruct l2 as [|b3 l3]; [done|]. cbn [length] in *.
  destruct (is_cont b3) eqn:C3; [|apply IHr; cbn; lia].
  cbn [valid_utf8]. rewrite E1, E2, E3, E4. unfold second_of_4 in C1. rewrite C1, C2, C3. apply IH. lia.
Qed.

(** A well-formed sequence consists of bytes. *)
Lemma valid_is_bytes l : valid_utf8 l = true → is_bytes l = true.
Proof.
  assert (Hr : ∀ lo hi b, in_range lo hi b = true → 0 ≤ lo → hi ≤ 255 → is_u8 b = true).
  { unfold in_range, is_u8, u8_max. lia. }
  assert (Hc : ∀ b, is_cont b = true → is_u8 b = true) by (intros; by eapply Hr).
  assert (H3 : ∀ b0 b, second_of_3 b0 b = true → is_u8 b = true).
  { unfold second_of_3. intros b0 b. destruct (b0 =? 224); [by intros; eapply Hr|].
    destruct (b0 =? 237); [by intros; eapply Hr|]. auto. }
  assert (H4 : ∀ b0 b, second_of_4 b0 b = true → is_u8 b = true).
  { unfold second_of_4. intros b0 b. destruct (b0 =? 240); [by intros; eapply Hr|].
    destruct (b0 =? 244); [by intros; eapply Hr|]. auto. }
  remember (length l) as n eqn:Hn. assert (Hle : (length l ≤ n)%nat) by lia. clear Hn.
  revert l Hle. induction n as [|n IH]; intros l Hle; [by destruct l; cbn in *; [|lia]|].
  destruct l as [|b0 l0]; [done|]. cbn [valid_utf8 is_bytes forallb length] in *.
  assert (Hb : ∀ lo hi, in_range lo hi b0 = true → 0 ≤ lo → hi ≤ 255 → is_u8 b0 = true) by (intros; by eapply Hr).
  destruct (in_range 0 127 b0) eqn:E1; [intros; rewrite (Hb _ _ E1) by lia; apply IH; [lia|done]|].
  destruct l0 as [|b1 l1]; [done|]. cbn [forallb length] in *. destruct (in_range 194 223 b0) eqn:E2.
  { intros [C1 H]%andb_prop. rewrite (Hb _ _ E2), (Hc _ C1) by lia. apply IH; [lia|done]. }
  destruct l1 as [|b2 l2]; [done|]. cbn [forallb length] in *. destruct (in_range 224 239 b0) eqn:E3.
  { fold (second_of_3 b0 b1). intros [[C1 C2]%andb_prop H]%andb_prop.
    rewrite (Hb _ _ E3), (H3 _ _ C1), (Hc _ C2) by lia. apply IH; [lia|done]. }
  destruct l2 as [|b3 l3]; [done|]. cbn [forallb length] in *. fold (second_of_4 b0 b1).
  intros H. destruct_andb. erewrite Hb, (H4 b0), !Hc by (done || lia). apply IH; [lia|done].
Qed.

Lemma from_utf8_lossy_is_str raw : is_str (from_utf8_lossy raw) = true.
Proof.
  unfold is_str, from_utf8_lossy. rewrite as_bytes_of_bytes; [apply valid_lossy|].
  apply valid_is_bytes, valid_lossy.
Qed.

(** ** Packets *)

(** The ranges of the fields; names are UTF-8, data are bytes. *)
Definition sn_wf (p : SnPacket) : bool :=
  match p with
  | SnConnect flags pid d cid => is_u8 flags && is_u8 pid && is_u16 d && is_str cid
  | SnConnack code => is_u8 code
  | SnRegister flags tid mid name => is_u8 flags && is_u16 tid && is_u16 mid && is_str name
  | SnPublish flags tid mid data => is_u8 flags && is_u16 tid && is_u16 mid && is_bytes data
  | SnRegack flags tid mid code | SnPuback flags tid mid code | SnSuback flags tid mid code =>
      is_u8 flags && is_u16 tid && is_u16 mid && is_u8 code
  | SnSubscribe flags mid topic | SnUnsubscribe flags mid topic =>
      is_u8 flags && is_u16 mid && is_bytes topic
  | SnUnsuback mid => is_u16 mid
  | SnPingreq | SnPingresp => true
  | SnDisconnect d => match d with Some d => is_u16 d | None => true end
  | SnUnknown t => is_u8 t
  end.

(** The length a datagram declares. *)
Definition declared_length (buf : list Z) : option Z :=
  match buf with
  | b0 :: rest =>
      if b0 =? 1 then match rest with b1 :: b2 :: _ => Some (u16_from_be_bytes b1 b2) | _ => None end
      else Some b0
  | [] => None
  end.

Lemma u16_bytes_back v : is_u16 v = true → u16_from_be_bytes ((v / 256) mod 256) (v mod 256) = v.
Proof. rewrite is_u16_spec. unfold u16_from_be_bytes. intros. div_mod_lia. Qed.

Lemma u16_of_bytes a b : is_u8 a = true → is_u8 b = true → is_u16 (u16_from_be_bytes a b) = true.
Proof. rewrite !is_u8_spec, is_u16_spec. unfold u16_from_be_bytes. lia. Qed.

(** The header of an encoded packet is what was put into it. *)
Lemma parse_header_frame content :
  content ≠ [] →
  let total := 1 + Z.of_nat (length content) in
  let buf := if total <=? 0xFF then as_u8 total :: content else 1 :: u16_to_be_bytes (as_u16 (total + 2)) ++ content in
  parse_header buf = Ok content ∧
  (Z.of_nat (length buf) ≤ u16_max → declared_length buf = Some (Z.of_nat (length buf))).
Proof.
  intros Hne total buf. subst buf. destruct content as [|t body]; [done|].
  assert (Hlen : total = 2 + Z.of_nat (length body)) by (subst total; cbn [length]; lia).
  clearbody total. destruct (Z.leb_spec total 0xFF) as [Hs|Hl].
  - replace (as_u8 total) with total by (unfold as_u8; rewrite Z.mod_small; lia).
    unfold parse_header, declared_length. replace (total =? 1) with false by lia. cbn [negb].
    rewrite Z_ltb_false by (cbn [length]; lia). split; [done|]. intros _. f_equal. cbn [length]. lia.
  - unfold u16_to_be_bytes, u16_max. cbn [app]. set (v := as_u16 (total + 2)).
    assert (Hv : u16_from_be_bytes ((v / 256) mod 256) (v mod 256) = v).
    { apply u16_bytes_back, is_u16_spec. subst v. unfold as_u16. apply Z.mod_pos_bound. lia. }
    unfold parse_header, declared_length. change (negb (1 =? 1)) with false. change (1 =? 1) with true. cbv iota.
    rewrite Hv. assert (Hle : v ≤ total + 2) by (subst v; unfold as_u16; apply Z.mod_le; lia).
    cbn [length]. rewrite Z_ltb_false by lia. split; [done|]. intros Hm. f_equal.
    subst v. unfold as_u16. rewrite Z.mod_small; lia.
Qed.

Lemma parse_body_content p content :
  sn_wf p = true → encode_content p = Some content →
  ∃ t body, content = t :: body ∧ parse_body t body = Ok p.
Proof.
  intros Hwf. destruct p; cbn [encode_content]; intros [= <-]; cbn [sn_wf] in Hwf; destruct_andb;
    unfold u16_to_be_bytes; cbn [app]; do 2 eexists; (split; [reflexivity|]); unfold parse_body; cbn;
    rewrite ?u16_bytes_back by done; try done.
  - by rewrite from_utf8_lossy_as_bytes.
  - destruct duration as [d|]; [|done]. cbn. by rewrite u16_bytes_back.
Qed.

(** What [parse_body] reads is in range. *)
Lemma parse_body_wf t body p :
  is_u8 t = true → is_bytes body = true → parse_body t body = Ok p → sn_wf p = true.
Proof.
  intros Ht Hb. unfold parse_body.
  repeat match goal with
  | |- context [if ?b then _ else _] => destruct b
  | |- (match ?l with [] => _ | _ :: _ => _ end) = Ok _ → _ => destruct l
  | |- Err _ = Ok _ → _ => discriminate
  end; intros [= <-]; cbn [is_bytes forallb sn_wf] in *; destruct_andb; split_andb;
    auto using u16_of_bytes, from_utf8_lossy_is_str.
Qed.

(** A packet the gateway sends comes back from its datagram. *)
Lemma sn_parse_encode p content :
  sn_wf p = true → encode_content p = Some content →
  parse_packet (encode_packet p) = Ok p ∧ encode_packet p ≠ [] ∧
  (Z.of_nat (length (encode_packet p)) ≤ u16_max →
   declared_length (encode_packet p) = Some (Z.of_nat (length (encode_packet p)))).
Proof.
  intros Hwf Hc. destruct (parse_body_content p content Hwf Hc) as (t & body & -> & Hp).
  unfold encode_packet. rewrite Hc. destruct (parse_header_frame (t :: body)) as [Hh Hd]; [done|].
  cbv zeta. split; [unfold parse_packet; rewrite Hh; exact Hp|]. split; [by destruct (_ <=? _)|exact Hd].
Qed.

Lemma is_u8_mod k : is_u8 (k mod 256) = true.
Proof. apply is_u8_spec, Z.mod_pos_bound. lia. Qed.

Lemma u16_bytes_are_bytes v : is_bytes (u16_to_be_bytes v) = true.
Proof. unfold u16_to_be_bytes, is_bytes. cbn [forallb]. by rewrite !is_u8_mod. Qed.

(** What is sent consists of bytes. *)
Lemma encode_content_bytes p content :
  sn_wf p = true → encode_content p = Some content → is_bytes content = true.
Proof.
  assert (Hcons : ∀ b l, is_bytes (b :: l) = is_u8 b && is_bytes l) by done.
  intros Hwf. destruct p; cbn [encode_content]; intros [= <-]; cbn [sn_wf] in Hwf; destruct_andb;
    try (destruct duration); repeat rewrite ?Hcons, ?is_bytes_app, ?is_u8_mod, ?u16_bytes_are_bytes, ?as_bytes_is_bytes;
    repeat match goal with H : _ = true |- _ => rewrite H; clear H end; done.
Qed.

(** The form of a datagram: its length byte, or the escape and two bytes. *)
Lemma encode_packet_form p content :
  sn_wf p = true → encode_content p = Some content →
  is_bytes (encode_packet p) = true ∧
  ((length content ≤ 254)%nat →
     length (encode_packet p) = (1 + length content)%nat ∧ head (encode_packet p) = Some (1 + Z.of_nat (length content))) ∧
  ((254 < length content)%nat →
     length (encode_packet p) = (3 + length content)%nat ∧ head (encode_packet p) = Some 1).
Proof.
  intros Hwf Hc. pose proof (encode_content_bytes _ _ Hwf Hc) as Hb. unfold encode_packet. rewrite Hc.
  destruct (Z.leb_spec (1 + Z.of_nat (length content)) 0xFF) as [Hs|Hl]; (split; [|split; [intros ?|intros ?]; try lia]).
  - unfold is_bytes in *. cbn [forallb]. rewrite Hb, andb_true_r. apply is_u8_mod.
  - split; [done|]. cbn [head]. f_equal. unfold as_u8. rewrite Z.mod_small; lia.
  - unfold is_bytes in *. cbn [forallb]. rewrite forallb_app, Hb, andb_true_r.
    exact (u16_bytes_are_bytes _).
  - split; [|done]. cbn [length]. rewrite length_app. done.
Qed.

(** C35: The MQTT-SN codec.  Every packet the gateway sends, with fields in range
    and names in UTF-8, is a sequence of bytes that parses back to that packet.  Up
    to 255 bytes it has the short form, type and body behind one byte with the length
    of the whole, above that the long form, type and body behind an escape byte 1 and
    two bytes; and the length it declares is its true length as long as that fits the
    16-bit field.  Whatever bytes arrive, a packet parsed from them has every field
    in range and every name in UTF-8, ill-formed parts having been replaced. *)
Theorem sn_codec_correct :
  (∀ p content, sn_wf p = true → encode_content p = Some content →
     let datagram := encode_packet p in
     parse_packet datagram = Ok p ∧ is_bytes datagram = true ∧
     ((length content ≤ 254)%nat →
        length datagram = (1 + length content)%nat ∧ head datagram = Some (1 + Z.of_nat (length content))) ∧
     ((254 < length content)%nat → length datagram = (3 + length content)%nat ∧ head datagram = Some 1) ∧
     (Z.of_nat (length datagram) ≤ u16_max → declared_length datagram = Some (Z.of_nat (length datagram)))) ∧
  (∀ buf p, is_bytes buf = true → parse_packet buf = Ok p → sn_wf p = true).
Proof.
  split.
  - intros p content Hwf Hc. destruct (sn_parse_encode p content Hwf Hc) as (? & _ & ?).
    by destruct (encode_packet_form p content Hwf Hc) as (? & ? & ?).
  - intros buf p Hb. unfold parse_packet, parse_header.
    destruct buf as [|b0 [|b1 rest]]; [done..|]. cbn [is_bytes forallb] in Hb. destruct_andb.
    destruct (negb _); [destruct (_ <? _); [done|]; by apply parse_body_wf|].
    destruct rest as [|b2 [|b3 rest]]; [done..|]. cbn [forallb] in *. destruct_andb.
    destruct (_ <? _); [done|]. by apply parse_body_wf.
Qed.

(** A PUBLISH of QoS 1, and a datagram with an ill-formed name. *)
Lemma sn_codec_correct_witness :
  parse_packet (encode_packet (SnPublish 0x20 258 7 [1; 2; 3])) = Ok (SnPublish 0x20 258 7 [1; 2; 3]) ∧
  sn_wf (SnConnect 4 1 60 (from_utf8_lossy [99; 200; 49])) = true.
Proof.
  destruct sn_codec_correct as [H1 H2]. split.
  - by destruct (H1 (SnPublish 0x20 258 7 [1; 2; 3]) _ eq_refl eq_refl).
  - exact (H2 [9; 4; 4; 1; 0; 60; 99; 200; 49] _ eq_refl eq_refl).
Defined.

(** The declared length does not bound the body: bytes behind it are read as
    part of the packet. *)
Example trailing_bytes_kept :
  parse_packet [7; 0x0C; 0; 0; 1; 0; 0; 42; 43] = Ok (SnPublish 0 1 0 [42; 43]).
Proof. reflexivity. Qed.
