(* ===== verification/SnGateway.v ===== *)
(** * The MQTT-SN gateway, [src/net/mqtt_sn.rs]

    Clients behind UDP: the topic registry of each, the handlers of their
    packets, the forwarders of outbound messages, and the task that expires
    silent and sleeping clients.  The gateway shares the broker's state with the
    TCP connections; what arrives and when is given as events. *)

From S2P Require Import Prelude Packet Messages OfflineQueue Subscription Storage Metrics.
From S2P Require Import Retain Session Router Auth Security Plugin Config Handlers SnCodec.

(** ** [SnClient] *)

Record SnClient := mkSnClient {
  sn_client_id : string;
  sn_epoch : Z;
  sn_clean : bool;
  keep_alive_secs : Z;
  last_seen : Instant;
  sn_peer : SocketAddr;
  topic_to_id : gmap string Z;
  id_to_topic : gmap Z string;
  next_msg_id : Z;
  next_topic_id : Z;
  sleeping : bool;
  sleep_until : option Instant;
}.

#[export] Instance SnClient_settable : Settable SnClient :=
  λ c, mkSnClient (sn_client_id c) (sn_epoch c) (sn_clean c) (keep_alive_secs c) (last_seen c)
         (sn_peer c) (topic_to_id c) (id_to_topic c) (next_msg_id c) (next_topic_id c)
         (sleeping c) (sleep_until c).

Definition SnClient_new (client_id : string) (epoch : Z) (clean : bool) (keep_alive_secs : Z)
    (peer : SocketAddr) (now : Instant) : SnClient :=
  mkSnClient client_id epoch clean keep_alive_secs now peer ∅ ∅ 1 TOPIC_ID_MIN false None.

Definition sn_touch (self : SnClient) (now : Instant) : SnClient := self <| last_seen := now |>.

Definition next_topic (id : Z) : Z := if id >=? TOPIC_ID_MAX then TOPIC_ID_MIN else id + 1.

(** The search for a free identifier, [for _ in 0..=0xFFFE]. *)
Fixpoint assign_loop (iterations : nat) (self : SnClient) (topic : string) : Z * SnClient :=
  match iterations with
  | O => (TOPIC_ID_MIN, self)
  | S iterations =>
      let v := next_topic_id self in
      let self := self <| next_topic_id ::= next_topic |> in
      if v =? 0 then assign_loop iterations self topic
      else if bool_decide (is_Some (id_to_topic self !! v)) then assign_loop iterations self topic
      else (v, self <| topic_to_id ::= <[topic := v]> |> <| id_to_topic ::= <[v := topic]> |>)
  end.

Definition assign_topic_id (self : SnClient) (topic : string) : Z * SnClient :=
  match topic_to_id self !! topic with
  | Some id => (id, self)
  | None => assign_loop (Z.to_nat 65535) self topic
  end.

Definition topic_name_of (self : SnClient) (topic_id : Z) : option string := id_to_topic self !! topic_id.

Definition allocate_msg_id (self : SnClient) : Z * SnClient :=
  let m := next_msg_id self in
  let n := wrap_u16 (m + 1) in
  (m, self <| next_msg_id := if n =? 0 then 1 else n |>).

(** ** The server *)

Section Gateway.
Context {M : Mpsc} {S : Sled} {JR : Json RetainedMessage} {JS : Json SessionSnapshot}
  {JO : Json OutboundPublish} {F : ForwardEnv}.

(** A running [forward_outbound] and the receiver it owns. *)
Record SnTask := mkSnTask {
  task_peer : SocketAddr;
  task_client_id : string;
  task_epoch : Z;
  task_rx : Sender;
}.

(** The broker, the table of clients, the datagrams handed to the socket, and
    the forwarders. *)
Record SnServer := mkSnServer {
  sn_broker : Broker M S F;
  sn_clients : gmap SocketAddr SnClient;
  sn_sent : list (SocketAddr * list Z);
  sn_tasks : list SnTask;
}.

#[export] Instance SnServer_settable : Settable SnServer :=
  λ s, mkSnServer (sn_broker s) (sn_clients s) (sn_sent s) (sn_tasks s).

Implicit Types (w : Shared M S) (s : SnServer).

Definition sn_shared s : Shared M S := b_shared (sn_broker s).
Definition on_sn_shared (f : Shared M S → Shared M S) s : SnServer :=
  s <| sn_broker ::= λ b, b <| b_shared ::= f |> |>.
Definition sn_metrics (f : Metrics → Metrics) s : SnServer :=
  on_sn_shared (λ w, w <| sh_metrics ::= f |>) s.
Definition set_client (peer : SocketAddr) (c : SnClient) s : SnServer :=
  s <| sn_clients ::= <[peer := c]> |>.

(** [send]; a failure of [send_to] is logged only. *)
Definition sn_send (peer : SocketAddr) (pkt : SnPacket) s : SnServer :=
  match encode_packet pkt with
  | [] => s
  | data => s <| sn_sent ::= λ l, l ++ [(peer, data)] |>
  end.

Definition cleanup_session w (client_id : string) (epoch : Z) (clean : bool) (now : Instant) : Shared M S :=
  if negb (owns (sh_sessions w) client_id epoch) then w
  else
    let w :=
      if clean then
        w <| sh_subscriptions ::= λ t, unsubscribe_all t client_id |>
          <| sh_sessions ::= λ ss, (remove ss client_id).2 |>
      else w <| sh_sessions ::= λ ss, mark_offline ss client_id epoch now |> in
    w <| sh_metrics ::= dec_connections |> <| sh_metrics ::= inc_disconnect |>.

(** ** CONNECT *)

Definition sn_connect s (peer : SocketAddr) (flags protocol_id duration : Z) (client_id : string)
    (now : Instant) : SnServer :=
  let b := sn_broker s in
  let refuse code := sn_send peer (SnConnack code) s in
  if negb (protocol_id =? PROTOCOL_ID_MQTTSN) then refuse RC_NOT_SUPPORTED
  else if negb (allow_anonymous (b_auth b)) then refuse RC_NOT_SUPPORTED
  else if str_is_empty client_id then refuse RC_REJECTED
  else if wrap_u64 (connections_current (sh_metrics (b_shared b))) >=? max_connections (b_config b)
  then refuse RC_CONGESTION
  else
    let clean := negb (Z.land flags FLAG_CLEAN =? 0) in
    let keep_alive_secs := if duration =? 0 then 60 else duration in
    let cap := Nat.max (max_inflight (b_config b)) 16 in
    let '(tx, ch) := channel (sh_chans (b_shared b)) cap in
    let '((epoch, _, _), sess) :=
      register (sh_sessions (b_shared b)) client_id clean tx None 4 peer None now in
    let s := on_sn_shared (λ w, w <| sh_chans := ch |> <| sh_sessions := sess |>) s in
    let s := sn_metrics inc_connections s in
    let s := set_client peer (SnClient_new client_id epoch clean keep_alive_secs peer now) s in
    let s := sn_send peer (SnConnack RC_ACCEPTED) s in
    s <| sn_tasks ::= λ ts, ts ++ [mkSnTask peer client_id epoch tx] |>.

(** ** PUBLISH *)

(** The topic of a PUBLISH: the registered one, or the two bytes of a short
    name. *)
Definition publish_topic (c : SnClient) (flags topic_id : Z) : option string :=
  match topic_name_of c topic_id with
  | Some t => Some t
  | None =>
      if (Z.land flags FLAG_TOPIC_ID_TYPE_MASK =? TOPIC_ID_TYPE_SHORT) && negb (topic_id =? 0)
      then Some (from_utf8_lossy (u16_to_be_bytes topic_id))
      else None
  end.

(** [None]: the delivery of the message does not return. *)
Definition sn_publish s (peer : SocketAddr) (flags topic_id msg_id : Z) (data : list Z) (now : Instant)
    : option SnServer :=
  match flags_to_qos flags with
  | Err rc => Some (if negb (topic_id =? 0) then sn_send peer (SnPuback 0 topic_id msg_id rc) s else s)
  | Ok qos =>
      match sn_clients s !! peer with
      | None => Some s
      | Some c =>
          let c := sn_touch c now in
          let s := set_client peer c s in
          match publish_topic c flags topic_id with
          | None =>
              Some (if negb (bool_decide (qos = QoS.AtMostOnce))
                    then sn_send peer (SnPuback 0 topic_id msg_id RC_INVALID_TOPIC_ID) s else s)
          | Some topic_name =>
              let retain := negb (Z.land flags FLAG_RETAIN =? 0) in
              w ← publish (sn_shared s) topic_name data qos retain (Some (sn_client_id c)) now;
              let s := sn_metrics inc_publish (on_sn_shared (λ _, w) s) in
              Some (if bool_decide (qos = QoS.AtLeastOnce)
                    then sn_send peer (SnPuback 0 topic_id msg_id RC_ACCEPTED) s else s)
          end
      end
  end.

(** ** SUBSCRIBE *)

Definition sn_subscribe s (peer : SocketAddr) (flags msg_id : Z) (topic : list Z) (now : Instant) : SnServer :=
  match flags_to_qos flags with
  | Err rc => sn_send peer (SnSuback 0 0 msg_id rc) s
  | Ok qos =>
      let id_type := Z.land flags FLAG_TOPIC_ID_TYPE_MASK in
      let topic_name := from_utf8_lossy topic in
      match sn_clients s !! peer with
      | None => sn_send peer (SnSuback 0 0 msg_id RC_NOT_SUPPORTED) s
      | Some c =>
          let c := sn_touch c now in
          match subscribe (sh_subscriptions (sn_shared s)) (sn_client_id c) topic_name qos with
          | Err _ => sn_send peer (SnSuback 0 0 msg_id RC_NOT_SUPPORTED) (set_client peer c s)
          | Ok tree =>
              let s := on_sn_shared (λ w, w <| sh_subscriptions := tree |> <| sh_metrics ::= inc_subscribe |>) s in
              let '(tid, c) :=
                match as_bytes topic_name with
                | [b0; b1] =>
                    if id_type =? TOPIC_ID_TYPE_SHORT then (u16_from_be_bytes b0 b1, c)
                    else assign_topic_id c topic_name
                | _ => assign_topic_id c topic_name
                end in
              sn_send peer (SnSuback (qos_to_flags qos) tid msg_id RC_ACCEPTED) (set_client peer c s)
          end
      end
  end.

(** ** The other packets *)

Definition sn_register s (peer : SocketAddr) (msg_id : Z) (topic_name : string) (now : Instant) : SnServer :=
  match sn_clients s !! peer with
  | Some c =>
      let '(tid, c) := assign_topic_id (sn_touch c now) topic_name in
      sn_send peer (SnRegack 0 tid msg_id RC_ACCEPTED) (set_client peer c s)
  | None => sn_send peer (SnRegack 0 0 msg_id RC_NOT_SUPPORTED) s
  end.

Definition sn_unsubscribe s (peer : SocketAddr) (msg_id : Z) (topic : list Z) (now : Instant) : SnServer :=
  let topic_name := from_utf8_lossy topic in
  let s :=
    match sn_clients s !! peer with
    | Some c =>
        let c := sn_touch c now in
        let s := on_sn_shared (λ w, w <| sh_subscriptions ::=
                   λ t, (unsubscribe t (sn_client_id c) topic_name).2 |>) s in
        let c := match topic_to_id c !! topic_name with
                 | Some tid => c <| topic_to_id ::= delete topic_name |> <| id_to_topic ::= delete tid |>
                 | None => c
                 end in
        set_client peer c s
    | None => s
    end in
  sn_send peer (SnUnsuback msg_id) (sn_metrics inc_unsubscribe s).

Definition sn_touch_peer (peer : SocketAddr) (now : Instant) s : SnServer :=
  match sn_clients s !! peer with
  | Some c => set_client peer (sn_touch c now) s
  | None => s
  end.

Definition sn_disconnect s (peer : SocketAddr) (duration : option Z) (now : Instant) : SnServer :=
  match sn_clients s !! peer, duration with
  | None, _ => s
  | Some c, Some d =>
      let s :=
        if owns (sh_sessions (sn_shared s)) (sn_client_id c) (sn_epoch c) then
          on_sn_shared (λ w, w <| sh_sessions ::= λ ss, mark_offline ss (sn_client_id c) (sn_epoch c) now |>) s
        else s in
      let c := c <| sleeping := true |> <| sleep_until := Some (now + from_secs d) |> in
      sn_metrics dec_connections (set_client peer c s)
  | Some c, None =>
      let s := s <| sn_clients ::= delete peer |> in
      on_sn_shared (λ w, cleanup_session w (sn_client_id c) (sn_epoch c) (sn_clean c) now) s
  end.

Definition sn_handle s (pkt : SnPacket) (peer : SocketAddr) (now : Instant) : option SnServer :=
  match pkt with
  | SnConnect flags protocol_id duration client_id =>
      Some (sn_connect s peer flags protocol_id duration client_id now)
  | SnRegister _ _ msg_id topic_name => Some (sn_register s peer msg_id topic_name now)
  | SnPublish flags topic_id msg_id data => sn_publish s peer flags topic_id msg_id data now
  | SnSubscribe flags msg_id topic => Some (sn_subscribe s peer flags msg_id topic now)
  | SnUnsubscribe _ msg_id topic => Some (sn_unsubscribe s peer msg_id topic now)
  | SnPingreq => Some (sn_send peer SnPingresp (sn_touch_peer peer now s))
  | SnDisconnect duration => Some (sn_disconnect s peer duration now)
  | SnPuback _ _ _ _ => Some (sn_touch_peer peer now s)
  | SnConnack _ | SnRegack _ _ _ _ | SnSuback _ _ _ _ | SnUnsuback _ | SnPingresp | SnUnknown _ => Some s
  end.

(** ** Background tasks *)

(** Whether the expiry task drops a client at this tick. *)
Definition sn_expired (c : SnClient) (now : Instant) : bool :=
  if sleeping c then
    match sleep_until c with Some until => now >=? until | None => false end
  else if keep_alive_secs c =? 0 then false
  else
    let limit := from_secs ((Z.max (keep_alive_secs c) 1 * 3 + 1) / 2) in
    duration_since now (last_seen c) >? limit.

Definition sn_drop_client (now : Instant) s (c : SnClient) : SnServer :=
  let s := s <| sn_clients ::= delete (sn_peer c) |> in
  on_sn_shared (λ w, cleanup_session w (sn_client_id c) (sn_epoch c) (sn_clean c) now) s.

Definition sn_sweep s (now : Instant) : SnServer :=
  let expired := List.filter (λ c, sn_expired c now) (map_to_list (sn_clients s)).*2 in
  foldl (sn_drop_client now) s expired.

(** One message of [forward_outbound]: whether the task goes on.  [send_ok] is
    the result of [send_to]. *)
Definition forward_step s (task : SnTask) (msg : OutboundPublish) (send_ok : bool) : bool * SnServer :=
  if negb (owns (sh_sessions (sn_shared s)) (task_client_id task) (task_epoch task)) then (false, s)
  else
    match sn_clients s !! task_peer task with
    | None => (false, s)
    | Some c =>
        if negb (sn_epoch c =? task_epoch task) then (false, s)
        else
          let '(topic_id, c) := assign_topic_id c (ob_topic msg) in
          let '(mid, c) := if bool_decide (ob_qos msg = QoS.AtMostOnce) then (0, c) else allocate_msg_id c in
          let s := set_client (task_peer task) c s in
          let sn_qos := if bool_decide (ob_qos msg = QoS.ExactlyOnce) then QoS.AtLeastOnce else ob_qos msg in
          let flags := Z.land (qos_to_flags sn_qos) (255 - FLAG_TOPIC_ID_TYPE_MASK) in
          match encode_packet (SnPublish flags topic_id mid (ob_payload msg)) with
          | [] => (true, s)
          | data => (send_ok, s <| sn_sent ::= λ l, l ++ [(task_peer task, data)] |>)
          end
    end.

(** ** The whole server *)

Inductive SnEvent :=
  | EvDatagram (peer : SocketAddr) (data : list Z)
  | EvSweep
  | EvForward (i : nat) (msg : option OutboundPublish) (send_ok : bool)
  | EvStop.

Definition sn_step s (ev : SnEvent) (now : Instant) : option SnServer :=
  match ev with
  | EvDatagram peer data =>
      match parse_packet data with
      | Ok pkt => sn_handle s pkt peer now
      | Err _ => Some s
      end
  | EvSweep => Some (sn_sweep s now)
  | EvForward i msg send_ok =>
      match sn_tasks s !! i, msg with
      | None, _ => Some s
      | Some _, None => Some (s <| sn_tasks ::= λ ts, take i ts ++ drop (1 + i) ts |>)
      | Some task, Some msg =>
          let '(go_on, s) := forward_step s task msg send_ok in
          Some (if go_on then s else s <| sn_tasks ::= λ ts, take i ts ++ drop (1 + i) ts |>)
      end
  | EvStop =>
      Some (on_sn_shared (λ w, foldl (λ w c, cleanup_session w (sn_client_id c) (sn_epoch c) (sn_clean c) now) w
                                (map_to_list (sn_clients s)).*2) s)
  end.

Fixpoint sn_run s (evs : list (SnEvent * Instant)) : option SnServer :=
  match evs with
  | [] => Some s
  | (ev, now) :: evs => s ← sn_step s ev now; sn_run s evs
  end.
End Gateway.
Arguments SnServer M S F : clear implicits.
