(* ===== verification/SnTheorems.v ===== *)
(** * Correctness of the MQTT-SN gateway

    The topic registry of a client, the invariant of the gateway under any
    sequence of datagrams, forwarded messages and ticks, and what happens to the
    messages of registered topics in both directions. *)

From S2P Require Import Prelude Packet Messages OfflineQueue Subscription SubscriptionProofs.
From S2P Require Import SubscriptionTheorems Storage StorageProofs Metrics Retain Session.
From S2P Require Import SessionProofs SessionTheorems Qos QosProofs QosTheorems Router.
From S2P Require Import RouterTheorems Auth IpFilter Limiter Security Plugin PluginTheorems.
From S2P Require Import Lifecycle LifecycleTheorems Handlers HandlersProofs HandlersTheorems Config.
From S2P Require Import SnCodec SnCodecTheorems SnGateway.

(** ** The registry *)

(** The two tables are inverse to each other, with identifiers in range. *)
Record registry_inv (c : SnClient) : Prop := {
  ri_bijection t i : topic_to_id c !! t = Some i ↔ id_to_topic c !! i = Some t;
  ri_range t i : topic_to_id c !! t = Some i → TOPIC_ID_MIN ≤ i ≤ TOPIC_ID_MAX;
  ri_next : TOPIC_ID_MIN ≤ next_topic_id c ≤ TOPIC_ID_MAX;
  ri_msg : 1 ≤ next_msg_id c ≤ 65535;
}.

(** Everything but the registry and the message counter. *)
Definition same_client (c c' : SnClient) : Prop :=
  sn_client_id c' = sn_client_id c ∧ sn_epoch c' = sn_epoch c ∧ sn_peer c' = sn_peer c.

(** The identifier tried at the [j]-th iteration. *)
Definition topic_at (next j : Z) : Z := (next - 1 + j) mod 65534 + 1.

Lemma topic_at_range next j : TOPIC_ID_MIN ≤ topic_at next j ≤ TOPIC_ID_MAX.
Proof. unfold topic_at, TOPIC_ID_MIN, TOPIC_ID_MAX. div_mod_lia. Qed.

Lemma topic_at_0 next : TOPIC_ID_MIN ≤ next ≤ TOPIC_ID_MAX → topic_at next 0 = next.
Proof. unfold topic_at, TOPIC_ID_MIN, TOPIC_ID_MAX. intros H. rewrite Z.mod_small by lia. lia. Qed.

Lemma next_topic_at next : TOPIC_ID_MIN ≤ next ≤ TOPIC_ID_MAX → next_topic next = topic_at next 1.
Proof.
  unfold next_topic, topic_at, TOPIC_ID_MIN, TOPIC_ID_MAX. intros H.
  destruct (Z.geb_spec next 0xFFFE); [replace next with 65534 by lia; done|]. rewrite Z.mod_small by lia. lia.
Qed.

Lemma topic_at_shift next j :
  TOPIC_ID_MIN ≤ next ≤ TOPIC_ID_MAX → topic_at (next_topic next) j = topic_at next (j + 1).
Proof.
  intros H. rewrite next_topic_at by done. unfold topic_at.
  replace ((next - 1 + 1) mod 65534 + 1 - 1 + j) with ((next - 1 + 1) mod 65534 + j) by lia.
  rewrite Zplus_mod_idemp_l. do 2 f_equal. lia.
Qed.

(** A client whose counter of topics has moved on. *)
Lemma registry_next c n :
  TOPIC_ID_MIN ≤ n ≤ TOPIC_ID_MAX → registry_inv c → registry_inv (c <| next_topic_id := n |>).
Proof. intros Hn [H1 H2 H3 H4]. by split. Qed.

Lemma registry_insert c t i :
  registry_inv c → topic_to_id c !! t = None → id_to_topic c !! i = None → TOPIC_ID_MIN ≤ i ≤ TOPIC_ID_MAX →
  registry_inv (c <| topic_to_id ::= <[t := i]> |> <| id_to_topic ::= <[i := t]> |>).
Proof.
  intros [H1 H2 H3 H4] Ht Hi Hr. split; [|..]; cbn; try done.
  - intros t' i'. rewrite !lookup_insert_Some. split.
    + intros [[<- <-]|[Hne E]]; [by left|]. right. apply H1 in E. split; [|done]. by intros ->; congruence.
    + intros [[<- <-]|[Hne E]]; [by left|]. right. apply H1 in E. split; [|done]. by intros ->; congruence.
  - intros t' i' [[<- <-]|[_ E]]%lookup_insert_Some; [done|]. by eapply H2.
Qed.

(** What an assignment does: the answer, and what it keeps. *)
Record assigned (c : SnClient) (t : string) (i : Z) (c' : SnClient) : Prop := {
  as_inv : registry_inv c';
  as_range : TOPIC_ID_MIN ≤ i ≤ TOPIC_ID_MAX;
  as_kept t' j : topic_to_id c !! t' = Some j → topic_to_id c' !! t' = Some j;
  as_same : same_client c c';
  as_found : topic_to_id c' !! t = Some i ∨
             ∀ j, TOPIC_ID_MIN ≤ j ≤ TOPIC_ID_MAX → is_Some (id_to_topic c !! j);
}.

Lemma assign_loop_spec n c t i c' :
  registry_inv c → topic_to_id c !! t = None → assign_loop n c t = (i, c') →
  registry_inv c' ∧ TOPIC_ID_MIN ≤ i ≤ TOPIC_ID_MAX ∧
  (∀ t' j, topic_to_id c !! t' = Some j → topic_to_id c' !! t' = Some j) ∧ same_client c c' ∧
  (topic_to_id c' !! t = Some i ∨
   ∀ j, 0 ≤ j < Z.of_nat n → is_Some (id_to_topic c !! topic_at (next_topic_id c) j)).
Proof.
  revert c. induction n as [|n IH]; intros c Hi Ht; cbn [assign_loop].
  { intros [= <- <-]. split; [done|]. split; [unfold TOPIC_ID_MIN, TOPIC_ID_MAX; lia|]. split; [done|].
    split; [done|]. right. lia. }
  pose proof (ri_next _ Hi) as Hn. replace (next_topic_id c =? 0) with false by (unfold TOPIC_ID_MIN in Hn; lia).
  assert (Hn' : TOPIC_ID_MIN ≤ next_topic (next_topic_id c) ≤ TOPIC_ID_MAX)
    by (rewrite next_topic_at by done; apply topic_at_range).
  set (c1 := c <| next_topic_id ::= next_topic |>).
  assert (Hi1 : registry_inv c1) by (apply (registry_next c _ Hn' Hi)).
  case_bool_decide as Hb.
  - intros E. apply IH in E as (H1 & H2 & H3 & H4 & H5); [|done..].
    split; [done|]. split; [done|]. split; [done|]. split; [done|].
    destruct H5 as [|H5]; [by left|]. right. intros j Hj. destruct (Z.eq_dec j 0) as [->|].
    + by rewrite topic_at_0.
    + specialize (H5 (j - 1) ltac:(lia)). subst c1. cbn in H5. rewrite topic_at_shift in H5 by done.
      by replace (j - 1 + 1) with j in H5 by lia.
  - intros [= <- <-]. apply eq_None_not_Some in Hb.
    split; [exact (registry_insert c1 t (next_topic_id c) Hi1 Ht Hb Hn)|]. split; [done|]. split; [|split; [done|]].
    + intros t' j E. cbn. rewrite lookup_insert_ne by congruence. done.
    + left. cbn. by rewrite lookup_insert_eq.
Qed.

Lemma assign_topic_id_spec c t i c' : registry_inv c → assign_topic_id c t = (i, c') → assigned c t i c'.
Proof.
  intros Hi. unfold assign_topic_id. destruct (topic_to_id c !! t) as [id|] eqn:Et.
  { intros [= <- <-]. split; [done|by eapply ri_range|done|done|by left]. }
  intros E. apply assign_loop_spec in E as (H1 & H2 & H3 & H4 & H5); [|done..]. split; [done..|].
  destruct H5 as [|H5]; [by left|]. right. intros j Hj. pose proof (ri_next _ Hi) as Hn.
  unfold TOPIC_ID_MIN, TOPIC_ID_MAX in *. specialize (H5 ((j - next_topic_id c) mod 65534)).
  rewrite Z2Nat.id in H5 by lia. pose proof (Z.mod_pos_bound (j - next_topic_id c) 65534 ltac:(lia)).
  specialize (H5 ltac:(lia)). unfold topic_at in H5. rewrite Zplus_mod_idemp_r in H5.
  replace (next_topic_id c - 1 + (j - next_topic_id c)) with (j - 1) in H5 by lia.
  rewrite Z.mod_small in H5 by lia. by replace (j - 1 + 1) with j in H5 by lia.
Qed.

(** With room for one more topic the search finds a free identifier. *)
Lemma all_topics_size c :
  (∀ j, TOPIC_ID_MIN ≤ j ≤ TOPIC_ID_MAX → is_Some (id_to_topic c !! j)) → 65534 ≤ Z.of_nat (size (id_to_topic c)).
Proof.
  intros H. assert (Hs : list_to_set (seqZ 1 65534) ⊆ (dom (id_to_topic c) : gset Z)).
  { intros id Hid. apply elem_of_list_to_set, elem_of_seqZ in Hid.
    apply elem_of_dom, H. unfold TOPIC_ID_MIN, TOPIC_ID_MAX. lia. }
  apply subseteq_size in Hs. rewrite size_list_to_set in Hs by apply NoDup_seqZ.
  rewrite length_seqZ, size_dom in Hs. lia.
Qed.

Lemma assigned_found c t i c' :
  assigned c t i c' → Z.of_nat (size (id_to_topic c)) < 65534 → topic_to_id c' !! t = Some i.
Proof. intros [_ _ _ _ [|H]] Hs; [done|]. apply all_topics_size in H. lia. Qed.

(** ** The invariant of the gateway *)

Section Gateway.
Context {M : Mpsc} {L : MpscLaws M} {S : Sled} {JR : Json RetainedMessage}
  {JS : Json SessionSnapshot} {JO : Json OutboundPublish} {F : ForwardEnv}.
Implicit Types (w : Shared M S) (s : SnServer M S F).

(** The shared state is consistent, and the epochs of [n] more registrations fit. *)
Definition world_ok (n : Z) w : Prop :=
  shared_inv (gauges (sh_metrics w)) w ∧ epoch_counter (sh_sessions w) + n < u64_mod.

Definition clients_ok (cs : gmap SocketAddr SnClient) : Prop :=
  ∀ peer c, cs !! peer = Some c → registry_inv c ∧ sn_peer c = peer.

Record sn_inv (n : Z) s : Prop := {
  sn_world : world_ok n (sn_shared s);
  sn_registry : clients_ok (sn_clients s);
}.

Lemma sn_inv_le n n' s : n' ≤ n → sn_inv n s → sn_inv n' s.
Proof. intros Hle [[H1 H2] H3]. split; [split; [done|lia]|done]. Qed.

Lemma clients_insert cs peer c :
  clients_ok cs → registry_inv c → sn_peer c = peer → clients_ok (<[peer := c]> cs).
Proof. intros Hcs Hc Hp p c' [[<- <-]|[_ E]]%lookup_insert_Some; [done|by apply Hcs]. Qed.

Lemma clients_delete cs peer : clients_ok cs → clients_ok (delete peer cs).
Proof. intros Hcs p c' [_ E]%lookup_delete_Some. by apply Hcs. Qed.

(** Counters do not matter. *)
Lemma world_metrics n w f : world_ok n w → world_ok n (w <| sh_metrics ::= f |>).
Proof. intros [[H1 H2 H3 _] Hn]. by split; [split|]. Qed.

Lemma sn_metrics_inv n s f : sn_inv n s → sn_inv n (sn_metrics f s).
Proof. intros [Hw Hc]. split; [by apply world_metrics|done]. Qed.

Lemma sn_send_inv n s peer pkt : sn_inv n s → sn_inv n (sn_send peer pkt s).
Proof. intros [Hw Hc]. unfold sn_send. by destruct (encode_packet pkt). Qed.

Lemma set_client_inv n s peer c : sn_inv n s → registry_inv c → sn_peer c = peer → sn_inv n (set_client peer c s).
Proof. intros [Hw Hc] Hr Hp. split; [done|]. by apply clients_insert. Qed.

Lemma on_sn_shared_inv n s f : sn_inv n s → world_ok n (f (sn_shared s)) → sn_inv n (on_sn_shared f s).
Proof. intros [_ Hc] Hw. by split. Qed.

Lemma touch_registry c now : registry_inv c → registry_inv (sn_touch c now).
Proof. intros [H1 H2 H3 H4]. by split. Qed.

Lemma msg_id_registry c : registry_inv c → registry_inv (allocate_msg_id c).2.
Proof.
  intros [H1 H2 H3 H4]. split; [done..|]. cbn. unfold wrap_u16.
  destruct (Z.eqb_spec ((next_msg_id c + 1) mod 65536) 0); [lia|]. div_mod_lia.
Qed.

(** *** Sessions *)

Lemma world_sessions n w sess :
  world_ok n w → sess_inv sess → max_offline_messages sess = max_offline_messages (sh_sessions w) →
  epoch_counter sess = epoch_counter (sh_sessions w) → world_ok n (w <| sh_sessions := sess |>).
Proof. intros [[H1 H2 H3 H4] Hn] Hs Hm He. split; [split; cbn; [done|lia|done..]|cbn; lia]. Qed.

Lemma world_tree n w t : world_ok n w → tree_inv t → world_ok n (w <| sh_subscriptions := t |>).
Proof. intros [[H1 H2 H3 H4] Hn] Ht. by split; [split|]. Qed.

Lemma mark_offline_epoch (self : SessionManager M) c ep now :
  epoch_counter (mark_offline self c ep now) = epoch_counter self.
Proof. unfold mark_offline. destruct (sessions self !! c); [|done]. by destruct (_ && _). Qed.

Lemma world_offline n w c ep now :
  world_ok n w → world_ok n (w <| sh_sessions ::= λ ss, mark_offline ss c ep now |>).
Proof.
  intros Hw. apply world_sessions; [done|apply mark_offline_inv, Hw|apply mark_offline_max|apply mark_offline_epoch].
Qed.

Lemma cleanup_session_ok n w c ep cl now : world_ok n w → world_ok n (cleanup_session w c ep cl now).
Proof.
  intros Hw. unfold cleanup_session. destruct (negb _); [done|]. do 2 apply world_metrics.
  destruct cl; [|by apply world_offline].
  apply world_sessions; [apply world_tree; [done|apply unsubscribe_all_inv, Hw]|apply remove_inv, Hw|..];
    cbn; unfold remove; destruct (sessions _ !! c) as [v|]; try done; by destruct (connected v).
Qed.

Lemma deliver_epoch (self : SessionManager M) c msg now ch o self' ch' :
  deliver_or_enqueue self c msg now ch = Some (o, self', ch') → epoch_counter self' = epoch_counter self.
Proof.
  assert (Hq : ∀ e m ch1 d, enqueue_or self c e m now ch1 d = Some (o, self', ch') → epoch_counter self' = epoch_counter self).
  { intros e m ch1 d. unfold enqueue_or, enqueue_into. destruct (offline_queue e); [|by intros [= _ <- _]].
    destruct (enqueue _ _ _); cbn; [by intros [= _ <- _]|done]. }
  unfold deliver_or_enqueue. destruct (sessions self !! c) as [e|]; [|by intros [= _ <- _]].
  destruct (connected e); [|apply Hq]. destruct (try_send _ _ _) as [[] ?]; [by intros [= _ <- _]|apply Hq..].
Qed.

Lemma publish_epoch w topic payload qos retain exclude now w' :
  publish w topic payload qos retain exclude now = Some w' →
  epoch_counter (sh_sessions w') = epoch_counter (sh_sessions w).
Proof.
  unfold publish. set (w1 := store_retained w topic payload qos retain).
  assert (H1 : sh_sessions w1 = sh_sessions w).
  { subst w1. unfold store_retained. destruct retain; [|done]. by destruct (Retain.set _ _ _ _ _). }
  clearbody w1. destruct (matches_shared _ _) as [tree sm].
  match goal with |- context [deliver_each ?v ?ts] => set (w2 := v); generalize ts end.
  assert (H2 : sh_sessions w2 = sh_sessions w) by done. rewrite <-H2. clearbody w2. clear. intros ts. revert w2.
  induction ts as [|[c q] ts IH]; intros w2; cbn [deliver_each]; [by intros [= <-]|].
  case_bool_decide; [apply IH|]. destruct (deliver_one _ _ _ _ _ _ _) as [w3|] eqn:E; [|done]. cbn.
  intros ->%IH. apply deliver_one_inv in E as (o & E & _). by eapply deliver_epoch.
Qed.

Lemma publish_ok n w topic payload qos retain exclude now :
  world_ok n w → ∃ w', publish w topic payload qos retain exclude now = Some w' ∧ world_ok n w'.
Proof.
  intros [Hi Hn]. destruct (publish_inv _ w topic payload qos retain exclude now Hi) as (w' & E & [H1 H2 H3 H4]).
  exists w'. split; [done|]. split; [by split|]. by rewrite (publish_epoch _ _ _ _ _ _ _ _ E).
Qed.

Lemma register_epoch (self : SessionManager M) c cl tx_ wl lvl peer ex now :
  sess_inv self → epoch_counter self + 1 < u64_mod →
  epoch_counter (register self c cl tx_ wl lvl peer ex now).2 = epoch_counter self + 1 ∧
  max_offline_messages (register self c cl tx_ wl lvl peer ex now).2 = max_offline_messages self.
Proof.
  intros Hi He. assert (Hw : wrap_u64 (epoch_counter self + 1) = epoch_counter self + 1).
  { unfold wrap_u64. apply Z.mod_small. pose proof (inv_counter _ Hi). lia. }
  unfold register. rewrite Hw. cbn. destruct (sessions self !! c) as [old|]; [|done]. by destruct (connected old).
Qed.

(** *** Handlers *)

Lemma sn_connect_inv n s peer flags pid duration cid now :
  1 ≤ n → sn_inv n s → sn_inv (n - 1) (sn_connect s peer flags pid duration cid now).
Proof.
  intros Hn Hs. assert (Hs' : sn_inv (n - 1) s) by (eapply sn_inv_le; [|done]; lia).
  unfold sn_connect. destruct (negb _); [by apply sn_send_inv|]. destruct (negb _); [by apply sn_send_inv|].
  destruct (str_is_empty cid); [by apply sn_send_inv|]. destruct (_ >=? _); [by apply sn_send_inv|]. cbv zeta.
  destruct (channel _ _) as [tx_ ch]. destruct Hs as [[[H1 H2 H3 H4] He] Hc].
  unfold sn_shared in *.
  match goal with |- context [register ?ss ?a ?b ?d ?e ?f ?g ?h ?i] =>
    pose proof (register_inv ss a b d e f g h i H1 ltac:(lia)) as Hr;
    destruct (register_epoch ss a b d e f g h i H1 ltac:(lia)) as [He' Hm'];
    destruct (register ss a b d e f g h i) as [[[epoch pres] off] sess] end.
  cbn in Hr, He', Hm'.
  match goal with |- sn_inv _ (?t <| sn_tasks ::= _ |>) => enough (Ht : sn_inv (n - 1) t) by (by destruct Ht) end.
  apply sn_send_inv, set_client_inv; [apply sn_metrics_inv, on_sn_shared_inv; [done|]| |done].
  - split; [split; cbn; [done|lia|done..]|cbn; lia].
  - split; cbn; [intros t i; by rewrite !lookup_empty|intros t i; by rewrite lookup_empty|..];
      unfold TOPIC_ID_MIN, TOPIC_ID_MAX; lia.
Qed.

Lemma client_touched s n peer c now :
  sn_inv n s → sn_clients s !! peer = Some c → registry_inv (sn_touch c now) ∧ sn_peer (sn_touch c now) = peer.
Proof. intros [_ Hc] E. apply Hc in E as [Hr Hp]. split; [by apply touch_registry|done]. Qed.

Lemma sn_publish_inv n s peer flags tid mid data now :
  sn_inv n s → ∃ s', sn_publish s peer flags tid mid data now = Some s' ∧ sn_inv n s'.
Proof.
  intros Hs. unfold sn_publish. destruct (flags_to_qos flags) as [qos|rc].
  2:{ eexists. split; [done|]. destruct (negb _); [by apply sn_send_inv|done]. }
  destruct (sn_clients s !! peer) as [c|] eqn:E; [|eauto].
  destruct (client_touched _ _ _ _ now Hs E) as [Hr Hp]. set (c1 := sn_touch c now) in *.
  assert (Hs1 : sn_inv n (set_client peer c1 s)) by by apply set_client_inv. cbv zeta.
  destruct (publish_topic c1 flags tid) as [name|].
  - change (sn_shared (set_client peer c1 s)) with (sn_shared s).
    destruct (publish_ok n (sn_shared s) name data qos (negb (Z.land flags FLAG_RETAIN =? 0))
                (Some (sn_client_id c1)) now (sn_world _ _ Hs)) as (w' & -> & Hw'). cbn [mbind option_bind].
    eexists. split; [done|].
    assert (Hs2 : sn_inv n (sn_metrics inc_publish (on_sn_shared (λ _, w') (set_client peer c1 s)))).
    { by apply sn_metrics_inv, on_sn_shared_inv. }
    case_bool_decide; [by apply sn_send_inv|done].
  - eexists. split; [done|]. destruct (negb _); [by apply sn_send_inv|done].
Qed.

Lemma sn_subscribe_inv n s peer flags mid topic now :
  sn_inv n s → sn_inv n (sn_subscribe s peer flags mid topic now).
Proof.
  intros Hs. unfold sn_subscribe. destruct (flags_to_qos flags) as [qos|rc]; [|by apply sn_send_inv].
  cbv zeta. destruct (sn_clients s !! peer) as [c|] eqn:E; [|by apply sn_send_inv].
  destruct (client_touched _ _ _ _ now Hs E) as [Hr Hp]. set (c1 := sn_touch c now) in *.
  set (name := from_utf8_lossy topic).
  destruct (subscribe _ _ _ _) as [tree|] eqn:Es; [|by apply sn_send_inv, set_client_inv].
  match goal with |- context [set_client peer _ ?t] => set (s1 := t) end.
  assert (Hs1 : sn_inv n s1).
  { apply on_sn_shared_inv; [done|]. apply world_metrics, world_tree; [apply Hs|].
    eapply subscribe_inv; [|exact Es]. apply Hs. }
  assert (Hassign : ∀ i c2, assign_topic_id c1 name = (i, c2) → sn_inv n (set_client peer c2 s1)).
  { intros i c2 Ea. apply assign_topic_id_spec in Ea as [H1 _ _ (_ & _ & H2) _]; [|done].
    apply set_client_inv; [done..|]. by rewrite H2. }
  assert (Hgoal : ∀ r : Z * SnClient, (∃ i, r = (i, c1)) ∨ r = assign_topic_id c1 name →
    sn_inv n (let '(tid, c) := r in sn_send peer (SnSuback (qos_to_flags qos) tid mid RC_ACCEPTED) (set_client peer c s1))).
  { intros [i c2] [[j [= -> ->]]|Ea]; apply sn_send_inv; [by apply set_client_inv|]. by eapply Hassign. }
  apply Hgoal. destruct (as_bytes name) as [|b0 [|b1 []]]; [by right..| |by right].
  destruct (_ =? _); [by left; eexists|by right].
Qed.

Lemma registry_forget c t i :
  registry_inv c → topic_to_id c !! t = Some i →
  registry_inv (c <| topic_to_id ::= delete t |> <| id_to_topic ::= delete i |>).
Proof.
  intros [H1 H2 H3 H4] Et. split; cbn; [| |done..].
  - intros t' i'. rewrite !lookup_delete_Some, H1. split; intros [Hne E]; (split; [|done]).
    + intros <-. apply H1 in Et. congruence.
    + intros <-. apply H1 in E. congruence.
  - intros t' i' [_ E]%lookup_delete_Some. by eapply H2.
Qed.

Lemma sn_unsubscribe_inv n s peer mid topic now :
  sn_inv n s → sn_inv n (sn_unsubscribe s peer mid topic now).
Proof.
  intros Hs. unfold sn_unsubscribe. cbv zeta. apply sn_send_inv, sn_metrics_inv.
  destruct (sn_clients s !! peer) as [c|] eqn:E; [|done].
  destruct (client_touched _ _ _ _ now Hs E) as [Hr Hp]. set (c1 := sn_touch c now) in *.
  apply set_client_inv.
  - apply on_sn_shared_inv; [done|]. apply world_tree; [apply Hs|].
    destruct (unsubscribe _ _ _) as [r t] eqn:Eu. eapply unsubscribe_inv; [|exact Eu]. apply Hs.
  - destruct (topic_to_id c1 !! _) as [i|] eqn:Et; [by apply registry_forget|done].
  - by destruct (topic_to_id c1 !! _).
Qed.

Lemma sn_register_inv n s peer mid t now : sn_inv n s → sn_inv n (sn_register s peer mid t now).
Proof.
  intros Hs. unfold sn_register. destruct (sn_clients s !! peer) as [c|] eqn:E; [|by apply sn_send_inv].
  destruct (client_touched _ _ _ _ now Hs E) as [Hr Hp].
  destruct (assign_topic_id _ t) as [i c2] eqn:Ea. apply assign_topic_id_spec in Ea as [H1 _ _ (_ & _ & H2) _]; [|done].
  apply sn_send_inv, set_client_inv; [done..|]. by rewrite H2.
Qed.

Lemma sn_disconnect_inv n s peer d now : sn_inv n s → sn_inv n (sn_disconnect s peer d now).
Proof.
  intros Hs. unfold sn_disconnect. destruct (sn_clients s !! peer) as [c|] eqn:E; [|by destruct d].
  pose proof (sn_registry _ _ Hs _ _ E) as [[R1 R2 R3 R4] Hp]. destruct d as [d|]; cbv zeta.
  - apply sn_metrics_inv, set_client_inv; [|by split|done].
    destruct (owns _ _ _); [|done]. apply on_sn_shared_inv; [done|]. apply world_offline, Hs.
  - apply on_sn_shared_inv; [|apply cleanup_session_ok, Hs]. destruct Hs as [Hw Hc]. split; [done|]. by apply clients_delete.
Qed.

Lemma sn_handle_inv n s pkt peer now :
  1 ≤ n → sn_inv n s → ∃ s', sn_handle s pkt peer now = Some s' ∧ sn_inv (n - 1) s'.
Proof.
  intros Hn Hs. assert (Hle : ∀ s', sn_inv n s' → sn_inv (n - 1) s') by (intros; eapply sn_inv_le; [|done]; lia).
  assert (Htouch : sn_inv n (sn_touch_peer peer now s)).
  { unfold sn_touch_peer. destruct (sn_clients s !! peer) as [c|] eqn:E; [|done].
    destruct (client_touched _ _ _ _ now Hs E). by apply set_client_inv. }
  destruct pkt; cbn [sn_handle]; try (eexists; split; [done|]; apply Hle; auto; fail).
  - eexists. split; [done|]. by apply sn_connect_inv.
  - eexists. split; [done|]. by apply Hle, sn_register_inv.
  - destruct (sn_publish_inv n s peer flags topic_id msg_id data now Hs) as (s' & -> & H). eauto.
  - eexists. split; [done|]. by apply Hle, sn_subscribe_inv.
  - eexists. split; [done|]. by apply Hle, sn_unsubscribe_inv.
  - eexists. split; [done|]. by apply Hle, sn_send_inv.
  - eexists. split; [done|]. by apply Hle, sn_disconnect_inv.
Qed.

(** *** Background tasks *)

Lemma sn_sweep_inv n s now : sn_inv n s → sn_inv n (sn_sweep s now).
Proof.
  unfold sn_sweep. generalize (List.filter (λ c, sn_expired c now) (map_to_list (sn_clients s)).*2).
  intros cs. revert s. induction cs as [|c cs IH]; intros s Hs; cbn [foldl]; [done|]. apply IH.
  unfold sn_drop_client. apply on_sn_shared_inv; [|apply cleanup_session_ok, Hs].
  destruct Hs as [Hw Hc]. split; [done|]. by apply clients_delete.
Qed.

Lemma forward_step_inv n s task msg ok : sn_inv n s → sn_inv n (forward_step s task msg ok).2.
Proof.
  intros Hs. unfold forward_step. destruct (negb _); [done|]. destruct (sn_clients s !! _) as [c|] eqn:E; [|done].
  destruct (negb _); [done|]. pose proof (sn_registry _ _ Hs _ _ E) as [Hr Hp].
  destruct (assign_topic_id c _) as [i c1] eqn:Ea. apply assign_topic_id_spec in Ea as [H1 _ _ (_ & _ & H2) _]; [|done].
  assert (Hs1 : ∀ c2, registry_inv c2 → sn_peer c2 = sn_peer c1 → sn_inv n (set_client (task_peer task) c2 s)).
  { intros c2 Hr2 Hp2. apply set_client_inv; [done..|]. congruence. }
  assert (Hr2 : registry_inv (allocate_msg_id c1).2) by by apply msg_id_registry.
  assert (Hsent : ∀ t d, sn_inv n t → sn_inv n (t <| sn_sent ::= λ l, l ++ d |>)) by (by intros t d []).
  case_bool_decide; cbv zeta.
  - destruct (encode_packet _); [by apply Hs1|]. by apply Hsent, Hs1.
  - destruct (allocate_msg_id c1) as [mid c2] eqn:Em. cbn [snd] in Hr2.
    assert (Hp2 : sn_peer c2 = sn_peer c1) by (unfold allocate_msg_id in Em; by injection Em as _ <-).
    destruct (encode_packet _); [by apply Hs1|]. by apply Hsent, Hs1.
Qed.

Lemma sn_step_inv n s ev now :
  1 ≤ n → sn_inv n s → ∃ s', sn_step s ev now = Some s' ∧ sn_inv (n - 1) s'.
Proof.
  intros Hn Hs. assert (Hle : ∀ s', sn_inv n s' → sn_inv (n - 1) s') by (intros; eapply sn_inv_le; [|done]; lia).
  destruct ev as [peer data| |i msg ok|]; cbn [sn_step].
  - destruct (parse_packet data); [by apply sn_handle_inv|eauto].
  - eexists. split; [done|]. by apply Hle, sn_sweep_inv.
  - assert (Hdrop : ∀ t, sn_inv n t → sn_inv n (t <| sn_tasks ::= λ ts, take i ts ++ drop (1 + i) ts |>)) by (by intros t []).
    destruct (sn_tasks s !! i) as [task|]; [|eauto]. destruct msg as [msg|]; [|eauto].
    pose proof (forward_step_inv n s task msg ok Hs) as Hf. destruct (forward_step s task msg ok) as [[] s']; eauto.
  - eexists. split; [done|]. apply Hle, on_sn_shared_inv; [done|].
    generalize (map_to_list (sn_clients s)).*2. intros cs. assert (Hw : world_ok n (sn_shared s)) by apply Hs.
    revert Hw. generalize (sn_shared s). induction cs as [|c cs IH]; intros w Hw; cbn [foldl]; [done|].
    by apply IH, cleanup_session_ok.
Qed.

(** The MQTT-SN gateway under any traffic.  From a consistent broker and no
    clients, whatever datagrams arrive from whichever peers, and however they
    interleave with forwarded messages, expiry ticks and the shutdown, every event
    is handled to the end; the session table and the subscription tree stay
    consistent, and in every client's registry the tables from topics to
    identifiers and back are inverse to each other, with identifiers between 1
    and 65534. *)
Theorem sn_gateway_safe s evs :
  shared_inv (gauges (sh_metrics (sn_shared s))) (sn_shared s) → sn_clients s = ∅ →
  epoch_counter (sh_sessions (sn_shared s)) + Z.of_nat (length evs) < u64_mod →
  ∃ s', sn_run s evs = Some s' ∧
    shared_inv (gauges (sh_metrics (sn_shared s'))) (sn_shared s') ∧
    ∀ peer c, sn_clients s' !! peer = Some c → registry_inv c ∧ sn_peer c = peer.
Proof.
  intros Hw Hc Hn. assert (Hs : sn_inv (Z.of_nat (length evs)) s).
  { split; [by split|]. intros p c. by rewrite Hc, lookup_empty. }
  clear Hw Hc Hn. revert s Hs. induction evs as [|[ev now] evs IH]; intros s Hs; cbn [sn_run].
  { exists s. split; [done|]. destruct Hs as [[Hw _] Hc]. by split. }
  destruct (sn_step_inv (Z.of_nat (length ((ev, now) :: evs))) s ev now ltac:(cbn [length]; lia) Hs) as (s1 & -> & Hs1). cbn [mbind option_bind].
  apply IH. eapply sn_inv_le; [|exact Hs1]. cbn [length]. lia.
Qed.

(** Registration and publication of a topic.  A REGISTER of a connected client
    with fewer than 65534 topics is answered with an identifier, keeps every
    identifier given out before, and a PUBLISH under the new identifier is
    published to everybody but its sender under exactly the registered topic,
    with the QoS and the retain flag of its flags, and is acknowledged if it has
    QoS 1. *)
Theorem sn_register_publish s peer c mid t now flags qos mid' data now' :
  sn_inv 0 s → sn_clients s !! peer = Some c → Z.of_nat (size (id_to_topic c)) < 65534 →
  flags_to_qos flags = Ok qos →
  let s1 := sn_register s peer mid t now in
  ∃ i c1 w', TOPIC_ID_MIN ≤ i ≤ TOPIC_ID_MAX ∧
    sn_sent s1 = sn_sent s ++ [(peer, encode_packet (SnRegack 0 i mid RC_ACCEPTED))] ∧
    sn_clients s1 = <[peer := c1]> (sn_clients s) ∧
    (∀ t' j, topic_to_id c !! t' = Some j → topic_to_id c1 !! t' = Some j) ∧
    publish (sn_shared s) t data qos (negb (Z.land flags FLAG_RETAIN =? 0)) (Some (sn_client_id c)) now' = Some w' ∧
    ∃ s2, sn_publish s1 peer flags i mid' data now' = Some s2 ∧
      sn_shared s2 = w' <| sh_metrics ::= inc_publish |> ∧
      sn_sent s2 = sn_sent s1 ++
        (if bool_decide (qos = QoS.AtLeastOnce) then [(peer, encode_packet (SnPuback 0 i mid' RC_ACCEPTED))] else []).
Proof.
  intros Hs Ec Hsize Hq. cbv zeta. unfold sn_register. rewrite Ec.
  destruct (client_touched _ _ _ _ now Hs Ec) as [Hr Hp].
  destruct (assign_topic_id (sn_touch c now) t) as [i c1] eqn:Ea. apply assign_topic_id_spec in Ea; [|done].
  pose proof (assigned_found _ _ _ _ Ea Hsize) as Hfound. destruct Ea as [Hinv Hrange Hkept (Hid & _) _].
  destruct (publish_ok 0 (sn_shared s) t data qos (negb (Z.land flags FLAG_RETAIN =? 0)) (Some (sn_client_id c)) now'
              (sn_world _ _ Hs)) as (w' & Ew & _).
  set (s1 := sn_send _ _ _).
  assert (Hc1 : sn_clients s1 = <[peer := c1]> (sn_clients s)) by done.
  assert (Hsent : sn_sent s1 = sn_sent s ++ [(peer, encode_packet (SnRegack 0 i mid RC_ACCEPTED))]) by done.
  assert (Hshared : sn_shared s1 = sn_shared s) by done. clearbody s1.
  exists i, c1, w'. split; [done|]. split; [done|]. split; [done|]. split; [done|]. split; [done|].
  unfold sn_publish. rewrite Hq, Hc1, lookup_insert_eq. set (c2 := sn_touch c1 now').
  assert (Hname : publish_topic c2 flags i = Some t).
  { unfold publish_topic, topic_name_of. subst c2. cbn. apply (ri_bijection _ Hinv) in Hfound. by rewrite Hfound. }
  assert (Hid2 : sn_client_id c2 = sn_client_id c) by exact Hid.
  cbv zeta. rewrite Hname, Hid2. change (sn_shared (set_client peer c2 s1)) with (sn_shared s1). rewrite Hshared, Ew.
  cbn [mbind option_bind]. eexists. split; [done|]. case_bool_decide; [by split|]. by rewrite app_nil_r.
Qed.

(** Outbound messages.  A forwarder hands a message to the socket only while
    its session is still owned under its epoch and the client behind the peer's
    address is the one of that epoch; otherwise it ends without a trace, so that
    nothing reaches another client that has come to use the address.  The datagram
    is a PUBLISH with the message's payload, QoS 2 lowered to 1, a non-zero message
    identifier exactly for QoS 1, and a topic identifier that the client's registry
    maps to the message's topic (as long as fewer than 65534 are in use). *)
Theorem sn_forward_safe s task msg ok go s' :
  sn_inv 0 s → is_bytes (ob_payload msg) = true → forward_step s task msg ok = (go, s') →
  sn_shared s' = sn_shared s ∧
  (owns (sh_sessions (sn_shared s)) (task_client_id task) (task_epoch task) = false ∨
   (∀ c, sn_clients s !! task_peer task = Some c → sn_epoch c ≠ task_epoch task) → go = false ∧ s' = s) ∧
  (∀ c, owns (sh_sessions (sn_shared s)) (task_client_id task) (task_epoch task) = true →
   sn_clients s !! task_peer task = Some c → sn_epoch c = task_epoch task →
   go = ok ∧
   ∃ i mid c' datagram, sn_clients s' = <[task_peer task := c']> (sn_clients s) ∧
     sn_sent s' = sn_sent s ++ [(task_peer task, datagram)] ∧
     parse_packet datagram =
       Ok (SnPublish (qos_to_flags (QoS.min (ob_qos msg) QoS.AtLeastOnce)) i mid (ob_payload msg)) ∧
     (mid = 0 ↔ ob_qos msg = QoS.AtMostOnce) ∧
     (Z.of_nat (size (id_to_topic c)) < 65534 → topic_name_of c' i = Some (ob_topic msg))).
Proof.
  intros Hs Hpay. unfold forward_step. destruct (owns _ _ _) eqn:Eo; cbn [negb].
  2:{ intros [= <- <-]. split; [done|]. split; [done|]. intros c [=]. }
  destruct (sn_clients s !! task_peer task) as [c|] eqn:Ec.
  2:{ intros [= <- <-]. split; [done|]. split; [done|]. intros c _ [=]. }
  destruct (Z.eqb_spec (sn_epoch c) (task_epoch task)) as [Hep|Hep]; cbn [negb].
  2:{ intros [= <- <-]. split; [done|]. split; [done|]. intros c' _ [= <-] H. done. }
  pose proof (sn_registry _ _ Hs _ _ Ec) as [Hr Hp].
  destruct (assign_topic_id c (ob_topic msg)) as [i c1] eqn:Ea. apply assign_topic_id_spec in Ea; [|done].
  pose proof (assigned_found _ _ _ _ Ea) as Hfound. destruct Ea as [Hinv Hrange _ _ _].
  (* the message identifier *)
  assert (Hmid : ∃ mid c2, (if bool_decide (ob_qos msg = QoS.AtMostOnce) then (0, c1) else allocate_msg_id c1) = (mid, c2) ∧
    (mid = 0 ↔ ob_qos msg = QoS.AtMostOnce) ∧ is_u16 mid = true ∧ id_to_topic c2 = id_to_topic c1).
  { pose proof (ri_msg _ Hinv). case_bool_decide as Hq.
    - exists 0, c1. done.
    - exists (next_msg_id c1). eexists. split; [done|]. split; [split; [lia|done]|]. split; [|done]. apply is_u16_spec. lia. }
  destruct Hmid as (mid & c2 & -> & Hm0 & Hmu & Hids). cbv zeta.
  set (p := SnPublish _ i mid (ob_payload msg)).
  assert (Hp' : p = SnPublish (qos_to_flags (QoS.min (ob_qos msg) QoS.AtLeastOnce)) i mid (ob_payload msg))
    by (subst p; by destruct (ob_qos msg)).
  assert (Hwf : sn_wf p = true).
  { rewrite Hp'. cbn [sn_wf]. split_andb; [by destruct (ob_qos msg)|apply is_u16_spec; unfold TOPIC_ID_MIN, TOPIC_ID_MAX in *; lia|done..]. }
  destruct (sn_parse_encode p _ Hwf eq_refl) as (Hparse & Hne & _). rewrite Hp' in Hparse. rewrite Hp' in *.
  destruct (encode_packet _) as [|z zs]; [done|]. intros [= <- <-]. split; [done|]. split.
  - intros [[=]|H]. by destruct (H c).
  - intros c' _ [= <-] _. split; [done|]. exists i, mid, c2, (z :: zs). split; [done|].
    split; [done|]. split; [done|]. split; [done|].
    intros Hsz. unfold topic_name_of. rewrite Hids. by apply (ri_bijection _ Hinv), Hfound.
Qed.
End Gateway.

(** ** A concrete gateway *)

Import ListChan MapDb ListForward Demo HandlerDemo.

Module SnDemo.
Definition gateway : SnServer list_mpsc map_sled list_forward := mkSnServer server ∅ [] [].
Definition sensor : SocketAddr := mkSocketAddr (V4 9) 1884.

(** CONNECT of client "s1", keeping its session; SUBSCRIBE to "a/b" with QoS 1;
    DISCONNECT for a sleep of one second; DISCONNECT. *)
Definition connect : list Z := [8; 4; 0; 1; 0; 60; 115; 49].
Definition subscribe_ab : list Z := [8; 0x11; 0x20; 0; 1; 97; 47; 98].
Definition sleep : list Z := [4; 0x17; 0; 1].
Definition bye : list Z := [2; 0x17].

Definition connected : SnServer list_mpsc map_sled list_forward := sn_connect gateway sensor 0 1 60 "s1" 1.

Lemma gateway_inv : sn_inv 1 gateway.
Proof.
  split; [split; [exact broker_inv0|vm_compute; reflexivity]|]. intros p c. cbn. by rewrite lookup_empty.
Qed.
Lemma connected_inv : sn_inv 0 connected.
Proof. apply (sn_connect_inv 1); [lia|exact gateway_inv]. Qed.

(** The task that its CONNECT started; its session has the fourth epoch. *)
Definition forwarder : SnTask := mkSnTask (M := list_mpsc) sensor "s1" 4 (fresh (dom (sh_chans (sn_shared gateway)))).


(** Another client, which registers "a/b" and publishes on it. *)
Definition meter : SocketAddr := mkSocketAddr (V4 10) 1884.
Definition connect_s2 : list Z := [8; 4; 0; 1; 0; 60; 115; 50].
Definition register_ab : list Z := [10; 0x0A; 0; 0; 0; 0; 1; 97; 47; 98].
Definition publish_ab : list Z := [8; 0x0C; 0x20; 0; 1; 0; 2; 42].

(** What waits for "s1", and the types of the packets sent to it. *)
Definition waiting (s : SnServer list_mpsc map_sled list_forward) : option nat :=
  e ← sessions (sh_sessions (sn_shared s)) !! "s1"; q ← offline_queue e; Some (length (inner q)).
Definition sent_types (s : SnServer list_mpsc map_sled list_forward) : list (option Z) :=
  (λ d : SocketAddr * list Z, d.2 !! 1%nat) <$> filter (λ d, d.1 = sensor) (sn_sent s).

(** The connection gauge after some events. *)
Definition gauge_after (evs : list (SnEvent * Instant)) : option Z :=
  s ← sn_run gateway evs; Some (connections_current (sh_metrics (sn_shared s))).
End SnDemo.
Import SnDemo.

Lemma sn_gateway_safe_witness :
  ∃ s', sn_run gateway [(EvDatagram sensor SnDemo.connect, 1); (EvDatagram sensor subscribe_ab, 2); (EvSweep, 3)] = Some s' ∧
    shared_inv (gauges (sh_metrics (sn_shared s'))) (sn_shared s') ∧
    ∀ peer c, sn_clients s' !! peer = Some c → registry_inv c ∧ sn_peer c = peer.
Proof. apply sn_gateway_safe; [exact broker_inv0|reflexivity|vm_compute; reflexivity]. Defined.

Lemma sn_register_publish_witness :
  ∃ i c1, TOPIC_ID_MIN ≤ i ≤ TOPIC_ID_MAX ∧
    sn_clients (sn_register SnDemo.connected sensor 5 "a/b" 2) = <[sensor := c1]> (sn_clients SnDemo.connected).
Proof.
  destruct (sn_clients SnDemo.connected !! sensor) as [c|] eqn:E; [|by vm_compute in E].
  assert (Hsize : size (id_to_topic c) = 0%nat).
  { apply (f_equal (option_map (λ c, size (id_to_topic c)))) in E. vm_compute in E. by injection E. }
  destruct (sn_register_publish SnDemo.connected sensor c 5 "a/b" 2 0x20 QoS.AtLeastOnce 6 [7] 3 connected_inv E)
    as (i & c1 & w' & H1 & _ & H2 & _); [rewrite Hsize; lia|reflexivity|]. eauto.
Defined.

(** A message of QoS 2 for "s1", sent to it with QoS 1. *)
Lemma sn_forward_safe_witness :
  ∃ s' i mid datagram,
    forward_step SnDemo.connected forwarder (mkOutboundPublish "a/b" [7; 8] QoS.ExactlyOnce false) true = (true, s') ∧
    sn_sent s' = sn_sent SnDemo.connected ++ [(sensor, datagram)] ∧
    parse_packet datagram = Ok (SnPublish 0x20 i mid [7; 8]) ∧ mid ≠ 0.
Proof.
  destruct (sn_clients SnDemo.connected !! sensor) as [c|] eqn:Ec; [|by vm_compute in Ec].
  assert (Hep : sn_epoch c = task_epoch forwarder).
  { assert (H : option_map sn_epoch (Some c) = Some (task_epoch forwarder)) by (rewrite <-Ec; vm_compute; reflexivity).
    injection H as H. exact H. }
  destruct (forward_step SnDemo.connected forwarder (mkOutboundPublish "a/b" [7; 8] QoS.ExactlyOnce false) true)
    as [go s'] eqn:E.
  destruct (sn_forward_safe SnDemo.connected forwarder (mkOutboundPublish "a/b" [7; 8] QoS.ExactlyOnce false) true
    go s' connected_inv eq_refl E) as (_ & _ & H).
  destruct (H c ltac:(vm_compute; reflexivity) Ec Hep) as (-> & i & mid & c' & d & _ & Hsent & Hp & Hm & _).
  exists s', i, mid, d. split; [reflexivity|]. split; [exact Hsent|]. split; [exact Hp|]. intros Hz. apply Hm in Hz. discriminate Hz.
Defined.

(** A client that sleeps and is expired is taken out of the connection gauge
    twice; one whose CONNECT arrives twice is counted twice and taken out once. *)
Example sleeper_counted_twice :
  gauge_after [(EvDatagram sensor SnDemo.connect, 1); (EvDatagram sensor sleep, 2); (EvSweep, from_secs 9)] = Some (-1).
Proof. vm_compute. reflexivity. Qed.

Example repeated_connect_leaks :
  gauge_after [(EvDatagram sensor SnDemo.connect, 1); (EvDatagram sensor SnDemo.connect, 2); (EvDatagram sensor bye, 3)] = Some 1.
Proof. vm_compute. reflexivity. Qed.

(** What was published while a client slept is lost when it wakes: its CONNECT
    takes the messages out of the queue and does not send them. *)
Example sleeper_loses_messages :
  let asleep := [(EvDatagram sensor SnDemo.connect, 1); (EvDatagram sensor subscribe_ab, 2); (EvDatagram sensor sleep, 3);
                 (EvDatagram meter connect_s2, 4); (EvDatagram meter register_ab, 5); (EvDatagram meter publish_ab, 6)] in
  option_map waiting (sn_run gateway asleep) = Some (Some 1%nat) ∧
  option_map (λ s, (waiting s, sent_types s)) (sn_run gateway (asleep ++ [(EvDatagram sensor SnDemo.connect, 7)]))
  = Some (Some 0%nat, Some <$> [MSG_CONNACK; MSG_SUBACK; MSG_CONNACK]).
Proof. vm_compute. split; reflexivity. Qed.
