(* ===== verification/System.v ===== *)
(** * The whole process

    All tasks of the process on one shared broker, as a step relation with labels:
    the listeners, the task of every connection, the MQTT-SN gateway with its
    forwarders, the expiry sweeper, the admin API with its dashboards, and the
    shutdown signal.  At each step one of them does what its code does next.  The
    steps of a connection are the functions of [Connection]: the check and the
    registration at the guard, the CONNECT, each replayed message, each event of
    the main loop, the end.  What a connection is handed from the router comes out
    of its own channel. *)

From S2P Require Import Prelude Packet Messages NetAddr OfflineQueue Subscription Storage Metrics.
From S2P Require Import Retain Session Qos Router Auth IpFilter Limiter Security Plugin.
From S2P Require Import Lifecycle Config Handlers Connection Listeners Admin TlsLoad Start.
From S2P Require Import SnCodec SnGateway.

Section System.
Context {M : Mpsc} {R : MpscRx M} {S : Sled} {JR : Json RetainedMessage} {JS : Json SessionSnapshot}
  {JO : Json OutboundPublish} {F : ForwardEnv} {K : Sink} {A : Axum} {T : Rustls}.

(** Where the task of a connection is: spawned (a TLS or WebSocket handshake may
    still be running), past the guard's check, registered and waiting for its
    CONNECT, replaying the messages that waited for the client, or in its main
    loop. *)
Inductive Task :=
  | TSpawned (peer : SocketAddr)
  | TChecked (peer : SocketAddr)
  | TPending (peer : SocketAddr) (k : SinkState)
  | TReplay (peer : SocketAddr) (si : Connection.SessionInfo) (ctx : ConnContext)
      (msgs : list OutboundPublish) (c : Conn K)
  | TLoop (peer : SocketAddr) (si : Connection.SessionInfo) (ctx : ConnContext) (c : Conn K).

(** [sys_services] and [sys_sweeper] are the tasks that [main] waits for and that
    are still running, [sys_down] the value of the shutdown watch, the last two
    fields the state of the MQTT-SN gateway. *)
Record System := mkSystem {
  sys_broker : Broker M S F;
  sys_tasks : gmap nat Task;
  sys_services : list Service;
  sys_sweeper : bool;
  sys_down : bool;
  sys_clients : gmap SocketAddr SnClient;
  sys_forwarders : list SnTask;
}.

#[export] Instance System_settable : Settable System :=
  λ s, mkSystem (sys_broker s) (sys_tasks s) (sys_services s) (sys_sweeper s) (sys_down s)
         (sys_clients s) (sys_forwarders s).

Implicit Types (s : System) (b : Broker M S F) (si : Connection.SessionInfo).

Definition set_chans (ch : Chans) b : Broker M S F := b <| b_shared ::= λ w, w <| sh_chans := ch |> |>.

(** ** What a connection can meet *)

(** An event of the main loop becomes ready, and the broker when its branch runs.
    The [select!] is biased: once the shutdown is signalled, that branch is taken.
    A message is the first of the channel; the channel ends when it is empty and
    its sender is gone, which the session table holds as long as the connection
    owns the session. *)
Definition take_event (down : bool) b si (ev : LoopEvent) : option (Broker M S F) :=
  if down then match ev with LShutdown true => Some b | _ => None end
  else
    match ev with
    | LShutdown _ => None
    | LOutbound None =>
        if owns (sh_sessions (b_shared b)) (si_client_id si) (si_epoch si) then None
        else match recv (sh_chans (b_shared b)) (si_rx si) with Some _ => None | None => Some b end
    | LOutbound (Some req) =>
        '(m, ch) ← recv (sh_chans (b_shared b)) (si_rx si);
        if decide (m = req) then Some (set_chans ch b) else None
    | LHeartbeat | LRetry | LPacket _ => Some b
    end.

(** Likewise for the branches of the replay's [select!]; [None]: the send. *)
Definition replay_ready (down : bool) (ev : option ReplayEvent) : bool :=
  match ev with
  | Some (RShutdown signalled _) => down && signalled
  | Some (RHeartbeat _ _) | Some RSend | None => negb down
  end.

(** The connection limit of a stream listener. *)
Definition listener_max (service : Service) : option Z :=
  match service with
  | TcpServer _ max | TlsServer _ max _ | WsServer _ max _ => Some max
  | MqttSnServer _ _ | AdminServer _ => None
  end.
Definition is_gateway (service : Service) : bool :=
  match service with MqttSnServer _ _ => true | _ => false end.
Definition is_admin (service : Service) : bool :=
  match service with AdminServer _ => true | _ => false end.

Definition set_task (id : nat) (o : option Task) (ts : gmap nat Task) : gmap nat Task :=
  match o with Some t => <[id := t]> ts | None => delete id ts end.

(** One task and the broker change. *)
Definition advance (b : Broker M S F) (id : nat) (o : option Task) s : System :=
  s <| sys_broker := b |> <| sys_tasks ::= set_task id o |>.

(** A connection is closed and its receiver dropped. *)
Definition drop_rx si b : Broker M S F := set_chans (close (sh_chans (b_shared b)) (si_rx si)) b.
Definition hang_up (b : Broker M S F) (peer : SocketAddr) si (id : nat) s : System :=
  advance (leave (drop_rx si b) (mkPendingGuard true) peer (Some (si_client_id si))) id None s.

(** ** The gateway *)

Definition gateway b s : SnServer M S F := mkSnServer b (sys_clients s) [] (sys_forwarders s).
Definition set_gateway (g : SnServer M S F) s : System :=
  s <| sys_broker := sn_broker g |> <| sys_clients := sn_clients g |> <| sys_forwarders := sn_tasks g |>.

(** A forwarder ends and drops its receiver. *)
Definition end_forwarder (i : nat) (task : SnTask) s : System :=
  s <| sys_broker ::= λ b, set_chans (close (sh_chans (b_shared b)) (task_rx task)) b |>
    <| sys_forwarders ::= λ ts, take i ts ++ drop (1 + i) ts |>.

(** ** Steps *)

(** Who moves: a connection in its main loop, or elsewhere, the gateway, the admin
    API with a reload that turns the limit of connections per address on or off,
    or anybody else. *)
Inductive Label :=
  | LbLoop (id : nat) (ev : LoopEvent)
  | LbConn (id : nat)
  | LbGateway
  | LbReload
  | LbOther.

(** The policy limits connections per address. *)
Definition limits (p : SecurityPolicy) : bool := sp_enabled p && negb (max_connections_per_ip p =? 0).

Definition admin_label (p p' : SecurityPolicy) : Label :=
  if bool_decide (limits p = limits p') && (0 <=? max_connections_per_ip p') then LbOther else LbReload.

Inductive sys_step (admin : AdminConfig) : Label → System → System → Prop :=
  (** A listener accepts a socket. *)
  | step_accept s service max id peer b' :
      service ∈ sys_services s → listener_max service = Some max → sys_down s = false →
      sys_tasks s !! id = None → admission max peer (sys_broker s) = (Spawned, b') →
      sys_step admin LbOther s (advance b' id (Some (TSpawned peer)) s)
  | step_turn_away s service max peer a b' :
      service ∈ sys_services s → listener_max service = Some max → sys_down s = false →
      admission max peer (sys_broker s) = (a, b') → a ≠ Spawned →
      sys_step admin LbOther s (s <| sys_broker := b' |>)
  (** A handshake fails or times out. *)
  | step_abandon s id peer :
      sys_tasks s !! id = Some (TSpawned peer) →
      sys_step admin (LbConn id) s (advance (sys_broker s) id None s)
  (** [handle_connection] checks the peer, then registers it. *)
  | step_check s id peer b' :
      sys_tasks s !! id = Some (TSpawned peer) → check_peer (sys_broker s) peer = (true, b') →
      sys_step admin (LbConn id) s (advance b' id (Some (TChecked peer)) s)
  | step_reject s id peer b' :
      sys_tasks s !! id = Some (TSpawned peer) → check_peer (sys_broker s) peer = (false, b') →
      sys_step admin (LbConn id) s (advance b' id None s)
  | step_enter s id peer k b' guard :
      sys_tasks s !! id = Some (TChecked peer) → enter (sys_broker s) peer = (guard, b') →
      sys_step admin (LbConn id) s (advance b' id (Some (TPending peer k)) s)
  (** The first packet arrives, or does not.  A connection that ends at its CONNACK
      has a channel that no session sends to any more.  One that goes on makes its
      retry timer; with a zero period that aborts the process, and there is no next
      state. *)
  | step_connect s id peer k first auto_id conn_id now si ctx msgs b' c guard cid :
      sys_tasks s !! id = Some (TPending peer k) →
      establish (sys_broker s) k peer first auto_id conn_id (mkPendingGuard false) now
        = (Open (si, ctx, msgs, (b', c)), guard, cid) →
      is_Some (interval (loop_timeout b')) →
      sys_step admin (LbConn id) s (advance b' id (Some (TReplay peer si ctx msgs c)) s)
  | step_connect_end s id peer k first auto_id conn_id now b' k' guard cid :
      sys_tasks s !! id = Some (TPending peer k) →
      establish (sys_broker s) k peer first auto_id conn_id (mkPendingGuard false) now = (Closed b' k', guard, cid) →
      sys_step admin (LbConn id) s (advance (leave b' guard peer cid) id None s)
  (** One message is replayed; after the last, the disk's copies go. *)
  | step_replay s id peer si ctx msg msgs c ev now b' c' :
      sys_tasks s !! id = Some (TReplay peer si ctx (msg :: msgs) c) → replay_ready (sys_down s) ev = true →
      replay si ctx [msg] (option_list ev) now (sys_broker s, c) = Some (Open (b', c')) →
      sys_step admin (LbConn id) s (advance b' id (Some (TReplay peer si ctx msgs c')) s)
  | step_replay_end s id peer si ctx msg msgs c ev now b' k' :
      sys_tasks s !! id = Some (TReplay peer si ctx (msg :: msgs) c) → replay_ready (sys_down s) ev = true →
      replay si ctx [msg] (option_list ev) now (sys_broker s, c) = Some (Closed b' k') →
      sys_step admin (LbConn id) s (hang_up b' peer si id s)
  | step_replayed s id peer si ctx c :
      sys_tasks s !! id = Some (TReplay peer si ctx [] c) →
      sys_step admin (LbConn id) s
        (advance ((sys_broker s) <| b_shared ::= λ w, clear_disk_offline w (si_client_id si) |>) id
           (Some (TLoop peer si ctx c)) s)
  (** One event of the main loop. *)
  | step_loop s id peer si ctx c ev now b l :
      sys_tasks s !! id = Some (TLoop peer si ctx c) → take_event (sys_down s) (sys_broker s) si ev = Some b →
      loop_step si (loop_max_subs b) (loop_timeout b) (loop_retries b) (mkLoopState b c ctx) ev now = Some (Open l) →
      sys_step admin (LbLoop id ev) s (advance (l_broker l) id (Some (TLoop peer si (l_ctx l) (l_conn l))) s)
  | step_loop_end s id peer si ctx c ev now b b' k' :
      sys_tasks s !! id = Some (TLoop peer si ctx c) → take_event (sys_down s) (sys_broker s) si ev = Some b →
      loop_step si (loop_max_subs b) (loop_timeout b) (loop_retries b) (mkLoopState b c ctx) ev now = Some (Closed b' k') →
      sys_step admin (LbLoop id ev) s (hang_up b' peer si id s)
  (** The sweeper ticks. *)
  | step_sweep s now :
      sys_sweeper s = true → sys_down s = false →
      sys_step admin LbOther s (s <| sys_broker ::= λ b, b <| b_shared ::= λ w, sweep w now |> |>)
  (** The admin API serves a request; a dashboard's socket, which outlives the
      server that accepted it, does a round. *)
  | step_admin s service req now r b' :
      service ∈ sys_services s → is_admin service = true → serve admin req now (sys_broker s) = Some (r, b') →
      sys_step admin (admin_label (policy (b_security (sys_broker s))) (policy (b_security b'))) s (s <| sys_broker := b' |>)
  | step_dashboard s ev go_on out b' :
      dashboard_step (sys_broker s) ev = (go_on, out, b') →
      sys_step admin LbOther s (s <| sys_broker := b' |>)
  (** The gateway: a datagram, a tick of its expiry task, a message of a forwarder,
      the end of a forwarder whose sender is gone. *)
  | step_datagram s service peer data now g :
      service ∈ sys_services s → is_gateway service = true → sys_down s = false →
      sn_step (gateway (sys_broker s) s) (EvDatagram peer data) now = Some g →
      sys_step admin LbGateway s (set_gateway g s)
  | step_sn_sweep s service now g :
      service ∈ sys_services s → is_gateway service = true → sys_down s = false →
      sn_step (gateway (sys_broker s) s) EvSweep now = Some g →
      sys_step admin LbGateway s (set_gateway g s)
  | step_forward s i task msg ch send_ok go_on g :
      sys_forwarders s !! i = Some task →
      recv (sh_chans (b_shared (sys_broker s))) (task_rx task) = Some (msg, ch) →
      forward_step (gateway (set_chans ch (sys_broker s)) s) task msg send_ok = (go_on, g) →
      sys_step admin LbGateway s
        (if go_on then set_gateway g s else end_forwarder i task (set_gateway g s))
  | step_forward_end s i task :
      sys_forwarders s !! i = Some task →
      recv (sh_chans (b_shared (sys_broker s))) (task_rx task) = None →
      owns (sh_sessions (b_shared (sys_broker s))) (task_client_id task) (task_epoch task) = false →
      sys_step admin LbGateway s (end_forwarder i task s)
  (** The shutdown: the signal; then the listeners leave their loops, the gateway
      after closing the sessions of its clients. *)
  | step_signal s : sys_step admin LbOther s (s <| sys_down := true |>)
  | step_exit s l service l' :
      sys_services s = l ++ service :: l' → is_gateway service = false → sys_down s = true →
      sys_step admin LbOther s (s <| sys_services := l ++ l' |>)
  | step_gateway_exit s l service l' now g :
      sys_services s = l ++ service :: l' → is_gateway service = true → sys_down s = true →
      sn_step (gateway (sys_broker s) s) EvStop now = Some g →
      sys_step admin LbGateway s ((set_gateway g s) <| sys_services := l ++ l' |>)
  | step_sweeper_exit s :
      sys_down s = true → sys_step admin LbOther s (s <| sys_sweeper := false |>)
  (** A listener cannot bind its address and ends at once. *)
  | step_unbound s l service l' :
      sys_services s = l ++ service :: l' →
      sys_step admin LbOther s (s <| sys_services := l ++ l' |>).

(** A run, with the labels of its steps. *)
Inductive sys_run (admin : AdminConfig) : list Label → System → System → Prop :=
  | run_nil s : sys_run admin [] s s
  | run_cons l ls s1 s2 s3 :
      sys_step admin l s1 s2 → sys_run admin ls s2 s3 → sys_run admin (l :: ls) s1 s3.

(** The process right after [main] has spawned its tasks. *)
Definition system_new b (handles : list Service) : System := mkSystem b ∅ handles true false ∅ [].

(** [main] is past the waiting for its handles; it gives the sweeper two more
    seconds, flushes the storage and returns. *)
Definition main_done s : bool := match sys_services s with [] => true | _ => false end.
End System.
Arguments Task M K : clear implicits.
Arguments System M S F K T : clear implicits.
