(* ===== verification/SystemExec.v ===== *)
(** * The process, executed

    The step relation of [System] as a function: an action names the task that
    moves and what it meets from outside.  Every execution is a run of the
    relation and every step is an execution, so that concrete runs are computed. *)

From S2P Require Import Prelude Packet Messages NetAddr OfflineQueue Subscription Storage Metrics.
From S2P Require Import Retain Session Qos Router Auth IpFilter Limiter Security Plugin.
From S2P Require Import Lifecycle Config Handlers Connection Listeners Admin TlsLoad Start.
From S2P Require Import SnCodec SnGateway System.

Section Exec.
Context {M : Mpsc} {R : MpscRx M} {S : Sled} {JR : Json RetainedMessage} {JS : Json SessionSnapshot}
  {JO : Json OutboundPublish} {F : ForwardEnv} {K : Sink} {A : Axum} {T : Rustls}.
Implicit Types s : System M S F K T.

(** [i] is the position of a service or of a forwarder, [id] names a connection. *)
Inductive Action :=
  | AAccept (i id : nat) (peer : SocketAddr)
  | AAbandon (id : nat)
  | ACheck (id : nat)
  | AEnter (id : nat) (k : SinkState)
  | AConnect (id : nat) (first : FirstRead) (auto_id conn_id : string) (now : Instant)
  | AReplay (id : nat) (ev : option ReplayEvent) (now : Instant)
  | ALoop (id : nat) (ev : LoopEvent) (now : Instant)
  | ASweep (now : Instant)
  | AAdmin (i : nat) (req : Request) (now : Instant)
  | ADashboard (ev : DashEvent)
  | ADatagram (i : nat) (peer : SocketAddr) (data : list Z) (now : Instant)
  | ASnSweep (i : nat) (now : Instant)
  | AForward (i : nat) (send_ok : bool)
  | ASignal
  | AExit (i : nat) (now : Instant)
  | ASweeperExit
  | AUnbound (i : nat).

(** The service at [i], of the kind [P]. *)
Definition service_at s (i : nat) (P : Service → bool) : option Service :=
  service ← sys_services s !! i; if P service then Some service else None.

Definition without_service (i : nat) s : System M S F K T :=
  s <| sys_services ::= λ l, take i l ++ drop (1 + i) l |>.

Definition exec (admin : AdminConfig) (a : Action) s : option (Label * System M S F K T) :=
  let b := sys_broker s in
  match a with
  | AAccept i id peer =>
      service ← sys_services s !! i;
      max ← listener_max service;
      if sys_down s then None
      else match admission max peer b, sys_tasks s !! id with
           | (Spawned, b'), None => Some (LbOther, advance b' id (Some (TSpawned peer)) s)
           | (Spawned, _), Some _ => None
           | (_, b'), _ => Some (LbOther, s <| sys_broker := b' |>)
           end
  | AAbandon id =>
      match sys_tasks s !! id with
      | Some (TSpawned _) => Some (LbConn id, advance b id None s)
      | _ => None
      end
  | ACheck id =>
      match sys_tasks s !! id with
      | Some (TSpawned peer) =>
          let '(ok, b') := check_peer b peer in
          Some (LbConn id, advance b' id (if ok then Some (TChecked peer) else None) s)
      | _ => None
      end
  | AEnter id k =>
      match sys_tasks s !! id with
      | Some (TChecked peer) => Some (LbConn id, advance (enter b peer).2 id (Some (TPending peer k)) s)
      | _ => None
      end
  | AConnect id first auto_id conn_id now =>
      match sys_tasks s !! id with
      | Some (TPending peer k) =>
          match establish b k peer first auto_id conn_id (mkPendingGuard false) now with
          | (Open (si, ctx, msgs, (b', c)), _, _) =>
              _ ← interval (loop_timeout b');
              Some (LbConn id, advance b' id (Some (TReplay peer si ctx msgs c)) s)
          | (Closed b' _, guard, cid) => Some (LbConn id, advance (leave b' guard peer cid) id None s)
          end
      | _ => None
      end
  | AReplay id ev now =>
      match sys_tasks s !! id with
      | Some (TReplay peer si ctx (msg :: msgs) c) =>
          if replay_ready (sys_down s) ev then
            match replay si ctx [msg] (option_list ev) now (b, c) with
            | Some (Open (b', c')) => Some (LbConn id, advance b' id (Some (TReplay peer si ctx msgs c')) s)
            | Some (Closed b' _) => Some (LbConn id, hang_up b' peer si id s)
            | None => None
            end
          else None
      | Some (TReplay peer si ctx [] c) =>
          Some (LbConn id, advance (b <| b_shared ::= λ w, clear_disk_offline w (si_client_id si) |>) id
                             (Some (TLoop peer si ctx c)) s)
      | _ => None
      end
  | ALoop id ev now =>
      match sys_tasks s !! id with
      | Some (TLoop peer si ctx c) =>
          b1 ← take_event (sys_down s) b si ev;
          match loop_step si (loop_max_subs b1) (loop_timeout b1) (loop_retries b1) (mkLoopState b1 c ctx) ev now with
          | Some (Open l) => Some (LbLoop id ev, advance (l_broker l) id (Some (TLoop peer si (l_ctx l) (l_conn l))) s)
          | Some (Closed b' _) => Some (LbLoop id ev, hang_up b' peer si id s)
          | None => None
          end
      | _ => None
      end
  | ASweep now =>
      if sys_sweeper s && negb (sys_down s)
      then Some (LbOther, s <| sys_broker ::= λ b, b <| b_shared ::= λ w, sweep w now |> |>) else None
  | AAdmin i req now =>
      _ ← service_at s i is_admin;
      '(_, b') ← serve admin req now b;
      Some (admin_label (policy (b_security b)) (policy (b_security b')), s <| sys_broker := b' |>)
  | ADashboard ev =>
      let '(_, _, b') := dashboard_step b ev in Some (LbOther, s <| sys_broker := b' |>)
  | ADatagram i peer data now =>
      _ ← service_at s i is_gateway;
      if sys_down s then None
      else g ← sn_step (gateway b s) (EvDatagram peer data) now; Some (LbGateway, set_gateway g s)
  | ASnSweep i now =>
      _ ← service_at s i is_gateway;
      if sys_down s then None
      else g ← sn_step (gateway b s) EvSweep now; Some (LbGateway, set_gateway g s)
  | AForward i send_ok =>
      task ← sys_forwarders s !! i;
      match recv (sh_chans (b_shared b)) (task_rx task) with
      | Some (msg, ch) =>
          let '(go_on, g) := forward_step (gateway (set_chans ch b) s) task msg send_ok in
          Some (LbGateway, if go_on then set_gateway g s else end_forwarder i task (set_gateway g s))
      | None =>
          if owns (sh_sessions (b_shared b)) (task_client_id task) (task_epoch task) then None
          else Some (LbGateway, end_forwarder i task s)
      end
  | ASignal => Some (LbOther, s <| sys_down := true |>)
  | AExit i now =>
      service ← sys_services s !! i;
      if negb (sys_down s) then None
      else if is_gateway service then
        g ← sn_step (gateway b s) EvStop now; Some (LbGateway, without_service i (set_gateway g s))
      else Some (LbOther, without_service i s)
  | ASweeperExit => if sys_down s then Some (LbOther, s <| sys_sweeper := false |>) else None
  | AUnbound i => _ ← sys_services s !! i; Some (LbOther, without_service i s)
  end.

Fixpoint exec_all (admin : AdminConfig) (acts : list Action) s : option (list Label * System M S F K T) :=
  match acts with
  | [] => Some ([], s)
  | a :: acts =>
      '(l, s) ← exec admin a s;
      '(ls, s) ← exec_all admin acts s;
      Some (l :: ls, s)
  end.

(** ** Agreement with the relation *)

Lemma service_at_spec s i P service :
  service_at s i P = Some service → service ∈ sys_services s ∧ P service = true.
Proof.
  unfold service_at. destruct (sys_services s !! i) as [sv|] eqn:E; [|done]. cbn. destruct (P sv) eqn:Hp; [|done].
  intros [= <-]. split; [|done]. by eapply list_elem_of_lookup_2.
Qed.

Lemma service_split (l : list Service) i service :
  l !! i = Some service → l = take i l ++ service :: drop (1 + i) l.
Proof. intros E. symmetry. by apply take_drop_middle. Qed.

Lemma exec_sound admin a s l s' : exec admin a s = Some (l, s') → sys_step admin l s s'.
Proof.
  destruct a as [i id peer|id|id|id k|id first auto_id conn_id now|id ev now|id ev now|now|i req now|ev|i peer data now
    |i now|i ok| |i now| |i]; cbn [exec].
  - destruct (sys_services s !! i) as [sv|] eqn:Es; [|done]. cbn [mbind option_bind]. destruct (listener_max sv) as [max|] eqn:Em; [|done]. cbn [mbind option_bind].
    apply list_elem_of_lookup_2 in Es. destruct (sys_down s) eqn:Ed; [done|].
    destruct (admission max peer _) as [[] b'] eqn:Ea; [intros [= <- <-]; by eapply step_turn_away..|].
    destruct (sys_tasks s !! id) eqn:Et; [done|]. intros [= <- <-]. by eapply step_accept.
  - destruct (sys_tasks s !! id) as [[]|] eqn:Et; try done. intros [= <- <-]. by eapply step_abandon.
  - destruct (sys_tasks s !! id) as [[]|] eqn:Et; try done. destruct (check_peer _ _) as [[] b'] eqn:Ec; intros [= <- <-];
      [by eapply step_check|by eapply step_reject].
  - destruct (sys_tasks s !! id) as [[]|] eqn:Et; try done. intros [= <- <-].
    eapply step_enter; [done|]. apply surjective_pairing.
  - destruct (sys_tasks s !! id) as [[]|] eqn:Et; try done.
    destruct (establish _ _ _ _ _ _ _ _) as [[[[[[si ctx] msgs] [b' c]]|b' k'] guard] cid] eqn:Ee.
    + destruct (interval (loop_timeout b')) eqn:Eint; [|done]. intros [= <- <-]. by eapply step_connect.
    + intros [= <- <-]. by eapply step_connect_end.
  - destruct (sys_tasks s !! id) as [[| | |peer si ctx [|msg msgs] c|]|] eqn:Et; try done.
    { intros [= <- <-]. by apply step_replayed. }
    destruct (replay_ready _ ev) eqn:Er; [|done].
    destruct (replay _ _ _ _ _ _) as [[[b' c']|b' k']|] eqn:Ep; [| |done]; intros [= <- <-];
      [by eapply step_replay|by eapply step_replay_end].
  - destruct (sys_tasks s !! id) as [[| | | |peer si ctx c]|] eqn:Et; try done.
    destruct (take_event _ _ _ _) as [b1|] eqn:Ev; [|done]. cbn [mbind option_bind].
    destruct (loop_step _ _ _ _ _ _ _) as [[l0|b' k']|] eqn:El; [| |done]; intros [= <- <-];
      [by eapply step_loop|by eapply step_loop_end].
  - destruct (sys_sweeper s && negb (sys_down s)) eqn:E; [|done]. apply andb_prop in E as [E1 E2%negb_true_iff].
    intros [= <- <-]. by apply step_sweep.
  - destruct (service_at s i is_admin) as [sv|] eqn:E; [|done]. cbn [mbind option_bind]. apply service_at_spec in E as [E1 E2].
    destruct (serve _ _ _ _) as [[r b']|] eqn:Es; [|done]. cbn [mbind option_bind]. intros [= <- <-]. by eapply step_admin.
  - destruct (dashboard_step _ _) as [[go out] b'] eqn:Ed. intros [= <- <-]. by eapply step_dashboard.
  - destruct (service_at s i is_gateway) as [sv|] eqn:E; [|done]. cbn [mbind option_bind]. apply service_at_spec in E as [E1 E2].
    destruct (sys_down s) eqn:Ed; [done|]. destruct (sn_step _ _ _) as [g|] eqn:Eg; [|done]. intros [= <- <-].
    by eapply step_datagram.
  - destruct (service_at s i is_gateway) as [sv|] eqn:E; [|done]. cbn [mbind option_bind]. apply service_at_spec in E as [E1 E2].
    destruct (sys_down s) eqn:Ed; [done|]. destruct (sn_step _ _ _) as [g|] eqn:Eg; [|done]. intros [= <- <-].
    by eapply step_sn_sweep.
  - destruct (sys_forwarders s !! i) as [task|] eqn:Et; [|done]. cbn [mbind option_bind].
    destruct (recv _ _) as [[msg ch]|] eqn:Er.
    + destruct (forward_step _ _ _ _) as [go_on g] eqn:Ef. intros [= <- <-]. by eapply step_forward.
    + destruct (owns _ _ _) eqn:Eo; [done|]. intros [= <- <-]. by apply step_forward_end.
  - intros [= <- <-]. apply step_signal.
  - destruct (sys_services s !! i) as [sv|] eqn:Es; [|done]. cbn [mbind option_bind]. apply service_split in Es.
    destruct (sys_down s) eqn:Ed; [|done]. cbn [negb]. destruct (is_gateway sv) eqn:Eg.
    + destruct (sn_step _ _ _) as [g|] eqn:Ep; [|done]. cbn [mbind option_bind]. intros [= <- <-]. by eapply step_gateway_exit.
    + intros [= <- <-]. by eapply step_exit.
  - destruct (sys_down s) eqn:Ed; [|done]. intros [= <- <-]. by apply step_sweeper_exit.
  - destruct (sys_services s !! i) as [sv|] eqn:Es; [|done]. cbn [mbind option_bind]. apply service_split in Es. intros [= <- <-].
    by eapply step_unbound.
Qed.

Lemma exec_all_sound admin acts s ls s' : exec_all admin acts s = Some (ls, s') → sys_run admin ls s s'.
Proof.
  revert s ls. induction acts as [|a acts IH]; intros s ls; cbn [exec_all]; [intros [= <- <-]; constructor|].
  destruct (exec admin a s) as [[l s1]|] eqn:E; [|done]. cbn [mbind option_bind].
  destruct (exec_all admin acts s1) as [[ls1 s2]|] eqn:E1; [|done]. cbn [mbind option_bind]. intros [= <- <-].
  econstructor; [by eapply exec_sound|by eapply IH].
Qed.
End Exec.
