(* ===== verification/SystemProofs.v ===== *)
(** * Which connection a session belongs to

    No operation but the registration of a connection brings a session online,
    and the end of a connection takes its own session offline. *)

From stdpp Require Import relations.
From S2P Require Import Prelude Packet Messages OfflineQueue Subscription SubscriptionProofs.
From S2P Require Import SubscriptionTheorems Storage StorageProofs Metrics Retain Session.
From S2P Require Import SessionProofs SessionTheorems Qos QosProofs QosTheorems Router.
From S2P Require Import RouterTheorems Auth IpFilter Limiter Security Plugin Lifecycle.
From S2P Require Import LifecycleTheorems Config Handlers HandlersProofs HandlersTheorems.
From S2P Require Import Connection ConnectionTheorems Admin AdminTheorems.

(** ** Sessions that are online *)

Section Fades.
Context {M : Mpsc}.
Implicit Types self : SessionManager M.

(** The session of [c] is online, registered with the epoch [ep], and what is sent
    to it goes to [rx]. *)
Definition online_at self (c : string) (ep : Z) (rx : Sender) : Prop :=
  ∃ e, sessions self !! c = Some e ∧ connected e = true ∧ epoch e = ep ∧ tx e = rx.

(** The same registration, no more online than before. *)
Definition kept (e e' : SessionEntry M) : Prop :=
  epoch e' = epoch e ∧ tx e' = tx e ∧ (connected e' = true → connected e = true).

(** No session is registered or comes online, no epoch is issued, and the capacity
    of the offline queues is the same. *)
Definition fades self self' : Prop :=
  epoch_counter self' = epoch_counter self ∧ max_offline_messages self' = max_offline_messages self ∧
  ∀ c e', sessions self' !! c = Some e' → ∃ e, sessions self !! c = Some e ∧ kept e e'.

#[export] Instance kept_preorder : PreOrder kept.
Proof.
  split; [done|]. intros e1 e2 e3 (A1 & A2 & A3) (B1 & B2 & B3). split; [congruence|]. split; [congruence|auto].
Qed.

#[export] Instance fades_preorder : PreOrder fades.
Proof.
  split; [intros s; split; [done|]; split; [done|]; intros c e Hc; by exists e|].
  intros s1 s2 s3 (E1 & F1 & H1) (E2 & F2 & H2). split; [congruence|]. split; [congruence|].
  intros c e (e2 & Hc2 & Hk2)%H2. apply H1 in Hc2 as (e1 & Hc1 & Hk1). exists e1. split; [done|]. by etrans.
Qed.

Lemma fades_online self self' c ep rx : fades self self' → online_at self' c ep rx → online_at self c ep rx.
Proof.
  intros (_ & _ & H) (e' & He' & Hc & Hep & Hrx). apply H in He' as (e & He & K1 & K2 & K3).
  exists e. split; [done|]. split; [auto|]. split; congruence.
Qed.

(** An entry that is replaced by one that is no more online than before. *)
Lemma fades_insert self c e e' f :
  sessions self !! c = Some e → kept e e' →
  (∀ s, sessions (f s) = sessions s ∧ epoch_counter (f s) = epoch_counter s ∧ max_offline_messages (f s) = max_offline_messages s) →
  fades self (f (self <| sessions ::= <[c := e']> |>)).
Proof.
  intros Hc He Hf. destruct (Hf (self <| sessions ::= <[c := e']> |>)) as (Hs & Hep & Hm). split; [done|]. split; [done|].
  intros d x Hx. rewrite Hs in Hx. cbn in Hx. apply lookup_insert_Some in Hx as [[<- <-]|[_ Hx]]; [by exists e|].
  by exists x.
Qed.

Lemma fades_delete self c f :
  (∀ s, sessions (f s) = sessions s ∧ epoch_counter (f s) = epoch_counter s ∧ max_offline_messages (f s) = max_offline_messages s) →
  fades self (f (self <| sessions ::= delete c |>)).
Proof.
  intros Hf. destruct (Hf (self <| sessions ::= delete c |>)) as (Hs & Hep & Hm). split; [done|]. split; [done|].
  intros d x Hx. rewrite Hs in Hx. cbn in Hx. apply lookup_delete_Some in Hx as [_ Hx]. by exists x.
Qed.

Lemma fades_enqueue self cid e msg now ch o o' self' ch' :
  sessions self !! cid = Some e → enqueue_or self cid e msg now ch o = Some (o', self', ch') → fades self self' ∧ ch' = ch.
Proof.
  intros Hc. unfold enqueue_or, enqueue_into. destruct (offline_queue e) as [q|]; [|by intros [= _ <- <-]].
  destruct (enqueue q msg now) as [q'|]; [|done]. cbn. intros [= _ <- <-]. split; [|done]. split; [done|]. split; [done|].
  intros c x Hx. cbn in Hx. apply lookup_alter_Some in Hx as [(-> & y & Hy & ->)|[_ Hx]]; [|by exists x].
  exists y. split; [done|]. done.
Qed.

Lemma fades_deliver self cid msg now ch o self' ch' :
  deliver_or_enqueue self cid msg now ch = Some (o, self', ch') →
  fades self self' ∧ (ch' = ch ∨ ∃ e r, try_send ch (tx e) msg = (r, ch')).
Proof.
  unfold deliver_or_enqueue. destruct (sessions _ !! cid) as [e|] eqn:Ec; [|intros [= _ <- <-]; split; [done|auto]].
  destruct (connected e); [|intros [H ->]%(fades_enqueue _ _ _ _ _ _ _ _ _ _ Ec); auto].
  destruct (try_send _ _ _) as [r ch1] eqn:Es.
  destruct r as [|m|m]; [intros [= _ <- <-]; split; [done|eauto]|intros [H ->]%(fades_enqueue _ _ _ _ _ _ _ _ _ _ Ec); eauto..].
Qed.

Lemma fades_clear_will self c ep : fades self (clear_will self c ep).
Proof.
  unfold clear_will. destruct (sessions self !! c) as [e|] eqn:E; [|done]. destruct (_ =? _); [|done].
  by apply (fades_insert self c e _ (λ s, s)).
Qed.

Lemma fades_take_will self c ep : fades self (take_will self c ep).2.
Proof.
  unfold take_will. destruct (sessions self !! c) as [e|] eqn:E; [|done]. destruct (_ =? _); [|done].
  by apply (fades_insert self c e _ (λ s, s)).
Qed.

Lemma fades_cleanup_expired self now : fades self (cleanup_expired self now).1.
Proof.
  unfold cleanup_expired. generalize (expired_ids self now). intros ids.
  enough (∀ st, fades self st.1 → fades self (foldl (cleanup_one now) st ids).1) as H by by apply H.
  induction ids as [|id ids IH]; intros [s r] Hst; cbn [foldl]; [done|]. apply IH. unfold cleanup_one.
  destruct (is_still_expired s id now); [|done]. etrans; [exact Hst|]. by apply (fades_delete s id (λ s, s)).
Qed.

Lemma fades_remove self c : fades self (remove self c).2.
Proof.
  unfold remove. destruct (sessions self !! c) as [e|]; [|done]. cbn [snd].
  destruct (connected e); [by apply (fades_delete self c online_dec)|by apply (fades_delete self c (λ s, s))].
Qed.

(** ** The end of a connection *)

(** Moreover, the session of [c] with epoch [ep] is not online any more. *)
Definition fades_own (c : string) (ep : Z) self self' : Prop :=
  fades self self' ∧ ∀ rx, ¬ online_at self' c ep rx.

Lemma fades_own_trans c ep s1 s2 s3 : fades s1 s2 → fades_own c ep s2 s3 → fades_own c ep s1 s3.
Proof. intros H [H1 H2]. split; [by etrans|done]. Qed.

Lemma fades_remove_epoch self c ep : fades_own c ep self (remove_if_epoch self c ep).2.
Proof.
  unfold remove_if_epoch. destruct (sessions self !! c) as [e|] eqn:E.
  2:{ split; [done|]. intros rx (x & Hx & _). cbn in Hx. congruence. }
  destruct (Z.eqb_spec (epoch e) ep) as [<-|Hne].
  2:{ split; [done|]. intros rx (x & Hx & _ & Hep & _). cbn in Hx. congruence. }
  cbn [snd]. split.
  - destruct (connected e); [by apply (fades_delete self c online_dec)|by apply (fades_delete self c (λ s, s))].
  - intros rx (x & Hx & _). by destruct (connected e); cbn in Hx; apply lookup_delete_Some in Hx as [? _].
Qed.

Lemma fades_mark_offline self c ep now : fades_own c ep self (mark_offline self c ep now).
Proof.
  unfold mark_offline. destruct (sessions self !! c) as [e|] eqn:E.
  2:{ split; [done|]. intros rx (x & Hx & _). congruence. }
  destruct (Z.eqb_spec (epoch e) ep) as [<-|Hne]; cbn [andb].
  2:{ split; [done|]. intros rx (x & Hx & _ & Hep & _). congruence. }
  destruct (connected e) eqn:Hcon.
  2:{ split; [done|]. intros rx (x & Hx & ? & _). congruence. }
  split; [by apply (fades_insert self c e _ online_dec)|].
  intros rx (x & Hx & Hx' & _). cbn in Hx. rewrite lookup_insert_eq in Hx. by injection Hx as <-.
Qed.

(** Registration: a new epoch, online for the client it was issued to. *)
Lemma register_online self cid cl tx_ w lvl peer ex now r self' :
  register self cid cl tx_ w lvl peer ex now = (r, self') →
  let ep := wrap_u64 (epoch_counter self + 1) in
  r.1.1 = ep ∧ epoch_counter self' = ep ∧ max_offline_messages self' = max_offline_messages self ∧
  ∀ c e rx, online_at self' c e rx → (c = cid ∧ e = ep ∧ rx = tx_) ∨ online_at self c e rx.
Proof.
  unfold register. set (ep := wrap_u64 _).
  set (entry := if cl then clean _ _ _ _ _ _ _ else persistent _ _ _ _ _ _ _ _ _ _).
  assert (He : epoch entry = ep ∧ tx entry = tx_) by by destruct cl. destruct He as [He Ht].
  assert (Hs : ∀ s, (∀ d, sessions s !! d = (<[cid := entry]> (sessions self)) !! d) →
            ∀ c e rx, online_at s c e rx → (c = cid ∧ e = ep ∧ rx = tx_) ∨ online_at self c e rx).
  { intros s Hs c e rx (x & Hx & Hc & Hep & Hrx). rewrite Hs in Hx.
    apply lookup_insert_Some in Hx as [[<- <-]|[_ Hx]]; [left|right; by exists x]. split; [done|]. split; congruence. }
  change (sessions (self <| epoch_counter := ep |>)) with (sessions self).
  destruct (sessions self !! cid) as [old|].
  - destruct (negb (connected old)); intros [= <- <-]; (split; [done|]; split; [done|]; split; [done|]; by apply Hs).
  - intros [= <- <-]. split; [done|]. split; [done|]. split; [done|]. by apply Hs.
Qed.
End Fades.

(** ** Channels *)

Section Grows.
Context {M : Mpsc} {L : MpscLaws M} {R : MpscRx M} {LR : MpscRxLaws M L R}.
Implicit Types ch : Chans.

(** Messages are only added, behind those that wait, except on [rx]. *)
Definition grows_but (rx : option Sender) ch ch' : Prop :=
  ∀ tx_, created ch tx_ →
    created ch' tx_ ∧ (rx ≠ Some tx_ → ∃ more, queued ch' tx_ = queued ch tx_ ++ more).
Abbreviation grows := (grows_but None).

#[export] Instance grows_preorder rx : PreOrder (grows_but rx).
Proof.
  split.
  - intros ch tx_ Hc. split; [done|]. exists []. by rewrite app_nil_r.
  - intros ch1 ch2 ch3 H1 H2 tx_ Hc. destruct (H1 tx_ Hc) as [C1 Q1], (H2 tx_ C1) as [C2 Q2].
    split; [done|]. intros Hne. destruct (Q1 Hne) as [m1 E1], (Q2 Hne) as [m2 E2].
    exists (m1 ++ m2). by rewrite E2, E1, app_assoc.
Qed.

Lemma grows_weaken rx ch ch' : grows ch ch' → grows_but rx ch ch'.
Proof. intros H tx_ Hc. destruct (H tx_ Hc) as [H1 H2]. auto. Qed.

Lemma grows_send ch tx_ m r ch' : try_send ch tx_ m = (r, ch') → grows ch ch'.
Proof.
  intros E t Hc. split; [by eapply created_send|]. intros _. destruct r as [|m'|m'].
  - destruct (decide (t = tx_)) as [->|Hne].
    + exists [m]. by eapply try_send_sent.
    + exists []. rewrite app_nil_r. by eapply try_send_other.
  - apply try_send_full in E as [_ ->]. exists []. by rewrite app_nil_r.
  - apply try_send_closed in E as [_ ->]. exists []. by rewrite app_nil_r.
Qed.

Lemma grows_channel ch cap tx_ ch' : channel ch cap = (tx_, ch') → grows ch ch'.
Proof.
  intros E t Hc. destruct (channel_fresh _ _ _ _ E) as (Hnew & _). split; [by eapply created_channel|]. intros _.
  exists []. rewrite app_nil_r. eapply (channel_other _ _ _ _ _ E). by intros ->.
Qed.

Lemma grows_recv ch rx m ch' : recv ch rx = Some (m, ch') → grows_but (Some rx) ch ch'.
Proof.
  intros E t Hc. split; [by eapply created_recv|]. intros Hne. exists []. rewrite app_nil_r.
  eapply recv_other; [exact E|congruence].
Qed.

Lemma grows_close ch rx : grows_but (Some rx) ch (close ch rx).
Proof.
  intros t Hc. split; [by apply created_close|]. intros Hne. exists []. rewrite app_nil_r. apply close_other. congruence.
Qed.
End Grows.
Abbreviation grows := (grows_but None).

Section Shared.
Context {M : Mpsc} {L : MpscLaws M} {R : MpscRx M} {LR : MpscRxLaws M L R} {S : Sled} {JR : Json RetainedMessage}
  {JS : Json SessionSnapshot} {JO : Json OutboundPublish}.
Implicit Types w : Shared M S.

(** What everybody but a registration does to sessions and channels. *)
Definition evolves w w' : Prop :=
  fades (sh_sessions w) (sh_sessions w') ∧ grows (sh_chans w) (sh_chans w').

#[export] Instance evolves_preorder : PreOrder evolves.
Proof. split; [done|]. intros w1 w2 w3 [A1 A2] [B1 B2]. split; by etrans. Qed.

Lemma evolves_same w w' : sh_sessions w' = sh_sessions w → sh_chans w' = sh_chans w → evolves w w'.
Proof. unfold evolves. by intros -> ->. Qed.

Lemma evolves_deliver_one w c topic payload qos sub now w' :
  deliver_one w c topic payload qos sub now = Some w' → evolves w w'.
Proof.
  unfold deliver_one. destruct (deliver_or_enqueue _ _ _ _ _) as [[[o s'] ch']|] eqn:E; [|done]. cbn.
  assert (H : fades (sh_sessions w) s' ∧ grows (sh_chans w) ch').
  { apply fades_deliver in E as [H [->|(e & r & Es)]]; [done|]. split; [done|]. by eapply grows_send. }
  intros [= <-]. by destruct o.
Qed.

Lemma evolves_deliver_each w targets exclude topic payload qos now w' :
  deliver_each w targets exclude topic payload qos now = Some w' → evolves w w'.
Proof.
  revert w. induction targets as [|[c q] targets IH]; intros w; cbn [deliver_each]; [by intros [= <-]|].
  destruct (bool_decide _); [apply IH|]. destruct (deliver_one _ _ _ _ _ _ _) as [w1|] eqn:E; [|done]. cbn.
  intros H%IH. etrans; [by eapply evolves_deliver_one|done].
Qed.

Lemma evolves_publish w topic payload qos retain exclude now w' :
  publish w topic payload qos retain exclude now = Some w' → evolves w w'.
Proof.
  unfold publish. destruct (matches_shared _ topic) as [tree sm]. intros H%evolves_deliver_each.
  etrans; [|exact H]. apply evolves_same; cbn; unfold store_retained; destruct retain; try done; by destruct (Retain.set _ _ _ _ _).
Qed.

Lemma evolves_persist w c : evolves w (persist_session_snapshot w c).
Proof.
  apply evolves_same; unfold persist_session_snapshot; (destruct (sh_storage w); [|done]);
    (destruct (is_clean_session _ _); [done|]); by destruct (subscriptions_of _ _).
Qed.

(** The end of a connection, on the shared state. *)
Definition evolves_own (c : string) (ep : Z) w w' : Prop :=
  evolves w w' ∧ ∀ rx, ¬ online_at (sh_sessions w') c ep rx.

Lemma evolves_own_trans c ep w1 w2 w3 : evolves w1 w2 → evolves_own c ep w2 w3 → evolves_own c ep w1 w3.
Proof. intros H [H1 H2]. split; [by etrans|done]. Qed.

Lemma evolves_forget w c ep sess r :
  remove_if_epoch (sh_sessions w) c ep = (r, sess) →
  evolves_own c ep w (match r with Some _ => forget_session (w <| sh_sessions := sess |>) c | None => w end).
Proof.
  intros E. pose proof (fades_remove_epoch (sh_sessions w) c ep) as [H1 H2]. rewrite E in H1, H2. destruct r; [done|].
  revert E. unfold remove_if_epoch in *. destruct (sessions _ !! c) as [e|]; [|by intros [= <-]].
  destruct (_ =? _); [done|by intros [= <-]].
Qed.

Lemma evolves_cleanup w c ep clean now : evolves_own c ep w (cleanup w c ep clean now).
Proof.
  unfold cleanup. destruct clean.
  { destruct (remove_if_epoch (sh_sessions w) c ep) as [r sess] eqn:E. by destruct r; apply evolves_forget in E. }
  set (w1 := w <| sh_sessions ::= _ |>).
  pose proof (fades_mark_offline (sh_sessions w) c ep now) as [Hm1 Hm2].
  assert (Hm : evolves_own c ep w w1) by (split; [split; [exact Hm1|done]|exact Hm2]).
  destruct (negb _); [exact Hm|]. destruct (is_session_expired _ _ _).
  - destruct (remove_if_epoch (sh_sessions w1) c ep) as [r sess] eqn:E.
    apply (evolves_own_trans _ _ _ w1); [apply Hm|]. by destruct r; apply evolves_forget in E.
  - destruct Hm as [Ha Hb]. split; [etrans; [exact Ha|apply evolves_persist]|].
    intros rx Hon. apply (Hb rx). eapply fades_online; [apply evolves_persist|exact Hon].
Qed.

Lemma evolves_abnormal w c ep clean now w' :
  on_abnormal_disconnect w c ep clean now = Some w' → evolves_own c ep w w'.
Proof.
  unfold on_abnormal_disconnect. destruct (fire_will w c ep now) as [w1|] eqn:E; [|done]. cbn. intros [= <-].
  eapply evolves_own_trans; [|apply evolves_cleanup]. revert E. unfold fire_will. destruct (owns _ _ _); [|by intros [= <-]].
  pose proof (fades_take_will (sh_sessions w) c ep) as Ht. destruct (take_will _ _ _) as [wl sess].
  assert (He : evolves w (w <| sh_sessions := sess |>)) by by split.
  destruct wl as [wl|]; [|by intros [= <-]]. intros H%evolves_publish. by etrans.
Qed.

Lemma evolves_sweep w now : evolves w (sweep w now).
Proof.
  unfold sweep. pose proof (fades_cleanup_expired (sh_sessions w) now) as H.
  destruct (cleanup_expired _ _) as [sess ids]. cbn in H.
  enough (∀ w1, evolves w1 (foldl sweep_one w1 ids)) as Hf by (etrans; [|apply Hf]; by split).
  induction ids as [|id ids IH]; intros w1; cbn [foldl]; [done|]. etrans; [|apply IH]. by apply evolves_same.
Qed.
End Shared.

(** ** Handlers *)

Section Handlers.
Context {M : Mpsc} {L : MpscLaws M} {R : MpscRx M} {LR : MpscRxLaws M L R} {S : Sled} {JR : Json RetainedMessage}
  {JS : Json SessionSnapshot} {JO : Json OutboundPublish} {F : ForwardEnv} {K : Sink}.
Implicit Types (b : Broker M S F) (c : Conn K).

Abbreviation sess b := (sh_sessions (b_shared b)).
Abbreviation bevolves b b' := (evolves (b_shared b) (b_shared b')).

(** A writer after some packets. *)
Definition sends : SinkState → SinkState → Prop := rtc (λ k k', ∃ p, (sink_send k p).2 = k').

(** A handler during which no session comes online and nothing is taken from a
    channel, and which only writes to its socket. *)
Definition stays {A} (m : HM A) : Prop :=
  ∀ st r st', m st = Some (r, st') → bevolves st.1 st'.1 ∧ sends (sink st.2) (sink st'.2).

Lemma sends_one k p : sends k (sink_send k p).2.
Proof. apply rtc_once. by exists p. Qed.

Lemma stays_ret {A} (a : A) : stays (mret a).
Proof. by intros st r st' [= _ <-]. Qed.
Lemma stays_err {A} e : stays (hm_err e : HM A).
Proof. by intros st r st' [= _ <-]. Qed.
Lemma stays_gets {A} (f : Broker M S F * Conn K → A) : stays (gets f).
Proof. by intros st r st' [= _ <-]. Qed.
Lemma stays_bind {A B} (m : HM A) (k : A → HM B) : stays m → (∀ a, stays (k a)) → stays (m ≫= k).
Proof.
  intros Hm Hk st r st'. unfold mbind, hm_bind. destruct (m st) as [[[a|e] st1]|] eqn:E; [| |done].
  - intros [H1 H2]%Hk. apply Hm in E as [E1 E2]. split; by etrans.
  - intros [= _ <-]. by eapply Hm.
Qed.
Lemma stays_broker f : (∀ b, bevolves b (f b)) → stays (modify_broker f).
Proof. intros Hf [b c] r st' [= _ <-]. split; [apply Hf|done]. Qed.
Lemma stays_conn f : (∀ c, sink (f c) = sink c) → stays (modify_conn f).
Proof. intros Hf [b c] r st' [= _ <-]. split; [done|]. cbn. by rewrite Hf. Qed.
Lemma stays_shared f : (∀ w, evolves w (f w)) → stays (modify_shared f).
Proof. intros Hf. apply stays_broker. intros b. apply Hf. Qed.
Lemma stays_send p : stays (send p).
Proof.
  intros [b c] r st'. unfold send. pose proof (sends_one (sink c) p) as H.
  destruct (sink_send _ _) as [r' k]. by intros [= _ <-].
Qed.
Lemma stays_send_or e p : stays (send_or e p).
Proof.
  intros [b c] r st'. unfold send_or, send. pose proof (sends_one (sink c) p) as H.
  destruct (sink_send _ _) as [[u|e'] k]; by intros [= _ <-].
Qed.
Lemma stays_for_each {A} (f : A → HM unit) l : (∀ a, stays (f a)) → stays (for_each f l).
Proof. intros Hf. induction l as [|a l IH]; cbn [for_each]; [apply stays_ret|]. by apply stays_bind. Qed.

Lemma stays_metrics f : stays (Handlers.metrics f).
Proof. by apply stays_shared. Qed.
Lemma build_for_sink b c req now : sink (build_for b c req now).2 = sink c.
Proof. unfold build_for. by destruct (build_outbound_packet _ _ _ _ _) as [[pkt np] t]. Qed.
Lemma stays_build req now : stays (build_outbound req now).
Proof.
  intros [b c] r st'. unfold build_outbound. pose proof (build_for_sink b c req now) as H.
  destruct (build_for b c req now). cbn in H. intros [= _ <-]. split; [done|]. cbn. by rewrite H.
Qed.
Lemma stays_persist cid : stays (modify_shared (λ w, persist_session_snapshot w cid)).
Proof. apply stays_shared. intros w. apply evolves_persist. Qed.

Hint Resolve stays_ret stays_err stays_gets stays_send stays_send_or stays_metrics stays_build
  stays_persist : stays.
Hint Extern 1 (stays (modify_conn _)) => (apply stays_conn; done) : stays.
Ltac stays_auto := repeat first [apply stays_bind; [|intros ?] | progress auto with stays].

Lemma stays_publish p cid now : stays (handle_publish p cid now).
Proof.
  unfold handle_publish. apply stays_bind.
  { intros [b c] r st'. unfold security_check. destruct (guard_check_publish _ _ _ _ _) as [[u|e] g]; by intros [= _ <-]. }
  intros sr. apply stays_bind.
  { unfold plugin_check. destruct sr; stays_auto. case_match; stays_auto. }
  intros pr. apply stays_bind.
  { unfold qos2_first. destruct (bool_decide _); [|stays_auto]. destruct (p_packet_id p); [|stays_auto].
    intros [b c] r st'. by intros [= _ <-]. }
  intros first. apply stays_bind.
  { destruct (_ && _); stays_auto.
    - intros [b c] r st'. unfold run_shared. destruct (route_inbound_publish _ _ _ _) as [w|] eqn:E; [|done].
      cbn. intros [= _ <-]. split; [|done]. by eapply evolves_publish.
    - apply stays_broker. intros b. unfold plugin_try_forward.
      by destruct (try_forward _ _ _ _ _) as [[f ch] m]. }
  intros _. unfold acknowledge. destruct (p_qos p), (p_packet_id p); stays_auto.
Qed.

Lemma stays_subscribe_topics cid max_subs ts : stays (subscribe_topics cid max_subs ts).
Proof.
  induction ts as [|t ts IH]; cbn [subscribe_topics]; [stays_auto|]. apply stays_bind.
  - intros [b c] r st'. unfold subscribe_topic. destruct (_ && _); [by intros [= _ <-]|].
    destruct (plugin_check_subscribe _ _); [|by intros [= _ <-]].
    destruct (subscribe _ _ _ _); by intros [= _ <-].
  - intros [code acc]. apply stays_bind; [done|]. intros [codes accepted]. stays_auto.
Qed.

Lemma stays_packet p cid max_subs now : stays (handle_packet p cid max_subs now).
Proof.
  unfold handle_packet. apply stays_bind; [|intros _; stays_auto].
  destruct p as [?|?|pb|id|id|id|id|s|?|u|?| | |]; try (stays_auto; fail).
  - apply stays_publish.
  - unfold handle_subscribe. apply stays_bind; [apply stays_subscribe_topics|]. intros [codes accepted].
    stays_auto. apply stays_for_each. intros fq. unfold deliver_accepted. stays_auto.
    apply stays_for_each. intros m. unfold deliver_retained. stays_auto. case_match; stays_auto.
  - stays_auto. apply stays_for_each. intros f. unfold unsubscribe_one. stays_auto. by apply stays_shared.
Qed.

(** ** Connections *)

Lemma evolves_run_abnormal b si now b' :
  run_abnormal b si now = Some b' → evolves_own (si_client_id si) (si_epoch si) (b_shared b) (b_shared b').
Proof.
  unfold run_abnormal. destruct (on_abnormal_disconnect _ _ _ _ _) as [w|] eqn:E; [|done]. cbn. intros [= <-].
  by apply evolves_abnormal in E.
Qed.

(** What a loop does to the sessions: nothing comes online, and when the
    connection is closed its own session is not online. *)
Definition evolves_phase {A} (st_of : A → Broker M S F * Conn K) si b (k : SinkState) (p : Phase M S F K A) : Prop :=
  match p with
  | Open a => bevolves b (st_of a).1 ∧ sends k (sink (st_of a).2)
  | Closed b' _ => evolves_own (si_client_id si) (si_epoch si) (b_shared b) (b_shared b')
  end.

Lemma evolves_close_abnormal b k si now k0 p :
  close_abnormal b k si now = Some p →
  evolves_phase (λ l : LoopState M S F K, (l_broker l, l_conn l)) si b k0 p.
Proof.
  unfold close_abnormal. destruct (run_abnormal b si now) as [b'|] eqn:E; [|done]. cbn. intros [= <-].
  exact (evolves_run_abnormal _ _ _ _ E).
Qed.

Lemma evolves_replay si ctx msg ev now b c p :
  replay si ctx [msg] ev now (b, c) = Some p → evolves_phase (λ st, st) si b (sink c) p.
Proof.
  cbn [replay]. pose proof (build_for_sink b c msg now) as Hk.
  destruct (build_for b c msg now) as [[pkt|] c']; cbn in Hk.
  2:{ intros [= <-]. cbn. by rewrite Hk. }
  rewrite <-Hk.
  assert (Hsend : ∀ evs : list ReplayEvent, match sink_send (sink c') pkt with
      | (Ok _, k) => Some (Open (b, c' <| sink := k |>))
      | (Err _, k) => b ← run_abnormal b si now; Some (Closed (count_closed b) k)
      end = Some p → evolves_phase (λ st, st) si b (sink c') p).
  { intros evs. pose proof (sends_one (sink c') pkt) as Hs. destruct (sink_send _ _) as [[u|e] k]; [by intros [= <-]|].
    destruct (run_abnormal b si now) as [b'|] eqn:E; [|done]. cbn. intros [= <-].
    exact (evolves_run_abnormal _ _ _ _ E). }
  assert (Hdrop : ∀ started, sends (sink c') (sink (dropped_send c' pkt started))).
  { intros []; [apply sends_one|done]. }
  destruct ev as [|[[] started|at_ started|] evs]; [apply (Hsend [])| | | |apply (Hsend [])].
  - intros [= <-]. exact (evolves_cleanup (b_shared b) _ _ _ now).
  - intros [= <-]. split; [done|apply Hdrop].
  - destruct (is_keep_alive_expired ctx at_); [|intros [= <-]; split; [done|apply Hdrop]].
    destruct (run_abnormal b si at_) as [b'|] eqn:E; [|done]. cbn. intros [= <-].
    exact (evolves_run_abnormal _ _ _ _ E).
Qed.

Lemma check_connect_same b k first auto_id r b' k' :
  check_connect b k first auto_id = (r, b', k') →
  sess b' = sess b ∧ sh_chans (b_shared b') = sh_chans (b_shared b) ∧ b_config b' = b_config b.
Proof.
  unfold check_connect. destruct first as [| | |p]; try (by intros [= <- <- <-]).
  destruct p; try (by intros [= <- <- <-]). destruct (_ && _); [by intros [= <- <- <-]|].
  destruct (_ && _); [by intros [= <- <- <-]|]. cbv zeta. destruct (authenticate _ _ _ _); by intros [= <- <- <-].
Qed.

(** A CONNECT brings online at most the session it registers, on a new channel,
    and none when the connection does not survive it. *)
Lemma establish_sess b k peer first auto_id id guard now p guard' cid :
  establish b k peer first auto_id id guard now = (p, guard', cid) →
  match p with
  | Open (si, _, _, (b', _)) =>
      si_epoch si = wrap_u64 (epoch_counter (sess b) + 1) ∧ epoch_counter (sess b') = si_epoch si ∧
      max_offline_messages (sess b') = max_offline_messages (sess b) ∧
      grows (sh_chans (b_shared b)) (sh_chans (b_shared b')) ∧
      ¬ created (sh_chans (b_shared b)) (si_rx si) ∧ created (sh_chans (b_shared b')) (si_rx si) ∧
      queued (sh_chans (b_shared b')) (si_rx si) = [] ∧
      ∀ d ep rx, online_at (sess b') d ep rx →
        (d = si_client_id si ∧ ep = si_epoch si ∧ rx = si_rx si) ∨ online_at (sess b) d ep rx
  | Closed b' _ =>
      (epoch_counter (sess b') = epoch_counter (sess b) ∨
       epoch_counter (sess b') = wrap_u64 (epoch_counter (sess b) + 1)) ∧
      max_offline_messages (sess b') = max_offline_messages (sess b) ∧
      grows (sh_chans (b_shared b)) (sh_chans (b_shared b')) ∧
      ∀ d ep rx, online_at (sess b') d ep rx → online_at (sess b) d ep rx
  end.
Proof.
  unfold establish. destruct (check_connect b k first auto_id) as [[r b1] k1] eqn:Ec.
  apply check_connect_same in Ec as (Hs1 & Hc1 & _). destruct r as [[connect identity]|].
  2:{ intros [= <- <- <-]. rewrite Hs1, Hc1. split; [by left|done]. }
  unfold register_session. destruct (channel _ _) as [tx_ ch] eqn:Ech. rewrite Hc1 in Ech.
  destruct (register _ _ _ _ _ _ _ _ _) as [[[ep sp] msgs] s2] eqn:Er.
  apply register_online in Er as (Hep & Hcnt & Hmx & Hon). cbn in Hep. rewrite Hs1 in *.
  pose proof (grows_channel _ _ _ _ Ech) as Hg. destruct (channel_fresh _ _ _ _ Ech) as (Hn1 & Hn2 & Hn3).
  assert (Hpro : ∀ b0, sess (promote guard b0).2 = sess b0 ∧ sh_chans (b_shared (promote guard b0).2) = sh_chans (b_shared b0))
    by (intros b0; unfold promote; by destruct (promoted guard)).
  set (b2 := b1 <| b_shared := _ |>). specialize (Hpro b2).
  destruct (promote guard b2) as [guard3 b3]. cbn in Hpro. destruct Hpro as [Hpro1 Hpro2].
  set (si := Connection.mkSessionInfo _ _ _ _). destruct (sink_send _ _) as [[u|e] k2]; intros [= <- <- <-].
  - cbn. rewrite Hpro1, Hpro2. split; [done|]. split; [by rewrite Hep|]. split; [done|]. split; [done|]. split; [done|]. split; [done|]. split; [done|].
    intros d e' rx [(-> & -> & ->)|H]%Hon; [by left|by right].
  - pose proof (evolves_cleanup (b_shared (on_metrics inc_connections b3)) (si_client_id si) (si_epoch si) (si_clean si) now)
      as [[Hf Hgr] Hno]. pose proof Hf as (Hcl & Hmc & _).
    assert (E1 : epoch_counter (sess b3) = ep) by (rewrite Hpro1; congruence).
    split; [right; exact (eq_trans Hcl (eq_trans E1 Hep))|].
    split; [etrans; [exact Hmc|]; exact (eq_trans (f_equal max_offline_messages Hpro1) Hmx)|]. split; [etrans; [exact Hg|]; rewrite <-Hpro2; exact Hgr|].
    intros d e' rx Hd. assert (Hd3 : online_at (sess b3) d e' rx).
    { eapply fades_online; [exact Hf|exact Hd]. }
    rewrite Hpro1 in Hd3. destruct (Hon d e' rx Hd3) as [(-> & -> & ->)|H]; [|done].
    destruct (Hno tx_). rewrite <-Hep in Hd. exact Hd.
Qed.

(** The channel of a connection ends only when it does not own its session. *)
Lemma not_owner_offline (self : SessionManager M) cid ep rx : owns self cid ep = false → ¬ online_at self cid ep rx.
Proof.
  unfold owns. intros H (e & He & _ & Hep & _). rewrite He in H. apply Z.eqb_neq in H. done.
Qed.

Lemma sends_all k pkts : sends k (send_all k pkts).2.
Proof.
  revert k. induction pkts as [|p pkts IH]; intros k; cbn [send_all]; [done|].
  pose proof (sends_one k p) as H. destruct (sink_send k p) as [[u|e] k1]; [|done]. cbn in H. etrans; [exact H|apply IH].
Qed.

Lemma evolves_loop si max_subs timeout retries b c ctx ev now p :
  (ev = LOutbound None → owns (sess b) (si_client_id si) (si_epoch si) = false) →
  loop_step si max_subs timeout retries (mkLoopState b c ctx) ev now = Some p →
  evolves_phase (λ l : LoopState M S F K, (l_broker l, l_conn l)) si b (sink c) p.
Proof.
  intros Hev. destruct ev as [[]| | |[[packet|e]|]|[req|]]; cbn [loop_step l_broker l_conn l_ctx].
  - intros [= <-]. exact (evolves_cleanup (b_shared b) _ _ _ now).
  - by intros [= <-].
  - destruct (is_keep_alive_expired ctx now); [apply evolves_close_abnormal|by intros [= <-]].
  - destruct (retry_expired _ _ _ _) as [[rs fl] t]. pose proof (sends_all (sink (c <| outbound_inflight := t |>)) rs.*2) as Hs.
    destruct (send_all _ _) as [[] k]; [by intros [= <-]|apply evolves_close_abnormal].
  - destruct (handle_packet _ _ _ _ _) as [[r [b1 c1]]|] eqn:E; [|done]. apply stays_packet in E as [E1 E2]. cbn [fst snd] in E1, E2.
    destruct r as [[]|e]; [by intros [= <-]| |].
    + intros [= <-]. eapply evolves_own_trans; [exact E1|].
      set (w1 := (b_shared b1) <| sh_sessions ::= λ s, clear_will s (si_client_id si) (si_epoch si) |>).
      apply (evolves_own_trans _ _ _ w1); [|exact (evolves_cleanup w1 _ _ (si_clean si) now)].
      split; [apply fades_clear_will|reflexivity].
    + intros H%(evolves_close_abnormal _ _ _ _ (sink c1)). destruct p as [l|b2 k2]; cbn in H |- *.
      * destruct H. split; by etrans.
      * by eapply evolves_own_trans.
  - apply evolves_close_abnormal.
  - apply evolves_close_abnormal.
  - pose proof (build_for_sink b c req now) as Hk. destruct (build_for b c req now) as [[pkt|] c']; cbn in Hk.
    + pose proof (sends_one (sink c') pkt) as Hs. rewrite Hk in Hs.
      rewrite Hk. destruct (sink_send _ _) as [[u|e] k]; [by intros [= <-]|apply evolves_close_abnormal].
    + intros [= <-]. cbn. by rewrite Hk.
  - intros [= <-]. split; [done|]. intros rx. apply not_owner_offline, Hev. done.
Qed.
End Handlers.

(** ** The sweeper and the admin API *)

Section Background.
Context {M : Mpsc} {L : MpscLaws M} {R : MpscRx M} {LR : MpscRxLaws M L R} {S : Sled} {JR : Json RetainedMessage}
  {JS : Json SessionSnapshot} {JO : Json OutboundPublish} {F : ForwardEnv} {A : Axum}.
Implicit Types (b : Broker M S F) (w : Shared M S).

Abbreviation sess b := (sh_sessions (b_shared b)).

Lemma sweep_inv g w now : shared_inv g w → shared_inv g (sweep w now).
Proof.
  intros [H1 H2 H3 H4]. unfold sweep. pose proof (cleanup_expired_inv _ now H1) as Hc.
  assert (Hm : max_offline_messages (cleanup_expired (sh_sessions w) now).1 = max_offline_messages (sh_sessions w)).
  { unfold cleanup_expired. generalize (expired_ids (sh_sessions w) now). intros ids.
    enough (∀ st, max_offline_messages (foldl (cleanup_one now) st ids).1 = max_offline_messages st.1) as H by by rewrite H.
    induction ids as [|id ids IH]; intros [s r]; cbn [foldl]; [done|]. rewrite IH. unfold cleanup_one.
    by destruct (is_still_expired s id now). }
  destruct (cleanup_expired _ _) as [s ids]. cbn [fst] in *.
  assert (Hi : shared_inv g (w <| sh_sessions := s |>)) by (split; [done|cbn; lia|done..]).
  revert Hi. generalize (w <| sh_sessions := s |>). induction ids as [|id ids IH]; intros w1 Hi; cbn [foldl]; [done|].
  apply IH. unfold sweep_one.
  assert (Hu : shared_inv g (w1 <| sh_subscriptions ::= λ t, unsubscribe_all t id |>)).
  { destruct Hi as [I1 I2 I3 I4]. split; [done..| |done]. by apply unsubscribe_all_inv. }
  apply (delete_snapshot_inv g _ id) in Hu as [U1 U2 U3 U4]. by split.
Qed.

(** What a task beside the connections keeps: the invariant, the counters of the
    guard, and no session comes online. *)
Definition keeps_apart b b' : Prop :=
  (∀ g, shared_inv g (b_shared b) → shared_inv g (b_shared b')) ∧ b_config b' = b_config b ∧
  ip_counter (b_security b') = ip_counter (b_security b) ∧ evolves (b_shared b) (b_shared b').

#[export] Instance keeps_apart_preorder : PreOrder keeps_apart.
Proof.
  split; [intros b; by split|]. intros b1 b2 b3 (H1 & H2 & H3 & H4) (G1 & G2 & G3 & G4).
  split; [auto|]. split; [congruence|]. split; [congruence|]. by etrans.
Qed.

Lemma apart_metrics (f : Metrics → Metrics) b :
  (∀ m, gauges (f m) = gauges m) → keeps_apart b (on_metrics f b).
Proof. intros Hf. split; [|done]. intros g. by apply metrics_kept. Qed.

Lemma keeps_sweep b now : keeps_apart b (b <| b_shared ::= λ w, sweep w now |>).
Proof. split; [intros g; apply sweep_inv|]. split; [done|]. split; [done|]. apply evolves_sweep. Qed.

Lemma keeps_sync b : keeps_apart b (sync_gauges b).
Proof.
  unfold sync_gauges. destruct (subscription_counts _) as [x y]. split; [|done]. intros g [H1 H2 H3 H4]. by split.
Qed.

Lemma keeps_delete c b : keeps_apart b (delete_session c b).2.
Proof.
  unfold Admin.delete_session. destruct (is_online _ _); [done|]. cbn [snd].
  assert (Hm : ∀ s : SessionManager M, max_offline_messages (remove s c).2 = max_offline_messages s).
  { intros s. unfold remove. destruct (sessions s !! c) as [e|]; [|done]. by destruct (connected e). }
  split; [|split; [done|split; [done|]]].
  - intros g [H1 H2 H3 H4]. cbn. unfold remove_client. apply try_storage_inv; [apply gs_drain|].
    apply try_storage_inv; [apply gs_delete_session|].
    split; cbn; [by apply remove_inv|by rewrite Hm|by apply unsubscribe_all_inv|done].
  - split; [|reflexivity]. apply fades_remove.
Qed.

Lemma keeps_manual req now b r b' :
  shared_inv (gauges (sh_metrics (b_shared b))) (b_shared b) → manual_publish req now b = Some (r, b') → keeps_apart b b'.
Proof.
  intros Hi. unfold manual_publish. destruct (qos_of_request _) as [qos|]; [|by intros [= _ <-]].
  pose proof (guard_check_view (b_security b) "admin-api" (Z.of_nat (length (as_bytes (mp_payload req))))
                (max_packet_size (b_config b)) now) as Hv. cbn [p_payload].
  destruct (guard_check_publish _ _ _ _ _) as [q gd]. cbn [snd] in Hv. unfold guard_view in Hv. injection Hv as _ Hv.
  assert (Hg : keeps_apart b (b <| b_security := gd |>)) by (split; [done|]; split; [done|]; split; [exact Hv|done]).
  destruct q as [u|e]; [|intros [= _ <-]; etrans; [exact Hg|by apply apart_metrics]].
  destruct (plugin_check_publish _ _) as [u'|e]; [|intros [= _ <-]; etrans; [exact Hg|by apply apart_metrics]].
  unfold route_inbound_publish. destruct (publish _ _ _ _ _ _ _) as [w|] eqn:E; [|done]. cbn [mbind option_bind].
  intros [= _ <-]. etrans; [exact Hg|]. etrans; [|apply apart_metrics, inc_publish_qos_gauges].
  etrans; [|by apply apart_metrics]. apply evolves_publish in E as Hf. split; [|done]. intros g Hgi. cbn in *.
  destruct (publish_inv g (b_shared b) (mp_topic req) (as_bytes (mp_payload req)) qos (mp_retain req)
              (Some "admin-api") now Hgi) as (w' & Ew & Hw'). rewrite Ew in E. by injection E as <-.
Qed.

Lemma keeps_reload_security cfg b : keeps_apart b (reload_security cfg b).2.
Proof.
  unfold reload_security, broker_reload_security, guard_reload. by destruct (build_policy cfg).
Qed.

Lemma keeps_reload_plugin cfg b : keeps_apart b (reload_plugin cfg b).2.
Proof. unfold reload_plugin, broker_reload_plugin. by destruct (plugin_reload _ _ _). Qed.

Lemma some_snd {X Y} (p : X * Y) x y : Some p = Some (x, y) → p.2 = y.
Proof. by intros [= ->]. Qed.

(** The admin API. *)
Lemma keeps_serve admin req now b r b' :
  shared_inv (gauges (sh_metrics (b_shared b))) (b_shared b) → serve admin req now b = Some (r, b') → keeps_apart b b'.
Proof.
  intros Hi. unfold serve, admin_token_auth.
  assert (Hr : run_route req now b = Some (r, b') → keeps_apart b b').
  { unfold run_route. destruct (ax_match _ _ _) as [h param|]; [|by intros <-%some_snd].
    destruct h; cbn [with_json].
    1-3, 5: by intros <-%some_snd.
    - intros <-%some_snd. apply keeps_sync.
    - intros <-%some_snd. apply keeps_delete.
    - destruct (json_security req); [|by intros <-%some_snd]. intros <-%some_snd. apply keeps_reload_security.
    - destruct (json_plugin req); [|by intros <-%some_snd]. intros <-%some_snd. apply keeps_reload_plugin.
    - destruct (json_publish req); [|by intros <-%some_snd]. by apply keeps_manual. }
  destruct (str_is_empty _); [done|]. destruct (negb (is_protected _)); [done|].
  destruct (negb (auth_ok _ _)); [by intros <-%some_snd|done].
Qed.

Lemma serve_total admin req now b :
  shared_inv (gauges (sh_metrics (b_shared b))) (b_shared b) → is_Some (serve admin req now b).
Proof.
  intros Hi. assert (Hp : ∀ p, is_Some (manual_publish p now b)).
  { intros p. unfold manual_publish. destruct (qos_of_request _) as [qos|]; [|by eexists].
    destruct (guard_check_publish _ _ _ _ _) as [[u|e] gd]; [|by eexists].
    destruct (plugin_check_publish _ _); [|by eexists]. unfold route_inbound_publish. cbn.
    destruct (publish_inv _ (b_shared b) (mp_topic p) (as_bytes (mp_payload p)) qos (mp_retain p) (Some "admin-api") now Hi)
      as (w & -> & _). by eexists. }
  assert (Hr : is_Some (run_route req now b)).
  { unfold run_route. destruct (ax_match _ _ _) as [[] param|]; try (by eexists); unfold with_json;
      [destruct (json_security req)|destruct (json_plugin req)|destruct (json_publish req)]; try (by eexists); apply Hp. }
  unfold serve, admin_token_auth. destruct (str_is_empty _); [done|].
  destruct (negb (is_protected _)); [done|]. destruct (negb (auth_ok _ _)); [by eexists|done].
Qed.

Lemma keeps_dashboard b ev go out b' : dashboard_step b ev = (go, out, b') → keeps_apart b b'.
Proof.
  destruct ev as [t ser sent|[[[| |]|]|]]; cbn [dashboard_step]; try (by intros [= _ _ <-]).
  unfold build_dashboard_snapshot. destruct ser, sent; intros [= _ _ <-]; apply keeps_sync.
Qed.
End Background.
