(* ===== verification/SystemGateway.v ===== *)
(** * The gateway among the other tasks

    What a step of the MQTT-SN gateway does to the state it shares with the
    connections: apart from a CONNECT, which registers one session on a channel of
    its own, no session comes online and nothing is taken from a channel. *)

From S2P Require Import Prelude Packet Messages OfflineQueue Subscription SubscriptionProofs.
From S2P Require Import SubscriptionTheorems Storage StorageProofs Metrics Retain Session.
From S2P Require Import SessionProofs SessionTheorems Qos QosProofs QosTheorems Router.
From S2P Require Import RouterTheorems Auth IpFilter Limiter Security Plugin PluginTheorems.
From S2P Require Import Lifecycle LifecycleTheorems Config Handlers HandlersProofs HandlersTheorems.
From S2P Require Import Connection ConnectionTheorems SnCodec SnCodecTheorems SnGateway SnTheorems.
From S2P Require Import SystemProofs.

Section Gateway.
Context {M : Mpsc} {L : MpscLaws M} {R : MpscRx M} {LR : MpscRxLaws M L R} {S : Sled} {JR : Json RetainedMessage}
  {JS : Json SessionSnapshot} {JO : Json OutboundPublish} {F : ForwardEnv}.
Implicit Types (w : Shared M S) (s : SnServer M S F).

Abbreviation sn_sess s := (sh_sessions (sn_shared s)).
Abbreviation sn_chans s := (sh_chans (sn_shared s)).

(** The gauge of pending connections is kept, that of current ones stays in its
    type. *)
Definition keeps_gauges (m m' : Metrics) : Prop :=
  connections_pending m' = connections_pending m ∧ (in_i64 (connections_current m) → in_i64 (connections_current m')).

#[export] Instance keeps_gauges_preorder : PreOrder keeps_gauges.
Proof. split; [done|]. intros m1 m2 m3 [A1 A2] [B1 B2]. split; [congruence|auto]. Qed.

Lemma keeps_same m m' : gauges m' = gauges m → keeps_gauges m m'.
Proof. unfold gauges. intros [= E1 E2]. split; [done|]. by rewrite E1. Qed.

Lemma wrap_in_i64 z : in_i64 (wrap_i64 z).
Proof.
  unfold in_i64, wrap_i64, u64_mod. change (18446744073709551616 / 2) with (2 ^ 63).
  pose proof (Z.mod_pos_bound (z + 2 ^ 63) 18446744073709551616 ltac:(lia)). lia.
Qed.

Lemma keeps_inc m : keeps_gauges m (inc_connections m).
Proof. split; [done|]. intros _. apply wrap_in_i64. Qed.
Lemma keeps_dec m : keeps_gauges m (dec_connections m).
Proof. split; [done|]. intros _. apply wrap_in_i64. Qed.

(** What every step of the gateway keeps. *)
Definition same_broker s s' : Prop :=
  b_config (sn_broker s') = b_config (sn_broker s) ∧ b_security (sn_broker s') = b_security (sn_broker s) ∧
  keeps_gauges (sh_metrics (sn_shared s)) (sh_metrics (sn_shared s')).

Definition quiet s s' : Prop :=
  same_broker s s' ∧ evolves (sn_shared s) (sn_shared s') ∧ sn_tasks s' = sn_tasks s.

#[export] Instance quiet_preorder : PreOrder quiet.
Proof.
  split; [intros s; by split|]. intros s1 s2 s3 [(A1 & A2 & A3) [A4 A5]] [(B1 & B2 & B3) [B4 B5]].
  split; [split; [congruence|split; [congruence|by etrans]]|]. split; [by etrans|congruence].
Qed.

Lemma quiet_send s peer pkt : quiet s (sn_send peer pkt s).
Proof. unfold sn_send. by destruct (encode_packet pkt). Qed.

Lemma quiet_client s peer c : quiet s (set_client peer c s).
Proof. done. Qed.

Lemma quiet_shared s f :
  (∀ w, keeps_gauges (sh_metrics w) (sh_metrics (f w))) → (∀ w, evolves w (f w)) →
  quiet s (on_sn_shared f s).
Proof. intros Hp He. split; [split; [done|split; [done|apply Hp]]|]. split; [apply He|done]. Qed.

Lemma quiet_metrics s f : (∀ m, keeps_gauges m (f m)) → quiet s (sn_metrics f s).
Proof. intros Hf. apply quiet_shared; [intros w; apply Hf|done]. Qed.

Lemma cleanup_session_quiet w c ep cl now :
  keeps_gauges (sh_metrics w) (sh_metrics (cleanup_session w c ep cl now)) ∧
  evolves w (cleanup_session w c ep cl now).
Proof.
  unfold cleanup_session. destruct (negb _); [done|].
  destruct cl; (split; [etrans; [apply keeps_dec|by apply keeps_same]|]; split; [|reflexivity]).
  - apply fades_remove.
  - apply fades_mark_offline.
Qed.

Lemma quiet_cleanup s c ep cl now : quiet s (on_sn_shared (λ w, cleanup_session w c ep cl now) s).
Proof. apply quiet_shared; intros w; apply cleanup_session_quiet. Qed.

Lemma quiet_clients s (f : gmap SocketAddr SnClient → gmap SocketAddr SnClient) : quiet s (s <| sn_clients ::= f |>).
Proof. done. Qed.

Hint Resolve quiet_send quiet_client quiet_cleanup quiet_clients : quiet.

(** ** Handlers *)

Lemma quiet_touch s peer now : quiet s (sn_touch_peer peer now s).
Proof. unfold sn_touch_peer. destruct (sn_clients s !! peer); [apply quiet_client|done]. Qed.

Lemma quiet_register s peer mid t now : quiet s (sn_register s peer mid t now).
Proof.
  unfold sn_register. destruct (sn_clients s !! peer); [|apply quiet_send].
  destruct (assign_topic_id _ t) as [i c]. etrans; [apply (quiet_client s peer c)|apply quiet_send].
Qed.

Lemma quiet_publish n s peer flags tid mid data now s' :
  sn_inv n s → sn_publish s peer flags tid mid data now = Some s' → quiet s s'.
Proof.
  intros Hs. unfold sn_publish. destruct (flags_to_qos flags) as [qos|rc].
  2:{ intros [= <-]. destruct (negb _); [apply quiet_send|done]. }
  destruct (sn_clients s !! peer) as [c|] eqn:E; [|by intros [= <-]]. cbv zeta.
  set (s1 := set_client peer (sn_touch c now) s). assert (H1 : quiet s s1) by done.
  destruct (publish_topic _ flags tid) as [name|].
  2:{ intros [= <-]. etrans; [exact H1|]. destruct (negb _); [apply quiet_send|done]. }
  destruct (publish (sn_shared s1) _ _ _ _ _ _) as [w|] eqn:Ep; [|done]. cbn. intros [= <-].
  assert (Hw : keeps_gauges (sh_metrics (sn_shared s)) (sh_metrics w)).
  { destruct Hs as [[Hi _] _]. change (sn_shared s1) with (sn_shared s) in Ep.
    destruct (publish_inv _ (sn_shared s) name data qos (negb (Z.land flags FLAG_RETAIN =? 0)) (Some (sn_client_id (sn_touch c now))) now Hi)
      as (w' & Ew & [_ _ _ Hg]). rewrite Ew in Ep. injection Ep as ->. by apply keeps_same. }
  apply evolves_publish in Ep.
  assert (H2 : quiet s1 (sn_metrics inc_publish (on_sn_shared (λ _, w) s1))).
  { split; [split; [done|split; [done|etrans; [exact Hw|by apply keeps_same]]]|]. split; [exact Ep|done]. }
  etrans; [exact H1|]. etrans; [exact H2|]. case_bool_decide; [apply quiet_send|done].
Qed.

Lemma quiet_subscribe s peer flags mid topic now : quiet s (sn_subscribe s peer flags mid topic now).
Proof.
  unfold sn_subscribe. destruct (flags_to_qos flags) as [qos|rc]; [|apply quiet_send]. cbv zeta.
  destruct (sn_clients s !! peer) as [c|]; [|apply quiet_send].
  destruct (subscribe _ _ _ _) as [tree|].
  2:{ etrans; [apply (quiet_client s peer (sn_touch c now))|apply quiet_send]. }
  match goal with |- context [set_client peer _ ?t] => set (s1 := t) end.
  assert (H1 : quiet s s1) by by apply quiet_shared.
  match goal with |- quiet s (let '(tid, c) := ?r in _) => destruct r as [tid c'] end.
  etrans; [exact H1|]. etrans; [apply (quiet_client s1 peer c')|apply quiet_send].
Qed.

Lemma quiet_unsubscribe s peer mid topic now : quiet s (sn_unsubscribe s peer mid topic now).
Proof.
  unfold sn_unsubscribe. cbv zeta. etrans; [|apply quiet_send]. etrans; [|by apply quiet_metrics].
  destruct (sn_clients s !! peer) as [c|]; [|done]. etrans; [|apply quiet_client]. by apply quiet_shared.
Qed.

Lemma quiet_disconnect s peer d now : quiet s (sn_disconnect s peer d now).
Proof.
  unfold sn_disconnect. destruct (sn_clients s !! peer) as [c|]; [|done]. destruct d as [d|].
  - etrans; [|apply quiet_metrics, keeps_dec]. etrans; [|apply quiet_client]. destruct (owns _ _ _); [|done].
    apply quiet_shared; [done|]. intros w. split; [apply fades_mark_offline|reflexivity].
  - etrans; [apply (quiet_clients s (delete peer))|apply quiet_cleanup].
Qed.

(** ** CONNECT *)

(** A session is registered, on a new channel, and a forwarder is started on it. *)
Definition joins s s' : Prop :=
  ∃ cid rx, let ep := wrap_u64 (epoch_counter (sn_sess s) + 1) in
  same_broker s s' ∧ epoch_counter (sn_sess s') = ep ∧ max_offline_messages (sn_sess s') = max_offline_messages (sn_sess s) ∧
  grows (sn_chans s) (sn_chans s') ∧
  ¬ created (sn_chans s) rx ∧ created (sn_chans s') rx ∧
  (∀ d e r, online_at (sn_sess s') d e r → (d = cid ∧ e = ep ∧ r = rx) ∨ online_at (sn_sess s) d e r) ∧
  ∃ peer, sn_tasks s' = sn_tasks s ++ [mkSnTask peer cid ep rx].

Lemma send_broker s peer pkt :
  sn_broker (sn_send peer pkt s) = sn_broker s ∧ sn_tasks (sn_send peer pkt s) = sn_tasks s.
Proof. unfold sn_send. by destruct (encode_packet pkt). Qed.

Lemma connect_effect s peer flags pid duration cid now :
  quiet s (sn_connect s peer flags pid duration cid now) ∨ joins s (sn_connect s peer flags pid duration cid now).
Proof.
  unfold sn_connect.
  destruct (negb _); [left; apply quiet_send|]. destruct (negb _); [left; apply quiet_send|].
  destruct (str_is_empty cid); [left; apply quiet_send|]. destruct (_ >=? _); [left; apply quiet_send|]. cbv zeta.
  destruct (channel _ _) as [tx_ ch] eqn:Ech. destruct (register _ _ _ _ _ _ _ _ _) as [[[ep sp] off] sess2] eqn:Er.
  apply register_online in Er as (Hep & Hcnt & Hmx & Hon). cbn in Hep. right. exists cid, tx_. cbv zeta.
  pose proof (grows_channel _ _ _ _ Ech) as Hg. destruct (channel_fresh _ _ _ _ Ech) as (Hn1 & Hn2 & _).
  match goal with |- context [sn_send peer ?p ?t] => destruct (send_broker t peer p) as [Hb Ht]; set (s2 := t) in * end.
  unfold same_broker, sn_shared in *. cbn. rewrite Hb, Ht. cbn.
  split; [split; [done|split; [done|apply keeps_inc]]|]. split; [done|]. split; [done|]. split; [done|]. split; [done|]. split; [done|].
  split; [exact Hon|]. exists peer. by rewrite Hep.
Qed.

(** ** Events *)

Lemma foldl_quiet {X} (f : SnServer M S F → X → SnServer M S F) (l : list X) s :
  (∀ s x, quiet s (f s x)) → quiet s (foldl f s l).
Proof. intros Hf. revert s. induction l as [|x l IH]; intros s; cbn [foldl]; [done|]. etrans; [apply Hf|apply IH]. Qed.

Lemma quiet_sweep s now : quiet s (sn_sweep s now).
Proof.
  unfold sn_sweep. apply foldl_quiet. intros s0 c. unfold sn_drop_client.
  etrans; [apply (quiet_clients s0 (delete (sn_peer c)))|apply quiet_cleanup].
Qed.

Lemma quiet_stop s now s' : sn_step s EvStop now = Some s' → quiet s s'.
Proof.
  cbn [sn_step]. intros [= <-]. set (f := λ w c, cleanup_session w (sn_client_id c) (sn_epoch c) (sn_clean c) now).
  assert (H : ∀ cs w, keeps_gauges (sh_metrics w) (sh_metrics (foldl f w cs)) ∧ evolves w (foldl f w cs)).
  { induction cs as [|c cs IH]; intros w; cbn [foldl]; [done|]. destruct (IH (f w c)) as [I1 I2].
    destruct (cleanup_session_quiet w (sn_client_id c) (sn_epoch c) (sn_clean c) now) as [C1 C2].
    split; [etrans; [exact C1|exact I1]|etrans; [exact C2|exact I2]]. }
  apply quiet_shared; intros w; apply H.
Qed.

Lemma quiet_forward s task msg ok : quiet s (forward_step s task msg ok).2.
Proof.
  unfold forward_step. destruct (negb _); [done|]. destruct (sn_clients s !! _) as [c|]; [|done].
  destruct (negb _); [done|]. destruct (assign_topic_id c _) as [i c1].
  match goal with |- context [let '(mid, c) := ?r in _] => destruct r as [mid c2] end. cbv zeta.
  by destruct (encode_packet _).
Qed.

Lemma datagram_effect n s peer data now s' :
  sn_inv n s → sn_step s (EvDatagram peer data) now = Some s' → quiet s s' ∨ joins s s'.
Proof.
  intros Hs. cbn [sn_step]. destruct (parse_packet data) as [pkt|]; [|intros [= <-]; by left].
  destruct pkt; cbn [sn_handle]; try (by intros [= <-]; left).
  - intros [= <-]. apply connect_effect.
  - intros [= <-]. left. apply quiet_register.
  - intros H. left. by eapply quiet_publish.
  - intros [= <-]. left. apply quiet_touch.
  - intros [= <-]. left. apply quiet_subscribe.
  - intros [= <-]. left. apply quiet_unsubscribe.
  - intros [= <-]. left. etrans; [apply quiet_touch|apply quiet_send].
  - intros [= <-]. left. apply quiet_disconnect.
Qed.
End Gateway.
