(* ===== verification/SystemInvariant.v ===== *)
(** * The invariant of the process, step by step

    Which connection counts where, which session belongs to which connection, and
    that every step of every task keeps it so. *)

From stdpp Require Import relations.
From S2P Require Import Prelude Packet Messages OfflineQueue Subscription SubscriptionProofs.
From S2P Require Import SubscriptionTheorems Storage StorageProofs Metrics Retain Session.
From S2P Require Import SessionProofs SessionTheorems Qos QosProofs QosTheorems Router.
From S2P Require Import RouterTheorems Auth IpFilter Limiter Security Plugin PluginTheorems.
From S2P Require Import Lifecycle LifecycleTheorems Config Handlers HandlersProofs.
From S2P Require Import HandlersTheorems Connection ConnectionTheorems Listeners Admin.
From S2P Require Import AdminTheorems TlsLoad Start SnCodec SnGateway SnTheorems System.
From S2P Require Import SystemProofs SystemGateway.

(** ** Counting tasks *)

Section Count.
Context {V : Type} (P : V → bool).
Implicit Types m : gmap nat V.

Definition count_if m : Z := Z.of_nat (size (filter (λ kv, P kv.2 = true) m)).

Lemma count_if_nonneg m : 0 ≤ count_if m.
Proof. unfold count_if. lia. Qed.

Lemma count_if_size m : count_if m ≤ Z.of_nat (size m).
Proof. unfold count_if. apply inj_le, map_subseteq_size, map_filter_subseteq. Qed.

Lemma count_if_empty : count_if ∅ = 0.
Proof. done. Qed.

Lemma count_if_delete m k v : m !! k = Some v → count_if (delete k m) = count_if m - one (P v).
Proof.
  intros Hk. unfold count_if. rewrite map_filter_delete. destruct (P v) eqn:Hv; cbn [one].
  - assert (Hf : filter (λ kv, P kv.2 = true) m !! k = Some v) by by apply map_lookup_filter_Some.
    rewrite map_size_delete, Hf. assert (size (filter (λ kv, P kv.2 = true) m) ≠ 0%nat).
    { rewrite map_size_ne_0_lookup. eauto. }
    lia.
  - assert (Hf : filter (λ kv, P kv.2 = true) m !! k = None).
    { apply map_lookup_filter_None. right. intros x Hx. cbn. congruence. }
    rewrite map_size_delete, Hf. cbn. lia.
Qed.

Lemma count_if_insert m k v : m !! k = None → count_if (<[k := v]> m) = count_if m + one (P v).
Proof.
  intros Hk. pose proof (count_if_delete (<[k := v]> m) k v (lookup_insert_eq _ _ _)) as H.
  rewrite delete_insert_id in H by done. lia.
Qed.

Lemma count_if_replace m k v v' :
  m !! k = Some v → count_if (<[k := v']> m) = count_if m - one (P v) + one (P v').
Proof.
  intros Hk. rewrite <-(insert_delete_eq m k v'). rewrite count_if_insert by apply lookup_delete_eq.
  by rewrite (count_if_delete m k v).
Qed.
End Count.

Section Inv.
Context {M : Mpsc} {L : MpscLaws M} {R : MpscRx M} {LR : MpscRxLaws M L R} {S : Sled} {JR : Json RetainedMessage}
  {JS : Json SessionSnapshot} {JO : Json OutboundPublish} {F : ForwardEnv} {K : Sink} {A : Axum} {T : Rustls}.
Implicit Types (b : Broker M S F) (t : Task M K) (ts : gmap nat (Task M K)) (fw : list SnTask).

Abbreviation sess b := (sh_sessions (b_shared b)).
Abbreviation chans b := (sh_chans (b_shared b)).
Abbreviation current b := (connections_current (sh_metrics (b_shared b))).

(** ** What a task holds *)

Definition is_pending t : bool := match t with TPending _ _ => true | _ => false end.

Definition session_of t : option Connection.SessionInfo :=
  match t with TReplay _ si _ _ _ | TLoop _ si _ _ => Some si | _ => None end.
Definition is_serving t : bool := match session_of t with Some _ => true | None => false end.

(** Its place in the counter of an address. *)
Definition holder t : option SocketAddr :=
  match t with TPending peer _ | TReplay peer _ _ _ _ | TLoop peer _ _ _ => Some peer | _ => None end.
Definition holds_place (ip : IpAddr) t : bool :=
  match holder t with Some peer => bool_decide (sa_ip peer = ip) | None => false end.

Definition conn_of t : option (Conn K) :=
  match t with TReplay _ _ _ _ c | TLoop _ _ _ c => Some c | _ => None end.

(** What the counter of the guard should say of an address. *)
Definition places (limited : bool) ts (ip : IpAddr) : Z :=
  if limited then count_if (holds_place ip) ts else 0.

Definition tables_ok (cfg : BrokerConfig) (c : Conn K) : Prop :=
  out_inv (max_inflight cfg) (default 3 (max_retries cfg)) (next_pid c, outbound_inflight c).

(** The task serves the session of client [c] registered with the epoch [ep], and
    receives from [rx]. *)
Definition serves (o : option (Task M K)) (c : string) (ep : Z) (rx : Sender) : Prop :=
  ∃ t si, o = Some t ∧ session_of t = Some si ∧ si_client_id si = c ∧ si_epoch si = ep ∧ si_rx si = rx.

(** The counter of the guard, if the limit was not turned on or off. *)
Definition counter_ok (lim : option bool) (g : SecurityGuard) ts : Prop :=
  ∀ l, lim = Some l →
    limits (policy g) = l ∧ 0 ≤ max_connections_per_ip (policy g) ∧ counter_is (ip_counter g) (places l ts).

(** [exact]: the gateway has not touched the gauge; [owners]: the epochs it was
    issued, with their channels. *)
Record sys_inv (cfg : BrokerConfig) (n : Z) (exact : bool) (lim : option bool) (owners : gmap Z Sender)
    b ts fw : Prop := {
  sv_broker : broker_inv cfg (current b, count_if is_pending ts) (guard_view (b_security b)) b;
  sv_current : in_i64 (current b) ∧ (exact = true → current b = count_if is_serving ts);
  sv_counter : counter_ok lim (b_security b) ts;
  sv_conns id t c : ts !! id = Some t → conn_of t = Some c → tables_ok cfg c;
  sv_tasks id t si : ts !! id = Some t → session_of t = Some si →
    si_epoch si ≤ epoch_counter (sess b) ∧ created (chans b) (si_rx si);
  sv_distinct id id' t t' si si' : ts !! id = Some t → ts !! id' = Some t' →
    session_of t = Some si → session_of t' = Some si' →
    si_epoch si = si_epoch si' ∨ si_rx si = si_rx si' → id = id';
  sv_gateway ep rx : owners !! ep = Some rx →
    ep ≤ epoch_counter (sess b) ∧ created (chans b) rx ∧
    ∀ id t si, ts !! id = Some t → session_of t = Some si → si_epoch si ≠ ep ∧ si_rx si ≠ rx;
  sv_owned c ep rx : online_at (sess b) c ep rx → (∃ id, serves (ts !! id) c ep rx) ∨ owners !! ep = Some rx;
  sv_forward task : task ∈ fw → owners !! task_epoch task = Some (task_rx task);
  sv_bound : epoch_counter (sess b) ≤ n ∧ Z.of_nat (size ts) ≤ n;
}.

(** ** The guard *)

Definition place (l : bool) (f : IpConnectionCounter → IpConnectionCounter)
    (c : IpConnectionCounter) : IpConnectionCounter := if l then f c else c.

Lemma on_connect_view g peer :
  guard_view (on_connect g peer) = (policy g, place (limits (policy g)) (λ c, (ip_inc c (sa_ip peer)).2) (ip_counter g)).
Proof.
  unfold on_connect, place, limits, guard_view. destruct (sp_enabled (policy g)), (_ =? 0); done.
Qed.

Lemma on_disconnect_view g peer cid :
  0 ≤ max_connections_per_ip (policy g) →
  guard_view (on_disconnect g peer cid) = (policy g, place (limits (policy g)) (λ c, ip_dec c (sa_ip peer)) (ip_counter g)).
Proof.
  intros Hm. unfold on_disconnect, place, limits, guard_view. destruct (sp_enabled (policy g)); cbn [andb].
  2:{ by destruct cid. }
  destruct (Z.eqb_spec (max_connections_per_ip (policy g)) 0) as [E|E].
  - rewrite Z_gtb_false by lia. by destruct cid.
  - rewrite Z_gtb_true by lia. by destruct cid.
Qed.

(** The broker with the gauges and counters a connection's steps change. *)
Definition with_gauges (cfg : BrokerConfig) (cur pend : Z) b : Prop :=
  broker_inv cfg (cur, pend) (guard_view (b_security b)) b.

Lemma enter_inv cfg cur pend b peer guard b' :
  with_gauges cfg cur pend b → enter b peer = (guard, b') →
  with_gauges cfg cur (add_i64 pend) b' ∧ evolves (b_shared b) (b_shared b') ∧
  b_security b' = on_connect (b_security b) peer.
Proof.
  intros [[H1 H2 H3 H4] Hc Hg] [= <- <-]. split; [|done]. split; [split|..]; cbn; try done.
  injection H4 as E1 E2. unfold gauges. cbn. by rewrite E1, E2.
Qed.

Lemma leave_inv cfg cur pend b guard peer cid :
  with_gauges cfg cur pend b →
  with_gauges cfg cur (if promoted guard then pend else sub_i64 pend) (leave b guard peer cid) ∧
  evolves (b_shared b) (b_shared (leave b guard peer cid)) ∧ sess (leave b guard peer cid) = sess b ∧
  b_security (leave b guard peer cid) = on_disconnect (b_security b) peer cid.
Proof.
  intros [[H1 H2 H3 H4] Hc Hg]. unfold leave, drop_pending. destruct (promoted guard).
  - split; [|done]. split; [split|..]; done.
  - split; [|done]. split; [split|..]; cbn; try done. injection H4 as E1 E2. unfold gauges. cbn. by rewrite E1, E2.
Qed.

(** ** Changing one task *)

Definition opt_one (P : Task M K → bool) (o : option (Task M K)) : Z :=
  match o with Some t => one (P t) | None => 0 end.

Lemma set_task_lookup id (o : option (Task M K)) ts i : set_task id o ts !! i = if decide (i = id) then o else ts !! i.
Proof.
  destruct o; cbn; destruct (decide (i = id)) as [->|Hne];
    [apply lookup_insert_eq|by apply lookup_insert_ne|apply lookup_delete_eq|by apply lookup_delete_ne].
Qed.

Lemma count_set_task P id o ts :
  count_if P (set_task id o ts) = count_if P ts - opt_one P (ts !! id) + opt_one P o.
Proof.
  destruct o as [t|]; cbn; destruct (ts !! id) as [t0|] eqn:E; cbn.
  - by apply count_if_replace.
  - rewrite count_if_insert by done. lia.
  - rewrite (count_if_delete _ _ _ _ E). lia.
  - rewrite delete_id by done. lia.
Qed.

Lemma size_set_task id (o : option (Task M K)) ts : Z.of_nat (size (set_task id o ts)) ≤ Z.of_nat (size ts) + 1.
Proof.
  destruct o; cbn; [rewrite map_size_insert|rewrite map_size_delete]; destruct (ts !! id); cbn; lia.
Qed.

Lemma counter_same lim g g' id o ts :
  (∀ ip, opt_one (holds_place ip) o = opt_one (holds_place ip) (ts !! id)) →
  guard_view g' = guard_view g → counter_ok lim g ts → counter_ok lim g' (set_task id o ts).
Proof.
  intros E Hg Hc l Hl. unfold guard_view in Hg. injection Hg as Hp Hi. rewrite Hp, Hi.
  destruct (Hc l Hl) as (H1 & H2 & H3). split; [done|]. split; [done|]. revert H3. apply counter_is_ext.
  intros ip. unfold places. destruct l; [|done]. rewrite count_set_task, E. lia.
Qed.

Lemma one_decide (ip ip' : IpAddr) : one (bool_decide (ip = ip')) = if decide (ip = ip') then 1 else 0 :> Z.
Proof. rewrite bool_decide_decide. by destruct (decide _). Qed.

Lemma counter_inc lim g id o ts peer :
  (∀ ip, opt_one (holds_place ip) (ts !! id) = 0) →
  (∀ ip, opt_one (holds_place ip) o = one (bool_decide (sa_ip peer = ip))) →
  Z.of_nat (size ts) + 1 < u64_mod → counter_ok lim g ts → counter_ok lim (on_connect g peer) (set_task id o ts).
Proof.
  intros H0 H1 Hs Hc l Hl. destruct (Hc l Hl) as (C1 & C2 & C3). pose proof (on_connect_view g peer) as Hv.
  unfold guard_view in Hv. injection Hv as Hp Hi. rewrite Hp, Hi. split; [done|]. split; [done|]. rewrite C1.
  unfold place, places in *. destruct l; [|done]. eapply counter_is_ext, counter_is_inc; [|exact C3|apply count_if_nonneg|].
  - intros ip. cbn. by rewrite count_set_task, H0, H1, one_decide, Z.sub_0_r.
  - cbn. pose proof (count_if_size (holds_place (sa_ip peer)) ts). lia.
Qed.

Lemma counter_dec lim g id ts peer cid :
  (∀ ip, opt_one (holds_place ip) (ts !! id) = one (bool_decide (sa_ip peer = ip))) →
  counter_ok lim g ts → counter_ok lim (on_disconnect g peer cid) (set_task id None ts).
Proof.
  intros H1 Hc l Hl. destruct (Hc l Hl) as (C1 & C2 & C3). pose proof (on_disconnect_view g peer cid C2) as Hv.
  unfold guard_view in Hv. injection Hv as Hp Hi. rewrite Hp, Hi. split; [done|]. split; [done|]. rewrite C1.
  unfold place, places in *. destruct l; [|done].
  assert (Hcnt : ∀ ip, count_if (holds_place ip) (set_task id None ts) =
            count_if (holds_place ip) ts - if decide (sa_ip peer = ip) then 1 else 0).
  { intros ip. rewrite count_set_task, H1, one_decide. cbn. lia. }
  eapply counter_is_ext, counter_is_dec; [|exact C3|].
  - intros ip. by rewrite Hcnt.
  - cbn. pose proof (Hcnt (sa_ip peer)) as E. rewrite decide_True in E by done.
    pose proof (count_if_nonneg (holds_place (sa_ip peer)) (set_task id None ts)). lia.
Qed.

(** A step replaces one task (or adds or ends it) and the broker: what it has to
    show. *)
Lemma sys_update cfg n exact lim owners b ts fw id o b' cur pend :
  sys_inv cfg n exact lim owners b ts fw →
  with_gauges cfg cur pend b' → in_i64 cur →
  (exact = true → cur = count_if is_serving ts - opt_one is_serving (ts !! id) + opt_one is_serving o) →
  pend = count_if is_pending ts - opt_one is_pending (ts !! id) + opt_one is_pending o →
  counter_ok lim (b_security b') (set_task id o ts) →
  (∀ t c, o = Some t → conn_of t = Some c → tables_ok cfg c) →
  epoch_counter (sess b) ≤ epoch_counter (sess b') ≤ epoch_counter (sess b) + 1 →
  (∀ rx, created (chans b) rx → created (chans b') rx) →
  (∀ t si, o = Some t → session_of t = Some si →
     serves (ts !! id) (si_client_id si) (si_epoch si) (si_rx si) ∨
     (epoch_counter (sess b) < si_epoch si ∧ si_epoch si = epoch_counter (sess b') ∧
      ¬ created (chans b) (si_rx si) ∧ created (chans b') (si_rx si))) →
  (∀ c ep rx, online_at (sess b') c ep rx →
     serves o c ep rx ∨ (online_at (sess b) c ep rx ∧ ¬ serves (ts !! id) c ep rx)) →
  sys_inv cfg (n + 1) exact lim owners b' (set_task id o ts) fw.
Proof.
  intros [I1 I2 I3 I4 I5 I6 I7 I8 I9 [I10 I11]] Hb Hin Hcur -> Hcnt Hconn Hep Hcr Hnew Hown.
  assert (Hg : current b' = cur) by exact (f_equal fst (si_gauges _ _ (bi_shared _ _ _ _ Hb))).
  assert (Hold : ∀ i t si, i ≠ id → ts !! i = Some t → session_of t = Some si →
            ∀ t' si', o = Some t' → session_of t' = Some si' → si_epoch si ≠ si_epoch si' ∧ si_rx si ≠ si_rx si').
  { intros i t si Hne Ht Hs t' si' Ho Hs'. destruct (I5 _ _ _ Ht Hs) as [Hle Hc].
    destruct (Hnew t' si' Ho Hs') as [(t0 & si0 & H0 & Hs0 & _ & <- & <-)|(Hlt & _ & Hn & _)].
    - split; intros E; apply Hne; apply (I6 i id t t0 si si0 Ht H0 Hs Hs0); auto.
    - split; [lia|]. by intros E; rewrite E in Hc. }
  split.
  - rewrite Hg, count_set_task. exact Hb.
  - rewrite Hg. split; [done|]. intros Hx. rewrite count_set_task. by apply Hcur.
  - done.
  - intros i t c. rewrite set_task_lookup. destruct (decide (i = id)); [by apply Hconn|by apply I4].
  - intros i t si. rewrite set_task_lookup. destruct (decide (i = id)) as [->|Hne].
    + intros Ho Hs. destruct (Hnew t si Ho Hs) as [(t0 & si0 & H0 & Hs0 & _ & <- & <-)|(_ & E & _ & Hc)].
      * destruct (I5 _ _ _ H0 Hs0). split; [lia|auto].
      * split; [lia|done].
    + intros Ht Hs. destruct (I5 _ _ _ Ht Hs). split; [lia|auto].
  - intros i j t t' si si'. rewrite !set_task_lookup.
    destruct (decide (i = id)) as [->|Hi], (decide (j = id)) as [->|Hj]; intros Ht Ht' Hs Hs' E; [done| | |by eapply I6].
    + destruct (Hold j t' si' Hj Ht' Hs' t si Ht Hs). destruct E; congruence.
    + destruct (Hold i t si Hi Ht Hs t' si' Ht' Hs'). destruct E; congruence.
  - intros ep rx Hep'. destruct (I7 ep rx Hep') as (G1 & G2 & G3). split; [lia|]. split; [auto|].
    intros i t si. rewrite set_task_lookup. destruct (decide (i = id)) as [->|Hne]; [|by apply G3].
    intros Ho Hs. destruct (Hnew t si Ho Hs) as [(t0 & si0 & H0 & Hs0 & _ & <- & <-)|(Hlt & _ & Hn & _)]; [by eapply G3|].
    split; [lia|]. by intros E; rewrite E in Hn.
  - intros c ep rx [Hs|[Hon Hno]]%Hown.
    + left. exists id. by rewrite set_task_lookup, decide_True.
    + destruct (I8 c ep rx Hon) as [[i Hi]|Ho]; [|by right]. left. exists i. rewrite set_task_lookup, decide_False; [done|].
      by intros ->.
  - done.
  - split; [lia|]. pose proof (size_set_task id o ts). lia.
Qed.

(** A step that leaves the tasks of the connections alone. *)
Lemma sys_apart cfg n exact lim owners b ts fw exact' lim' owners' b' fw' :
  sys_inv cfg n exact lim owners b ts fw →
  with_gauges cfg (current b') (count_if is_pending ts) b' → in_i64 (current b') →
  (exact' = true → exact = true ∧ current b' = current b) →
  counter_ok lim' (b_security b') ts →
  epoch_counter (sess b) ≤ epoch_counter (sess b') ≤ epoch_counter (sess b) + 1 →
  (∀ rx, created (chans b) rx → created (chans b') rx) →
  (∀ ep rx, owners' !! ep = Some rx → owners !! ep = Some rx ∨
     (epoch_counter (sess b) < ep ≤ epoch_counter (sess b') ∧ ¬ created (chans b) rx ∧ created (chans b') rx)) →
  (∀ c ep rx, online_at (sess b') c ep rx →
     (online_at (sess b) c ep rx ∧ (owners !! ep = Some rx → owners' !! ep = Some rx)) ∨ owners' !! ep = Some rx) →
  (∀ task, task ∈ fw' → owners' !! task_epoch task = Some (task_rx task)) →
  sys_inv cfg (n + 1) exact' lim' owners' b' ts fw'.
Proof.
  intros [I1 I2 I3 I4 I5 I6 I7 I8 I9 [I10 I11]] Hb Hin Hcur Hcnt Hep Hcr Hnew Hown Hfw.
  split; try done.
  - split; [done|]. intros Hx. destruct (Hcur Hx) as [H1 ->]. by apply I2.
  - intros id t si Ht Hs. destruct (I5 _ _ _ Ht Hs). split; [lia|auto].
  - intros ep rx [Ho|(H1 & H2 & H3)]%Hnew.
    + destruct (I7 ep rx Ho) as (G1 & G2 & G3). split; [lia|]. split; [auto|done].
    + split; [lia|]. split; [done|]. intros id t si Ht Hs. destruct (I5 _ _ _ Ht Hs) as [Hle Hc]. split; [lia|].
      by intros E; rewrite E in Hc.
  - intros c ep rx [[Hon Hk]|Ho]%Hown; [|by right]. destruct (I8 c ep rx Hon) as [|Ho]; [by left|right; auto].
  - lia.
Qed.

(** ** The steps of a connection *)

Context (cfg : BrokerConfig) (exact : bool) (lim : option bool) (owners : gmap Z Sender).
Hypothesis retries_nonneg : 0 ≤ default 3 (max_retries cfg).
Implicit Types n : Z.
Abbreviation inv := (sys_inv cfg).

Lemma small_inc z : 0 ≤ z < 2 ^ 62 → add_i64 z = z + 1 ∧ in_i64 z.
Proof. intros H. unfold add_i64, in_i64. rewrite wrap_i64_id by lia. lia. Qed.
Lemma small_dec z : 0 < z < 2 ^ 62 → add_i64 (z - 1) = z ∧ sub_i64 z = z - 1 ∧ in_i64 (z - 1).
Proof. intros H. unfold add_i64, sub_i64, in_i64. rewrite !wrap_i64_id by lia. lia. Qed.
Lemma i64_dec_inc z : in_i64 z → add_i64 (sub_i64 z) = z.
Proof.
  unfold in_i64, sub_i64, add_i64. intros H. rewrite wrap_i64_add, wrap_i64_id by lia. lia.
Qed.
Lemma add_in_i64 z : in_i64 (add_i64 z). Proof. apply wrap_in_i64. Qed.
Lemma sub_in_i64 z : in_i64 (sub_i64 z). Proof. apply wrap_in_i64. Qed.

Lemma count_bound P n b ts fw : inv n exact lim owners b ts fw → 0 ≤ count_if P ts ≤ n.
Proof.
  intros H. pose proof (sv_bound _ _ _ _ _ _ _ _ H) as [_ Hs].
  pose proof (count_if_nonneg P ts). pose proof (count_if_size P ts). lia.
Qed.

Lemma count_pos P ts id t : ts !! id = Some t → P t = true → 0 < count_if P ts.
Proof.
  intros Ht HP. pose proof (count_set_task P id None ts) as E. rewrite Ht in E. cbn in E. rewrite HP in E.
  pose proof (count_if_nonneg P (delete id ts)). cbn in E. lia.
Qed.

(** A task that has no place anywhere yet. *)
Definition idle (o : option (Task M K)) : Prop := ∀ t, o = Some t → holder t = None.

Lemma idle_facts o : idle o →
  opt_one is_serving o = 0 ∧ opt_one is_pending o = 0 ∧ (∀ ip, opt_one (holds_place ip) o = 0) ∧
  (∀ c ep rx, ¬ serves o c ep rx) ∧ (∀ t, o = Some t → session_of t = None ∧ conn_of t = None).
Proof.
  intros H. destruct o as [t|].
  2:{ repeat split; [|done..]. by intros c ep rx (t & si & Ht & _). }
  specialize (H t eq_refl). destruct t; try done; (repeat split; [|by injection H0 as <-..]);
    intros c ep rx (t & si & [= <-] & Hs & _); done.
Qed.

(** What a step that does not end anything does to the rest of the broker. *)
Definition calm b b' : Prop :=
  (∀ gs, shared_inv gs (b_shared b) → shared_inv gs (b_shared b')) ∧ b_config b' = b_config b ∧
  guard_view (b_security b') = guard_view (b_security b) ∧ evolves (b_shared b) (b_shared b').

Lemma calm_gauges n b ts fw b' :
  inv n exact lim owners b ts fw → calm b b' → with_gauges cfg (current b) (count_if is_pending ts) b'.
Proof.
  intros Hi (H1 & H2 & _). destruct (sv_broker _ _ _ _ _ _ _ _ Hi) as [B1 B2 _]. split; [by apply H1|congruence|done].
Qed.

Lemma grows_created rx ch ch' : grows_but rx ch ch' → ∀ r, created ch r → created ch' r.
Proof. intros H r Hr. by destruct (H r Hr). Qed.

Lemma step_idle n b ts fw id o b' :
  inv n exact lim owners b ts fw → idle (ts !! id) → idle o → calm b b' →
  inv (n + 1) exact lim owners b' (set_task id o ts) fw.
Proof.
  intros Hi H1 H2 Hcalm. apply idle_facts in H1 as (A1 & A2 & A3 & A4 & A5), H2 as (B1 & B2 & B3 & B4 & B5).
  pose proof Hcalm as (_ & _ & Hg & Hfd & Hgr). pose proof Hfd as [Hep _].
  eapply sys_update; [exact Hi|by apply (calm_gauges n b ts fw)|apply (sv_current _ _ _ _ _ _ _ _ Hi)|..];
    rewrite ?A1, ?A2, ?B1, ?B2, ?Hep; try lia.
  - intros Hx. rewrite (proj2 (sv_current _ _ _ _ _ _ _ _ Hi) Hx). lia.
  - eapply counter_same; [|exact Hg|apply (sv_counter _ _ _ _ _ _ _ _ Hi)]. intros ip. by rewrite A3, B3.
  - intros t c Ho Hc. destruct (B5 t Ho). congruence.
  - by eapply grows_created.
  - intros t si Ho Hc. destruct (B5 t Ho). congruence.
  - intros c ep rx H. right. split; [by eapply fades_online|apply A4].
Qed.

Lemma calm_check b peer ok b' : check_peer b peer = (ok, b') → calm b b' ∧ b_security b' = b_security b.
Proof.
  unfold check_peer. pose proof (check_connection_gauges (b_security b) peer (sh_metrics (b_shared b))) as Hg.
  destruct (check_connection _ _ _) as [r m]. intros [= _ <-]. split; [|done].
  split; [|done]. intros gs [H1 H2 H3 H4]. split; [done..|]. rewrite <-H4. exact Hg.
Qed.

Lemma calm_admit max peer b a b' : admission max peer b = (a, b') → calm b b' ∧ b_security b' = b_security b.
Proof.
  unfold admission. destruct (check_peer b peer) as [ok b1] eqn:E. apply calm_check in E.
  destruct (negb ok); [by intros [= _ <-]|]. destruct (at_capacity _ _); by intros [= _ <-].
Qed.

Lemma step_enter_inv n b ts fw id peer k b' guard :
  n < 2 ^ 62 → inv n exact lim owners b ts fw → ts !! id = Some (TChecked peer) → enter b peer = (guard, b') →
  inv (n + 1) exact lim owners b' (set_task id (Some (TPending peer k)) ts) fw.
Proof.
  intros Hn Hi Ht He. destruct (enter_inv _ _ _ _ _ _ _ (sv_broker _ _ _ _ _ _ _ _ Hi) He) as (Hb & [Hfd Hgr] & Hsec).
  pose proof Hfd as [Hep _].
  pose proof (count_bound is_pending n b ts fw Hi) as Hp. destruct (small_inc (count_if is_pending ts)) as [Ea _]; [lia|].
  rewrite Ea in Hb.
  eapply sys_update; [exact Hi|exact Hb|apply (sv_current _ _ _ _ _ _ _ _ Hi)|..]; rewrite ?Ht, ?Hep;
    cbn [opt_one is_serving session_of is_pending one]; try lia.
  - intros Hx. rewrite (proj2 (sv_current _ _ _ _ _ _ _ _ Hi) Hx). lia.
  - rewrite Hsec. apply counter_inc; [by intros ip; rewrite Ht|done| |apply (sv_counter _ _ _ _ _ _ _ _ Hi)].
    pose proof (sv_bound _ _ _ _ _ _ _ _ Hi) as [_ Hsz]. unfold u64_mod. lia.
  - by intros t c [= <-].
  - by eapply grows_created.
  - by intros t si [= <-].
  - intros c ep rx H. right. split; [by eapply fades_online|]. by intros (t & si & [= <-] & Hsi & _).
Qed.

(** A task that serves a session takes a step and goes on. *)
Lemma step_serving n b ts fw id t t' si c' b' :
  inv n exact lim owners b ts fw → ts !! id = Some t →
  session_of t = Some si → session_of t' = Some si → holder t' = holder t → conn_of t' = Some c' →
  conn_inv cfg (current b, count_if is_pending ts) (guard_view (b_security b)) (b', c') →
  fades (sess b) (sess b') → (∀ rx, created (chans b) rx → created (chans b') rx) →
  inv (n + 1) exact lim owners b' (set_task id (Some t') ts) fw.
Proof.
  intros Hi Ht Hs Hs' Hh Hc [H1 H2 H3 H4] Hf Hcr. pose proof Hf as [Hep _].
  assert (Hpend : is_pending t = false ∧ is_pending t' = false) by by destruct t, t'.
  destruct Hpend as [P1 P2]. assert (Hserv : is_serving t = true ∧ is_serving t' = true) by (unfold is_serving; by rewrite Hs, Hs').
  destruct Hserv as [S1 S2].
  eapply sys_update; [exact Hi|split; [exact H1|exact H2|done]|apply (sv_current _ _ _ _ _ _ _ _ Hi)|..];
    rewrite ?Ht, ?Hep; cbn [opt_one]; rewrite ?P1, ?P2, ?S1, ?S2; cbn [one]; try lia.
  - intros Hx. rewrite (proj2 (sv_current _ _ _ _ _ _ _ _ Hi) Hx). lia.
  - eapply counter_same; [|exact H3|apply (sv_counter _ _ _ _ _ _ _ _ Hi)]. intros ip. rewrite Ht. cbn. unfold holds_place. by rewrite Hh.
  - intros t0 c0 [= <-] Hc0. rewrite Hc in Hc0. by injection Hc0 as <-.
  - exact Hcr.
  - intros t0 si0 [= <-] Hsi. left. rewrite Hs' in Hsi. injection Hsi as <-. by exists t, si.
  - intros c ep rx H. assert (Hon : online_at (sess b) c ep rx) by (by eapply fades_online).
    destruct (decide (c = si_client_id si ∧ ep = si_epoch si ∧ rx = si_rx si)) as [(-> & -> & ->)|Hne].
    + left. by exists t', si.
    + right. split; [done|]. intros (t0 & si0 & [= <-] & Hsi & E1 & E2 & E3). apply Hne. rewrite Hs in Hsi. by injection Hsi as <-.
Qed.

(** It ends. *)
Lemma step_ends n b ts fw id t si peer cid b' :
  n < 2 ^ 62 → inv n exact lim owners b ts fw → ts !! id = Some t → session_of t = Some si → holder t = Some peer →
  broker_inv cfg (sub_i64 (current b), count_if is_pending ts) (guard_view (b_security b)) b' →
  fades_own (si_client_id si) (si_epoch si) (sess b) (sess b') → (∀ rx, created (chans b) rx → created (chans b') rx) →
  inv (n + 1) exact lim owners (leave b' (mkPendingGuard true) peer cid) (set_task id None ts) fw.
Proof.
  intros Hn Hi Ht Hs Hh Hb [Hf Hno] Hcr. pose proof Hf as [Hep _].
  assert (Hb' : with_gauges cfg (sub_i64 (current b)) (count_if is_pending ts) b') by (destruct Hb; by split).
  destruct (leave_inv _ _ _ b' (mkPendingGuard true) peer cid Hb') as (Hl & [_ Hgr] & Hsl & Hsec). cbn [promoted] in Hl.
  assert (Hpend : is_pending t = false) by by destruct t.
  assert (Hserv : is_serving t = true) by (unfold is_serving; by rewrite Hs).
  eapply sys_update; [exact Hi|exact Hl|apply sub_in_i64|..]; rewrite ?Ht, ?Hsl, ?Hep; cbn [opt_one]; rewrite ?Hpend, ?Hserv; cbn [one]; try lia; try done.
  - intros Hx. rewrite (proj2 (sv_current _ _ _ _ _ _ _ _ Hi) Hx).
    pose proof (count_pos is_serving ts id t Ht Hserv). pose proof (count_bound is_serving n b ts fw Hi).
    destruct (small_dec (count_if is_serving ts)) as (_ & -> & _); lia.
  - rewrite Hsec. intros l Hl'. pose proof (sv_counter _ _ _ _ _ _ _ _ Hi) as Hc.
    assert (Hc' : counter_ok lim (b_security b') ts).
    { intros l0 Hl0. pose proof (bi_guard _ _ _ _ Hb) as Hv. unfold guard_view in Hv. injection Hv as -> ->. by apply Hc. }
    revert l Hl'. apply (counter_dec lim (b_security b') id ts peer cid); [|done].
    intros ip. rewrite Ht. cbn. unfold holds_place. by rewrite Hh.
  - intros c ep rx H. right. split; [by eapply fades_online|].
    intros (t0 & si0 & [= <-] & Hsi & <- & <- & <-). rewrite Hs in Hsi. injection Hsi as <-. by eapply Hno.
Qed.

(** The handler's invariant, for the connection of a task. *)
Lemma serving_conn n b ts fw id t c :
  inv n exact lim owners b ts fw → ts !! id = Some t → conn_of t = Some c →
  conn_inv cfg (add_i64 (sub_i64 (current b)), count_if is_pending ts) (guard_view (b_security b)) (b, c).
Proof.
  intros Hi Ht Hc. rewrite i64_dec_inc by apply (sv_current _ _ _ _ _ _ _ _ Hi).
  destruct (sv_broker _ _ _ _ _ _ _ _ Hi) as [H1 H2 H3]. split; [done..|]. exact (sv_conns _ _ _ _ _ _ _ _ Hi _ _ _ Ht Hc).
Qed.

Lemma step_connect_inv n b ts fw id peer k first auto_id conn_id now p guard cid :
  n < 2 ^ 62 → inv n exact lim owners b ts fw → ts !! id = Some (TPending peer k) →
  establish b k peer first auto_id conn_id (mkPendingGuard false) now = (p, guard, cid) →
  match p with
  | Open (si, ctx, msgs, (b', c)) =>
      inv (n + 1) exact lim owners b' (set_task id (Some (TReplay peer si ctx msgs c)) ts) fw
  | Closed b' _ => inv (n + 1) exact lim owners (leave b' guard peer cid) (set_task id None ts) fw
  end.
Proof.
  intros Hn Hi Ht He. pose proof (sv_bound _ _ _ _ _ _ _ _ Hi) as [Hep _].
  pose proof (sv_broker _ _ _ _ _ _ _ _ Hi) as Hb. pose proof (sv_current _ _ _ _ _ _ _ _ Hi) as [Hin Hx].
  pose proof (inv_counter _ (si_sess _ _ (bi_shared _ _ _ _ Hb))) as He0.
  pose proof (count_pos is_pending ts id _ Ht eq_refl). pose proof (count_bound is_pending n b ts fw Hi).
  pose proof (count_bound is_serving n b ts fw Hi).
  destruct (small_dec (count_if is_pending ts)) as (Ep & _ & Hpin); [lia|].
  destruct (small_inc (count_if is_serving ts)) as (Es & _); [lia|].
  rewrite <-Ep in Hb.
  pose proof (establish_ok _ _ _ _ b k peer first auto_id conn_id now retries_nonneg Hin Hpin Hb) as Hok.
  rewrite He in Hok. specialize (Hok ltac:(unfold u64_mod; lia)).
  apply establish_sess in He. unfold wrap_u64 in He. rewrite Z.mod_small in He by (unfold u64_mod; lia).
  assert (Hno : ∀ c ep rx, ¬ serves (Some (TPending peer k)) c ep rx) by by intros c ep rx (t & si & [= <-] & Hs & _).
  destruct p as [[[[si ctx] msgs] [b' c]]|b' k'].
  - destruct He as (E1 & E2 & _ & Hgr & Hn1 & Hn2 & _ & Hon), Hok as [_ [O1 O2 O3 O4]].
    eapply sys_update; [exact Hi|split; [exact O1|exact O2|done]|apply add_in_i64|..]; rewrite ?Ht;
      cbn [opt_one is_serving session_of is_pending one]; try lia.
    + intros Hx'. rewrite (Hx Hx'). lia.
    + eapply counter_same; [|exact O3|apply (sv_counter _ _ _ _ _ _ _ _ Hi)]. intros ip. by rewrite Ht.
    + intros t c0 [= <-] [= <-]. exact O4.
    + by eapply grows_created.
    + intros t si0 [= <-] [= <-]. right. split; [lia|]. split; [lia|done].
    + intros d ep rx [(-> & -> & ->)|Hd]%Hon; [left; by eexists _, _|by right].
  - destruct He as (Ee & _ & Hgr & Hon).
    assert (Hl : ∃ pend, with_gauges cfg (current b) pend b' ∧ guard_view (b_security b') = guard_view (b_security b) ∧
              (if promoted guard then pend else sub_i64 pend) = count_if is_pending ts - 1).
    { destruct (promoted guard); eexists; (split; [destruct Hok as [K1 K2 K3]; split; [exact K1|exact K2|done]|]);
        (split; [apply Hok|]); [done|]. by rewrite i64_inc_dec. }
    destruct Hl as (pend & Hb' & Hv & Epend).
    destruct (leave_inv _ _ _ b' guard peer cid Hb') as (Hl & _ & Hsl & Hsec). rewrite Epend in Hl.
    eapply sys_update; [exact Hi|exact Hl|exact Hin|..]; rewrite ?Ht, ?Hsl; cbn [opt_one is_serving session_of is_pending one]; try lia; try done.
    + intros Hx'. rewrite (Hx Hx'). lia.
    + rewrite Hsec. apply counter_dec; [intros ip; by rewrite Ht|]. intros l Hl'. unfold guard_view in Hv. injection Hv as -> ->.
      by apply (sv_counter _ _ _ _ _ _ _ _ Hi).
    + intros rx Hrx. assert (created (chans b') rx) by by eapply grows_created.
      unfold leave, drop_pending. by destruct (promoted guard).
    + intros c ep rx Hc. right. split; [by apply Hon|done].
Qed.

Lemma step_replay_inv n b ts fw id peer si ctx msg msgs c ev now p :
  n < 2 ^ 62 → inv n exact lim owners b ts fw → ts !! id = Some (TReplay peer si ctx (msg :: msgs) c) →
  replay si ctx [msg] ev now (b, c) = Some p →
  match p with
  | Open (b', c') => inv (n + 1) exact lim owners b' (set_task id (Some (TReplay peer si ctx msgs c')) ts) fw
  | Closed b' _ =>
      inv (n + 1) exact lim owners (leave b' (mkPendingGuard true) peer (Some (si_client_id si))) (set_task id None ts) fw
  end.
Proof.
  intros Hn Hi Ht Hr. pose proof (serving_conn n b ts fw id _ c Hi Ht eq_refl) as Hc.
  destruct (replay_ok cfg _ _ _ retries_nonneg (sub_in_i64 _) si ctx [msg] ev now b c Hc) as (p' & E & Hp).
  rewrite Hr in E. injection E as <-. apply evolves_replay in Hr. destruct p as [[b' c']|b' k']; cbn in Hp, Hr.
  - destruct Hr as [[Hf Hg] _]. rewrite i64_dec_inc in Hp by apply (sv_current _ _ _ _ _ _ _ _ Hi).
    eapply step_serving; [done..|exact Hp|exact Hf|by eapply grows_created].
  - destruct Hr as [[Hf Hg] Ho]. eapply step_ends; [done..|exact Hp|by split|by eapply grows_created].
Qed.

(** What the [select!] hands to the branch. *)
Lemma take_event_facts down b si ev b1 :
  take_event down b si ev = Some b1 →
  (∃ ch, b1 = set_chans ch b ∧ grows_but (Some (si_rx si)) (chans b) ch) ∧
  (ev = LOutbound None → owns (sess b1) (si_client_id si) (si_epoch si) = false).
Proof.
  assert (Hsame : ∀ b2 : Broker M S F, Some b2 = Some b1 → ∃ ch, b1 = set_chans ch b2 ∧ grows_but (Some (si_rx si)) (chans b2) ch).
  { intros b2 [= <-]. exists (chans b2). split; [by destruct b2 as [[]]|done]. }
  unfold take_event. destruct down; [destruct ev as [[]| | | |]; try done; intros H; split; [by apply Hsame|done]|].
  destruct ev as [v| | |item|[req|]]; [done|intros H; split; [by apply Hsame|done]..| |].
  - destruct (recv _ _) as [[m ch]|] eqn:E; [|done]. cbn. destruct (decide (m = req)); [|done]. intros [= <-].
    split; [|done]. exists ch. split; [done|]. by eapply grows_recv.
  - destruct (owns _ _ _) eqn:Eo; [done|]. destruct (recv _ _); [done|]. intros H. split; [by apply Hsame|].
    by injection H as <-.
Qed.

Lemma set_chans_conn gs pg b ch (c : Conn K) : conn_inv cfg gs pg (b, c) → conn_inv cfg gs pg (set_chans ch b, c).
Proof. intros [[H1 H2 H3 H4] Hc Hg Ho]. split; [by split|done..]. Qed.

Lemma step_loop_inv n b ts fw id peer si ctx c down ev now b1 p :
  n < 2 ^ 62 → inv n exact lim owners b ts fw → ts !! id = Some (TLoop peer si ctx c) →
  take_event down b si ev = Some b1 →
  loop_step si (loop_max_subs b1) (loop_timeout b1) (loop_retries b1) (mkLoopState b1 c ctx) ev now = Some p →
  match p with
  | Open l => inv (n + 1) exact lim owners (l_broker l) (set_task id (Some (TLoop peer si (l_ctx l) (l_conn l))) ts) fw
  | Closed b' _ =>
      inv (n + 1) exact lim owners (leave b' (mkPendingGuard true) peer (Some (si_client_id si))) (set_task id None ts) fw
  end.
Proof.
  intros Hn Hi Ht Htake Hr. apply take_event_facts in Htake as [(ch & -> & Hg0) Hev].
  pose proof (serving_conn n b ts fw id _ c Hi Ht eq_refl) as Hc. apply (set_chans_conn _ _ _ ch) in Hc.
  assert (Hcfg : b_config b = cfg) by exact (bi_config _ _ _ _ (sv_broker _ _ _ _ _ _ _ _ Hi)).
  unfold loop_retries in Hr. change (b_config (set_chans ch b)) with (b_config b) in Hr. rewrite Hcfg in Hr.
  destruct (loop_step_ok cfg _ _ _ retries_nonneg (sub_in_i64 _) si (loop_max_subs b) (loop_timeout b)
              (mkLoopState (set_chans ch b) c ctx) ev now Hc) as (p' & E & Hp).
  change (loop_step si (loop_max_subs b) (loop_timeout b) (default 3 (max_retries cfg))
            (mkLoopState (set_chans ch b) c ctx) ev now = Some p) in Hr.
  rewrite Hr in E. injection E as <-. apply evolves_loop in Hr; [|exact Hev].
  assert (Hcr : ∀ ch', grows ch ch' → ∀ rx, created (chans b) rx → created ch' rx).
  { intros ch' Hg rx Hrx. eapply grows_created; [exact Hg|]. by eapply grows_created. }
  destruct p as [l|b' k']; cbn in Hp, Hr.
  - destruct Hr as [[Hf Hg] _]. rewrite i64_dec_inc in Hp by apply (sv_current _ _ _ _ _ _ _ _ Hi).
    eapply step_serving; [done..|exact Hp|exact Hf|by apply Hcr].
  - destruct Hr as [[Hf Hg] Ho]. eapply step_ends; [done..|exact Hp|by split|by apply Hcr].
Qed.

(** ** The other tasks *)

Lemma inv_shared n b ts fw : inv n exact lim owners b ts fw → shared_inv (gauges (sh_metrics (b_shared b))) (b_shared b).
Proof. intros Hi. destruct (sv_broker _ _ _ _ _ _ _ _ Hi) as [H _ _]. by rewrite (si_gauges _ _ H). Qed.

Lemma step_apart n b ts fw b' lim' :
  inv n exact lim owners b ts fw → keeps_apart b b' →
  (∀ l, lim' = Some l → lim = Some l ∧ limits (policy (b_security b')) = l ∧ 0 ≤ max_connections_per_ip (policy (b_security b'))) →
  inv (n + 1) exact lim' owners b' ts fw.
Proof.
  intros Hi (H1 & H2 & H3 & [Hf Hg]) Hp. pose proof Hf as [Hep _].
  destruct (sv_broker _ _ _ _ _ _ _ _ Hi) as [B1 B2 _]. apply H1 in B1.
  assert (Hcur : current b' = current b) by exact (f_equal fst (si_gauges _ _ B1)).
  eapply sys_apart; [exact Hi|split; [by rewrite Hcur|congruence|done]|..]; rewrite ?Hcur, ?Hep; try lia.
  - apply (sv_current _ _ _ _ _ _ _ _ Hi).
  - done.
  - intros l Hl. destruct (Hp l Hl) as (Hl0 & P1 & P2). split; [done|]. split; [done|]. rewrite H3.
    by apply (sv_counter _ _ _ _ _ _ _ _ Hi).
  - by eapply grows_created.
  - intros ep rx Ho. by left.
  - intros c ep rx Hon. left. split; [by eapply fades_online|done].
  - apply (sv_forward _ _ _ _ _ _ _ _ Hi).
Qed.

(** Channels that are received from or closed, forwarders that end, a gauge that
    nobody vouches for any more. *)
Lemma inv_chans n b ts fw ch :
  inv n exact lim owners b ts fw → (∀ rx, created (chans b) rx → created ch rx) →
  inv n exact lim owners (set_chans ch b) ts fw.
Proof.
  intros [[[B1 B2 B3 B4] B5 B6] I2 I3 I4 I5 I6 I7 I8 I9 I10] Hcr. split; try done.
  - intros id t si Ht Hs. destruct (I5 _ _ _ Ht Hs). split; [done|by apply Hcr].
  - intros ep rx Ho. destruct (I7 _ _ Ho) as (G1 & G2 & G3). split; [done|]. split; [by apply Hcr|done].
Qed.

Lemma inv_forwarders n b ts fw fw' : inv n exact lim owners b ts fw → fw' ⊆ fw → inv n exact lim owners b ts fw'.
Proof. intros [I1 I2 I3 I4 I5 I6 I7 I8 I9 I10] Hsub. split; try done. intros task Ht. apply I9, Hsub, Ht. Qed.

Lemma inv_le n n' b ts fw : n ≤ n' → inv n exact lim owners b ts fw → inv n' exact lim owners b ts fw.
Proof. intros Hle [I1 I2 I3 I4 I5 I6 I7 I8 I9 I10]. split; try done. lia. Qed.

Lemma step_gateway_inv n ts (g g' : SnServer M S F) :
  n < 2 ^ 62 → inv n exact lim owners (sn_broker g) ts (sn_tasks g) →
  shared_inv (gauges (sh_metrics (sn_shared g'))) (sn_shared g') → quiet g g' ∨ joins g g' →
  ∃ owners', owners ⊆ owners' ∧ inv (n + 1) false lim owners' (sn_broker g') ts (sn_tasks g').
Proof.
  intros Hn Hi Hsh Heff. pose proof (sv_current _ _ _ _ _ _ _ _ Hi) as [Hin _].
  pose proof (sv_counter _ _ _ _ _ _ _ _ Hi) as Hcnt. pose proof (sv_forward _ _ _ _ _ _ _ _ Hi) as Hfw.
  assert (Hsame : same_broker g g' → with_gauges cfg (current (sn_broker g')) (count_if is_pending ts) (sn_broker g') ∧
            in_i64 (current (sn_broker g')) ∧ counter_ok lim (b_security (sn_broker g')) ts).
  { intros (S1 & S2 & [S3 S4]). destruct (sv_broker _ _ _ _ _ _ _ _ Hi) as [[_ _ _ B4] B2 _].
    injection B4 as B4. split; [|split; [auto|by rewrite S2]]. split; [|congruence|done].
    unfold sn_shared in *. rewrite <-B4, <-S3. exact Hsh. }
  destruct Heff as [(Hs & [Hf Hg] & Ht)|(cid & rx & Hj)].
  - destruct (Hsame Hs) as (G1 & G2 & G3). exists owners. split; [done|]. pose proof Hf as [Hep _].
    eapply sys_apart; [exact Hi|exact G1|exact G2|done|exact G3|unfold sn_shared in *; lia|by eapply grows_created|..].
    + intros ep r Ho. by left.
    + intros c ep r Hc. left. split; [by eapply fades_online|done].
    + by rewrite Ht.
  - cbv zeta in Hj. destruct Hj as (Hs & Hep & _ & Hg & Hn1 & Hn2 & Hon & peer & Ht).
    destruct (Hsame Hs) as (G1 & G2 & G3). pose proof (sv_bound _ _ _ _ _ _ _ _ Hi) as [Hb _].
    destruct (sv_broker _ _ _ _ _ _ _ _ Hi) as [[B1 _ _ _] _ _]. pose proof (inv_counter _ B1) as Hc0.
    unfold wrap_u64, sn_shared in *. rewrite Z.mod_small in * by (unfold u64_mod; lia).
    set (ep := epoch_counter (sess (sn_broker g)) + 1) in *.
    assert (Hnone : owners !! ep = None).
    { destruct (owners !! ep) as [r|] eqn:Eo; [|done]. apply (sv_gateway _ _ _ _ _ _ _ _ Hi) in Eo as [Hle _]. lia. }
    exists (<[ep := rx]> owners). split; [by apply insert_subseteq|].
    eapply sys_apart; [exact Hi|exact G1|exact G2|done|exact G3|lia|by eapply grows_created|..].
    + intros ep' r [[<- <-]|[_ Ho]]%lookup_insert_Some; [right|by left]. split; [lia|done].
    + intros c e r [(-> & -> & ->)|Hd]%Hon; [right; apply lookup_insert_eq|left]. split; [done|]. intros Ho.
      rewrite lookup_insert_ne; [done|]. intros <-. congruence.
    + intros task. rewrite Ht. intros [Hin'|Heq]%elem_of_app.
      2:{ apply list_elem_of_singleton in Heq as ->. by rewrite lookup_insert_eq. }
      apply Hfw in Hin'. rewrite lookup_insert_ne; [done|]. intros E. rewrite <-E in Hin'. congruence.
Qed.
End Inv.
