(* ===== verification/SystemTheorems.v ===== *)
(** * The invariant of the whole process

    In every state that any interleaving of listeners, connections, gateway,
    sweeper, admin API and shutdown can reach, the gauges count the connections,
    the per-IP counters count the connections of each address, and every session
    that is online belongs to exactly one live connection or to the gateway. *)

From stdpp Require Import relations.
From S2P Require Import Prelude Packet Messages OfflineQueue Subscription SubscriptionProofs.
From S2P Require Import SubscriptionTheorems Storage StorageProofs Metrics Retain Session.
From S2P Require Import SessionProofs SessionTheorems Qos QosProofs QosTheorems Router.
From S2P Require Import RouterTheorems Auth IpFilter Limiter Security Plugin PluginTheorems.
From S2P Require Import Lifecycle LifecycleTheorems Config Handlers HandlersProofs.
From S2P Require Import HandlersTheorems Connection ConnectionTheorems Listeners Admin.
From S2P Require Import AdminTheorems TlsLoad Start SnCodec SnGateway SnTheorems System.
From S2P Require Import SystemExec SystemProofs SystemGateway SystemInvariant.

Section World.
Context {M : Mpsc} {L : MpscLaws M} {R : MpscRx M} {LR : MpscRxLaws M L R} {S : Sled} {JR : Json RetainedMessage}
  {JS : Json SessionSnapshot} {JO : Json OutboundPublish} {F : ForwardEnv} {K : Sink} {A : Axum} {T : Rustls}.
Implicit Types s : System M S F K T.

Record world_inv (cfg : BrokerConfig) (n : Z) (exact : bool) (lim : option bool) (owners : gmap Z Sender) s : Prop := {
  wi_inv : sys_inv cfg n exact lim owners (sys_broker s) (sys_tasks s) (sys_forwarders s);
  wi_clients : clients_ok (sys_clients s);
}.

(** What is left of the exact gauge and of the counter of the guard after a step. *)
Definition exact_after (l : Label) (exact : bool) : bool :=
  match l with LbGateway => false | _ => exact end.
Definition lim_after (l : Label) (lim : option bool) : option bool :=
  match l with LbReload => None | _ => lim end.

Context (admin : AdminConfig) (cfg : BrokerConfig).
Hypothesis retries_nonneg : 0 ≤ default 3 (max_retries cfg).

(** A step of the gateway, on what it shares. *)
Lemma gateway_ready n exact lim owners s b1 :
  n < 2 ^ 62 → sys_inv cfg n exact lim owners b1 (sys_tasks s) (sys_forwarders s) → clients_ok (sys_clients s) →
  sn_inv 1 (gateway b1 s).
Proof.
  intros Hn Hi Hc. split; [|done]. split; [by eapply inv_shared|]. pose proof (sv_bound _ _ _ _ _ _ _ _ Hi) as [Hb _].
  unfold sn_shared, u64_mod. cbn. lia.
Qed.

Lemma gateway_step_inv n exact lim owners s ev now g :
  n < 2 ^ 62 → world_inv cfg n exact lim owners s → sn_step (gateway (sys_broker s) s) ev now = Some g →
  (sn_inv 1 (gateway (sys_broker s) s) → quiet (gateway (sys_broker s) s) g ∨ joins (gateway (sys_broker s) s) g) →
  ∃ owners', owners ⊆ owners' ∧ world_inv cfg (n + 1) false lim owners' (set_gateway g s).
Proof.
  intros Hn [Hi Hc] Hg Heff. pose proof (gateway_ready _ _ _ _ _ _ Hn Hi Hc) as Hsn.
  destruct (sn_step_inv 1 _ ev now ltac:(lia) Hsn) as (g' & E & [[Hw _] Hcl]). rewrite Hg in E. injection E as <-.
  destruct (step_gateway_inv cfg exact lim owners n (sys_tasks s) (gateway (sys_broker s) s) g Hn Hi Hw (Heff Hsn)) as (owners' & Hsub & Hi').
  exists owners'. split; [done|]. by split.
Qed.

Lemma end_forwarder_inv n exact lim owners s i task :
  world_inv cfg n exact lim owners s → world_inv cfg n exact lim owners (end_forwarder i task s).
Proof.
  intros [Hi Hc]. split; [|done]. cbn. eapply inv_forwarders.
  - apply inv_chans; [exact Hi|]. eapply grows_created, grows_close.
  - intros t [Ht|Ht]%elem_of_app; [by eapply subseteq_take|by eapply subseteq_drop].
Qed.

Lemma step_forward_inv n exact lim owners s i task msg ch ok go_on g :
  n < 2 ^ 62 → world_inv cfg n exact lim owners s →
  recv (sh_chans (b_shared (sys_broker s))) (task_rx task) = Some (msg, ch) →
  forward_step (gateway (set_chans ch (sys_broker s)) s) task msg ok = (go_on, g) →
  ∃ owners', owners ⊆ owners' ∧
    world_inv cfg (n + 1) false lim owners' (if go_on then set_gateway g s else end_forwarder i task (set_gateway g s)).
Proof.
  intros Hn [Hi Hc] Hr Hf. set (b1 := set_chans ch (sys_broker s)) in *.
  assert (Hi1 : sys_inv cfg n exact lim owners b1 (sys_tasks s) (sys_forwarders s)).
  { apply inv_chans; [done|]. eapply grows_created. by eapply grows_recv. }
  assert (Hq : quiet (gateway b1 s) g) by (pose proof (quiet_forward (gateway b1 s) task msg ok) as H; by rewrite Hf in H).
  pose proof (forward_step_inv 1 _ task msg ok (gateway_ready _ _ _ _ _ _ Hn Hi1 Hc)) as [[Hw _] Hcl].
  rewrite Hf in Hw, Hcl. cbn [snd] in Hw, Hcl.
  destruct (step_gateway_inv cfg exact lim owners n (sys_tasks s) (gateway b1 s) g Hn Hi1 Hw) as (owners' & Hsub & Hi'); [by left|].
  exists owners'. split; [done|]. assert (Hw' : world_inv cfg (n + 1) false lim owners' (set_gateway g s)) by by split.
  destruct go_on; [done|by apply end_forwarder_inv].
Qed.

(** A step that changes only the broker. *)
Lemma broker_step_inv n exact lim owners s b' l :
  world_inv cfg n exact lim owners s → keeps_apart (sys_broker s) b' →
  (∀ lim0, lim_after l lim = Some lim0 → limits (policy (b_security (sys_broker s))) = lim0 →
     0 ≤ max_connections_per_ip (policy (b_security (sys_broker s))) →
     lim = Some lim0 ∧ limits (policy (b_security b')) = lim0 ∧ 0 ≤ max_connections_per_ip (policy (b_security b'))) →
  world_inv cfg (n + 1) exact (lim_after l lim) owners (s <| sys_broker := b' |>).
Proof.
  intros [Hi Hc] Hk Hp. split; [|done]. apply (step_apart cfg exact lim owners n (sys_broker s)); [done..|].
  intros l0 Hl0. assert (Hl : lim = Some l0) by by destruct l.
  destruct (sv_counter _ _ _ _ _ _ _ _ Hi l0 Hl) as (H1 & H2 & _). by apply Hp.
Qed.

Lemma same_policy_inv n exact lim owners s b' :
  world_inv cfg n exact lim owners s → keeps_apart (sys_broker s) b' →
  policy (b_security b') = policy (b_security (sys_broker s)) →
  world_inv cfg (n + 1) exact lim owners (s <| sys_broker := b' |>).
Proof.
  intros Hi Hk Hp. apply (broker_step_inv n exact lim owners s b' LbOther); [done..|].
  intros l0 Hl H1 H2. by rewrite Hp.
Qed.

Lemma apart_check b peer a max b' : admission max peer b = (a, b') → keeps_apart (M := M) (S := S) (F := F) b b'.
Proof.
  intros (( H1 & H2 & H3 & H4) & Hs)%calm_admit. split; [done|]. split; [done|]. by rewrite Hs.
Qed.

Lemma dashboard_policy (b : Broker M S F) ev go out b' :
  dashboard_step b ev = (go, out, b') → policy (b_security b') = policy (b_security b).
Proof.
  destruct ev as [t ser sent|[[[| |]|]|]]; cbn [dashboard_step]; try (by intros [= _ _ <-]).
  unfold build_dashboard_snapshot, sync_gauges. destruct (subscription_counts _), ser, sent; by intros [= _ _ <-].
Qed.

Lemma admin_step_inv n exact lim owners s req now r b' :
  world_inv cfg n exact lim owners s → serve admin req now (sys_broker s) = Some (r, b') →
  let l := admin_label (policy (b_security (sys_broker s))) (policy (b_security b')) in
  world_inv cfg (n + 1) exact (lim_after l lim) owners (s <| sys_broker := b' |>).
Proof.
  intros Hi Hs. cbv zeta. apply broker_step_inv; [done| |].
  { eapply keeps_serve; [|exact Hs]. eapply inv_shared, (wi_inv _ _ _ _ _ _ Hi). }
  intros l0. unfold admin_label. destruct (bool_decide _ && _) eqn:E; [|done]. cbn [lim_after]. intros Hl H1 H2.
  apply andb_prop in E as [E1%bool_decide_eq_true E2]. split; [done|]. split; [congruence|lia].
Qed.

Lemma exact_admin p p' exact : exact_after (admin_label p p') exact = exact.
Proof. unfold admin_label. by destruct (_ && _). Qed.

Lemma task_step_inv n exact lim owners s id o b' :
  world_inv cfg n exact lim owners s →
  sys_inv cfg (n + 1) exact lim owners b' (set_task id o (sys_tasks s)) (sys_forwarders s) →
  world_inv cfg (n + 1) exact lim owners (advance b' id o s).
Proof. intros [_ Hc] Hi. by split. Qed.

(** A connection ends: its receiver goes with it. *)
Lemma hang_up_inv n exact lim owners s id b' peer si :
  world_inv cfg n exact lim owners s →
  sys_inv cfg (n + 1) exact lim owners (leave b' (mkPendingGuard true) peer (Some (si_client_id si)))
    (set_task id None (sys_tasks s)) (sys_forwarders s) →
  world_inv cfg (n + 1) exact lim owners (hang_up b' peer si id s).
Proof.
  intros [_ Hc] Hi. split; [|done].
  change (sys_broker (hang_up b' peer si id s)) with
    (set_chans (close (sh_chans (b_shared b')) (si_rx si)) (leave b' (mkPendingGuard true) peer (Some (si_client_id si)))).
  apply inv_chans; [done|]. eapply grows_created, grows_close.
Qed.

Lemma world_le n n' exact lim owners s s' :
  n ≤ n' → world_inv cfg n exact lim owners s → sys_broker s' = sys_broker s → sys_tasks s' = sys_tasks s →
  sys_forwarders s' = sys_forwarders s → sys_clients s' = sys_clients s → world_inv cfg n' exact lim owners s'.
Proof. intros Hle [Hi Hc] E1 E2 E3 E4. split; [rewrite E1, E2, E3; by eapply inv_le|by rewrite E4]. Qed.

Lemma inexact n exact lim owners s : world_inv cfg n exact lim owners s → world_inv cfg n false lim owners s.
Proof. intros [[I1 [I2 _] I3 I4 I5 I6 I7 I8 I9 I10] Hc]. split; [|done]. by split. Qed.

(** The cases of a step that replaces a task, and of tasks that hold nothing. *)
Ltac task_case := eapply task_step_inv; [eassumption|].
Ltac idle_case Hid :=
  eapply step_idle; [eassumption|rewrite Hid; (by intros ? [= <-]) || done|(by intros ? [= <-]) || done|assumption || done].

Lemma sys_step_inv n exact lim owners l s s' :
  n < 2 ^ 62 → world_inv cfg n exact lim owners s → sys_step admin l s s' →
  ∃ owners', (l ≠ LbGateway → owners' = owners) ∧
    world_inv cfg (n + 1) (exact_after l exact) (lim_after l lim) owners' s'.
Proof.
  intros Hn Hi Hstep. pose proof (wi_inv _ _ _ _ _ _ Hi) as Hb.
  assert (Hsame : ∀ l0, world_inv cfg (n + 1) (exact_after l0 exact) (lim_after l0 lim) owners s' →
            ∃ owners', (l0 ≠ LbGateway → owners' = owners) ∧
              world_inv cfg (n + 1) (exact_after l0 exact) (lim_after l0 lim) owners' s') by eauto.
  assert (Hgw : (∃ owners', owners ⊆ owners' ∧ world_inv cfg (n + 1) false lim owners' s') →
            ∃ owners', (LbGateway ≠ LbGateway → owners' = owners) ∧
              world_inv cfg (n + 1) (exact_after LbGateway exact) (lim_after LbGateway lim) owners' s').
  { intros (o & _ & H). exists o. by split. }
  destruct Hstep as [s service max id peer b' _ _ _ Hid Ha|s service max peer a b' _ _ _ Ha _|s id peer Hid|s id peer b' Hid Hc
    |s id peer b' Hid Hc|s id peer k b' guard Hid He|s id peer k first auto_id conn_id now si ctx msgs b' c guard cid Hid He
    |s id peer k first auto_id conn_id now b' k' guard cid Hid He|s id peer si ctx msg msgs c ev now b' c' Hid _ Hr
    |s id peer si ctx msg msgs c ev now b' k' Hid _ Hr|s id peer si ctx c Hid|s id peer si ctx c ev now b l Hid Hev Hl
    |s id peer si ctx c ev now b b' k' Hid Hev Hl|s now _ _|s service req now r b' _ _ Hs|s ev go_on out b' Hd
    |s service peer data now g _ _ _ Hg|s service now g _ _ _ Hg|s i task msg ch ok go_on g _ Hr Hf|s i task _ _ _
    |s|s l service l' _ _ _|s l service l' now g _ _ _ Hg|s _|s l service l' _].
  - apply Hsame. apply calm_admit in Ha as [Hcalm _]. task_case. idle_case Hid.
  - apply Hsame. pose proof (apart_check _ _ _ _ _ Ha) as Hk. apply calm_admit in Ha as [_ Hs].
    apply same_policy_inv; [done..|congruence].
  - apply Hsame. task_case. idle_case Hid.
  - apply Hsame. apply calm_check in Hc as [Hcalm _]. task_case. idle_case Hid.
  - apply Hsame. apply calm_check in Hc as [Hcalm _]. task_case. idle_case Hid.
  - apply Hsame. task_case. by eapply step_enter_inv.
  - apply Hsame. task_case. exact (step_connect_inv _ _ _ _ retries_nonneg _ _ _ _ _ _ _ _ _ _ _ _ _ _ Hn Hb Hid He).
  - apply Hsame. task_case. exact (step_connect_inv _ _ _ _ retries_nonneg _ _ _ _ _ _ _ _ _ _ _ _ _ _ Hn Hb Hid He).
  - apply Hsame. task_case. exact (step_replay_inv _ _ _ _ retries_nonneg _ _ _ _ _ _ _ _ _ _ _ _ _ _ Hn Hb Hid Hr).
  - apply Hsame, (hang_up_inv n exact lim owners); [exact Hi|].
    exact (step_replay_inv _ _ _ _ retries_nonneg _ _ _ _ _ _ _ _ _ _ _ _ _ _ Hn Hb Hid Hr).
  - apply Hsame. task_case. pose proof (serving_conn _ _ _ _ n _ _ _ id _ c Hb Hid eq_refl) as Hc.
    rewrite i64_dec_inc in Hc by apply (sv_current _ _ _ _ _ _ _ _ Hb).
    by eapply (step_serving cfg exact lim owners n (sys_broker s) _ _ id _ (TLoop peer si ctx c)); [..|by apply clear_disk_ok| |].
  - apply Hsame. task_case. exact (step_loop_inv _ _ _ _ retries_nonneg _ _ _ _ _ _ _ _ _ _ _ _ _ _ Hn Hb Hid Hev Hl).
  - apply Hsame, (hang_up_inv n exact lim owners); [exact Hi|].
    exact (step_loop_inv _ _ _ _ retries_nonneg _ _ _ _ _ _ _ _ _ _ _ _ _ _ Hn Hb Hid Hev Hl).
  - apply Hsame. by apply same_policy_inv; [done|apply keeps_sweep|].
  - apply Hsame. rewrite exact_admin. exact (admin_step_inv n exact lim owners s req now r b' Hi Hs).
  - apply Hsame. apply same_policy_inv; [done|by eapply keeps_dashboard|by eapply dashboard_policy].
  - apply Hgw. eapply gateway_step_inv; [done..|]. intros Hsn. by eapply datagram_effect.
  - apply Hgw. eapply gateway_step_inv; [done..|]. intros _. left. cbn in Hg. injection Hg as <-. apply quiet_sweep.
  - apply Hgw. by eapply step_forward_inv.
  - apply Hgw. exists owners. split; [done|]. apply end_forwarder_inv, (inexact _ exact). by eapply (world_le n); [lia|..].
  - apply Hsame. by eapply (world_le n); [lia|..].
  - apply Hsame. by eapply (world_le n); [lia|..].
  - apply Hgw. destruct (gateway_step_inv n exact lim owners s EvStop now g Hn Hi Hg) as (o & Ho & Hw).
    { intros _. left. by eapply quiet_stop. }
    exists o. split; [done|]. by eapply (world_le (n + 1)); [lia|..].
  - apply Hsame. by eapply (world_le n); [lia|..].
  - apply Hsame. by eapply (world_le n); [lia|..].
Qed.

(** ** Runs *)

Lemma sys_run_inv n exact lim owners ls s s' :
  sys_run admin ls s s' → n + Z.of_nat (length ls) < 2 ^ 62 → world_inv cfg n exact lim owners s →
  ∃ exact' lim' owners', world_inv cfg (n + Z.of_nat (length ls)) exact' lim' owners' s' ∧
    (LbGateway ∉ ls → exact' = exact ∧ owners' = owners) ∧ (LbReload ∉ ls → lim' = lim).
Proof.
  intros Hrun. revert n exact lim owners. induction Hrun as [s|l ls s1 s2 s3 Hstep _ IH]; intros n exact lim owners Hn Hi.
  { exists exact, lim, owners. rewrite Z.add_0_r. done. }
  cbn [length] in *. rewrite Nat2Z.inj_succ in *.
  destruct (sys_step_inv n exact lim owners l s1 s2) as (o2 & Ho2 & Hi2); [lia|done..|].
  destruct (IH (n + 1) _ _ _ ltac:(lia) Hi2) as (x3 & m3 & o3 & Hi3 & Hg & Hr).
  exists x3, m3, o3. split; [by replace (n + Z.succ (Z.of_nat (length ls))) with (n + 1 + Z.of_nat (length ls)) by lia|]. split.
  - intros [Hl Hls]%not_elem_of_cons. destruct (Hg Hls) as [-> ->]. rewrite Ho2 by congruence. by destruct l.
  - intros [Hl Hls]%not_elem_of_cons. rewrite (Hr Hls). by destruct l.
Qed.

Lemma gateway_moved (ls : list Label) : LbGateway ∈ ls ∨ LbGateway ∉ ls.
Proof.
  induction ls as [|l ls [IH|IH]]; [right; apply not_elem_of_nil|left; apply elem_of_cons; by right|].
  destruct l; try (right; apply not_elem_of_cons; by split). left. apply elem_of_cons. by left.
Qed.

(** Each session that is online belongs to one connection, or to the gateway. *)
Lemma world_owned n exact lim owners s c e :
  world_inv cfg n exact lim owners s →
  sessions (sh_sessions (b_shared (sys_broker s))) !! c = Some e → connected e = true →
  (exists! id, serves (sys_tasks s !! id) c (epoch e) (tx e)) ∨
  owners !! epoch e = Some (tx e) ∧ ∀ id c' rx, ¬ serves (sys_tasks s !! id) c' (epoch e) rx.
Proof.
  intros [Hi _] He Hc. destruct (sv_owned _ _ _ _ _ _ _ _ Hi c (epoch e) (tx e)) as [[id Hid]|Ho]; [by exists e| |].
  - left. exists id. split; [done|]. intros id' (t' & si' & Ht' & Hs' & _ & E' & _).
    destruct Hid as (t & si & Ht & Hs & _ & E & _). eapply (sv_distinct _ _ _ _ _ _ _ _ Hi id id'); [done..|].
    left. congruence.
  - right. split; [done|]. intros id c' rx (t & si & Ht & Hs & _ & E & _).
    destruct (sv_gateway _ _ _ _ _ _ _ _ Hi _ _ Ho) as (_ & _ & Hno). by destruct (Hno _ _ _ Ht Hs).
Qed.

(** Nobody else's messages go to the channel of a connection that is served. *)
Lemma world_own_channel n exact lim owners s id c e :
  world_inv cfg n exact lim owners s →
  sessions (sh_sessions (b_shared (sys_broker s))) !! c = Some e →
  serves (sys_tasks s !! id) c (epoch e) (tx e) → own_channel (sh_sessions (b_shared (sys_broker s))) c e.
Proof.
  intros [Hi _] He (t & si & Ht & Hs & Hc & Hep & Hrx). split; [done|]. intros c' e' Hne He' Hon Htx.
  destruct (sv_owned _ _ _ _ _ _ _ _ Hi c' (epoch e') (tx e')) as [(id' & t' & si' & Ht' & Hs' & Hc' & Hep' & Hrx')|Ho]; [by exists e'| |].
  - assert (id = id') as <- by (eapply (sv_distinct _ _ _ _ _ _ _ _ Hi id id'); [done..|right; congruence]). congruence.
  - destruct (sv_gateway _ _ _ _ _ _ _ _ Hi _ _ Ho) as (_ & _ & Hno). destruct (Hno _ _ _ Ht Hs). congruence.
Qed.

(** Without the gateway nothing is left of connections that have ended. *)
Lemma world_settled n lim s :
  world_inv cfg n true lim ∅ s → sys_tasks s = ∅ →
  gauges (sh_metrics (b_shared (sys_broker s))) = (0, 0) ∧
  ∀ c e, sessions (sh_sessions (b_shared (sys_broker s))) !! c = Some e → connected e = false.
Proof.
  intros [Hi _] Hts. pose proof (sv_broker _ _ _ _ _ _ _ _ Hi) as [[_ _ _ Hg] _ _]. injection Hg as Hp.
  pose proof (sv_current _ _ _ _ _ _ _ _ Hi) as [_ Hcur]. rewrite Hts in *.
  split; [unfold gauges; by rewrite Hp, Hcur|]. intros c e He. destruct (connected e) eqn:Hcon; [|done].
  destruct (sv_owned _ _ _ _ _ _ _ _ Hi c (epoch e) (tx e)) as [(id & t & si & Ht & _)|Ho]; [by exists e|done..].
Qed.

(** What can happen next always can: a message that is being replayed, an event
    of a main loop, a request to the admin API, an event of the gateway are
    handled to the end. *)
Lemma steps_total n exact lim owners s :
  n < 2 ^ 62 → world_inv cfg n exact lim owners s →
  let b := sys_broker s in
  (∀ id peer si ctx msgs c msgs' evs now, sys_tasks s !! id = Some (TReplay peer si ctx msgs c) →
     is_Some (replay si ctx msgs' evs now (b, c))) ∧
  (∀ id peer si ctx c ev b1 now, sys_tasks s !! id = Some (TLoop peer si ctx c) →
     take_event (sys_down s) b si ev = Some b1 →
     is_Some (loop_step si (loop_max_subs b1) (loop_timeout b1) (loop_retries b1) (mkLoopState b1 c ctx) ev now)) ∧
  (∀ req now, is_Some (serve admin req now b)) ∧
  (∀ ev now, is_Some (sn_step (gateway b s) ev now)).
Proof.
  intros Hn Hw. pose proof Hw as [Hi Hcl]. pose proof (inv_shared _ _ _ _ _ _ _ _ Hi) as Hsh.
  assert (Hcfg : b_config (sys_broker s) = cfg) by exact (bi_config _ _ _ _ (sv_broker _ _ _ _ _ _ _ _ Hi)).
  cbv zeta. split; [|split; [|split]].
  - intros id peer si ctx msgs c msgs' evs now Ht. pose proof (serving_conn _ _ _ _ n _ _ _ id _ c Hi Ht eq_refl) as Hc.
    destruct (replay_ok cfg _ _ _ retries_nonneg (sub_in_i64 _) si ctx msgs' evs now _ c Hc) as (p & -> & _). eauto.
  - intros id peer si ctx c ev b1 now Ht Htake. apply take_event_facts in Htake as [(ch & -> & _) _].
    pose proof (serving_conn _ _ _ _ n _ _ _ id _ c Hi Ht eq_refl) as Hc. apply (set_chans_conn _ _ _ _ ch) in Hc.
    unfold loop_retries. change (b_config (set_chans ch (sys_broker s))) with (b_config (sys_broker s)). rewrite Hcfg.
    destruct (loop_step_ok cfg _ _ _ retries_nonneg (sub_in_i64 _) si (loop_max_subs (set_chans ch (sys_broker s)))
                (loop_timeout (set_chans ch (sys_broker s))) (mkLoopState (set_chans ch (sys_broker s)) c ctx) ev now Hc)
      as (p & -> & _). eauto.
  - intros req now. by apply serve_total.
  - intros ev now. destruct (sn_step_inv 1 _ ev now ltac:(lia) (gateway_ready _ _ _ _ _ _ Hn Hi Hcl)) as (g & -> & _). eauto.
Qed.
End World.

Section System.
Context {M : Mpsc} {L : MpscLaws M} {R : MpscRx M} {LR : MpscRxLaws M L R} {S : Sled} {JR : Json RetainedMessage}
  {JS : Json SessionSnapshot} {JO : Json OutboundPublish} {F : ForwardEnv} {K : Sink} {A : Axum} {T : Rustls}.

(** A broker that serves nobody yet. *)
Record starting (b : Broker M S F) : Prop := {
  st_shared : shared_inv (0, 0) (b_shared b);
  st_offline c e : sessions (sh_sessions (b_shared b)) !! c = Some e → connected e = false;
  st_counter : ip_counter (b_security b) = ∅;
  st_retries : 0 ≤ default 3 (max_retries (b_config b));
  st_max : 0 ≤ max_connections_per_ip (policy (b_security b));
}.

Lemma world_init b handles :
  starting b →
  world_inv (b_config b) (epoch_counter (sh_sessions (b_shared b))) true (Some (limits (policy (b_security b)))) ∅
    (system_new b handles : System M S F K T).
Proof.
  intros [H1 H2 H3 H4 H5]. pose proof (si_gauges _ _ H1) as Hg. unfold gauges in Hg. injection Hg as Hg1 Hg2.
  split; [|intros p c; cbn; by rewrite lookup_empty].
  split; cbn [system_new sys_broker sys_tasks sys_forwarders].
  - rewrite Hg1. split; [exact H1|reflexivity..].
  - rewrite Hg1. split; [unfold in_i64; lia|reflexivity].
  - intros l [= <-]. split; [done|]. split; [done|]. rewrite H3. intros ip. unfold places. rewrite lookup_empty.
    by destruct (limits _).
  - intros id t c Ht. by rewrite lookup_empty in Ht.
  - intros id t si Ht. by rewrite lookup_empty in Ht.
  - intros id id' t t' si si' Ht. by rewrite lookup_empty in Ht.
  - intros ep rx Ho. by rewrite lookup_empty in Ho.
  - intros c ep rx (e & He & Hc & _). apply H2 in He. congruence.
  - by intros t Ht%elem_of_nil.
  - pose proof (inv_counter _ (si_sess _ _ H1)). rewrite map_size_empty. lia.
Qed.

(** C2: The invariant of the process.  From a broker that serves nobody yet, in
    every state that any interleaving of listeners, connections, the MQTT-SN
    gateway, sweeper, admin requests, dashboards and the shutdown can reach: the
    gauge of pending connections is exactly the number of connections before their
    CONNECT, and, as long as the gateway is not used, that of current ones the
    number after it; unless a reload has turned the limit per address on or off,
    with a limit the guard counts for every address exactly its connections; every
    session that is online belongs to exactly one connection, the one that
    registered it with the session's epoch and receives from its channel, or to no
    connection but the gateway; no other session that is online sends on the
    channel of a connection; when no connection is left no address is counted, and
    without the gateway both gauges are 0 and no session is online; the topic
    registries of the gateway's clients are consistent; and no replay, event,
    admin request or datagram can get stuck. *)
Theorem system_invariant admin (b0 : Broker M S F) handles ls (s : System M S F K T) :
  starting b0 →
  epoch_counter (sh_sessions (b_shared b0)) + Z.of_nat (length ls) < 2 ^ 62 →
  sys_run admin ls (system_new b0 handles) s →
  let b := sys_broker s in
  let ts := sys_tasks s in
  let table := sessions (sh_sessions (b_shared b)) in
  connections_pending (sh_metrics (b_shared b)) = count_if is_pending ts ∧
  (LbGateway ∉ ls → connections_current (sh_metrics (b_shared b)) = count_if is_serving ts) ∧
  (LbReload ∉ ls → limits (policy (b_security b0)) = true →
     ∀ ip, ip_count (ip_counter (b_security b)) ip = count_if (holds_place ip) ts) ∧
  (∀ c e, table !! c = Some e → connected e = true →
     (exists! id, serves (ts !! id) c (epoch e) (tx e)) ∨
     LbGateway ∈ ls ∧ ∀ id c' rx, ¬ serves (ts !! id) c' (epoch e) rx) ∧
  (∀ id c e, table !! c = Some e → serves (ts !! id) c (epoch e) (tx e) → own_channel (sh_sessions (b_shared b)) c e) ∧
  (ts = ∅ → (LbReload ∉ ls → ip_counter (b_security b) = ∅) ∧
     (LbGateway ∉ ls → gauges (sh_metrics (b_shared b)) = (0, 0) ∧ ∀ c e, table !! c = Some e → connected e = false)) ∧
  (∀ peer c, sys_clients s !! peer = Some c → registry_inv c ∧ sn_peer c = peer) ∧
  (∀ id peer si ctx msgs c msgs' evs now, ts !! id = Some (TReplay peer si ctx msgs c) →
     is_Some (replay si ctx msgs' evs now (b, c))) ∧
  (∀ id peer si ctx c ev b1 now, ts !! id = Some (TLoop peer si ctx c) → take_event (sys_down s) b si ev = Some b1 →
     is_Some (loop_step si (loop_max_subs b1) (loop_timeout b1) (loop_retries b1) (mkLoopState b1 c ctx) ev now)) ∧
  (∀ req now, is_Some (serve admin req now b)) ∧
  (∀ ev now, is_Some (sn_step (gateway b s) ev now)).
Proof.
  intros Hst Hn Hrun. pose proof (world_init b0 handles Hst) as H0.
  destruct (sys_run_inv admin (b_config b0) (st_retries _ Hst) _ _ _ _ _ _ _ Hrun Hn H0) as (x & m & o & Hw & Hgw & Hrl).
  pose proof Hw as [Hi Hcl]. cbv zeta.
  pose proof (sv_broker _ _ _ _ _ _ _ _ Hi) as [[_ _ _ Hg] _ _]. injection Hg as Hp.
  pose proof (sv_current _ _ _ _ _ _ _ _ Hi) as [_ Hcur].
  split; [done|]. split; [intros Hno; destruct (Hgw Hno) as [-> _]; auto|]. split; [|split; [|split; [|split]]].
  - intros Hno Hl ip. destruct (sv_counter _ _ _ _ _ _ _ _ Hi _ (Hrl Hno)) as (_ & _ & Hc).
    rewrite (counter_is_count _ _ _ Hc). unfold places. by rewrite Hl.
  - intros c e He Hcon. destruct (world_owned _ _ _ _ _ _ _ _ Hw He Hcon) as [|[Ho Hno]]; [by left|]. right. split; [|done].
    destruct (gateway_moved ls) as [|Hnot]; [done|]. destruct (Hgw Hnot) as [_ ->]. by rewrite lookup_empty in Ho.
  - intros id c e He Hs. by eapply world_own_channel.
  - intros Hts. rewrite Hts in *. split.
    + intros Hno. destruct (sv_counter _ _ _ _ _ _ _ _ Hi _ (Hrl Hno)) as (_ & _ & Hc). apply map_eq. intros ip.
      rewrite Hc. unfold places. rewrite lookup_empty. by destruct (limits _).
    + intros Hno. destruct (Hgw Hno) as [-> ->]. by eapply world_settled.
  - split; [exact Hcl|]. by eapply steps_total; [apply st_retries|..].
Qed.
End System.

(** ** A concrete run *)

Import ListChan MapDb ListForward Demo HandlerDemo AdminDemo TlsDemo.

Module SystemDemo.
(** A new broker that allows two connections per address. *)
Definition guard : SecurityGuard :=
  match guard_new (mkSecurityConfig true [] [] 2 0 0) with Ok g => g | Err _ => guard_disabled end.
Definition fresh : Broker list_mpsc map_sled list_forward :=
  mkBroker (mkShared SubscriptionTree_new (with_limits 2 1000) RetainStore_new (Some MapDb.empty) METRICS ∅)
    guard plugin_disabled ∅ (mkAuthConfig AuthMode.Anonymous true []) config.
Definition handles : list (Service (R := demo_rustls)) := [TcpServer (mkSocketAddr (V4 1) 1883) 100].
Definition started : System list_mpsc map_sled list_forward list_sink demo_rustls := system_new fresh handles.

Definition peer : SocketAddr := mkSocketAddr (V4 5) 9.

(** The connection [id] comes in as the client [c] and reaches its main loop. *)
Definition join (id : nat) (c : string) : list (Action (K := list_sink)) :=
  [AAccept 0 id peer; ACheck id; AEnter id [];
   AConnect id (ReadPacket (PConnect (mkConnect 4 60 c true None None None None))) "auto" "conn" 1;
   AReplay id None 2].

Definition run (acts : list Action) (s : System list_mpsc map_sled list_forward list_sink demo_rustls) :=
  exec_all AdminConfig_default acts s.

Lemma fresh_starting : starting fresh.
Proof.
  split; [|done|done|cbn; lia|vm_compute; discriminate].
  split; [apply sess_inv_new|cbn; lia|apply tree_inv_new|reflexivity].
Qed.

Lemma runs acts s ls : fst <$> run acts s = Some ls →
  sys_run AdminConfig_default ls s (from_option snd s (run acts s)).
Proof.
  intros E. apply (exec_all_sound _ acts). unfold run in *. by destruct (exec_all _ acts s) as [[ls' s']|]; [injection E as <-|].
Qed.

Ltac not_among := repeat (apply not_elem_of_cons; split; [discriminate|]); apply not_elem_of_nil.

Definition two_clients := from_option snd started (run (join 0 "c1" ++ join 1 "c2") started).
End SystemDemo.
Import SystemDemo.

(** Two clients of one address have come in. *)
Lemma system_invariant_witness :
  ∃ ls s, sys_run AdminConfig_default ls started s ∧
    connections_current (sh_metrics (b_shared (sys_broker s))) = 2 ∧
    connections_pending (sh_metrics (b_shared (sys_broker s))) = 0 ∧
    ip_count (ip_counter (b_security (sys_broker s))) (V4 5) = 2.
Proof.
  assert (Hrun : sys_run AdminConfig_default _ started two_clients) by (eapply runs; vm_compute; reflexivity).
  eexists _, two_clients. split; [exact Hrun|].
  match type of Hrun with sys_run _ ?ls _ _ =>
    destruct (system_invariant AdminConfig_default fresh handles ls two_clients fresh_starting
                ltac:(vm_compute; reflexivity) Hrun) as (H1 & H2 & H3 & _) end.
  split; [exact (eq_trans (H2 ltac:(not_among)) eq_refl)|].
  split; [exact (eq_trans H1 eq_refl)|].
  exact (eq_trans (H3 ltac:(not_among) eq_refl (V4 5)) eq_refl).
Defined.

(** A task that is spawned but has not reached the guard yet counts neither as
    current nor as pending: with a limit of one connection, two sockets accepted
    one after the other are both let in. *)
Example accept_race :
  (run_listener 1 fresh [EAccept (Ok peer); EAccept (Ok (mkSocketAddr (V4 6) 9))]).1
  = [peer; mkSocketAddr (V4 6) 9].
Proof. vm_compute. reflexivity. Qed.
