(* ===== verification/SystemMoves.v ===== *)
(** * What a step moves

    The channels and the sessions of the connections, whoever moves: a queue only
    grows, except that its own receiver takes from the front; and a connection
    keeps the session it has, or registers a new one with a new epoch. *)

From stdpp Require Import relations.
From S2P Require Import Prelude Packet Messages OfflineQueue Subscription SubscriptionProofs.
From S2P Require Import SubscriptionTheorems Storage StorageProofs Metrics Retain Session.
From S2P Require Import SessionProofs SessionTheorems Qos QosProofs QosTheorems Router.
From S2P Require Import RouterTheorems Auth IpFilter Limiter Security Plugin PluginTheorems.
From S2P Require Import Lifecycle LifecycleTheorems Config Handlers HandlersProofs.
From S2P Require Import HandlersTheorems Connection ConnectionTheorems Listeners Admin.
From S2P Require Import AdminTheorems TlsLoad Start SnCodec SnGateway SnTheorems System.
From S2P Require Import SystemExec SystemProofs SystemGateway SystemInvariant SystemTheorems.

Section Moves.
Context {M : Mpsc} {L : MpscLaws M} {R : MpscRx M} {LR : MpscRxLaws M L R} {S : Sled} {JR : Json RetainedMessage}
  {JS : Json SessionSnapshot} {JO : Json OutboundPublish} {F : ForwardEnv} {K : Sink} {A : Axum} {T : Rustls}.
Implicit Types s : System M S F K T.

Abbreviation epochs s := (epoch_counter (sh_sessions (b_shared (sys_broker s)))).
Abbreviation capacity s := (max_offline_messages (sh_sessions (b_shared (sys_broker s)))).
Abbreviation chs s := (sh_chans (b_shared (sys_broker s))).

(** The message a step of the connection [id] takes out of its channel. *)
Definition taken (id : nat) (l : Label) : list OutboundPublish :=
  match l with
  | LbLoop i (LOutbound (Some m)) => if decide (i = id) then [m] else []
  | _ => []
  end.

(** What the connection has taken in a run. *)
Definition received (id : nat) (ls : list Label) : list OutboundPublish := ls ≫= taken id.

(** The connection [id] serves the session [si]. *)
Definition has_session s (id : nat) (si : Connection.SessionInfo) : Prop :=
  ∃ t, sys_tasks s !! id = Some t ∧ session_of t = Some si.

(** The receiver of a channel, if it may move in this step: that of a main loop, of
    a connection that ends, of a forwarder. *)
Definition receiver (l : Label) s s' (r : Sender) : Prop :=
  (∃ i ev si, l = LbLoop i ev ∧ has_session s i si ∧ si_rx si = r) ∨
  (∃ i si, has_session s i si ∧ ¬ has_session s' i si ∧ si_rx si = r) ∨
  (∃ task, task ∈ sys_forwarders s ∧ task_rx task = r).

(** The connection itself moves. *)
Definition own_label (i : nat) (l : Label) : Prop := l = LbConn i ∨ ∃ ev, l = LbLoop i ev.

Record moves (l : Label) s s' : Prop := {
  mv_epochs : epochs s ≤ epochs s';
  mv_capacity : capacity s' = capacity s;
  mv_sessions i si : has_session s' i si → has_session s i si ∨
    (l = LbConn i ∧ epochs s < si_epoch si ≤ epochs s' ∧ queued (chs s') (si_rx si) = [] ∧ ∀ si', ¬ has_session s i si');
  mv_loop i ev : l = LbLoop i ev → ∃ si, has_session s i si;
  mv_keeps i si : has_session s i si → has_session s' i si ∨ own_label i l;
  mv_grows : ∃ o, grows_but o (chs s) (chs s') ∧ ∀ r, o = Some r → receiver l s s' r;
  mv_taken i ev si : l = LbLoop i ev → has_session s i si → created (chs s) (si_rx si) →
    ∃ q, queued (chs s) (si_rx si) = taken i l ++ q ∧
      (has_session s' i si → ∃ more, queued (chs s') (si_rx si) = q ++ more);
}.

Definition in_loop (l : Label) : bool := match l with LbLoop _ _ => true | _ => false end.

Lemma has_session_advance s b' id o i si :
  (∀ t', o = Some t' → session_of t' = Some si → has_session s id si) →
  has_session (advance b' id o s) i si → has_session s i si.
Proof.
  intros Ho (t & Ht & Hs). cbn in Ht. rewrite set_task_lookup in Ht. destruct (decide (i = id)) as [->|Hne]; [eauto|].
  by exists t.
Qed.

Lemma has_session_other l s b' id o i si :
  own_label id l ∨ sys_tasks s !! id = None → has_session s i si → has_session (advance b' id o s) i si ∨ own_label i l.
Proof.
  intros Hl (t & Ht & Hs). destruct (decide (i = id)) as [->|Hne].
  - destruct Hl as [|Hn]; [by right|congruence].
  - left. exists t. split; [|done]. cbn. by rewrite set_task_lookup, decide_False.
Qed.

(** Steps of others, and of a connection outside its main loop. *)
Lemma moves_apart l s s' o :
  in_loop l = false → sys_tasks s' = sys_tasks s → epochs s ≤ epochs s' → capacity s' = capacity s → grows_but o (chs s) (chs s') →
  (∀ r, o = Some r → receiver l s s' r) → moves l s s'.
Proof.
  intros Hl Ht Hep Hm Hg Hr.
  assert (H : ∀ i si, has_session s' i si ↔ has_session s i si) by (intros i si; unfold has_session; by rewrite Ht).
  split; [done|done|intros i si Hi; left; by apply H|by intros i ev ->|intros i si Hi; left; by apply H|by exists o|by intros i ev si ->].
Qed.

Lemma moves_broker l s s' :
  in_loop l = false → sys_tasks s' = sys_tasks s → evolves (b_shared (sys_broker s)) (b_shared (sys_broker s')) → moves l s s'.
Proof. intros Hl Ht [(Hep & Hm & _) Hg]. apply (moves_apart _ _ _ None); [done..|lia|done|done|done]. Qed.

Lemma moves_task l s b' id o :
  l = LbConn id ∨ in_loop l = false ∧ sys_tasks s !! id = None → evolves (b_shared (sys_broker s)) (b_shared b') →
  (∀ t' si, o = Some t' → session_of t' = Some si → has_session s id si) →
  moves l s (advance b' id o s).
Proof.
  intros Hl' [(Hep & Hm & _) Hg] Ho. assert (Hl : in_loop l = false) by by destruct Hl' as [->|[]]. split.
  - cbn. lia.
  - done.
  - intros i si H. left. eapply has_session_advance; [|exact H]. intros t' E. by eapply Ho.
  - by intros i ev ->.
  - intros i si H. eapply has_session_other; [|exact H]. destruct Hl' as [->|[_ Hn]]; [left; by left|by right].
  - exists None. by split.
  - by intros i ev si ->.
Qed.

(** A connection that ends, in whatever it did last. *)
Lemma moves_hang_up l s b' peer si id :
  has_session s id si → own_label id l →
  (∀ ev, l = LbLoop id ev → ∃ q, queued (chs s) (si_rx si) = taken id l ++ q) →
  epochs s ≤ epoch_counter (sh_sessions (b_shared b')) → max_offline_messages (sh_sessions (b_shared b')) = capacity s →
  grows_but (Some (si_rx si)) (chs s) (sh_chans (b_shared b')) → moves l s (hang_up b' peer si id s).
Proof.
  intros Hid Hl Hq Hep Hm Hg.
  assert (Hno : ∀ si', ¬ has_session (hang_up b' peer si id s) id si').
  { intros si' (t & Ht & _). cbn in Ht. by rewrite lookup_delete_eq in Ht. }
  assert (Hown : ∀ i ev, l = LbLoop i ev → i = id) by (intros i ev E; destruct Hl as [->|[ev' ->]]; [done|by injection E]).
  split; [done|done| | | | |].
  - intros i si' H. left. by eapply has_session_advance; [|exact H].
  - intros i ev E. apply Hown in E as ->. by exists si.
  - intros i si' H. eapply has_session_other; [by left|exact H].
  - exists (Some (si_rx si)). split; [etrans; [exact Hg|apply grows_close]|]. intros r [= <-]. right. left.
    exists id, si. split; [done|]. split; [apply Hno|done].
  - intros i ev si' E (t & Ht & Hs) _. assert (i = id) as -> by by eapply Hown.
    assert (si' = si) as -> by (destruct Hid as (t0 & Ht0 & Hs0); congruence).
    destruct (Hq ev E) as [q Eq]. exists q. split; [done|]. intros Hs'. by apply Hno in Hs'.
Qed.

Lemma take_event_queue down (b : Broker M S F) si ev b1 i :
  take_event down b si ev = Some b1 →
  taken i (LbLoop i ev) ++ queued (sh_chans (b_shared b1)) (si_rx si) = queued (sh_chans (b_shared b)) (si_rx si).
Proof.
  unfold take_event. destruct down; [destruct ev as [[]| | | |]; try done; by intros [= <-]|].
  destruct ev as [v| | |item|[req|]]; [done|by intros [= <-]..| |].
  - pose proof (recv_queued (sh_chans (b_shared b)) (si_rx si)) as Hq. destruct (recv _ _) as [[m ch]|]; [|done].
    cbn. destruct (decide (m = req)) as [->|]; [|done]. intros [= <-]. rewrite decide_True by done. by rewrite Hq.
  - destruct (owns _ _ _); [done|]. destruct (recv _ _); [done|]. by intros [= <-].
Qed.

(** A connection in its main loop. *)
Lemma moves_loop s id peer si ctx c ev b1 b' o :
  sys_tasks s !! id = Some (TLoop peer si ctx c) → take_event (sys_down s) (sys_broker s) si ev = Some b1 →
  evolves (b_shared b1) (b_shared b') → (∀ t' si', o = Some t' → session_of t' = Some si' → si' = si) →
  moves (LbLoop id ev) s (advance b' id o s).
Proof.
  intros Ht Htake [(Hep & Hm & _) Hg] Ho. pose proof (take_event_queue _ _ _ _ _ id Htake) as Hq.
  apply take_event_facts in Htake as [(ch & -> & Hg1) _].
  assert (Hid : has_session s id si) by by exists (TLoop peer si ctx c). split.
  - cbn in *. lia.
  - exact Hm.
  - intros i si' H. left. eapply has_session_advance; [|exact H]. intros t' E Hs. by rewrite (Ho _ _ E Hs).
  - intros i ev' [= <- <-]. by exists si.
  - intros i si' H. eapply has_session_other; [|exact H]. left. right. eauto.
  - exists (Some (si_rx si)). split; [etrans; [exact Hg1|]; by apply grows_weaken|]. intros r [= <-]. left.
    by exists id, ev, si.
  - intros i ev' si' [= <- <-] (t & Ht' & Hs) Hcr. rewrite Ht in Ht'. injection Ht' as <-. injection Hs as <-.
    destruct (Hg1 _ Hcr) as [Hcr1 _]. destruct (Hg _ Hcr1) as [_ Hmore]. destruct (Hmore ltac:(done)) as [more Em].
    eexists. split; [symmetry; exact Hq|]. intros _. exists more. exact Em.
Qed.

(** The gateway. *)
Lemma gateway_epochs (g g' : SnServer M S F) :
  0 ≤ epoch_counter (sh_sessions (sn_shared g)) < 2 ^ 63 → quiet g g' ∨ joins g g' →
  epoch_counter (sh_sessions (sn_shared g)) ≤ epoch_counter (sh_sessions (sn_shared g')) ∧
  max_offline_messages (sh_sessions (sn_shared g')) = max_offline_messages (sh_sessions (sn_shared g)) ∧
  grows (sh_chans (sn_shared g)) (sh_chans (sn_shared g')).
Proof.
  intros Hb [(_ & [(Hep & Hm & _) Hg] & _)|(cid & rx & _ & Hep & Hm & Hg & _)]; [split; [lia|done]|]. split; [|done].
  rewrite Hep. unfold wrap_u64. rewrite Z.mod_small by (unfold u64_mod; lia). lia.
Qed.

Lemma moves_gateway s (g : SnServer M S F) services :
  0 ≤ epochs s < 2 ^ 63 → quiet (gateway (sys_broker s) s) g ∨ joins (gateway (sys_broker s) s) g →
  moves LbGateway s ((set_gateway g s) <| sys_services := services |>).
Proof.
  intros Hb Hq. destruct (gateway_epochs (gateway (sys_broker s) s) g Hb Hq) as (Hep & Hm & Hg). by apply (moves_apart _ _ _ None).
Qed.

Lemma moves_forward s i task msg ch ok go_on g :
  sys_forwarders s !! i = Some task → recv (chs s) (task_rx task) = Some (msg, ch) →
  forward_step (gateway (set_chans ch (sys_broker s)) s) task msg ok = (go_on, g) →
  moves LbGateway s (if go_on then set_gateway g s else end_forwarder i task (set_gateway g s)).
Proof.
  intros Hi Hr Hf. pose proof (quiet_forward (gateway (set_chans ch (sys_broker s)) s) task msg ok) as Hq.
  rewrite Hf in Hq. destruct Hq as (_ & [(Hep & Hm & _) Hg] & _).
  assert (Hg1 : grows_but (Some (task_rx task)) (chs s) (sh_chans (sn_shared g))).
  { etrans; [by eapply grows_recv|]. by apply grows_weaken. }
  assert (Hrx : ∀ s' r, Some (task_rx task) = Some r → receiver LbGateway s s' r).
  { intros s' r [= <-]. right. right. exists task. split; [by eapply list_elem_of_lookup_2|done]. }
  destruct go_on; apply (moves_apart _ _ _ (Some (task_rx task))); try (done || apply Hrx); [apply Z.eq_le_incl; symmetry; exact Hep..|].
  etrans; [exact Hg1|]. apply grows_close.
Qed.

Lemma moves_forward_end s i task :
  sys_forwarders s !! i = Some task → moves LbGateway s (end_forwarder i task s).
Proof.
  intros Hi. apply (moves_apart _ _ _ (Some (task_rx task))); [done|done|cbn; lia|done|apply grows_close|].
  intros r [= <-]. right. right. exists task. split; [by eapply list_elem_of_lookup_2|done].
Qed.

(** A CONNECT. *)
Lemma moves_connect s id peer k first auto_id conn_id now p guard cid :
  0 ≤ epochs s < 2 ^ 63 → sys_tasks s !! id = Some (TPending peer k) →
  establish (sys_broker s) k peer first auto_id conn_id (mkPendingGuard false) now = (p, guard, cid) →
  moves (LbConn id) s
    (match p with
     | Open (si, ctx, msgs, (b', c)) => advance b' id (Some (TReplay peer si ctx msgs c)) s
     | Closed b' _ => advance (leave b' guard peer cid) id None s
     end).
Proof.
  intros Hb Ht He. apply establish_sess in He.
  assert (Hw : wrap_u64 (epochs s + 1) = epochs s + 1) by (apply Z.mod_small; unfold u64_mod; lia).
  destruct p as [[[[si ctx] msgs] [b' c]]|b' k'].
  - destruct He as (E1 & E2 & Hm & Hg & _ & _ & Hq & _). rewrite Hw in E1. split.
    + cbn. lia.
    + done.
    + intros i si' (t & Hi & Hs). cbn in Hi. destruct (decide (i = id)) as [->|Hne].
      * rewrite lookup_insert_eq in Hi. injection Hi as <-. injection Hs as <-. right. split; [done|]. split; [cbn; lia|]. split; [exact Hq|].
        intros si' (t & Ht' & Hs'). rewrite Ht in Ht'. by injection Ht' as <-.
      * rewrite lookup_insert_ne in Hi by done. left. by exists t.
    + by intros i ev.
    + intros i si' H. eapply has_session_other; [|exact H]. left. by left.
    + exists None. by split.
    + by intros i ev si'.
  - destruct He as (E1 & Hm & Hg & _). rewrite Hw in E1.
    assert (Hl : evolves (b_shared b') (b_shared (leave b' guard peer cid))).
    { apply evolves_same; unfold leave, drop_pending; by destruct (promoted guard). }
    destruct Hl as [(Hep & Hm' & _) Hg']. split.
    + cbn. lia.
    + exact (eq_trans Hm' Hm).
    + intros i si' H. left. by eapply has_session_advance; [|exact H].
    + by intros i ev.
    + intros i si' H. eapply has_session_other; [|exact H]. left. by left.
    + exists None. split; [|done]. by etrans.
    + by intros i ev si'.
Qed.

(** It hands over no more messages than a queue holds. *)
Lemma establish_msgs (b : Broker M S F) (k : SinkState) peer first auto_id conn_id guard now si ctx msgs b' (c : Conn K) guard' cid :
  sess_inv (sh_sessions (b_shared b)) →
  establish b k peer first auto_id conn_id guard now = (Open (si, ctx, msgs, (b', c)), guard', cid) →
  (length msgs ≤ max_offline_messages (sh_sessions (b_shared b)))%nat.
Proof.
  intros Hi. unfold establish. destruct (check_connect b k first auto_id) as [[r b1] k1] eqn:Ec.
  apply check_connect_same in Ec as (Hs1 & _). destruct r as [[connect identity]|]; [|done].
  unfold register_session. destruct (channel _ _) as [tx_ ch]. rewrite Hs1.
  match goal with |- context [register ?s ?cid ?cl ?t ?w ?l ?p ?ex ?n] =>
    pose proof (register_drained s cid cl t w l p ex n Hi) as Hd; destruct (register s cid cl t w l p ex n) as [[[ep sp] ms] s2] end.
  cbn in Hd. destruct (promote guard _) as [g3 b3]. destruct (sink_send _ _) as [[u|e] k2]; [|done].
  intros [= _ _ <- _ _ _ _]. exact Hd.
Qed.

(** ** Every step *)

Lemma world_epochs cfg n exact lim owners s :
  n < 2 ^ 62 → world_inv cfg n exact lim owners s → 0 ≤ epochs s < 2 ^ 63.
Proof.
  intros Hn [Hi _]. pose proof (sv_bound _ _ _ _ _ _ _ _ Hi) as [Hb _].
  destruct (sv_broker _ _ _ _ _ _ _ _ Hi) as [[B1 _ _ _] _ _]. pose proof (inv_counter _ B1). lia.
Qed.

Lemma step_moves admin cfg n exact lim owners l s s' :
  n < 2 ^ 62 → world_inv cfg n exact lim owners s → sys_step admin l s s' → moves l s s'.
Proof.
  intros Hn Hw Hstep. pose proof (world_epochs _ _ _ _ _ _ Hn Hw) as Hb. pose proof Hw as [Hi Hcl].
  assert (Hlabel : ∀ p p', in_loop (admin_label p p') = false) by (intros p p'; unfold admin_label; by destruct (_ && _)).
  destruct Hstep as [s service max id peer b' _ _ _ Hid Ha|s service max peer a b' _ _ _ Ha _|s id peer Hid|s id peer b' Hid Hc
    |s id peer b' Hid Hc|s id peer k b' guard Hid He|s id peer k first auto_id conn_id now si ctx msgs b' c guard cid Hid He
    |s id peer k first auto_id conn_id now b' k' guard cid Hid He|s id peer si ctx msg msgs c ev now b' c' Hid _ Hr
    |s id peer si ctx msg msgs c ev now b' k' Hid _ Hr|s id peer si ctx c Hid|s id peer si ctx c ev now b l Hid Hev Hl
    |s id peer si ctx c ev now b b' k' Hid Hev Hl|s now _ _|s service req now r b' _ _ Hs|s ev go_on out b' Hd
    |s service peer data now g _ _ _ Hg|s service now g _ _ _ Hg|s i task msg ch ok go_on g Hi' Hr Hf|s i task Hi' _ _
    |s|s l service l' _ _ _|s l service l' now g _ _ _ Hg|s _|s l service l' _].
  - apply calm_admit in Ha as [(_ & _ & _ & He) _]. apply moves_task; [by right|done|by intros t si [= <-]].
  - apply calm_admit in Ha as [(_ & _ & _ & He) _]. by apply moves_broker.
  - by apply moves_task; [left|..].
  - apply calm_check in Hc as [(_ & _ & _ & He) _]. apply moves_task; [by left|done|by intros t si [= <-]].
  - apply calm_check in Hc as [(_ & _ & _ & He) _]. by apply moves_task; [left|..].
  - injection He as _ <-. apply moves_task; [by left|by apply evolves_same|by intros t si [= <-]].
  - exact (moves_connect _ _ _ _ _ _ _ _ _ _ _ Hb Hid He).
  - exact (moves_connect _ _ _ _ _ _ _ _ _ _ _ Hb Hid He).
  - apply evolves_replay in Hr as [He _]. apply moves_task; [by left|done|]. intros t si' [= <-] [= <-]. by eexists.
  - apply evolves_replay in Hr as [[(Hep & Hm & _) Hg] _]. apply moves_hang_up; [by eexists|by left|done|lia|done|by apply grows_weaken].
  - apply moves_task; [by left| |]; [|intros t si' [= <-] [= <-]; by eexists]. by apply evolves_same.
  - pose proof (take_event_facts _ _ _ _ _ Hev) as [_ Hno]. apply evolves_loop in Hl as [He _]; [|exact Hno].
    eapply moves_loop; [done..|]. by intros t si' [= <-] [= <-].
  - pose proof (take_event_facts _ _ _ _ _ Hev) as [_ Hno]. apply evolves_loop in Hl as [He _]; [|exact Hno].
    pose proof (take_event_queue _ _ _ _ _ id Hev) as Hq.
    destruct He as [(Hep & Hm & _) Hg]. apply take_event_facts in Hev as [(ch & -> & Hg1) _].
    apply moves_hang_up; [by eexists|right; eauto|intros ev' _; eauto|cbn in *; lia|done|etrans; [exact Hg1|by apply grows_weaken]].
  - apply moves_broker; [done|done|]. apply evolves_sweep.
  - apply moves_broker; [done|done|]. eapply keeps_serve; [|exact Hs]. by eapply inv_shared.
  - apply keeps_dashboard in Hd as (_ & _ & _ & He). by apply moves_broker.
  - apply (moves_gateway s g (sys_services s)); [done|]. eapply datagram_effect; [|exact Hg]. by eapply gateway_ready.
  - apply (moves_gateway s g (sys_services s)); [done|]. left. cbn in Hg. injection Hg as <-. apply quiet_sweep.
  - by eapply moves_forward.
  - by apply moves_forward_end.
  - by apply moves_broker.
  - by apply moves_broker.
  - apply moves_gateway; [done|]. left. by eapply quiet_stop.
  - by apply moves_broker.
  - by apply moves_broker.
Qed.
End Moves.

Section Sound.
Context {M : Mpsc} {L : MpscLaws M} {R : MpscRx M} {LR : MpscRxLaws M L R} {S : Sled} {JR : Json RetainedMessage}
  {JS : Json SessionSnapshot} {JO : Json OutboundPublish} {F : ForwardEnv} {K : Sink} {A : Axum} {T : Rustls}.
Implicit Types s : System M S F K T.
Context (admin : AdminConfig) (cfg : BrokerConfig).
Hypothesis retries_nonneg : 0 ≤ default 3 (max_retries cfg).

(** The invariant, for some bookkeeping. *)
Definition sound (n : Z) s : Prop := ∃ exact lim owners, world_inv cfg n exact lim owners s.

Lemma sound_step n l s s' : n < 2 ^ 62 → sound n s → sys_step admin l s s' → sound (n + 1) s' ∧ moves l s s'.
Proof.
  intros Hn (x & m & o & Hw) Hstep. split; [|by eapply step_moves].
  destruct (sys_step_inv admin cfg retries_nonneg _ _ _ _ _ _ _ Hn Hw Hstep) as (o' & _ & Hw'). by do 3 eexists.
Qed.

Lemma sound_run n ls s s' :
  n + Z.of_nat (length ls) < 2 ^ 62 → sound n s → sys_run admin ls s s' → sound (n + Z.of_nat (length ls)) s'.
Proof.
  intros Hn (x & m & o & Hw) Hrun.
  destruct (sys_run_inv admin cfg retries_nonneg _ _ _ _ _ _ _ Hrun Hn Hw) as (x' & m' & o' & Hw' & _). by do 3 eexists.
Qed.

Lemma run_capacity n ls s s' :
  sys_run admin ls s s' → n + Z.of_nat (length ls) < 2 ^ 62 → sound n s →
  max_offline_messages (sh_sessions (b_shared (sys_broker s'))) = max_offline_messages (sh_sessions (b_shared (sys_broker s))).
Proof.
  intros Hrun. revert n. induction Hrun as [s|l ls s1 s2 s3 Hstep _ IH]; intros n Hn Hs; [done|]. cbn [length] in Hn.
  destruct (sound_step n l s1 s2 ltac:(lia) Hs Hstep) as [Hs2 Hm]. rewrite (IH (n + 1)) by (done || lia).
  apply (mv_capacity _ _ _ Hm).
Qed.

Lemma sound_start (b0 : Broker M S F) handles :
  starting b0 → b_config b0 = cfg → sound (epoch_counter (sh_sessions (b_shared b0))) (system_new b0 handles).
Proof. intros Hst H. pose proof (world_init b0 handles Hst) as Hw. rewrite H in Hw. by do 3 eexists. Qed.

Lemma sys_run_app ls ls' s1 s2 s3 : sys_run admin ls s1 s2 → sys_run admin ls' s2 s3 → sys_run admin (ls ++ ls') s1 s3.
Proof. induction 1 as [s|l ls s1 s2 s4 Hs _ IH]; intros H; [done|]. econstructor; [exact Hs|by apply IH]. Qed.
End Sound.
