(* ===== verification/SystemSpec.v ===== *)
(** * The post office: an abstract specification of delivery

    What the process promises about the messages on their way to connections,
    without sessions, trees, channels and locks: each connection has a box, to
    which messages are added at the end, and from which only the connection itself
    takes, at the front.  The process refines it: every step, of whatever task, is
    a step of the post office. *)

From stdpp Require Import relations.
From S2P Require Import Prelude Packet Messages OfflineQueue Subscription SubscriptionProofs.
From S2P Require Import SubscriptionTheorems Storage StorageProofs Metrics Retain Session.
From S2P Require Import SessionProofs SessionTheorems Qos QosProofs QosTheorems Router.
From S2P Require Import RouterTheorems Auth IpFilter Limiter Security Plugin PluginTheorems.
From S2P Require Import Lifecycle LifecycleTheorems Config Handlers HandlersProofs.
From S2P Require Import HandlersTheorems Connection ConnectionTheorems Listeners Admin.
From S2P Require Import AdminTheorems TlsLoad Start SnCodec SnGateway SnTheorems System.
From S2P Require Import SystemExec SystemProofs SystemGateway SystemInvariant SystemTheorems.
From S2P Require Import SystemMoves.

(** ** The specification *)

(** The number of the registration a box belongs to, and what waits in it. *)
Abbreviation Boxes := (gmap nat (Z * list OutboundPublish)).

Section Spec.
Context {M : Mpsc}.

Record Post := mkPost { issued : Z; boxes : Boxes }.

(** A connection takes the first message of its box. *)
Definition collect (l : Label) (m m' : Boxes) : Prop :=
  match l with
  | LbLoop id (LOutbound (Some msg)) => ∃ ep q, m !! id = Some (ep, msg :: q) ∧ m' = <[id := (ep, q)]> m
  | _ => m' = m
  end.

(** Messages arrive in boxes, behind those that wait. *)
Definition arrive (m m' : Boxes) : Prop :=
  ∀ id, match m !! id, m' !! id with
        | Some (ep, q), Some (ep', q') => ep' = ep ∧ q `prefix_of` q'
        | None, None => True
        | _, _ => False
        end.

(** A connection gets a box, empty and with a new number, or gives it up. *)
Inductive turn (l : Label) : Post → Post → Prop :=
  | turn_same n n' m : n ≤ n' → turn l (mkPost n m) (mkPost n' m)
  | turn_join id ep n n' m :
      l = LbConn id → m !! id = None → n < ep ≤ n' → turn l (mkPost n m) (mkPost n' (<[id := (ep, [])]> m))
  | turn_leave id n n' m : own_label id l → n ≤ n' → turn l (mkPost n m) (mkPost n' (delete id m)).

Definition post_step (l : Label) (p p' : Post) : Prop :=
  ∃ m1 m2, collect l (boxes p) m1 ∧ arrive m1 m2 ∧ turn l (mkPost (issued p) m2) p'.

Inductive post_run : list Label → Post → Post → Prop :=
  | post_nil p : post_run [] p p
  | post_cons l ls p1 p2 p3 : post_step l p1 p2 → post_run ls p2 p3 → post_run (l :: ls) p1 p3.

(** ** What it guarantees *)

(** Every number was issued. *)
Definition post_ok (p : Post) : Prop := ∀ id ep q, boxes p !! id = Some (ep, q) → ep ≤ issued p.

Lemma collect_other l m m' id :
  collect l m m' → taken id l = [] → m' !! id = m !! id.
Proof.
  destruct l as [i ev| | | |]; cbn; try (by intros ->). destruct ev as [| | | |[msg|]]; try (by intros ->).
  intros (ep & q & E & ->). destruct (decide (i = id)) as [->|Hne]; [done|]. intros _. by apply lookup_insert_ne.
Qed.

Lemma collect_box l m m' id ep q' :
  collect l m m' → m' !! id = Some (ep, q') → m !! id = Some (ep, taken id l ++ q').
Proof.
  intros Hc H. destruct (taken id l) as [|x xs] eqn:Et; [by rewrite (collect_other _ _ _ _ Hc Et) in H|].
  destruct l as [i ev| | | |]; try done. destruct ev as [| | | |[msg|]]; try done. cbn in Et, Hc.
  destruct (decide (i = id)) as [->|]; [|done]. injection Et as <- <-. destruct Hc as (ep0 & q0 & E & ->).
  rewrite lookup_insert_eq in H. by injection H as -> ->.
Qed.

Lemma arrive_box m m' id ep q' :
  arrive m m' → m' !! id = Some (ep, q') → ∃ q more, m !! id = Some (ep, q) ∧ q' = q ++ more.
Proof.
  intros H E. specialize (H id). rewrite E in H. destruct (m !! id) as [[ep0 q0]|]; [|done]. destruct H as [-> [more ->]].
  by exists q0, more.
Qed.

(** A box that is there after a step was there before, unless it is new. *)
Lemma post_step_box l p p' id ep q' :
  post_step l p p' → boxes p' !! id = Some (ep, q') →
  (∃ q more, boxes p !! id = Some (ep, q) ∧ taken id l ++ q' = q ++ more) ∨ issued p < ep ≤ issued p'.
Proof.
  intros (m1 & m2 & Hc & Ha & Ht) E.
  assert (Hold : m2 !! id = Some (ep, q') → ∃ q more, boxes p !! id = Some (ep, q) ∧ taken id l ++ q' = q ++ more).
  { intros E2. destruct (arrive_box _ _ _ _ _ Ha E2) as (q & more & E1 & ->). apply (collect_box _ _ _ _ _ _ Hc) in E1.
    exists (taken id l ++ q), more. split; [done|]. by rewrite app_assoc. }
  inversion Ht; subst; cbn in *; [by left; apply Hold| |].
  - apply lookup_insert_Some in E as [[<- [= <- <-]]|[_ E]]; [by right|left; by apply Hold].
  - apply lookup_delete_Some in E as [_ E]. left. by apply Hold.
Qed.

Lemma post_step_issued l p p' : post_step l p p' → issued p ≤ issued p'.
Proof. intros (m1 & m2 & _ & _ & Ht). inversion Ht; subst; cbn; lia. Qed.

Lemma post_step_ok l p p' : post_ok p → post_step l p p' → post_ok p'.
Proof.
  intros Hp Hs id ep q E. pose proof (post_step_issued _ _ _ Hs).
  destruct (post_step_box _ _ _ _ _ _ Hs E) as [(q0 & more & E0 & _)|]; [apply Hp in E0|]; lia.
Qed.

(** First in, first out, and nothing lost: as long as a connection keeps its box,
    what it has taken and what waits are what waited at first and what came. *)
Lemma post_fifo ls p p' id ep q q' :
  post_run ls p p' → post_ok p → boxes p !! id = Some (ep, q) → boxes p' !! id = Some (ep, q') →
  ∃ more, received id ls ++ q' = q ++ more.
Proof.
  intros Hrun Hok E0 E'. assert (Hep : ep ≤ issued p) by by eapply Hok.
  enough (∃ q0 more, boxes p !! id = Some (ep, q0) ∧ received id ls ++ q' = q0 ++ more) as (q0 & more & E & H).
  { rewrite E0 in E. injection E as <-. by exists more. }
  clear q E0. induction Hrun as [p|l ls p1 p2 p3 Hs _ IH]; [exists q', []; by rewrite app_nil_r|].
  pose proof (post_step_issued _ _ _ Hs).
  destruct IH as (q2 & m2 & E2 & H2); [by eapply post_step_ok|done|lia|].
  destruct (post_step_box _ _ _ _ _ _ Hs E2) as [(q1 & m1 & E1 & H1)|]; [|lia].
  exists q1, (m1 ++ m2). split; [done|]. unfold received in *. rewrite bind_cons, <-app_assoc, H2, app_assoc, H1.
  by rewrite <-app_assoc.
Qed.
End Spec.

(** ** The simulation *)

Section Refines.
Context {M : Mpsc} {L : MpscLaws M} {R : MpscRx M} {LR : MpscRxLaws M L R} {S : Sled} {JR : Json RetainedMessage}
  {JS : Json SessionSnapshot} {JO : Json OutboundPublish} {F : ForwardEnv} {K : Sink} {A : Axum} {T : Rustls}.
Implicit Types s : System M S F K T.

Abbreviation epochs s := (epoch_counter (sh_sessions (b_shared (sys_broker s)))).
Abbreviation chs s := (sh_chans (b_shared (sys_broker s))).

Definition box_of (ch : Chans) (t : Task M K) : option (Z * list OutboundPublish) :=
  si ← session_of t; Some (si_epoch si, queued ch (si_rx si)).

(** The post office that a state of the process implements. *)
Definition post_of s : Post := mkPost (epochs s) (omap (box_of (chs s)) (sys_tasks s)).

Lemma post_box s id ep q :
  boxes (post_of s) !! id = Some (ep, q) ↔
  ∃ si, has_session s id si ∧ si_epoch si = ep ∧ queued (chs s) (si_rx si) = q.
Proof.
  cbn. rewrite lookup_omap. unfold has_session, box_of. split.
  - destruct (sys_tasks s !! id) as [t|]; [|done]. cbn. destruct (session_of t) as [si|] eqn:Es; [|done]. cbn.
    intros [= <- <-]. exists si. split; [by exists t|done].
  - intros (si & (t & -> & Hs) & <- & <-). cbn. by rewrite Hs.
Qed.

Lemma post_none s id : boxes (post_of s) !! id = None ↔ ∀ si, ¬ has_session s id si.
Proof.
  split.
  - intros H si Hs. assert (E : boxes (post_of s) !! id = Some (si_epoch si, queued (chs s) (si_rx si))).
    { apply post_box. by exists si. }
    congruence.
  - intros H. destruct (boxes (post_of s) !! id) as [[ep q]|] eqn:E; [|done]. apply post_box in E as (si & Hs & _).
    by apply H in Hs.
Qed.

Lemma has_session_det s id si si' : has_session s id si → has_session s id si' → si = si'.
Proof. intros (t & Ht & Hs) (t' & Ht' & Hs'). congruence. Qed.

(** Nobody but the connection itself moves its receiver, as long as it lives. *)
Lemma own_receiver cfg n l s s' id si :
  sound cfg n s → has_session s id si → has_session s' id si → receiver l s s' (si_rx si) → ∃ ev, l = LbLoop id ev.
Proof.
  intros (x & m & o & [Hi _]) (t & Ht & Hs) Hid'.
  assert (Hsame : ∀ i si', has_session s i si' → si_rx si' = si_rx si → i = id).
  { intros i si' (t' & Ht' & Hs') E. eapply (sv_distinct _ _ _ _ _ _ _ _ Hi i id); [done..|by right]. }
  intros [(i & ev & si' & -> & Hi' & E)|[(i & si' & Hi' & Hno & E)|(task & Hin & E)]].
  - exists ev. f_equal. by eapply Hsame.
  - assert (i = id) as -> by by eapply Hsame. destruct Hi' as (t' & Ht' & Hs'). congruence.
  - apply (sv_forward _ _ _ _ _ _ _ _ Hi), (sv_gateway _ _ _ _ _ _ _ _ Hi) in Hin as (_ & _ & Hno).
    destruct (Hno _ _ _ Ht Hs). congruence.
Qed.

Lemma own_label_dec id l : own_label id l ∨ ¬ own_label id l.
Proof.
  unfold own_label. destruct l as [i ev|i| | |]; try (right; intros [|[ev' ?]]; done);
    (destruct (decide (i = id)) as [->|Hne]; [left; eauto|right; intros [|[ev' ?]]; congruence]).
Qed.

Lemma taken_own id l : ¬ own_label id l → taken id l = [].
Proof.
  intros H. destruct l as [i ev| | | |]; try done. cbn. destruct ev as [| | | |[m|]]; try done.
  destruct (decide (i = id)) as [->|]; [|done]. destruct H. right. eauto.
Qed.

(** The queue of a connection that lives on. *)
Lemma own_queue cfg n l s s' id si :
  sound cfg n s → moves l s s' → has_session s id si → has_session s' id si →
  ∃ q more, queued (chs s) (si_rx si) = taken id l ++ q ∧ queued (chs s') (si_rx si) = q ++ more.
Proof.
  intros Hw Hm Hid Hid'.
  assert (Hcr : created (chs s) (si_rx si)).
  { destruct Hw as (x & m & o' & [Hi _]), Hid as (t & Ht & Hs). by eapply (sv_tasks _ _ _ _ _ _ _ _ Hi). }
  assert (Hdec : (∃ ev, l = LbLoop id ev) ∨ ∀ ev, l ≠ LbLoop id ev).
  { destruct l as [i ev| | | |]; try (by right). destruct (decide (i = id)) as [->|]; [left; eauto|right; congruence]. }
  destruct Hdec as [[ev ->]|Hno].
  { destruct (mv_taken _ _ _ Hm id ev si eq_refl Hid Hcr) as (q & E & Hq). destruct (Hq Hid') as [more E']. by exists q, more. }
  assert (Ht : taken id l = []).
  { destruct l as [i ev| | | |]; try done. cbn. destruct ev as [| | | |[m|]]; try done.
    destruct (decide (i = id)) as [->|]; [|done]. by destruct (Hno (LOutbound (Some m))). }
  rewrite Ht. destruct (mv_grows _ _ _ Hm) as (o & Hg & Hr). destruct (Hg _ Hcr) as [_ Hmore]. destruct Hmore as [more E].
  - intros ->. destruct (own_receiver _ _ _ _ _ _ _ Hw Hid Hid' (Hr _ eq_refl)) as [ev E]. by destruct (Hno ev).
  - by exists (queued (chs s) (si_rx si)), more.
Qed.

(** The boxes after the taking: each as it will be, if its connection lives on. *)
Definition settled (m1 m' : Boxes) : Boxes :=
  map_imap (λ id b, match m' !! id with Some b' => if decide (b'.1 = b.1) then Some b' else Some b | None => Some b end) m1.

Lemma settled_lookup m1 m' id :
  settled m1 m' !! id = b ← m1 !! id;
    match m' !! id with Some b' => if decide (b'.1 = b.1) then Some b' else Some b | None => Some b end.
Proof. unfold settled. by rewrite map_lookup_imap. Qed.

(** What is collected in a step. *)
Lemma step_collect cfg n l s s' :
  sound cfg n s → moves l s s' →
  ∃ m1, collect l (boxes (post_of s)) m1 ∧
    (∀ id si, has_session s id si → ∃ q, queued (chs s) (si_rx si) = taken id l ++ q ∧ m1 !! id = Some (si_epoch si, q)) ∧
    ∀ id, (∀ si, ¬ has_session s id si) → m1 !! id = None.
Proof.
  intros Hw Hm.
  assert (Hbox : ∀ id si, has_session s id si → boxes (post_of s) !! id = Some (si_epoch si, queued (chs s) (si_rx si))).
  { intros id si Hid. apply post_box. by exists si. }
  assert (Hsame : (∀ id, taken id l = []) → ∀ id si, has_session s id si →
            ∃ q, queued (chs s) (si_rx si) = taken id l ++ q ∧ boxes (post_of s) !! id = Some (si_epoch si, q)).
  { intros Ht id si Hid. rewrite Ht. eauto. }
  assert (Hnone : ∀ id, (∀ si, ¬ has_session s id si) → boxes (post_of s) !! id = None) by (intros id; by apply post_none).
  destruct l as [i ev| | | |]; try (eexists; split; [reflexivity|split; [by apply Hsame|exact Hnone]]).
  destruct ev as [| | | |[msg|]]; try (eexists; split; [reflexivity|split; [by apply Hsame|exact Hnone]]).
  destruct (mv_loop _ _ _ Hm i _ eq_refl) as [si Hi].
  assert (Hcr : created (chs s) (si_rx si)).
  { destruct Hw as (x & m & o' & [Hinv _]), Hi as (t & Ht & Hs). by eapply (sv_tasks _ _ _ _ _ _ _ _ Hinv). }
  destruct (mv_taken _ _ _ Hm i _ si eq_refl Hi Hcr) as (q & E & _). cbn in E. rewrite decide_True in E by done.
  eexists. split; [exists (si_epoch si), q; split; [rewrite (Hbox _ _ Hi); by rewrite E|reflexivity]|]. split.
  - intros id si' Hid. cbn. destruct (decide (i = id)) as [->|Hne].
    + rewrite (has_session_det _ _ _ _ Hid Hi). exists q. split; [done|]. apply lookup_insert_eq.
    + rewrite lookup_insert_ne by done. eauto.
  - intros id Hno. rewrite lookup_insert_ne; [by apply Hnone|]. intros ->. by apply Hno in Hi.
Qed.

(** The rest of the step, given the boxes after the taking. *)
Section Step.
Context (cfg : BrokerConfig) (n : Z) (l : Label) (s s' : System M S F K T) (m1 : Boxes).
Hypothesis Hw : sound cfg n s.
Hypothesis Hm : moves l s s'.
Hypothesis Hin : ∀ id si, has_session s id si →
  ∃ q, queued (chs s) (si_rx si) = taken id l ++ q ∧ m1 !! id = Some (si_epoch si, q).
Hypothesis Hout : ∀ id, (∀ si, ¬ has_session s id si) → m1 !! id = None.

Abbreviation m' := (boxes (post_of s')).
Abbreviation m2 := (settled m1 (boxes (post_of s'))).

Lemma settled_same id : (∀ si, has_session s id si ↔ has_session s' id si) → m' !! id = m2 !! id.
Proof.
  intros Heq. rewrite settled_lookup. destruct (m' !! id) as [[ep q']|] eqn:E'.
  - apply post_box in E' as (si & Hs' & <- & <-). destruct (Hin id si) as (q & _ & ->); [by apply Heq|]. cbn.
    by rewrite decide_True.
  - rewrite Hout; [done|]. intros si Hs%Heq. exact (proj1 (post_none s' id) E' si Hs).
Qed.

Lemma settled_other id : ¬ own_label id l → m' !! id = m2 !! id.
Proof.
  intros Hno. apply settled_same. intros si. split; intros H.
  - by destruct (mv_keeps _ _ _ Hm id si H).
  - destruct (mv_sessions _ _ _ Hm id si H) as [|(E & _)]; [done|]. destruct Hno. by left.
Qed.

Lemma step_arrive : arrive m1 m2.
Proof.
  intros id. rewrite settled_lookup. destruct (m1 !! id) as [[ep q1]|] eqn:E1; cbn [mbind option_bind]; [|done].
  destruct (m' !! id) as [[ep' q']|] eqn:E'; [|by split]. cbn [fst].
  destruct (decide (ep' = ep)) as [->|]; [|by split]. split; [done|].
  apply post_box in E' as (si & Hs' & <- & <-). destruct (boxes (post_of s) !! id) as [[ep0 q0]|] eqn:E0.
  2:{ pose proof (Hout id (proj1 (post_none s id) E0)). congruence. }
  apply post_box in E0 as (si0 & Hs0 & _ & _). destruct (Hin id si0 Hs0) as (q & Eq & E). rewrite E1 in E. injection E as Hep ->.
  assert (si = si0) as ->.
  { destruct (mv_sessions _ _ _ Hm id si Hs') as [Hs|(_ & _ & _ & Hno)]; [by eapply has_session_det|by apply Hno in Hs0]. }
  destruct (own_queue _ _ _ _ _ _ _ Hw Hm Hs0 Hs') as (q2 & more & E2 & ->). rewrite Eq in E2.
  apply app_inv_head in E2 as ->. by apply prefix_app_r.
Qed.

(** The boxes of all but one connection are the settled ones. *)
Lemma settled_but_one i : own_label i l → ∀ id, id ≠ i → m' !! id = m2 !! id.
Proof.
  intros Hi id Hne. apply settled_other. intros Ho. destruct Hi as [E1|[ev E1]], Ho as [E2|[ev' E2]]; congruence.
Qed.

Lemma step_turn : turn l (mkPost (epochs s) m2) (post_of s').
Proof.
  change (post_of s') with (mkPost (epochs s') m'). pose proof (mv_epochs _ _ _ Hm) as Hep.
  assert (Hdec : (∃ i, own_label i l) ∨ ∀ i, ¬ own_label i l).
  { destruct l as [i ev|i| | |]; [left; exists i; right; eauto|left; exists i; by left|right; by intros i [|[]]..]. }
  destruct Hdec as [[i Hi]|Hno].
  2:{ assert (E : m' = m2) by (apply map_eq; intros id; by apply settled_other). rewrite E at 2. by constructor. }
  pose proof (settled_but_one i Hi) as Hone. destruct (m' !! i) as [[ep q']|] eqn:Ei.
  2:{ assert (E : m' = delete i m2); [|rewrite E at 2; by apply turn_leave]. apply map_eq. intros id.
      destruct (decide (id = i)) as [->|Hne]; [by rewrite lookup_delete_eq|rewrite lookup_delete_ne by done; auto]. }
  apply post_box in Ei as (si & Hs' & <- & <-). destruct (mv_sessions _ _ _ Hm i si Hs') as [Hs|(El & He & Hq & Hno)].
  - assert (E : m' = m2); [|rewrite E at 2; by constructor]. apply map_eq. intros id. destruct (decide (id = i)) as [->|Hne]; [|auto].
    apply settled_same. intros si'. split; intros H; [by rewrite (has_session_det _ _ _ _ H Hs)|by rewrite (has_session_det _ _ _ _ H Hs')].
  - assert (Hm2 : m2 !! i = None) by by rewrite settled_lookup, Hout.
    assert (E : m' = <[i := (si_epoch si, [])]> m2); [|rewrite E at 2; by apply turn_join]. apply map_eq. intros id.
    destruct (decide (id = i)) as [->|Hne]; [|rewrite lookup_insert_ne by done; auto].
    rewrite lookup_insert_eq. apply post_box. by exists si.
Qed.
End Step.

Lemma step_simulated cfg n l s s' : sound cfg n s → moves l s s' → post_step l (post_of s) (post_of s').
Proof.
  intros Hw Hm. destruct (step_collect _ _ _ _ _ Hw Hm) as (m1 & Hc & Hin & Hout).
  exists m1, (settled m1 (boxes (post_of s'))). split; [done|]. split; [by eapply step_arrive|by eapply step_turn].
Qed.

Lemma run_simulated admin cfg n ls s s' :
  0 ≤ default 3 (max_retries cfg) → sys_run admin ls s s' → n + Z.of_nat (length ls) < 2 ^ 62 → sound cfg n s →
  post_run ls (post_of s) (post_of s').
Proof.
  intros Hret Hrun. revert n. induction Hrun as [s|l ls s1 s2 s3 Hstep _ IH]; intros n Hn Hs; [constructor|].
  cbn [length] in Hn. destruct (sound_step admin cfg Hret n l s1 s2 ltac:(lia) Hs Hstep) as [Hs2 Hm].
  econstructor; [by eapply step_simulated|]. by apply (IH (n + 1)); [lia|].
Qed.

Lemma sound_post cfg n s : sound cfg n s → post_ok (post_of s).
Proof.
  intros (x & m & o & [Hi _]) id ep q (si & (t & Ht & Hs) & <- & _)%post_box.
  by destruct (sv_tasks _ _ _ _ _ _ _ _ Hi _ _ _ Ht Hs).
Qed.

(** C4: The process refines the post office.  Whatever the tasks do and however they
    interleave, the boxes that stand for the channels of the connections change as
    the specification says: a step of the process, with the same label, is one of
    the post office, from the empty one at the start and from every state on the
    way; and so, between any two states in which a connection holds the same
    registration, what it has taken and what waits for it are what waited for it
    and what came later, in this order. *)
Theorem system_refines admin (b0 : Broker M S F) handles ls s ls2 s2 :
  let n0 := epoch_counter (sh_sessions (b_shared b0)) in
  starting b0 → n0 + Z.of_nat (length ls + length ls2) < 2 ^ 62 →
  sys_run admin ls (system_new b0 handles) s → sys_run admin ls2 s s2 →
  post_run ls (mkPost n0 ∅) (post_of s) ∧ post_run ls2 (post_of s) (post_of s2) ∧
  ∀ id ep q q2, boxes (post_of s) !! id = Some (ep, q) → boxes (post_of s2) !! id = Some (ep, q2) →
    ∃ more, received id ls2 ++ q2 = q ++ more.
Proof.
  intros n0 Hst Hn Hrun Hrun2. pose proof (st_retries _ Hst) as Hret.
  assert (H0 : sound (b_config b0) n0 (system_new b0 handles : System M S F K T)) by by apply sound_start.
  pose proof (sound_run admin _ Hret n0 ls _ _ ltac:(lia) H0 Hrun) as Hs.
  pose proof (run_simulated admin _ n0 ls _ _ Hret Hrun ltac:(lia) H0) as R1.
  pose proof (run_simulated admin _ (n0 + Z.of_nat (length ls)) ls2 _ _ Hret Hrun2 ltac:(lia) Hs) as R2.
  split; [exact R1|]. split; [done|]. intros id ep q q2 E E2. by eapply post_fifo; [|eapply sound_post|..].
Qed.
End Refines.

(** ** A concrete run *)

Import ListChan MapDb ListForward Demo HandlerDemo AdminDemo TlsDemo SystemDemo.

Module PostDemo.
Definition publication : Packet := PPublish (mkPublish false QoS.AtMostOnce false "a/b" None [7]).
Definition copy : OutboundPublish := mkOutboundPublish "a/b" [7] QoS.AtMostOnce false.

(** "c1" has subscribed; then "c2" publishes twice, and "c1" takes one message. *)
Definition ready := from_option snd two_clients
  (run [ALoop 0 (LPacket (Some (Ok (PSubscribe (mkSubscribe 1 [mkSubscribeTopic "a/b" QoS.AtLeastOnce]))))) 3] two_clients).
Definition acts : list (Action (K := list_sink)) :=
  [ALoop 1 (LPacket (Some (Ok publication))) 4; ALoop 1 (LPacket (Some (Ok publication))) 5;
   ALoop 0 (LOutbound (Some copy)) 6].
Definition later := from_option snd ready (run acts ready).
End PostDemo.
Import PostDemo.

Lemma system_refines_witness :
  ∃ ls s ls2 s2 n n2 (m m2 : Boxes) ep ep2,
    sys_run AdminConfig_default ls started s ∧ sys_run AdminConfig_default ls2 s s2 ∧
    post_run ls2 (mkPost n m) (mkPost n2 m2) ∧
    m !! 0%nat = Some (ep, []) ∧ m2 !! 0%nat = Some (ep, [copy]) ∧ m2 !! 1%nat = Some (ep2, []) ∧
    received 0 ls2 = [copy] ∧ ∃ more, received 0 ls2 ++ [copy] = [] ++ more.
Proof.
  assert (H0 : sys_run AdminConfig_default _ started two_clients) by (eapply runs; vm_compute; reflexivity).
  assert (H1 : sys_run AdminConfig_default _ two_clients ready) by (eapply runs; vm_compute; reflexivity).
  assert (H2 : sys_run AdminConfig_default _ ready later) by (eapply runs; vm_compute; reflexivity).
  pose proof (sys_run_app _ _ _ _ _ _ H0 H1) as H.
  match type of H with sys_run _ ?ls _ _ => match type of H2 with sys_run _ ?ls2 _ _ =>
    destruct (system_refines AdminConfig_default fresh handles ls ready ls2 later fresh_starting
                ltac:(vm_compute; reflexivity) H H2) as (_ & R & Hfifo) end end.
  assert (E : boxes (post_of ready) !! 0%nat = Some (1, [])) by (vm_compute; reflexivity).
  assert (E2 : boxes (post_of later) !! 0%nat = Some (1, [copy])) by (vm_compute; reflexivity).
  eexists _, ready, _, later, _, _, _, _, 1, 2. split; [exact H|]. split; [exact H2|]. split; [exact R|].
  split; [exact E|]. split; [exact E2|]. split; [vm_compute; reflexivity|]. split; [vm_compute; reflexivity|].
  exact (Hfifo _ _ _ _ E E2).
Defined.
