(* ===== verification/SystemDelivery.v ===== *)
(** * From one client's socket to another's

    In the process as a whole: what the router queues for a connection is taken by
    that connection alone, in order, and written to its socket, whatever everybody
    else does in the meantime. *)

From stdpp Require Import relations.
From S2P Require Import Prelude Packet Messages OfflineQueue Subscription SubscriptionProofs.
From S2P Require Import SubscriptionTheorems Storage StorageProofs Metrics Retain Session.
From S2P Require Import SessionProofs SessionTheorems Qos QosProofs QosTheorems Router.
From S2P Require Import RouterTheorems Auth IpFilter Limiter Security Plugin PluginTheorems.
From S2P Require Import Lifecycle LifecycleTheorems Config Handlers HandlersProofs.
From S2P Require Import HandlersTheorems Connection ConnectionTheorems Listeners Admin.
From S2P Require Import AdminTheorems TlsLoad Start SnCodec SnGateway SnTheorems System.
From S2P Require Import SystemExec SystemProofs SystemGateway SystemInvariant SystemTheorems.
From S2P Require Import SystemMoves SystemSpec.

Section Queue.
Context {M : Mpsc} {L : MpscLaws M} {R : MpscRx M} {LR : MpscRxLaws M L R} {S : Sled} {JR : Json RetainedMessage}
  {JS : Json SessionSnapshot} {JO : Json OutboundPublish} {F : ForwardEnv} {K : Sink} {A : Axum} {T : Rustls}.
Implicit Types s : System M S F K T.
Context (admin : AdminConfig) (cfg : BrokerConfig).
Hypothesis retries_nonneg : 0 ≤ default 3 (max_retries cfg).

Abbreviation epochs s := (epoch_counter (sh_sessions (b_shared (sys_broker s)))).
Abbreviation chs s := (sh_chans (b_shared (sys_broker s))).

Abbreviation sound := (SystemMoves.sound cfg).

(** First in, first out, and nothing lost, as long as the connection lives: what the
    post office guarantees. *)
Lemma own_queue_run n ls s s' id si :
  sys_run admin ls s s' → n + Z.of_nat (length ls) < 2 ^ 62 → sound n s →
  has_session s id si → has_session s' id si →
  ∃ more, received id ls ++ queued (chs s') (si_rx si) = queued (chs s) (si_rx si) ++ more.
Proof.
  intros Hrun Hn Hw Hs Hs'.
  eapply post_fifo; [by eapply run_simulated|by eapply sound_post|apply post_box; by exists si..].
Qed.

(** ** Steps of a main loop *)

Lemma loop_label id ev s s' :
  sys_step admin (LbLoop id ev) s s' →
  ∃ peer si ctx c now b p, sys_tasks s !! id = Some (TLoop peer si ctx c) ∧
    take_event (sys_down s) (sys_broker s) si ev = Some b ∧
    loop_step si (loop_max_subs b) (loop_timeout b) (loop_retries b) (mkLoopState b c ctx) ev now = Some p ∧
    s' = match p with
         | Open l => advance (l_broker l) id (Some (TLoop peer si (l_ctx l) (l_conn l))) s
         | Closed b' _ => hang_up b' peer si id s
         end.
Proof.
  intros H. remember (LbLoop id ev) as l eqn:El. destruct H; try discriminate El;
    try (unfold admin_label in El; by destruct (_ && _)); injection El as -> ->.
  - do 5 eexists. eexists b, (Open l). done.
  - do 5 eexists. eexists b, (Closed b' k'). done.
Qed.

Lemma take_enabled n s id peer si ctx c m q :
  n < 2 ^ 62 → sound n s → sys_down s = false → sys_tasks s !! id = Some (TLoop peer si ctx c) →
  queued (chs s) (si_rx si) = m :: q → ∃ s', sys_step admin (LbLoop id (LOutbound (Some m))) s s'.
Proof.
  intros Hn (x & mm & o & Hw) Hd Ht Hq. pose proof (recv_queued (chs s) (si_rx si)) as Hr.
  destruct (recv (chs s) (si_rx si)) as [[m' ch]|] eqn:Er; [|congruence]. rewrite Hq in Hr. injection Hr as <- _.
  assert (Htake : take_event (sys_down s) (sys_broker s) si (LOutbound (Some m)) = Some (set_chans ch (sys_broker s))).
  { unfold take_event. rewrite Hd, Er. cbn. by rewrite decide_True. }
  destruct (steps_total admin cfg retries_nonneg _ _ _ _ _ Hn Hw) as (_ & Hl & _).
  destruct (Hl id peer si ctx c _ _ 0 Ht Htake) as [[l|b' k'] E]; eexists; [by eapply step_loop|by eapply step_loop_end].
Qed.
End Queue.

(** ** What is written *)

Section Write.
Context {M : Mpsc} {S : Sled} {JR : Json RetainedMessage} {JS : Json SessionSnapshot} {JO : Json OutboundPublish}
  {F : ForwardEnv} {K : Sink} {LK : SinkLaws K}.
Implicit Types (b : Broker M S F) (c : Conn K).

(** The PUBLISH packet that carries a message: under an identifier unless it is
    of QoS 0. *)
Definition carries (msg : OutboundPublish) (pkt : Packet) : Prop :=
  ∃ id, pkt = build_publish msg id ∧ (id = None ↔ ob_qos msg = QoS.AtMostOnce).

Definition pid_of (pkt : Packet) : option Z :=
  match pkt with PPublish p => p_packet_id p | _ => None end.

(** The writer of the socket takes everything. *)
Definition accepting : Prop := ∀ (k : SinkState) pkt, ∃ k', sink_send k pkt = (Ok tt, k').

(** ** One message *)

Lemma outbound_step si max_subs timeout retries b c ctx msg now :
  accepting → out_inv (max_inflight (b_config b)) (default 3 (max_retries (b_config b))) (next_pid c, outbound_inflight c) →
  0 ≤ default 3 (max_retries (b_config b)) →
  (size (outbound_inflight c) < max_inflight (b_config b))%nat → Z.of_nat (max_inflight (b_config b)) ≤ 65535 →
  ∃ c' pkt, loop_step si max_subs timeout retries (mkLoopState b c ctx) (LOutbound (Some msg)) now
              = Some (Open (mkLoopState b c' ctx)) ∧
    written (sink c') = written (sink c) ++ [pkt] ∧ carries msg pkt ∧
    out_inv (max_inflight (b_config b)) (default 3 (max_retries (b_config b))) (next_pid c', outbound_inflight c') ∧
    (size (outbound_inflight c') ≤ Datatypes.S (size (outbound_inflight c)))%nat ∧
    match pid_of pkt with
    | Some id => outbound_inflight c !! id = None ∧
                 outbound_inflight c' = <[id := inflight_new (ob_topic msg) (ob_payload msg) (ob_qos msg) (ob_retain msg) now]>
                                          (outbound_inflight c)
    | None => outbound_inflight c' = outbound_inflight c
    end.
Proof.
  intros Hacc Hinv Hr Hlt Hmax. cbn [loop_step l_broker l_conn l_ctx]. unfold build_for.
  destruct (build_outbound_packet (max_inflight (b_config b)) msg (next_pid c) (outbound_inflight c) now)
    as [[pkt np] t] eqn:E.
  pose proof (out_step_inv _ (from_secs 10) _ _ _ _ Hr Hinv (step_send _ _ _ _ _ _ _ _ _ _ E)) as Hinv'.
  pose proof (build_outbound_cases _ _ _ _ _ _ _ _ (proj1 Hinv) E) as [_ Hcases]. cbn [fst] in Hcases.
  assert (Hpkt : ∃ pk, pkt = Some pk ∧ carries msg pk ∧
            match pid_of pk with
            | Some id => outbound_inflight c !! id = None ∧
                         t = <[id := inflight_new (ob_topic msg) (ob_payload msg) (ob_qos msg) (ob_retain msg) now]>
                               (outbound_inflight c)
            | None => t = outbound_inflight c
            end).
  { destruct Hcases as [(Hq & -> & ->)|[(_ & _ & _ & [Hfull|Hfull])|(Hq & _ & pid & _ & Hfree & -> & ->)]]; [| |lia|].
    - eexists. split; [done|]. split; [by exists None|done].
    - lia.
    - eexists. split; [done|]. split; [by exists (Some pid)|done]. }
  destruct Hpkt as (pk & -> & Hcar & Ht).
  destruct (Hacc (sink (c <| next_pid := np |> <| outbound_inflight := t |>)) pk) as [k' Hk]. rewrite Hk.
  eexists _, pk. split; [done|]. split; [exact (send_ok _ _ _ Hk)|]. split; [done|]. split; [exact Hinv'|].
  split; [|exact Ht]. cbn. destruct (pid_of pk) as [id|]; [destruct Ht as [Hf ->]|by rewrite Ht; lia].
  rewrite map_size_insert_None by done. lia.
Qed.

End Write.

Section Delivery.
Context {M : Mpsc} {L : MpscLaws M} {R : MpscRx M} {LR : MpscRxLaws M L R} {S : Sled} {JR : Json RetainedMessage}
  {JS : Json SessionSnapshot} {JO : Json OutboundPublish} {F : ForwardEnv} {K : Sink} {LK : SinkLaws K}
  {A : Axum} {T : Rustls}.
Implicit Types (s : System M S F K T) (b : Broker M S F) (c : Conn K).

Abbreviation chs s := (sh_chans (b_shared (sys_broker s))).
Abbreviation table s := (sessions (sh_sessions (b_shared (sys_broker s)))).

Section Steps.
Context (admin : AdminConfig) (cfg : BrokerConfig).
Hypothesis retries_nonneg : 0 ≤ default 3 (max_retries cfg).

Lemma advance_other s b i o id : i ≠ id → sys_tasks (advance b i o s) !! id = sys_tasks s !! id.
Proof. intros Hne. cbn. by rewrite set_task_lookup, decide_False. Qed.

Lemma advance_down s b i o : sys_down (advance b i o s) = sys_down s.
Proof. done. Qed.

(** A message that is taken with room in the window is written. *)
Lemma take_writes n s s' id peer si ctx c m :
  sound cfg n s → sys_tasks s !! id = Some (TLoop peer si ctx c) →
  sys_step admin (LbLoop id (LOutbound (Some m))) s s' →
  accepting (K := K) → (size (outbound_inflight c) < max_inflight cfg)%nat → Z.of_nat (max_inflight cfg) ≤ 65535 →
  ∃ c' pkt, sys_tasks s' !! id = Some (TLoop peer si ctx c') ∧ written (sink c') = written (sink c) ++ [pkt] ∧
    carries m pkt ∧ ∀ pid, pid_of pkt = Some pid → outbound_inflight c !! pid = None.
Proof.
  intros (x & lim & o & [Hi _]) Ht Hstep Hacc Hroom Hmax.
  apply loop_label in Hstep as (peer' & si' & ctx' & c' & now & b & p & Ht' & Htake & Hl & ->).
  rewrite Ht in Ht'. injection Ht' as <- <- <- <-.
  assert (Hb : b_config b = cfg).
  { apply take_event_facts in Htake as [(ch & -> & _) _]. exact (bi_config _ _ _ _ (sv_broker _ _ _ _ _ _ _ _ Hi)). }
  destruct (outbound_step si (loop_max_subs b) (loop_timeout b) (loop_retries b) b c ctx m now Hacc) as
    (c' & pkt & E & Hw & Hcar & _ & _ & Hpid); rewrite ?Hb; try done.
  { exact (sv_conns _ _ _ _ _ _ _ _ Hi id _ c Ht eq_refl). }
  rewrite E in Hl. injection Hl as <-. exists c', pkt. split; [cbn; apply lookup_insert_eq|].
  split; [done|]. split; [done|]. intros pid Ep. rewrite Ep in Hpid. by destruct Hpid.
Qed.

(** A PUBLISH that is handled. *)
Lemma publish_loop si max_subs timeout retries b c ctx p now (l : LoopState M S F K) :
  loop_step si max_subs timeout retries (mkLoopState b c ctx) (LPacket (Some (Ok (PPublish p)))) now = Some (Open l) →
  handle_publish p (si_client_id si) now (b, c) = Some (Ok tt, (l_broker l, l_conn l)).
Proof.
  cbn [loop_step l_broker l_conn l_ctx]. unfold handle_packet, mbind, hm_bind.
  destruct (handle_publish p _ now (b, c)) as [[[[]|e] [b1 c1]]|]; [|intros H|done].
  - by intros [= <-].
  - revert H. unfold close_abnormal. by destruct (run_abnormal b1 si now).
Qed.

(** The session of a connection is reached through its channel. *)
Lemma served_channel n s id peer si ctx c e :
  sound cfg n s → sys_tasks s !! id = Some (TLoop peer si ctx c) →
  table s !! si_client_id si = Some e → connected e = true → epoch e = si_epoch si →
  tx e = si_rx si ∧ own_channel (sh_sessions (b_shared (sys_broker s))) (si_client_id si) e.
Proof.
  intros (x & lim & o & Hw) Ht He Hon Hep. pose proof Hw as [Hi _].
  destruct (sv_owned _ _ _ _ _ _ _ _ Hi (si_client_id si) (epoch e) (tx e)) as [(id' & Hs)|Ho]; [by exists e| |].
  - pose proof Hs as (t & si' & Ht' & Hs' & _ & Hep' & Hrx).
    assert (id' = id) as -> by (eapply (sv_distinct _ _ _ _ _ _ _ _ Hi id' id _ _ si' si); [done..|left; congruence]).
    rewrite Ht in Ht'. injection Ht' as <-. injection Hs' as <-. split; [done|]. by eapply world_own_channel.
  - destruct (sv_gateway _ _ _ _ _ _ _ _ Hi _ _ Ho) as (_ & _ & Hno). destruct (Hno id _ _ Ht eq_refl). congruence.
Qed.

Lemma publish_queued s p a ca now b' ca' (d : string) e :
  own_channel (sh_sessions (b_shared (sys_broker s))) d e → connected e = true → a ≠ d →
  handle_publish p a now (sys_broker s, ca) = Some (Ok tt, (b', ca')) →
  rejected (sys_broker s) p a now || duplicate ca p = false →
  let cs := copies d (p_topic p) (p_payload p) (p_qos p) (targets_of (b_shared (sys_broker s)) (p_topic p)) in
  (length cs ≤ room (chs s) (tx e))%nat → queued (sh_chans (b_shared b')) (tx e) = queued (chs s) (tx e) ++ cs.
Proof.
  intros Hown Hcon Hne Hh Hrej cs Hroom. destruct (handle_publish_outcome _ _ _ _ _ _ _ Hh) as (_ & _ & _ & Hpub).
  destruct (Hpub Hrej) as (w0 & w1 & (E1 & E2 & _ & _ & E5) & Ep & (_ & _ & _ & _ & E5')).
  destruct (publish_as_loop w0 (p_topic p) (p_payload p) (p_qos p) (p_retain p) (Some a) now) as (w2 & Hs2 & Hc2 & El).
  rewrite El in Ep. rewrite <-E2, <-Hs2 in Hown. unfold targets_of in Ep. rewrite E1 in Ep.
  fold (targets_of (b_shared (sys_broker s)) (p_topic p)) in Ep. rewrite E5 in Hc2. rewrite <-Hc2 in Hroom.
  assert (Hx : Some a ≠ Some d) by congruence.
  destruct (deliver_each_online _ _ _ _ _ _ _ _ _ _ Hown Hcon Hx Hroom Ep) as [_ Hq].
  by rewrite E5', Hq, Hc2.
Qed.
End Steps.

(** C3: End-to-end delivery in the running process.  When a connection's PUBLISH is
    handled, neither rejected by a guard nor the repetition of an open QoS 2
    handshake, the publisher has its acknowledgement; and for every other client
    that is connected, with room in its channel, exactly one message per
    subscription of its that matches the topic (its own, and each shared group that
    picked it), with the smaller of the two QoS, is queued behind what waits for
    its connection.  From then on, however listeners, connections, the gateway,
    the sweeper and the admin API interleave, and as long as that connection
    lives: what it has taken and what waits for it are together what waited, the
    messages of this PUBLISH and what came later, in this order, with nothing lost
    or taken by others; while a message waits and the process is not going down it
    can be taken next; and a message that is taken with room in the window of
    unacknowledged messages by a connection whose socket takes what is written is
    written at once, as a PUBLISH that carries it, under an identifier that no
    message in flight has. *)
Theorem system_delivery admin (b0 : Broker M S F) handles ls s a pa sa ctxa ca p now l id peer si ctx c e :
  starting b0 → epoch_counter (sh_sessions (b_shared b0)) + Z.of_nat (length ls) + 1 < 2 ^ 62 →
  sys_run admin ls (system_new b0 handles) s → sys_down s = false →
  let b := sys_broker s in
  sys_tasks s !! a = Some (TLoop pa sa ctxa ca) →
  loop_step sa (loop_max_subs b) (loop_timeout b) (loop_retries b) (mkLoopState b ca ctxa)
    (LPacket (Some (Ok (PPublish p)))) now = Some (Open l) →
  rejected b p (si_client_id sa) now || duplicate ca p = false →
  sys_tasks s !! id = Some (TLoop peer si ctx c) → si_client_id si ≠ si_client_id sa →
  table s !! si_client_id si = Some e → connected e = true → epoch e = si_epoch si →
  let cs := copies (si_client_id si) (p_topic p) (p_payload p) (p_qos p) (targets_of (b_shared b) (p_topic p)) in
  (length cs ≤ room (chs s) (si_rx si))%nat →
  let s1 := advance (l_broker l) a (Some (TLoop pa sa (l_ctx l) (l_conn l))) s in
  sys_step admin (LbLoop a (LPacket (Some (Ok (PPublish p))))) s s1 ∧
  written (sink (l_conn l)) = written (sink ca) ++ ack_of p ∧
  queued (chs s1) (si_rx si) = queued (chs s) (si_rx si) ++ cs ∧
  ∀ ls2 s2 peer2 ctx2 c2, sys_run admin ls2 s1 s2 →
    epoch_counter (sh_sessions (b_shared b0)) + Z.of_nat (length ls) + 1 + Z.of_nat (length ls2) < 2 ^ 62 →
    sys_tasks s2 !! id = Some (TLoop peer2 si ctx2 c2) →
    (∃ more, received id ls2 ++ queued (chs s2) (si_rx si) = queued (chs s) (si_rx si) ++ cs ++ more) ∧
    (sys_down s2 = false → ∀ m q, queued (chs s2) (si_rx si) = m :: q →
       ∃ s3, sys_step admin (LbLoop id (LOutbound (Some m))) s2 s3) ∧
    (∀ m s3, sys_step admin (LbLoop id (LOutbound (Some m))) s2 s3 → accepting (K := K) →
       (size (outbound_inflight c2) < max_inflight (b_config b0))%nat → Z.of_nat (max_inflight (b_config b0)) ≤ 65535 →
       ∃ c3 pkt, sys_tasks s3 !! id = Some (TLoop peer2 si ctx2 c3) ∧
         written (sink c3) = written (sink c2) ++ [pkt] ∧ carries m pkt ∧
         ∀ pid, pid_of pkt = Some pid → outbound_inflight c2 !! pid = None).
Proof.
  intros Hst Hn Hrun Hdown b Ha Hl Hrej Hid Hne He Hon Hep cs Hroom s1.
  pose proof (st_retries _ Hst) as Hret. set (cfg := b_config b0) in *. set (n0 := epoch_counter _) in *.
  assert (H0 : sound cfg n0 (system_new b0 handles : System M S F K T)) by by apply sound_start.
  pose proof (sound_run admin cfg Hret n0 ls _ _ ltac:(lia) H0 Hrun) as Hs.
  destruct (served_channel cfg _ _ _ _ _ _ _ _ Hs Hid He Hon Hep) as [Htx Hown].
  pose proof (publish_loop _ _ _ _ _ _ _ _ _ _ Hl) as Hh.
  destruct (handle_publish_outcome _ _ _ _ _ _ _ Hh) as (Hack & _).
  assert (Hstep : sys_step admin (LbLoop a (LPacket (Some (Ok (PPublish p))))) s s1).
  { eapply step_loop; [exact Ha| |exact Hl]. unfold take_event. by rewrite Hdown. }
  assert (Hq : queued (chs s1) (si_rx si) = queued (chs s) (si_rx si) ++ cs).
  { rewrite <-Htx in Hroom |- *. by eapply publish_queued. }
  split; [done|]. split; [exact Hack|]. split; [exact Hq|]. intros ls2 s2 peer2 ctx2 c2 Hrun2 Hn2 Hid2.
  set (n1 := n0 + Z.of_nat (length ls)) in *. destruct (sound_step admin cfg Hret n1 _ _ _ ltac:(lia) Hs Hstep) as [Hs1 _].
  pose proof (sound_run admin cfg Hret (n1 + 1) ls2 _ _ ltac:(lia) Hs1 Hrun2) as Hs2.
  assert (Hses : has_session s1 id si).
  { exists (TLoop peer si ctx c). split; [|done]. unfold s1. rewrite advance_other; [done|]. intros ->. congruence. }
  split; [|split].
  - destruct (own_queue_run admin cfg Hret (n1 + 1) ls2 _ _ _ _ Hrun2 ltac:(lia) Hs1 Hses) as [more E]; [by eexists|].
    exists more. by rewrite E, Hq, <-app_assoc.
  - intros Hd m q Hm. eapply (take_enabled admin cfg Hret); [|exact Hs2|done..]. lia.
  - intros m s3 H3. by eapply take_writes.
Qed.
End Delivery.

(** ** A concrete run *)

Import ListChan MapDb ListForward Demo HandlerDemo AdminDemo TlsDemo SystemDemo.

Module DeliveryDemo.
Definition subscribe_ab : Packet := PSubscribe (mkSubscribe 1 [mkSubscribeTopic "a/b" QoS.AtLeastOnce]).
Definition message : Publish := mkPublish false QoS.ExactlyOnce false "a/b" (Some 5) [7].

(** "c1" and "c2" are connected, "c1" has subscribed. *)
Definition acts : list (Action (K := list_sink)) :=
  join 0 "c1" ++ join 1 "c2" ++ [ALoop 0 (LPacket (Some (Ok subscribe_ab))) 3].
Definition subscribed := from_option snd started (run acts started).

(** The parts of a connection in its main loop. *)
Definition parts (t : Task list_mpsc list_sink) :=
  match t with
  | TLoop peer si ctx c => Some (peer, si, ctx, c)
  | _ => None
  end.
Definition task_parts (id : nat) := default (peer, Connection.mkSessionInfo (M := list_mpsc) "" 0 true 0%nat,
  mkConnContext "" peer 0 None 0 0 false 4 None, client) (sys_tasks subscribed !! id ≫= parts).
Definition p_peer id := (task_parts id).1.1.1.
Definition p_si id := (task_parts id).1.1.2.
Definition p_ctx id := (task_parts id).1.2.
Definition p_conn id := (task_parts id).2.

Lemma in_main_loop id : bool_decide (is_Some (sys_tasks subscribed !! id ≫= parts)) = true →
  sys_tasks subscribed !! id = Some (TLoop (p_peer id) (p_si id) (p_ctx id) (p_conn id)).
Proof.
  unfold p_peer, p_si, p_ctx, p_conn, task_parts. intros H%bool_decide_eq_true. revert H.
  destruct (sys_tasks subscribed !! id) as [t|]; [|by intros []]. cbn [mbind option_bind].
  by destruct t; [intros []..|].
Qed.

Definition entry := default (@clean list_mpsc "c1" 0%nat None 4 addr 1 0)
  (sessions (sh_sessions (b_shared (sys_broker subscribed))) !! "c1").

Lemma some_default {X} (o : option X) d : bool_decide (is_Some o) = true → o = Some (default d o).
Proof. intros H%bool_decide_eq_true. by destruct o; [|destruct H]. Qed.

Lemma opened {X} (r : option (Phase list_mpsc map_sled list_forward list_sink X)) :
  match r with Some (Open _) => true | _ => false end = true → ∃ x, r = Some (Open x).
Proof. destruct r as [[x|]|]; [by exists x|done..]. Qed.
End DeliveryDemo.
Import DeliveryDemo.

(** "c2" publishes with QoS 2, and "c1", subscribed with QoS 1, is sent the message
    with QoS 1. *)
Lemma system_delivery_witness :
  ∃ ls s1 s3 peer si ctx c pid, sys_run AdminConfig_default ls started subscribed ∧
    sys_step AdminConfig_default (LbLoop 1 (LPacket (Some (Ok (PPublish message))))) subscribed s1 ∧
    sys_step AdminConfig_default (LbLoop 0 (LOutbound (Some (mkOutboundPublish "a/b" [7] QoS.AtLeastOnce false)))) s1 s3 ∧
    sys_tasks s3 !! 0%nat = Some (TLoop peer si ctx c) ∧
    last (written (sink c)) = Some (PPublish (mkPublish false QoS.AtLeastOnce false "a/b" pid [7])).
Proof.
  assert (Hrun : sys_run AdminConfig_default _ started subscribed) by (eapply runs; vm_compute; reflexivity).
  pose proof (in_main_loop 1 ltac:(vm_compute; reflexivity)) as Ha.
  pose proof (in_main_loop 0 ltac:(vm_compute; reflexivity)) as Hid.
  assert (Esi : si_client_id (p_si 0) = "c1") by (vm_compute; reflexivity).
  assert (He : sessions (sh_sessions (b_shared (sys_broker subscribed))) !! si_client_id (p_si 0) = Some entry).
  { rewrite Esi. apply some_default. vm_compute. reflexivity. }
  destruct (opened (loop_step (p_si 1) (loop_max_subs (sys_broker subscribed)) (loop_timeout (sys_broker subscribed))
                      (loop_retries (sys_broker subscribed)) (mkLoopState (sys_broker subscribed) (p_conn 1) (p_ctx 1))
                      (LPacket (Some (Ok (PPublish message)))) 9)) as [l Hl]; [vm_compute; reflexivity|].
  match type of Hrun with sys_run _ ?ls _ _ =>
    destruct (system_delivery AdminConfig_default fresh handles ls subscribed 1 (p_peer 1) (p_si 1) (p_ctx 1) (p_conn 1)
                message 9 l 0 (p_peer 0) (p_si 0) (p_ctx 0) (p_conn 0) entry
                fresh_starting ltac:(vm_compute; reflexivity) Hrun ltac:(vm_compute; reflexivity) Ha Hl
                ltac:(vm_compute; reflexivity) Hid ltac:(vm_compute; discriminate) He ltac:(vm_compute; reflexivity)
                ltac:(vm_compute; reflexivity) ltac:(apply Nat.leb_le; vm_compute; reflexivity))
      as (Hstep & _ & Hq & Hlater) end.
  match type of Hstep with sys_step _ _ _ ?s1 => set (s := s1) in * end.
  assert (Hid1 : sys_tasks s !! 0%nat = Some (TLoop (p_peer 0) (p_si 0) (p_ctx 0) (p_conn 0))).
  { unfold s. rewrite advance_other by discriminate. exact Hid. }
  destruct (Hlater [] s (p_peer 0) (p_ctx 0) (p_conn 0) (run_nil _ s) ltac:(vm_compute; reflexivity) Hid1) as (_ & Hen & Hwr).
  assert (Hd : sys_down s = false) by (unfold s; rewrite advance_down; vm_compute; reflexivity).
  destruct (Hen Hd (mkOutboundPublish "a/b" [7] QoS.AtLeastOnce false) []) as [s3 H3].
  { etransitivity; [exact Hq|]. vm_compute. reflexivity. }
  destruct (Hwr _ s3 H3 ltac:(intros k pkt; eexists; reflexivity) ltac:(apply Nat.ltb_lt; vm_compute; reflexivity)
              ltac:(apply Z.leb_le; vm_compute; reflexivity)) as (c3 & pkt & Ht3 & Hw & (pid & -> & _) & _).
  eexists _, s, s3, _, _, _, c3, pid. split; [exact Hrun|]. split; [exact Hstep|]. split; [exact H3|].
  split; [exact Ht3|]. by rewrite Hw, last_snoc.
Defined.
