(* ===== verification/SystemShutdown.v ===== *)
(** * The end of the process

    Once the shutdown is signalled no connection comes in, every connection ends
    after a bounded number of its own steps, and the process can always wind down
    completely. *)

From stdpp Require Import relations.
From S2P Require Import Prelude Packet Messages OfflineQueue Subscription SubscriptionProofs.
From S2P Require Import SubscriptionTheorems Storage StorageProofs Metrics Retain Session.
From S2P Require Import SessionProofs SessionTheorems Qos QosProofs QosTheorems Router.
From S2P Require Import RouterTheorems Auth IpFilter Limiter Security Plugin PluginTheorems.
From S2P Require Import Lifecycle LifecycleTheorems Config Handlers HandlersProofs.
From S2P Require Import HandlersTheorems Connection ConnectionTheorems Listeners Admin.
From S2P Require Import AdminTheorems TlsLoad Start SnCodec SnGateway SnTheorems System.
From S2P Require Import SystemExec SystemProofs SystemGateway SystemInvariant SystemTheorems.
From S2P Require Import SystemMoves.

Section Shutdown.
Context {M : Mpsc} {L : MpscLaws M} {R : MpscRx M} {LR : MpscRxLaws M L R} {S : Sled} {JR : Json RetainedMessage}
  {JS : Json SessionSnapshot} {JO : Json OutboundPublish} {F : ForwardEnv} {K : Sink} {A : Axum} {T : Rustls}.
Implicit Types (s : System M S F K T) (t : Task M K) (ts : gmap nat (Task M K)).

(** ** What is left to do *)

(** The steps a connection can still take once the shutdown is signalled, with
    offline queues of capacity [cap]. *)
Definition rank (cap : nat) t : nat :=
  match t with
  | TSpawned _ => cap + 5
  | TChecked _ => cap + 4
  | TPending _ _ => cap + 3
  | TReplay _ _ _ msgs _ => length msgs + 2
  | TLoop _ _ _ _ => 1
  end.

Definition weight (cap : nat) ts : nat := map_fold (λ _ t n, rank cap t + n)%nat 0%nat ts.

(** With the tasks [main] waits for. *)
Definition work (cap : nat) s : nat :=
  weight cap (sys_tasks s) + length (sys_services s) + if sys_sweeper s then 1 else 0.

(** The steps of connections in a run. *)
Definition own_step (l : Label) : bool := match l with LbConn _ | LbLoop _ _ => true | _ => false end.
Definition own_steps (ls : list Label) : nat := length (List.filter own_step ls).

Lemma weight_insert cap ts id t : ts !! id = None → weight cap (<[id := t]> ts) = (rank cap t + weight cap ts)%nat.
Proof.
  intros H. refine (map_fold_insert_L (λ (_ : nat) t n, rank cap t + n)%nat 0%nat id t ts _ H). intros. lia.
Qed.

Lemma weight_delete cap ts id t : ts !! id = Some t → (weight cap (delete id ts) + rank cap t = weight cap ts)%nat.
Proof.
  intros H. rewrite <-(insert_delete_id ts id t) at 2 by done. rewrite weight_insert by apply lookup_delete_eq. lia.
Qed.

Lemma weight_set_task cap ts id t o :
  ts !! id = Some t → (weight cap (set_task id o ts) + rank cap t = weight cap ts + from_option (rank cap) 0 o)%nat.
Proof.
  intros H. pose proof (weight_delete cap ts id t H) as Hd. destruct o as [t'|]; cbn.
  - rewrite <-insert_delete_eq, weight_insert by apply lookup_delete_eq. lia.
  - lia.
Qed.

Lemma rank_pos cap t : (0 < rank cap t)%nat.
Proof. destruct t; cbn; lia. Qed.

Lemma weight_zero cap ts : weight cap ts = 0%nat → ts = ∅.
Proof.
  intros H. apply map_eq. intros id. rewrite lookup_empty. destruct (ts !! id) as [t|] eqn:E; [|done].
  pose proof (weight_delete cap ts id t E). pose proof (rank_pos cap t). lia.
Qed.

Lemma weight_le cap ts :
  (∀ id peer si ctx msgs c, ts !! id = Some (TReplay peer si ctx msgs c) → (length msgs ≤ cap)%nat) →
  (weight cap ts ≤ (cap + 5) * size ts)%nat.
Proof.
  induction ts as [|id t ts Hid Hf IH] using map_first_key_ind; intros Hm; [unfold weight; rewrite map_fold_empty; lia|].
  rewrite weight_insert, map_size_insert_None by done.
  assert (Ht : (rank cap t ≤ cap + 5)%nat).
  { destruct t as [| | |peer si ctx msgs c|]; cbn; try lia. specialize (Hm id peer si ctx msgs c (lookup_insert_eq _ _ _)). lia. }
  assert (weight cap ts ≤ (cap + 5) * size ts)%nat; [|lia].
  apply IH. intros i peer si ctx msgs c Hi. apply (Hm i peer si ctx msgs c).
  rewrite lookup_insert_ne; [done|]. intros <-. congruence.
Qed.

(** ** Steps *)

Record winds_down (cap : nat) (l : Label) s s' : Prop := {
  wd_down : sys_down s' = true;
  wd_weight : (weight cap (sys_tasks s') + (if own_step l then 1 else 0) ≤ weight cap (sys_tasks s))%nat;
  wd_services : (length (sys_services s') ≤ length (sys_services s))%nat;
  wd_sweeper : sys_sweeper s' = true → sys_sweeper s = true;
  wd_tasks id : is_Some (sys_tasks s' !! id) → is_Some (sys_tasks s !! id);
}.

Lemma winds_task cap l s b id t o :
  sys_down s = true → sys_tasks s !! id = Some t → (from_option (rank cap) 0 o < rank cap t)%nat →
  winds_down cap l s (advance b id o s).
Proof.
  intros Hd Ht Hr. pose proof (weight_set_task cap _ id t o Ht) as Hw. split; [done| |done|done|].
  - cbn [sys_tasks advance]. cbn. destruct (own_step l); lia.
  - intros i [t' Hi]. cbn in Hi. rewrite set_task_lookup in Hi. destruct (decide (i = id)) as [->|]; eauto.
Qed.

Lemma winds_other cap l s s' :
  own_step l = false → sys_down s' = true → sys_tasks s' = sys_tasks s →
  (length (sys_services s') ≤ length (sys_services s))%nat → (sys_sweeper s' = true → sys_sweeper s = true) →
  winds_down cap l s s'.
Proof. intros Hl Hd Ht Hs Hw. split; rewrite ?Ht, ?Hl; [done|lia|done..]. Qed.

(** A main loop takes the branch of the shutdown and ends. *)
Lemma loop_down si n timeout retries (l : LoopState M S F K) b (b0 : Broker M S F) ev now p :
  take_event true b0 si ev = Some b → loop_step si n timeout retries l ev now = Some p → ∃ b' k, p = Closed b' k.
Proof.
  unfold take_event. destruct ev as [[]| | | |]; try done. intros _. cbn [loop_step]. intros [= <-]. eauto.
Qed.

Lemma step_winds admin cfg n exact lim owners l s s' :
  n < 2 ^ 62 → world_inv cfg n exact lim owners s → sys_down s = true → sys_step admin l s s' →
  winds_down (max_offline_messages (sh_sessions (b_shared (sys_broker s)))) l s s'.
Proof.
  intros Hn Hw Hd Hstep. set (cap := max_offline_messages _). destruct Hstep; try congruence;
    try (eapply winds_task; [done..|]; cbn; lia); try (by apply winds_other).
  all: try (apply winds_other; [done|done|done| |done]; cbn;
            match goal with H : sys_services _ = _ |- _ => rewrite H end; rewrite !length_app; cbn; lia).
  - match goal with H : establish _ _ _ _ _ _ _ _ = _ |- _ => apply establish_msgs in H end.
    2:{ destruct Hw as [Hi _]. by destruct (sv_broker _ _ _ _ _ _ _ _ Hi) as [[]]. }
    eapply winds_task; [done..|]. cbn. unfold cap. lia.
  - rewrite Hd in *. match goal with H1 : take_event _ _ _ _ = _, H2 : loop_step _ _ _ _ _ _ _ = _ |- _ =>
      by destruct (loop_down _ _ _ _ _ _ _ _ _ _ H1 H2) as (? & ? & ?) end.
  - apply winds_other; [|done..]. unfold admin_label. by destruct (_ && _).
  - destruct go_on; by apply winds_other.
Qed.

(** ** Progress *)

Context {IK : Inhabited (SinkState (Sink := K))}.

Lemma task_progress admin cfg n exact lim owners s id t :
  0 ≤ default 3 (max_retries cfg) → n < 2 ^ 62 → world_inv cfg n exact lim owners s → sys_down s = true →
  sys_tasks s !! id = Some t → ∃ l s', own_step l = true ∧ sys_step admin l s s'.
Proof.
  intros Hret Hn Hw Hd Ht. destruct (steps_total admin cfg Hret _ _ _ _ _ Hn Hw) as (Hrep & Hloop & _).
  destruct t as [peer|peer|peer k|peer si ctx [|msg msgs] c|peer si ctx c].
  - do 2 eexists. split; [|by eapply step_abandon]. done.
  - do 2 eexists. split; [|eapply (step_enter _ _ _ _ inhabitant); [done|apply surjective_pairing]]. done.
  - do 2 eexists. split; [|eapply (step_connect_end _ _ _ peer k ReadTimeout "" "" 0); [done|reflexivity]]. done.
  - do 2 eexists. split; [|by eapply step_replayed]. done.
  - destruct (Hrep id peer si ctx _ c [msg] (option_list (Some (RShutdown true false))) 0 Ht) as [[[b' c']|b' k'] E];
      do 2 eexists; (split; [|first [eapply step_replay; [exact Ht| |exact E]; by rewrite Hd|eapply step_replay_end; [exact Ht| |exact E]; by rewrite Hd]]); done.
  - assert (Htk : take_event (sys_down s) (sys_broker s) si (LShutdown true) = Some (sys_broker s)) by by rewrite Hd.
    destruct (Hloop id peer si ctx c _ _ 0 Ht Htk) as [[l|b' k'] E]; do 2 eexists;
      (split; [|first [by eapply step_loop|by eapply step_loop_end]]); done.
Qed.

Lemma winds_work cap l s s' :
  winds_down cap l s s' → (work cap s' + (if own_step l then 1 else 0) ≤ work cap s)%nat.
Proof.
  intros [_ Hw Hs Hk _]. unfold work. destruct (sys_sweeper s'); [rewrite Hk by done|destruct (sys_sweeper s)]; lia.
Qed.

Lemma service_progress admin cfg n exact lim owners s :
  0 ≤ default 3 (max_retries cfg) → n < 2 ^ 62 → world_inv cfg n exact lim owners s → sys_down s = true →
  sys_services s ≠ [] →
  ∃ l s', sys_step admin l s s' ∧ (length (sys_services s') < length (sys_services s))%nat.
Proof.
  intros Hret Hn Hw Hd Hs. destruct (steps_total admin cfg Hret _ _ _ _ _ Hn Hw) as (_ & _ & _ & Hsn).
  destruct (sys_services s) as [|sv rest] eqn:E; [done|]. destruct (is_gateway sv) eqn:Eg.
  - destruct (Hsn EvStop 0) as [g Hg]. do 2 eexists. split; [by eapply (step_gateway_exit _ s [] sv rest)|]. cbn. lia.
  - do 2 eexists. split; [by eapply (step_exit _ s [] sv rest)|]. cbn. lia.
Qed.

Abbreviation capacity s := (max_offline_messages (sh_sessions (b_shared (sys_broker s)))).

Lemma work_progress admin cfg n s :
  0 ≤ default 3 (max_retries cfg) → n < 2 ^ 62 → sound cfg n s → sys_down s = true → work (capacity s) s ≠ 0%nat →
  ∃ l s', sys_step admin l s s' ∧ (work (capacity s) s' < work (capacity s) s)%nat.
Proof.
  intros Hret Hn (x & m & o & Hw) Hd Hwork.
  assert (Hwind : ∀ l s', sys_step admin l s s' → winds_down (capacity s) l s s') by (intros; by eapply step_winds).
  destruct (decide (sys_tasks s = ∅)) as [Ht|Ht].
  2:{ apply map_choose in Ht as (id & t & Ht).
      destruct (task_progress admin cfg n x m o s id t Hret Hn Hw Hd Ht) as (l & s' & Hl & Hstep).
      exists l, s'. split; [done|]. pose proof (winds_work _ _ _ _ (Hwind _ _ Hstep)) as H. rewrite Hl in H. lia. }
  destruct (decide (sys_services s = [])) as [Hs|Hs].
  - assert (Hk : sys_sweeper s = true).
    { destruct (sys_sweeper s) eqn:E; [done|]. destruct Hwork. unfold work, weight. by rewrite Ht, Hs, E. }
    do 2 eexists. split; [by apply step_sweeper_exit|]. unfold work. cbn. rewrite Hk. lia.
  - destruct (service_progress admin cfg n x m o s Hret Hn Hw Hd Hs) as (l & s' & Hstep & Hlt).
    exists l, s'. split; [done|]. destruct (Hwind _ _ Hstep) as [_ W1 _ W2 _]. unfold work.
    destruct (sys_sweeper s'); [rewrite W2 by done|destruct (sys_sweeper s)]; destruct (own_step l); lia.
Qed.

(** ** Runs *)

Lemma run_winds admin cfg n ls s s' :
  0 ≤ default 3 (max_retries cfg) → sys_run admin ls s s' → n + Z.of_nat (length ls) < 2 ^ 62 → sound cfg n s →
  sys_down s = true →
  sys_down s' = true ∧ capacity s' = capacity s ∧
  (weight (capacity s) (sys_tasks s') + own_steps ls ≤ weight (capacity s) (sys_tasks s))%nat ∧
  (work (capacity s) s' + own_steps ls ≤ work (capacity s) s)%nat ∧
  ∀ id, is_Some (sys_tasks s' !! id) → is_Some (sys_tasks s !! id).
Proof.
  intros Hret Hrun. revert n. induction Hrun as [s|l ls s1 s2 s3 Hstep Hrun IH]; intros n Hn Hs Hd.
  { unfold own_steps. cbn. split_and!; [done|done|lia|lia|done]. }
  cbn [length] in Hn. destruct (sound_step admin cfg Hret n l s1 s2 ltac:(lia) Hs Hstep) as [Hs2 Hm].
  pose proof Hs as (x & m & o & Hw). pose proof (step_winds admin cfg n x m o l s1 s2 ltac:(lia) Hw Hd Hstep) as Hwind.
  destruct (IH (n + 1) ltac:(lia) Hs2 (wd_down _ _ _ _ Hwind)) as (I1 & I2 & I3 & I4 & I5).
  pose proof (mv_capacity _ _ _ Hm) as Hc. rewrite Hc in I2, I3, I4.
  pose proof (winds_work _ _ _ _ Hwind) as W. pose proof (wd_weight _ _ _ _ Hwind) as W'.
  unfold own_steps in *. cbn [List.filter]. destruct (own_step l); cbn [length];
    (split_and!; [done|done|lia|lia|]; intros id H; apply (wd_tasks _ _ _ _ Hwind), I5, H).
Qed.

Lemma wind_down admin cfg k :
  0 ≤ default 3 (max_retries cfg) → ∀ n s, (work (capacity s) s ≤ k)%nat → n + Z.of_nat k < 2 ^ 62 → sound cfg n s →
  sys_down s = true →
  ∃ ls s', sys_run admin ls s s' ∧ (length ls ≤ k)%nat ∧ work (capacity s) s' = 0%nat.
Proof.
  intros Hret. induction k as [|k IH]; intros n s Hk Hn Hs Hd.
  { exists [], s. split; [constructor|]. cbn. lia. }
  destruct (decide (work (capacity s) s = 0%nat)) as [H0|H0]; [exists [], s; split; [constructor|]; cbn; lia|].
  destruct (work_progress admin cfg n s Hret ltac:(lia) Hs Hd H0) as (l & s2 & Hstep & Hlt).
  destruct (sound_step admin cfg Hret n l s s2 ltac:(lia) Hs Hstep) as [Hs2 Hm].
  pose proof Hs as (x & m & o & Hw). pose proof (step_winds admin cfg n x m o l s s2 ltac:(lia) Hw Hd Hstep) as Hwind.
  pose proof (mv_capacity _ _ _ Hm) as Hc.
  destruct (IH (n + 1) s2) as (ls & s3 & Hrun & Hlen & Hw3); [rewrite Hc; lia|lia|done|by eapply wd_down|].
  exists (l :: ls), s3. split; [by econstructor|]. rewrite Hc in Hw3. cbn. split; [lia|done].
Qed.

(** C12: The shutdown terminates.  Once it is signalled, in any interleaving: the
    signal stays and no connection comes in; every connection that is there takes
    at most as many more steps as its place in its life allows, the replay of what
    waited for its client included, and all of them together at most the sum; and
    from every state on the way the process can wind down, within the steps that
    are left, to the point where no connection is left and every task that [main]
    waits for has ended, and there, if the gateway was not used, both gauges are 0
    and no session is online. *)
Theorem shutdown_terminates admin (b0 : Broker M S F) handles ls s ls2 s2 :
  starting b0 → sys_run admin ls (system_new b0 handles) s → sys_down s = true → sys_run admin ls2 s s2 →
  let cap := max_offline_messages (sh_sessions (b_shared b0)) in
  epoch_counter (sh_sessions (b_shared b0)) + Z.of_nat (length ls + length ls2 + work cap s2) < 2 ^ 62 →
  sys_down s2 = true ∧ (∀ id, is_Some (sys_tasks s2 !! id) → is_Some (sys_tasks s !! id)) ∧
  (own_steps ls2 + weight cap (sys_tasks s2) ≤ weight cap (sys_tasks s))%nat ∧
  (work cap s2 ≤ work cap s)%nat ∧
  ∃ ls3 s3, sys_run admin ls3 s2 s3 ∧ (length ls3 ≤ work cap s2)%nat ∧
    sys_tasks s3 = ∅ ∧ main_done s3 = true ∧ sys_sweeper s3 = false ∧
    (LbGateway ∉ ls ++ ls2 ++ ls3 → gauges (sh_metrics (b_shared (sys_broker s3))) = (0, 0) ∧
       ∀ c e, sessions (sh_sessions (b_shared (sys_broker s3))) !! c = Some e → connected e = false).
Proof.
  intros Hst Hrun Hd Hrun2 cap Hn. pose proof (st_retries _ Hst) as Hret. set (cfg := b_config b0) in *.
  set (n0 := epoch_counter _) in *.
  assert (H0 : sound cfg n0 (system_new b0 handles : System M S F K T)) by by apply sound_start.
  pose proof (run_capacity admin cfg Hret n0 ls _ _ Hrun ltac:(lia) H0) as Hcap.
  change (capacity (system_new b0 handles : System M S F K T)) with cap in Hcap.
  pose proof (sound_run admin cfg Hret n0 ls _ _ ltac:(lia) H0 Hrun) as Hs. set (n1 := n0 + Z.of_nat (length ls)) in *.
  destruct (run_winds admin cfg n1 ls2 s s2 Hret Hrun2 ltac:(lia) Hs Hd) as (Hd2 & Hcap2 & Hw & Hw' & Hids).
  rewrite Hcap in *. pose proof (sound_run admin cfg Hret n1 ls2 _ _ ltac:(lia) Hs Hrun2) as Hs2.
  destruct (wind_down admin cfg (work cap s2) Hret (n1 + Z.of_nat (length ls2)) s2) as (ls3 & s3 & Hrun3 & Hlen & H3);
    [by rewrite Hcap2|lia|done|done|]. rewrite Hcap2 in H3. unfold work in H3.
  split; [done|]. split; [done|]. split; [lia|]. split; [lia|]. exists ls3, s3. split; [done|]. split; [done|].
  assert (Hts : sys_tasks s3 = ∅) by (apply (weight_zero cap); lia).
  split; [done|]. split; [unfold main_done; destruct (sys_services s3); [done|cbn in H3; lia]|].
  split; [destruct (sys_sweeper s3); [lia|done]|]. intros Hno.
  assert (Hall : sys_run admin (ls ++ ls2 ++ ls3) (system_new b0 handles) s3) by (eapply sys_run_app; [done|by eapply sys_run_app]).
  assert (Hlen3 : n0 + Z.of_nat (length (ls ++ ls2 ++ ls3)) < 2 ^ 62) by (rewrite !length_app; lia).
  destruct (sys_run_inv admin cfg Hret _ _ _ _ _ _ _ Hall Hlen3 (world_init b0 handles Hst)) as (x & lim & o & Hwi & Hgw & _).
  destruct (Hgw Hno) as [-> ->]. by eapply world_settled.
Qed.
End Shutdown.

(** ** A concrete run *)

Import ListChan MapDb ListForward Demo HandlerDemo AdminDemo TlsDemo SystemDemo.

Module ShutdownDemo.
(** Two clients are connected when the signal comes, and the first leaves. *)
Definition signalled := from_option snd started (run (join 0 "c1" ++ join 1 "c2" ++ [ASignal]) started).
Definition one_left := from_option snd signalled (run [ALoop 0 (LShutdown true) 9] signalled).
#[export] Instance list_sink_inhabited : Inhabited (SinkState (Sink := list_sink)) := populate [].
End ShutdownDemo.
Import ShutdownDemo.

Lemma shutdown_terminates_witness :
  ∃ ls ls2 ls3 s3, sys_run AdminConfig_default ls started signalled ∧ sys_run AdminConfig_default ls2 signalled one_left ∧
    sys_run AdminConfig_default ls3 one_left s3 ∧ (length ls3 ≤ 3)%nat ∧ sys_tasks s3 = ∅ ∧ main_done s3 = true.
Proof.
  assert (Hrun : sys_run AdminConfig_default _ started signalled) by (eapply runs; vm_compute; reflexivity).
  assert (Hrun2 : sys_run AdminConfig_default _ signalled one_left) by (eapply runs; vm_compute; reflexivity).
  match type of Hrun with sys_run _ ?ls _ _ => match type of Hrun2 with sys_run _ ?ls2 _ _ =>
    destruct (shutdown_terminates AdminConfig_default fresh handles ls signalled ls2 one_left fresh_starting Hrun
                ltac:(vm_compute; reflexivity) Hrun2 ltac:(vm_compute; reflexivity))
      as (_ & _ & _ & _ & ls3 & s3 & Hrun3 & Hlen & Ht & Hm & _) end end.
  eexists _, _, ls3, s3. split; [exact Hrun|]. split; [exact Hrun2|]. split; [exact Hrun3|].
  split; [|by split]. etransitivity; [exact Hlen|]. apply Nat.leb_le. vm_compute. reflexivity.
Defined.

(** [main] does not wait for the connections: it can be past its handles while one
    still has its cleanup to run. *)
Example main_leaves_connections :
  (λ r, (main_done r.2, size (sys_tasks r.2))) <$> run (join 0 "c1" ++ [ASignal; AExit 0 5]) started
  = Some (true, 1%nat).
Proof. vm_compute. reflexivity. Qed.

(** A listener that cannot bind its address ends: when it was the last, [main] goes
    on to its end as if it had been asked to, without a signal. *)
Example unbound_ends_main :
  (λ r, (main_done r.2, sys_down r.2)) <$> run [AUnbound 0] started = Some (true, false).
Proof. vm_compute. reflexivity. Qed.
