(* ===== verification/Threads.v ===== *)
(** * Threads on a shared state

    The handlers of the broker hold one lock at a time and give it back before
    they take the next.  A [Prog] is such a handler, section by section: what
    happens under a lock is one action, and anybody may move between two actions.
    A pool of programs runs them in every order.

    Two ways of reasoning are set up here.  [gives] is of the rely-guarantee kind:
    a program keeps an assertion that all the others keep, and adds a known
    sequence to what is observed; a pool adds an interleaving of what its members
    add.  [triple] is of the Hoare kind, with assertions on a part of the state
    that the others leave alone ([unseen]). *)

From S2P Require Import Prelude.

(** ** Programs *)

Section Prog.
Context {W : Type}.

(** An action answers and changes the state; [None] if it never returns. *)
Inductive Prog (A : Type) : Type :=
  | Ret (a : A)
  | Act {X : Type} (op : W → option (X * W)) (k : X → Prog A).
Arguments Ret {A} a.
Arguments Act {A X} op k.

#[export] Instance prog_ret : MRet Prog := @Ret.
#[export] Instance prog_bind : MBind Prog := λ A B f,
  fix go p := match p with
              | Ret a => f a
              | Act op k => Act op (λ x, go (k x))
              end.

(** The actions: any function on the state, a look at it, a change of it. *)
Definition act {X} (op : W → option (X * W)) : Prog X := Act op Ret.
Definition ask {X} (f : W → X) : Prog X := act (λ w, Some (f w, w)).
Definition change (f : W → W) : Prog unit := act (λ w, Some (tt, f w)).

Fixpoint for_all {X} (f : X → Prog unit) (l : list X) : Prog unit :=
  match l with
  | [] => mret tt
  | x :: l => _ ← f x; for_all f l
  end.

(** A program on its own. *)
Fixpoint run_prog {A} (p : Prog A) (w : W) : option (A * W) :=
  match p with
  | Ret a => Some (a, w)
  | Act op k => '(x, w) ← op w; run_prog (k x) w
  end.

Lemma run_bind {A B} (p : Prog A) (f : A → Prog B) w :
  run_prog (p ≫= f) w = '(a, w) ← run_prog p w; run_prog (f a) w.
Proof.
  revert w. induction p as [a|X op k IH]; intros w; [done|]. cbn. destruct (op w) as [[x w1]|]; [|done]. cbn. apply IH.
Qed.

Lemma run_act {X} (op : W → option (X * W)) w : run_prog (act op) w = op w.
Proof. cbn. by destruct (op w) as [[x w1]|]. Qed.
Lemma run_ask {X} (f : W → X) w : run_prog (ask f) w = Some (f w, w).
Proof. done. Qed.
Lemma run_change f w : run_prog (change f) w = Some (tt, f w).
Proof. done. Qed.

(** ** Pools *)

(** [take]: somebody outside of the pool takes something out of the state. *)
Context {V : Type} (take : W → option (V * W)).

Abbreviation Pool := (list (Prog unit)).

(** The runs of a pool, with what was taken. *)
Inductive pool_run : list V → Pool * W → Pool * W → Prop :=
  | pool_stay c : pool_run [] c c
  | pool_move got i {X} (op : W → option (X * W)) k x ts w w' c :
      ts !! i = Some (Act op k) → op w = Some (x, w') →
      pool_run got (<[i := k x]> ts, w') c → pool_run got (ts, w) c
  | pool_take got v ts w w' c :
      take w = Some (v, w') → pool_run got (ts, w') c → pool_run (v :: got) (ts, w) c.

Definition finished (ts : Pool) : Prop := Forall (λ p, p = Ret tt) ts.

(** A run computed from a schedule. *)
Inductive Turn := Move (i : nat) | Take.

Definition turn (t : Turn) (c : Pool * W) : option (list V * (Pool * W)) :=
  match t with
  | Move i =>
      p ← c.1 !! i;
      match p with
      | Ret _ => None
      | Act op k => '(x, w) ← op c.2; Some ([], (<[i := k x]> c.1, w))
      end
  | Take => '(v, w) ← take c.2; Some ([v], (c.1, w))
  end.

Fixpoint schedule (l : list Turn) (c : Pool * W) : option (list V * (Pool * W)) :=
  match l with
  | [] => Some ([], c)
  | t :: l => '(got, c) ← turn t c; '(got', c) ← schedule l c; Some (got ++ got', c)
  end.

Lemma schedule_runs l c got c' : schedule l c = Some (got, c') → pool_run got c c'.
Proof.
  revert c got. induction l as [|[i|] l IH]; intros [ts w] got; cbn.
  - intros [= <- <-]. constructor.
  - destruct (ts !! i) as [p|] eqn:Ei; [|done]. cbn. destruct p as [|X op k]; [done|].
    destruct (op w) as [[x w1]|] eqn:Eo; [|done]. cbn. destruct (schedule l _) as [[g c2]|] eqn:El; [|done]. cbn.
    intros [= <- <-]. econstructor; [done..|]. by apply IH.
  - destruct (take w) as [[v w1]|] eqn:Et; [|done]. cbn. destruct (schedule l _) as [[g c2]|] eqn:El; [|done]. cbn.
    intros [= <- <-]. econstructor; [done|]. by apply IH.
Qed.

Lemma pool_run_app got got' c1 c2 c3 : pool_run got c1 c2 → pool_run got' c2 c3 → pool_run (got ++ got') c1 c3.
Proof.
  intros Hrun Hrun'. induction Hrun as [|? ? ? ? ? ? ? ? ? ? Hi Ho _ IH|? ? ? ? ? ? Ht _ IH]; [done|..]; cbn.
  - exact (pool_move _ _ _ _ _ _ _ _ _ Hi Ho (IH Hrun')).
  - exact (pool_take _ _ _ _ _ _ Ht (IH Hrun')).
Qed.
End Prog.
Arguments Prog W A : clear implicits.
Arguments Ret {W A} a.
Arguments Act {W A X} op k.

(** ** Interleavings *)

Section Interleave.
Context {V : Type}.

(** [l] takes the elements of the lists of [outs], each list in its order. *)
Inductive interleaving : list (list V) → list V → Prop :=
  | il_nil outs : Forall (λ out, out = []) outs → interleaving outs []
  | il_cons outs i v out l :
      outs !! i = Some (v :: out) → interleaving (<[i := out]> outs) l → interleaving outs (v :: l).

Lemma interleaving_app outs i o out l :
  outs !! i = Some out → interleaving outs l → interleaving (<[i := o ++ out]> outs) (o ++ l).
Proof.
  intros Hi Hl. revert outs out l Hi Hl. induction o as [|v o IH] using rev_ind; intros outs out l Hi Hl.
  { cbn. by rewrite list_insert_id. }
  rewrite <-!app_assoc. cbn. assert (Hlt : (i < length outs)%nat) by by eapply lookup_lt_Some.
  pose proof (IH (<[i := v :: out]> outs) (v :: out) (v :: l)) as H. rewrite list_insert_insert_eq in H. apply H.
  - by apply list_lookup_insert_eq.
  - apply il_cons with i out; [by apply list_lookup_insert_eq|]. by rewrite list_insert_insert_eq, list_insert_id.
Qed.

(** As many times as in the lists together. *)
Lemma interleaving_count outs l : interleaving outs l → l ≡ₚ concat outs.
Proof.
  induction 1 as [outs H|outs i v out l Hi _ IH].
  - induction H as [|o outs -> _ IH]; [done|exact IH].
  - rewrite IH. rewrite <-(take_drop_middle outs i (v :: out) Hi) at 2.
    rewrite (insert_take_drop outs i out) by by eapply lookup_lt_Some.
    rewrite !concat_app. cbn. rewrite Permutation_middle. done.
Qed.

(** A list of which everybody else is silent. *)
Lemma interleaving_single outs l i out :
  interleaving outs l → outs !! i = Some out → (∀ j o, outs !! j = Some o → j ≠ i → o = []) → l = out.
Proof.
  intros H. revert out. induction H as [outs H|outs j v o l Hj _ IH]; intros out Hi Hno.
  - rewrite Forall_lookup in H. symmetry. by eapply H.
  - destruct (decide (j = i)) as [->|Hne]; [|by apply Hno in Hj]. rewrite Hi in Hj. injection Hj as ->.
    f_equal. apply IH.
    + apply list_lookup_insert_eq. by eapply lookup_lt_Some.
    + intros j o' Hj Hne. rewrite list_lookup_insert_ne in Hj by done. by eapply Hno.
Qed.
End Interleave.

(** ** Rely and guarantee *)

Section Rely.
Context {W V : Type} (take : W → option (V * W)).

(** What everybody keeps, what is observed, and how much of it there is room for. *)
Context (stable : W → Prop) (seen : W → list V) (space : W → nat).

(** From a stable state with room for [n] more, each action returns and keeps the
    state stable; the observations grow by some [out] of at most [n] in all, and
    [P out a] holds when the program returns [a]. *)
Fixpoint gives {A} (n : nat) (p : Prog W A) (P : list V → A → Prop) : Prop :=
  match p with
  | Ret a => P [] a
  | Act op k => ∀ w, stable w → (n ≤ space w)%nat →
      ∃ x w' o, op w = Some (x, w') ∧ stable w' ∧ seen w' = seen w ++ o ∧
        (space w ≤ space w' + length o)%nat ∧ (length o ≤ n)%nat ∧
        gives (n - length o) (k x) (λ out a, P (o ++ out) a)
  end.

Lemma gives_weaken {A} n n' (p : Prog W A) (P Q : list V → A → Prop) :
  (n ≤ n')%nat → (∀ out a, P out a → Q out a) → gives n p P → gives n' p Q.
Proof.
  revert n n' P Q. induction p as [a|X op k IH]; intros n n' P Q Hn HPQ; cbn; [auto|].
  intros H w Hs Hw. destruct (H w Hs ltac:(lia)) as (x & w' & o & Ho & Hs' & Hseen & Hsp & Hl & Hk).
  exists x, w', o. do 4 (split; [assumption|]). split; [lia|]. eapply IH; [| |exact Hk]; [lia|]. intros out a. apply HPQ.
Qed.

Lemma gives_bind {A B} n (p : Prog W A) (f : A → Prog W B) P Q :
  gives n p P → (∀ out a, P out a → (length out ≤ n)%nat → gives (n - length out) (f a) (λ o, Q (out ++ o))) →
  gives n (p ≫= f) Q.
Proof.
  revert n P Q. induction p as [a|X op k IH]; intros n P Q Hp Hf; cbn in *.
  - specialize (Hf [] a Hp (Nat.le_0_l _)). by rewrite Nat.sub_0_r in Hf.
  - intros w Hs Hw. destruct (Hp w Hs Hw) as (x & w' & o & Ho & Hs' & Hseen & Hsp & Hl & Hk).
    exists x, w', o. do 5 (split; [assumption|]). eapply IH; [exact Hk|]. intros out a Ha Hlo.
    assert (Hlen : (length (o ++ out) ≤ n)%nat) by (rewrite length_app; lia). specialize (Hf _ _ Ha Hlen).
    rewrite length_app, Nat.sub_add_distr in Hf. eapply gives_weaken; [| |exact Hf]; [lia|].
    intros out' b. by rewrite app_assoc.
Qed.

(** A program that adds nothing. *)
Definition silent {A} (p : Prog W A) (P : A → Prop) : Prop := gives 0 p (λ out a, out = [] ∧ P a).

Lemma silent_bind {A B} n (p : Prog W A) (f : A → Prog W B) P Q :
  silent p P → (∀ a, P a → gives n (f a) Q) → gives n (p ≫= f) Q.
Proof.
  intros Hp Hf. eapply gives_bind; [eapply (gives_weaken 0 n); [lia| |exact Hp]; intros out a Ha; exact Ha|].
  intros out a [-> Ha] _. cbn. rewrite Nat.sub_0_r. by apply Hf.
Qed.

Lemma silent_act {X} (op : W → option (X * W)) (P : X → Prop) :
  (∀ w, stable w → ∃ x w', op w = Some (x, w') ∧ stable w' ∧ seen w' = seen w ∧ (space w ≤ space w')%nat ∧ P x) →
  silent (act op) P.
Proof.
  intros H w Hs _. destruct (H w Hs) as (x & w' & Ho & Hs' & Hseen & Hsp & HP). exists x, w', []. cbn.
  rewrite app_nil_r, Nat.add_0_r. auto 8.
Qed.

Lemma silent_ask {X} (f : W → X) (P : X → Prop) : (∀ w, stable w → P (f w)) → silent (ask f) P.
Proof. intros H. apply silent_act. intros w Hs. exists (f w), w. auto 7. Qed.

Lemma silent_change (f : W → W) :
  (∀ w, stable w → stable (f w) ∧ seen (f w) = seen w ∧ (space w ≤ space (f w))%nat) → silent (change f) (λ _, True).
Proof. intros H. apply silent_act. intros w Hs. exists tt, (f w). destruct (H w Hs) as (? & ? & ?). auto 7. Qed.

Lemma silent_ret {A} (a : A) (P : A → Prop) : P a → silent (Ret a) P.
Proof. by split. Qed.

Lemma silent_weaken {A} (p : Prog W A) (P Q : A → Prop) : silent p P → (∀ a, P a → Q a) → silent p Q.
Proof. intros H HPQ. eapply gives_weaken; [done| |exact H]. intros out a [-> ?]. auto. Qed.

Lemma silent_for_all {X} (f : X → Prog W unit) l :
  (∀ x, x ∈ l → silent (f x) (λ _, True)) → silent (for_all f l) (λ _, True).
Proof.
  induction l as [|x l IH]; intros H; cbn [for_all]; [by apply silent_ret|].
  eapply silent_bind; [apply H; left|]. intros a _. apply IH. intros y Hy. apply H. by right.
Qed.

(** *** A pool *)

Abbreviation Promise := (nat * (list V → Prop))%type.
Abbreviation keeps pr p := (gives (fst pr) p (λ out _, snd pr out)).

Definition owed (prs : list Promise) : nat := sum_list (fst <$> prs).

(** A taker takes the oldest observation and makes room. *)
Hypothesis take_first : ∀ w v w', stable w → take w = Some (v, w') →
  stable w' ∧ seen w = v :: seen w' ∧ (space w ≤ space w')%nat.

Lemma owed_insert prs i n P m Q :
  prs !! i = Some (n, P) → (m ≤ n)%nat → (owed (<[i := (m, Q)]> prs) + (n - m) = owed prs)%nat.
Proof.
  intros Hi Hm. unfold owed. rewrite <-(take_drop_middle prs i (n, P) Hi) at 2.
  rewrite insert_take_drop by by eapply lookup_lt_Some.
  induction (list.take i prs) as [|[a b] l IH]; cbn in *; lia.
Qed.

(** What the pool adds is an interleaving of what its members promised; when all
    have finished, each has kept its promise. *)
Lemma pool_gives got ts w ts' w' prs :
  pool_run take got (ts, w) (ts', w') → Forall2 (λ pr p, keeps pr p) prs ts →
  stable w → (owed prs ≤ space w)%nat →
  ∃ outs sent prs', got ++ seen w' = seen w ++ sent ∧ interleaving outs sent ∧
    stable w' ∧ (owed prs' ≤ space w')%nat ∧
    Forall2 (λ pr p, keeps pr p) prs' ts' ∧
    length outs = length prs ∧
    ∀ i pr, prs !! i = Some pr → ∃ m out Q, outs !! i = Some out ∧ prs' !! i = Some (m, Q) ∧ ∀ o, Q o → pr.2 (out ++ o).
Proof.
  intros Hrun. remember (ts, w) as c eqn:Ec. remember (ts', w') as c' eqn:Ec'. revert ts w prs Ec.
  induction Hrun as [c|got i X op k x ts1 w1 w2 c Hi Ho _ IH|got v ts1 w1 w2 c Ht _ IH];
    intros ts w prs Ec Hk Hs Hsp.
  - rewrite Ec' in Ec. injection Ec as <- <-. exists (replicate (length prs) []), [], prs. rewrite !app_nil_r. split; [done|].
    split; [constructor; by apply Forall_replicate|]. do 3 (split; [done|]). split; [by rewrite length_replicate|].
    intros i [n P] Hi. exists n, [], P. split; [|done]. apply lookup_replicate. split; [done|]. by eapply lookup_lt_Some.
  - injection Ec as <- <-. destruct (Forall2_lookup_r _ _ _ _ _ Hk Hi) as ([n P] & Hp & Hg). cbn in Hg.
    assert (Hn : (n ≤ space w1)%nat).
    { pose proof (owed_insert prs i n P 0 P Hp ltac:(lia)). lia. }
    destruct (Hg w1 Hs Hn) as (x' & w2' & o & Ho' & Hs' & Hseen & Hroom & Hlo & Hg').
    rewrite Ho in Ho'. injection Ho' as <- <-.
    destruct (IH Ec' (<[i := k x]> ts1) w2 (<[i := (n - length o, λ out, P (o ++ out))%nat]> prs)) as
      (outs & sent & prs' & Hseq & Hil & Hs2 & Hsp2 & Hk2 & Hlen & Hall); [done| |done| |].
    { by apply Forall2_insert. }
    { pose proof (owed_insert prs i n P (n - length o) (λ out, P (o ++ out)) Hp ltac:(lia)). lia. }
    rewrite length_insert in Hlen. assert (Hlt : (i < length outs)%nat) by (rewrite Hlen; by eapply lookup_lt_Some).
    destruct (lookup_lt_is_Some_2 outs i Hlt) as [out Hout].
    exists (<[i := o ++ out]> outs), (o ++ sent), prs'. split; [by rewrite Hseq, Hseen, <-app_assoc|].
    split; [by apply interleaving_app|]. do 3 (split; [done|]). split; [by rewrite length_insert|].
    intros j pr Hj. destruct (decide (j = i)) as [->|Hne].
    + rewrite Hp in Hj. injection Hj as <-. destruct (Hall i (n - length o, λ out, P (o ++ out))%nat) as (m & out' & Q & Ho1 & Ho2 & HQ).
      { apply list_lookup_insert_eq. by eapply lookup_lt_Some. }
      rewrite Hout in Ho1. injection Ho1 as <-. exists m, (o ++ out), Q. split; [by apply list_lookup_insert_eq|].
      split; [done|]. intros o' Ho'. rewrite <-app_assoc. by apply HQ.
    + destruct (Hall j pr) as (m & out' & Q & Ho1 & Ho2 & HQ); [by rewrite list_lookup_insert_ne|]. exists m, out', Q.
      by rewrite list_lookup_insert_ne.
  - injection Ec as <- <-. destruct (take_first _ _ _ Hs Ht) as (Hs' & Hseen & Hroom).
    destruct (IH Ec' ts1 w2 prs) as (outs & sent & prs' & Hseq & Hrest); [done|done|done|lia|].
    exists outs, sent, prs'. split; [|done]. by rewrite Hseen, <-!app_comm_cons, Hseq.
Qed.

(** Nobody is ever stuck, and the pool can always be run to its end. *)
Lemma gives_runs {A} n (p : Prog W A) P w :
  gives n p P → stable w → (n ≤ space w)%nat →
  ∃ a w' out, run_prog p w = Some (a, w') ∧ stable w' ∧ (space w ≤ space w' + length out)%nat ∧ (length out ≤ n)%nat ∧ P out a.
Proof.
  revert n P w. induction p as [a|X op k IH]; intros n P w Hg Hs Hn; cbn in *.
  - exists a, w, []. cbn. split; [done|]. split; [done|]. split; [lia|]. split; [lia|done].
  - destruct (Hg w Hs Hn) as (x & w1 & o & -> & Hs1 & _ & Hsp & Hl & Hk). cbn.
    destruct (IH x _ _ w1 Hk Hs1 ltac:(lia)) as (a & w' & out & Hr & Hs' & Hsp' & Hl' & HP).
    exists a, w', (o ++ out). rewrite length_app. split; [done|]. split; [done|]. split; [lia|]. split; [lia|done].
Qed.

Lemma thread_runs ts i p w a w' :
  ts !! i = Some p → run_prog p w = Some (a, w') → pool_run take [] (ts, w) (<[i := Ret a]> ts, w').
Proof.
  revert ts w. induction p as [a0|X op k IH]; intros ts w Hi Hr; cbn in Hr.
  - injection Hr as -> ->. rewrite list_insert_id by done. constructor.
  - destruct (op w) as [[x w1]|] eqn:Eo; [|done]. cbn in Hr. eapply pool_move; [exact Hi|exact Eo|].
    assert (Hlt : (i < length ts)%nat) by by eapply lookup_lt_Some.
    pose proof (IH x (<[i := k x]> ts) w1 (list_lookup_insert_eq _ _ _ Hlt) Hr) as H. by rewrite list_insert_insert_eq in H.
Qed.

Lemma pool_finishes ts prs w :
  Forall2 (λ pr p, keeps pr p) prs ts → stable w → (owed prs ≤ space w)%nat →
  ∃ ts' w', pool_run take [] (ts, w) (ts', w') ∧ finished ts'.
Proof.
  intros Hk Hs Hsp. enough (H : ∀ pre, finished pre → ∃ ts' w', pool_run take [] (pre ++ ts, w) (ts', w') ∧ finished ts').
  { destruct (H []) as (ts' & w' & Hr & Hf); [constructor|]. by exists ts', w'. }
  revert w Hs Hsp. induction Hk as [|[n P] p prs ts Hp _ IH]; intros w Hs Hsp pre Hpre.
  { exists pre, w. rewrite app_nil_r. split; [constructor|done]. }
  unfold owed in Hsp. cbn in Hsp, Hp. destruct (gives_runs _ _ _ w Hp Hs ltac:(lia)) as ([] & w1 & out & Hr & Hs1 & Hsp1 & Hl & _).
  destruct (IH w1 Hs1 ltac:(unfold owed; lia) (pre ++ [Ret tt])) as (ts' & w' & Hrun & Hf).
  { apply Forall_app. split; [done|]. by constructor. }
  exists ts', w'. split; [|done]. apply (pool_run_app take [] [] _ (pre ++ Ret tt :: ts, w1)).
  - replace (pre ++ Ret tt :: ts) with (<[length pre := Ret tt]> (pre ++ p :: ts))
      by (rewrite insert_app_r_alt, Nat.sub_diag by lia; reflexivity).
    apply thread_runs with p; [by apply list_lookup_middle|done].
  - by rewrite <-app_assoc in Hrun.
Qed.
End Rely.

(** ** Non-interference *)

Section Own.
Context {W V : Type} (take : W → option (V * W)).

(** Two states agree on the part in question. *)
Context (sim : W → W → Prop).
Context `{!Equivalence sim}.

(** A program that leaves that part alone. *)
Fixpoint unseen {A} (p : Prog W A) : Prop :=
  match p with
  | Ret _ => True
  | Act op k => ∀ w x w', op w = Some (x, w') → sim w w' ∧ unseen (k x)
  end.

Lemma unseen_bind {A B} (p : Prog W A) (f : A → Prog W B) : unseen p → (∀ a, unseen (f a)) → unseen (p ≫= f).
Proof.
  induction p as [a|X op k IH]; intros H Hf; cbn in *; [done|]. intros w x w' Ho. destruct (H _ _ _ Ho). auto.
Qed.

Lemma unseen_act {X} (op : W → option (X * W)) : (∀ w x w', op w = Some (x, w') → sim w w') → unseen (act op).
Proof. intros H w x w' Ho. split; [by eapply H|done]. Qed.
Lemma unseen_ask {X} (f : W → X) : unseen (ask f).
Proof. apply unseen_act. by intros w x w' [= _ <-]. Qed.
Lemma unseen_change (f : W → W) : (∀ w, sim w (f w)) → unseen (change f).
Proof. intros H. apply unseen_act. intros w x w' [= _ <-]. apply H. Qed.
Lemma unseen_for_all {X} (f : X → Prog W unit) l : (∀ x, x ∈ l → unseen (f x)) → unseen (for_all f l).
Proof.
  induction l as [|x l IH]; intros H; cbn [for_all]; [done|]. apply unseen_bind; [apply H; left|].
  intros _. apply IH. intros y Hy. apply H. by right.
Qed.

(** Assertions on that part, and what a program makes of them. *)
Definition local (J : W → Prop) : Prop := ∀ w w', sim w w' → J w → J w'.

Fixpoint triple {A} (J : W → Prop) (p : Prog W A) (Q : A → W → Prop) : Prop :=
  match p with
  | Ret a => ∀ w, J w → Q a w
  | @Act _ _ X op k => ∃ J' : X → W → Prop, (∀ x, local (J' x)) ∧
      ∀ w x w', J w → op w = Some (x, w') → J' x w' ∧ triple (J' x) (k x) Q
  end.

Lemma triple_weaken {A} (p : Prog W A) (J J' : W → Prop) (Q Q' : A → W → Prop) :
  triple J p Q → (∀ w, J' w → J w) → (∀ a w, Q a w → Q' a w) → triple J' p Q'.
Proof.
  revert J J' Q Q'. induction p as [a|X op k IH]; intros J J' Q Q' H HJ HQ; cbn in *; [auto|].
  destruct H as (J1 & Hl & Ho). exists J1. split; [done|]. intros w x w' HJ' Hx.
  destruct (Ho w x w' (HJ _ HJ') Hx) as [H1 H2]. split; [done|]. by eapply IH.
Qed.

Lemma triple_bind {A B} (p : Prog W A) (f : A → Prog W B) J Q Q' :
  triple J p Q → (∀ a, triple (Q a) (f a) Q') → triple J (p ≫= f) Q'.
Proof.
  revert J. induction p as [a|X op k IH]; intros J H Hf; cbn in *; [by eapply triple_weaken|].
  destruct H as (J1 & Hl & Ho). exists J1. split; [done|]. intros w x w' HJ Hx.
  destruct (Ho w x w' HJ Hx) as [H1 H2]. split; [done|]. by apply IH.
Qed.

Lemma triple_unseen {A} (p : Prog W A) J : unseen p → local J → triple J p (λ _, J).
Proof.
  induction p as [a|X op k IH]; intros Hu Hl; cbn in *; [done|].
  exists (λ _, J). split; [done|]. intros w x w' HJ Ho. destruct (Hu _ _ _ Ho) as [Hs Hk]. split; [by eapply Hl|by apply IH].
Qed.

Lemma triple_act {X} (op : W → option (X * W)) J (Q : X → W → Prop) :
  (∀ x, local (Q x)) → (∀ w x w', J w → op w = Some (x, w') → Q x w') → triple J (act op) Q.
Proof. intros Hl H. exists Q. split; [done|]. intros w x w' HJ Ho. split; [by eapply H|by cbn]. Qed.

Lemma triple_change (f : W → W) (J J' : W → Prop) :
  local J' → (∀ w, J w → J' (f w)) → triple J (change f) (λ _, J').
Proof. intros Hl H. apply triple_act; [done|]. intros w x w' HJ [= _ <-]. auto. Qed.

Lemma triple_ask {X} (f : W → X) (J : W → Prop) (φ : X → Prop) :
  local J → (∀ w, J w → φ (f w)) → triple J (ask f) (λ x w, J w ∧ φ x).
Proof.
  intros Hl H. apply triple_act; [|intros w x w' HJ [= <- <-]; auto]. intros x w w' Hs [HJ Hx]. split; [by eapply Hl|done].
Qed.

Lemma triple_ret {A} (a : A) (J : W → Prop) : triple J (Ret a) (λ b w, J w ∧ b = a).
Proof. by intros w. Qed.

Hypothesis take_unseen : ∀ w v w', take w = Some (v, w') → sim w w'.

Definition others (c : nat → Prop) (ts : list (Prog W unit)) : Prop := ∀ j q, ¬ c j → ts !! j = Some q → unseen q.

Lemma others_move c ts j {X} (op : W → option (X * W)) k w x w' :
  others c ts → ¬ c j → ts !! j = Some (Act op k) → op w = Some (x, w') → sim w w' ∧ others c (<[j := k x]> ts).
Proof.
  intros Ho Hc Hj Hx. destruct (Ho j _ Hc Hj _ _ _ Hx) as [Hs Hk]. split; [done|]. intros j' q Hc' Hq.
  destruct (decide (j' = j)) as [->|]; [|rewrite list_lookup_insert_ne in Hq by done; by eapply Ho].
  rewrite list_lookup_insert_eq in Hq by by eapply lookup_lt_Some. by injection Hq as <-.
Qed.

(** In a pool whose other members leave its part alone, a program keeps its
    triple: when it is done, its postcondition holds from then on. *)
Lemma pool_triple got ts w ts' w' i p J Q a :
  pool_run take got (ts, w) (ts', w') → ts !! i = Some p → others (λ j, j = i) ts →
  local J → (∀ a, local (Q a)) → triple J p Q → J w → ts' !! i = Some (Ret a) → Q a w'.
Proof.
  intros Hrun. remember (ts, w) as c eqn:Ec. remember (ts', w') as c' eqn:Ec'. revert ts w p J Ec.
  induction Hrun as [c|got j X op k x ts1 w1 w2 c Hj Ho _ IH|got v ts1 w1 w2 c Ht _ IH];
    intros ts w p J Ec Hi Hun HJl HQl Htr HJ Hret.
  - rewrite Ec' in Ec. injection Ec as <- <-. rewrite Hi in Hret. injection Hret as ->. by apply Htr.
  - injection Ec as <- <-. assert (Hlt : (j < length ts1)%nat) by by eapply lookup_lt_Some.
    destruct (decide (j = i)) as [->|Hne].
    + rewrite Hi in Hj. injection Hj as ->. destruct Htr as (J' & Hl' & Hop). destruct (Hop _ _ _ HJ Ho) as [HJ' Hk].
      apply (IH Ec' (<[i := k x]> ts1) w2 (k x) (J' x)); [done|by apply list_lookup_insert_eq| |done..].
      intros j q Hj Hq. rewrite list_lookup_insert_ne in Hq by done. by eapply Hun.
    + destruct (others_move (λ j, j = i) _ _ _ _ _ _ _ Hun Hne Hj Ho) as [Hsim Hun'].
      apply (IH Ec' (<[j := k x]> ts1) w2 p J); [done|by rewrite list_lookup_insert_ne|done..| |done].
      by eapply HJl.
  - injection Ec as <- <-. apply (IH Ec' ts1 w2 p J); [done..| |done]. eapply HJl; [by eapply take_unseen|done].
Qed.

(** A part that nobody touches. *)
Lemma pool_unseen got ts w ts' w' :
  pool_run take got (ts, w) (ts', w') → others (λ _, False) ts → sim w w'.
Proof.
  intros Hrun. remember (ts, w) as c eqn:Ec. remember (ts', w') as c' eqn:Ec'. revert ts w Ec.
  induction Hrun as [c|got j X op k x ts1 w1 w2 c Hj Ho _ IH|got v ts1 w1 w2 c Ht _ IH]; intros ts w Ec Hun.
  - rewrite Ec' in Ec. by injection Ec as <- <-.
  - injection Ec as <- <-. destruct (others_move (λ _, False) _ _ _ _ _ _ _ Hun (λ H, H) Hj Ho) as [Hsim Hun'].
    rewrite Hsim. by apply (IH Ec' (<[j := k x]> ts1)).
  - injection Ec as <- <-. rewrite (take_unseen _ _ _ Ht). by apply (IH Ec' ts1).
Qed.
End Own.
