(* ===== verification/Interleave.v ===== *)
(** * The handlers, lock by lock

    What the broker does when a client publishes, subscribes, joins or leaves,
    and what its sweeper does, as programs of [Threads]: each of their sections
    under a lock, each move of an atomic counter and each call into the database is
    one action.  A handle on an offline queue ([Arc<OfflineQueue>]) that was read
    from a session is the number of the session's registration: once the session
    has been replaced or removed, nobody but those who already hold a handle can
    reach its queue, and what is put there is never read.  [job_step] is the same
    handler in one piece. *)

From S2P Require Import Prelude Packet Messages OfflineQueue Subscription Storage Metrics.
From S2P Require Import Retain Session Router Lifecycle Threads.

(** ** Sections of the subscription tree *)

Definition tree_insert (c f : string) (q : QoS) (t : SubscriptionTree) : SubscriptionTree :=
  t <| root ::= insert_path (str_split slash f) c q |>.

Definition tree_join (c : string) (k : string * string) (q : QoS) (t : SubscriptionTree) : SubscriptionTree :=
  let entry := default SharedEntry_default (shared t !! k) in
  t <| shared ::= <[k := entry <| members ::= <[c := q]> |>]> |>.

Definition index_add (c f : string) (q : QoS) (t : SubscriptionTree) : SubscriptionTree :=
  t <| reverse ::= λ rev, reverse_add rev c f q |>.

Definition tree_remove (c f : string) (t : SubscriptionTree) : bool * SubscriptionTree :=
  let '(removed, r) := remove_recursive (root t) (str_split slash f) c in (removed, t <| root := r |>).

Definition tree_leave (c : string) (k : string * string) (t : SubscriptionTree) : bool * SubscriptionTree :=
  match shared t !! k with
  | Some entry =>
      let removed := bool_decide (is_Some (members entry !! c)) in
      let entry := entry <| members ::= delete c |> in
      (removed, t <| shared ::= if removed && bool_decide (members entry = ∅) then delete k else <[k := entry]> |>)
  | None => (false, t)
  end.

Definition index_drop (c f : string) (t : SubscriptionTree) : SubscriptionTree :=
  t <| reverse ::= λ rev, reverse_remove rev c f |>.

Definition tree_clear (c : string) (t : SubscriptionTree) : SubscriptionTree := t <| root ::= λ r, remove_all r c |>.
Definition groups_clear (c : string) (keys : list (string * string)) (t : SubscriptionTree) : SubscriptionTree :=
  t <| shared ::= λ sh, foldl (remove_shared_member c) sh keys |>.
Definition index_clear (c : string) (t : SubscriptionTree) : SubscriptionTree := t <| reverse ::= delete c |>.

(** ** Sections of the session table *)

Section Sessions.
Context {M : Mpsc}.
Implicit Types self : SessionManager M.

(** [remove_if] without the counter, which is moved after the lock is released. *)
Definition take_entry self (cid : string) (ep : Z) : option (SessionEntry M) * SessionManager M :=
  match sessions self !! cid with
  | Some v => if epoch v =? ep then (Some v, remove_entry self cid) else (None, self)
  | None => (None, self)
  end.

Definition next_epoch self : Z * SessionManager M :=
  let epoch_ := wrap_u64 (epoch_counter self + 1) in (epoch_, self <| epoch_counter := epoch_ |>).

(** The [entry] of [register]: the messages of the session that was there, and
    whether one more is online. *)
Definition insert_entry self (cid : string) (new_entry : SessionEntry M) (now : Instant)
    : (bool * list OutboundPublish * bool) * SessionManager M :=
  let self' := self <| sessions ::= <[cid := new_entry]> |> in
  match sessions self !! cid with
  | Some old =>
      let drained := match clean_session old, offline_queue old with
                     | false, Some q => (OfflineQueue.drain q now).1
                     | _, _ => []
                     end in
      ((negb (clean_session old), drained, negb (connected old)), self')
  | None => ((false, [], true), self')
  end.
End Sessions.

(** ** Programs *)

Section Jobs.
Context {M : Mpsc} {R : MpscRx M} {S : Sled} {JR : Json RetainedMessage} {JS : Json SessionSnapshot}
  {JO : Json OutboundPublish}.

Abbreviation P := (Prog (Shared M S)).

Definition on_sessions {X} (f : SessionManager M → X * SessionManager M) : P X :=
  act (λ w, let '(x, s) := f (sh_sessions w) in Some (x, w <| sh_sessions := s |>)).
Definition on_tree {X} (f : SubscriptionTree → X * SubscriptionTree) : P X :=
  act (λ w, let '(x, t) := f (sh_subscriptions w) in Some (x, w <| sh_subscriptions := t |>)).
Definition change_sessions (f : SessionManager M → SessionManager M) : P unit := change (λ w, w <| sh_sessions ::= f |>).
Definition change_tree (f : SubscriptionTree → SubscriptionTree) : P unit :=
  change (λ w, w <| sh_subscriptions ::= f |>).
Definition metric (f : Metrics → Metrics) : P unit := change (λ w, w <| sh_metrics ::= f |>).
Definition storage {A} (op : SE (Storage S * Metrics) BrokerError A) : P unit := change (try_storage op).

(** *** Delivery *)

Record Handle := mkHandle { h_client : string; h_epoch : Z }.

Definition read_handles (cid : string) (w : Shared M S) : option (bool * Sender * option Handle) :=
  e ← sessions (sh_sessions w) !! cid;
  Some (connected e, tx e, (λ _, mkHandle cid (epoch e)) <$> offline_queue e).

(** [q.enqueue(msg)] on a handle.  The queue of a session that is gone keeps its
    limits; the call does not return if they are zero. *)
Definition enqueue_at (h : Handle) (msg : OutboundPublish) (now : Instant) (w : Shared M S)
    : option (unit * Shared M S) :=
  let self := sh_sessions w in
  let orphan := if (max_offline_messages self =? 0)%nat then None else Some (tt, w) in
  match sessions self !! h_client h with
  | Some e =>
      if epoch e =? h_epoch h then
        match offline_queue e with
        | Some q => self ← enqueue_into self (h_client h) q msg now; Some (tt, w <| sh_sessions := self |>)
        | None => orphan
        end
      else orphan
  | None => orphan
  end.

Definition send_on (t : Sender) (msg : OutboundPublish) (w : Shared M S) : option (TrySend * Shared M S) :=
  let '(r, ch) := try_send (sh_chans w) t msg in Some (r, w <| sh_chans := ch |>).

Definition enqueue_or_p (h : option Handle) (msg : OutboundPublish) (now : Instant) (otherwise : DeliveryOutcome)
    : P DeliveryOutcome :=
  match h with
  | Some h => _ ← act (enqueue_at h msg now); mret DeliveryOutcome.Enqueued
  | None => mret otherwise
  end.

Definition deliver_or_enqueue_p (cid : string) (msg : OutboundPublish) (now : Instant) : P DeliveryOutcome :=
  handles ← ask (read_handles cid);
  match handles with
  | None => mret DeliveryOutcome.NoSession
  | Some (connected, tx, queue) =>
      if (connected : bool) then
        r ← act (send_on tx msg);
        match r with
        | TrySent => mret DeliveryOutcome.Sent
        | TryFull msg => enqueue_or_p queue msg now DeliveryOutcome.ChannelFull
        | TryClosed msg => enqueue_or_p queue msg now DeliveryOutcome.Dropped
        end
      else enqueue_or_p queue msg now DeliveryOutcome.Dropped
  end.

Definition deliver_one_p (client_id topic : string) (payload : list Z) (pub_qos : QoS) (now : Instant)
    (sub_qos : QoS) : P unit :=
  let req := mkOutboundPublish topic payload (delivery_qos pub_qos sub_qos) false in
  outcome ← deliver_or_enqueue_p client_id req now;
  match outcome with
  | DeliveryOutcome.Sent => metric inc_sent
  | DeliveryOutcome.Enqueued => _ ← metric inc_sent; storage (push_offline client_id req)
  | DeliveryOutcome.ChannelFull => metric inc_message_dropped
  | DeliveryOutcome.Dropped | DeliveryOutcome.NoSession => mret tt
  end.

Definition deliver_target (exclude : option string) (topic : string) (payload : list Z) (qos : QoS) (now : Instant)
    (target : string * QoS) : P unit :=
  if bool_decide (exclude = Some target.1) then mret tt
  else deliver_one_p target.1 topic payload qos now target.2.

(** The retained message is stored under the lock of its table. *)
Definition publish_p (topic : string) (payload : list Z) (qos : QoS) (retain : bool) (exclude : option string)
    (now : Instant) : P unit :=
  _ ← (if retain then change (λ w, store_retained w topic payload qos true) else mret tt);
  matches ← ask (λ w, Subscription.matches (sh_subscriptions w) topic);
  shared_matches ← on_tree (λ t, let '(t, sel) := matches_shared t topic in (sel, t));
  for_all (deliver_target exclude topic payload qos now) (matches ++ shared_matches).

(** *** Subscriptions *)

Definition subscribe_p (c f : string) (q : QoS) : P (BrokerResult unit) :=
  match parse_shared_filter f with
  | Some (group, real_filter) =>
      match validate_filter real_filter with
      | Err e => mret (Err e)
      | Ok _ => _ ← change_tree (tree_join c (group, real_filter) q); _ ← change_tree (index_add c f q); mret (Ok tt)
      end
  | None =>
      match validate_filter f with
      | Err e => mret (Err e)
      | Ok _ => _ ← change_tree (tree_insert c f q); _ ← change_tree (index_add c f q); mret (Ok tt)
      end
  end.

Definition unsubscribe_p (c f : string) : P bool :=
  removed ← on_tree (match parse_shared_filter f with Some k => tree_leave c k | None => tree_remove c f end);
  _ ← (if removed : bool then change_tree (index_drop c f) else mret tt);
  mret removed.

(** Without groups to leave, the second lock on them is not taken, and nothing is
    changed. *)
Definition unsubscribe_all_p (c : string) : P unit :=
  _ ← change_tree (tree_clear c);
  keys ← ask (λ w, shared_keys c (shared (sh_subscriptions w)));
  _ ← change_tree (groups_clear c keys);
  change_tree (index_clear c).

(** *** Sessions *)

Definition persist_p (c : string) : P unit :=
  disk ← ask sh_storage;
  match disk with
  | None => mret tt
  | Some _ =>
      clean ← ask (λ w, is_clean_session (sh_sessions w) c);
      if (clean : bool) then mret tt
      else
        subs ← ask (λ w, subscriptions_of (sh_subscriptions w) c);
        match subs with
        | [] => mret tt
        | subs => storage (save_session c (mkSessionSnapshot c subs))
        end
  end.

Definition forget_p (c : string) : P unit :=
  _ ← unsubscribe_all_p c;
  _ ← storage (delete_session c);
  storage (drain_offline c).

Definition remove_if_epoch_p (c : string) (ep : Z) : P bool :=
  removed ← on_sessions (λ s, take_entry s c ep);
  match removed with
  | Some v => _ ← (if connected v then change_sessions online_dec else mret tt); mret true
  | None => mret false
  end.

Definition remove_session_p (c : string) (ep : Z) : P unit :=
  removed ← remove_if_epoch_p c ep;
  if (removed : bool) then forget_p c else mret tt.

Definition cleanup_p (c : string) (ep : Z) (clean : bool) (now : Instant) : P unit :=
  if clean then remove_session_p c ep
  else
    _ ← change_sessions (λ s, mark_offline s c ep now);
    mine ← ask (λ w, owns (sh_sessions w) c ep);
    if negb mine then mret tt
    else
      expired ← ask (λ w, is_session_expired (sh_sessions w) c now);
      if (expired : bool) then remove_session_p c ep else persist_p c.

Definition fire_will_p (c : string) (ep : Z) (now : Instant) : P unit :=
  mine ← ask (λ w, owns (sh_sessions w) c ep);
  if (mine : bool) then
    will ← on_sessions (λ s, take_will s c ep);
    match will with
    | Some will => publish_p (wm_topic will) (wm_message will) (wm_qos will) (wm_retain will) (Some c) now
    | None => mret tt
    end
  else mret tt.

Definition on_abnormal_disconnect_p (c : string) (ep : Z) (clean : bool) (now : Instant) : P unit :=
  _ ← fire_will_p c ep now;
  cleanup_p c ep clean now.

Definition register_p (c : string) (clean_session_ : bool) (tx_ : Sender) (will_ : option WillMessage) (level : Z)
    (peer : SocketAddr) (expiry : option Z) (now : Instant) : P (Z * bool * list OutboundPublish) :=
  epoch_ ← on_sessions next_epoch;
  limits ← ask (λ w, (max_offline_messages (sh_sessions w), offline_message_ttl (sh_sessions w)));
  let new_entry :=
    if clean_session_ then clean c tx_ will_ level peer epoch_ now
    else persistent c tx_ will_ level peer epoch_ limits.1 limits.2 expiry now in
  r ← on_sessions (λ s, insert_entry s c new_entry now);
  let '(present, drained, inc_online) := r in
  _ ← (if inc_online : bool then change_sessions online_inc else mret tt);
  mret (epoch_, present, drained).

Fixpoint remove_expired_p (ids : list string) (now : Instant) : P (list string) :=
  match ids with
  | [] => mret []
  | id :: ids =>
      still ← ask (λ w, is_still_expired (sh_sessions w) id now);
      _ ← (if still : bool then change_sessions (λ s, remove_entry s id) else mret tt);
      removed ← remove_expired_p ids now;
      mret (if (still : bool) then id :: removed else removed)
  end.

Definition sweep_p (now : Instant) : P unit :=
  ids ← ask (λ w, expired_ids (sh_sessions w) now);
  removed ← remove_expired_p ids now;
  for_all (λ c, _ ← forget_p c; metric inc_sessions_expired) removed.

(** ** Jobs *)

(** What the tasks of the process do to the shared state. *)
Inductive Job :=
  | JPublish (publisher : option string) (topic : string) (payload : list Z) (qos : QoS) (retain : bool) (now : Instant)
  | JSubscribe (c f : string) (q : QoS)
  | JUnsubscribe (c f : string)
  | JJoin (c : string) (clean : bool) (cap : nat) (will : option WillMessage) (level : Z) (peer : SocketAddr)
      (expiry : option Z) (now : Instant)
  | JLeave (c : string) (ep : Z) (clean : bool) (now : Instant)
  | JPersist (c : string)
  | JSweep (now : Instant).

Definition open_channel (cap : nat) (w : Shared M S) : option (Sender * Shared M S) :=
  let '(tx, ch) := channel (sh_chans w) cap in Some (tx, w <| sh_chans := ch |>).

Definition job_prog (j : Job) : P unit :=
  match j with
  | JPublish publisher topic payload qos retain now => publish_p topic payload qos retain publisher now
  | JSubscribe c f q => _ ← subscribe_p c f q; mret tt
  | JUnsubscribe c f => _ ← unsubscribe_p c f; mret tt
  | JJoin c clean cap will level peer expiry now =>
      tx ← act (open_channel cap);
      _ ← register_p c clean tx will level peer expiry now; mret tt
  | JLeave c ep clean now => on_abnormal_disconnect_p c ep clean now
  | JPersist c => persist_p c
  | JSweep now => sweep_p now
  end.

(** The same in one piece. *)
Definition job_step (j : Job) (w : Shared M S) : option (Shared M S) :=
  match j with
  | JPublish publisher topic payload qos retain now => publish w topic payload qos retain publisher now
  | JSubscribe c f q =>
      Some match subscribe (sh_subscriptions w) c f q with Ok t => w <| sh_subscriptions := t |> | Err _ => w end
  | JUnsubscribe c f => Some (w <| sh_subscriptions ::= λ t, (unsubscribe t c f).2 |>)
  | JJoin c clean cap will level peer expiry now =>
      let '(tx, ch) := channel (sh_chans w) cap in
      Some (w <| sh_chans := ch |>
              <| sh_sessions ::= λ s, (register s c clean tx will level peer expiry now).2 |>)
  | JLeave c ep clean now => on_abnormal_disconnect w c ep clean now
  | JPersist c => Some (persist_session_snapshot w c)
  | JSweep now => Some (sweep w now)
  end.
End Jobs.
