(* ===== verification/InterleaveTree.v ===== *)
(** * The subscription tree between two locks

    The three tables of the tree are changed one after the other, so that between
    two sections the index need not agree with them.  What every section keeps
    ([tables_inv]), and what it does to the subscriptions of each client. *)

From S2P Require Import Prelude Packet Subscription SubscriptionProofs SubscriptionTheorems Interleave.

(** ** What holds at all times *)

Record tables_inv (t : SubscriptionTree) : Prop := {
  tb_wf : node_wf (root t);
  tb_paths segs c q : sub_at (root t) segs !! c = Some q →
    ∃ f, segs = str_split slash f ∧ validate_filter f = Ok tt ∧ parse_shared_filter f = None;
  tb_keys k e : shared t !! k = Some e → ∃ f, parse_shared_filter f = Some k;
}.

Lemma tree_tables t : tree_inv t → tables_inv t.
Proof. intros [Hwf Hp Hs _]. split; [done..|]. intros [g rf] e He. by apply Hs in He as (_ & _ & _ & ?). Qed.

Lemma tables_insert c f q t :
  parse_shared_filter f = None → validate_filter f = Ok tt → tables_inv t → tables_inv (tree_insert c f q t).
Proof.
  intros Ef Ev [Hwf Hp Hk]. split; cbn; [by apply node_wf_insert_path| |done].
  intros segs c' q'. rewrite sub_at_insert_path. destruct (decide (segs = _)) as [->|]; [by exists f|apply Hp].
Qed.

Lemma tables_join c f k q t : parse_shared_filter f = Some k → tables_inv t → tables_inv (tree_join c k q t).
Proof.
  intros Ef [Hwf Hp Hk]. split; [done..|]. cbn. intros k' e. destruct (decide (k' = k)) as [->|Hne]; [by exists f|].
  rewrite lookup_insert_ne by done. apply Hk.
Qed.

Lemma tables_remove c f t : tables_inv t → tables_inv (tree_remove c f t).2.
Proof.
  intros [Hwf Hp Hk]. unfold tree_remove. pose proof (node_wf_remove (str_split slash f) _ c Hwf) as Hwf'.
  destruct (remove_recursive (root t) (str_split slash f) c) as [r node] eqn:E.
  apply remove_recursive_spec in E as [_ Hsub]. split; cbn; [done| |done]. intros segs c0 q. rewrite Hsub.
  destruct (decide _) as [->|]; [|apply Hp]. rewrite lookup_delete_Some. intros [_ ?]. by eapply Hp.
Qed.

Lemma tables_leave c k t : tables_inv t → tables_inv (tree_leave c k t).2.
Proof.
  intros [Hwf Hp Hk]. unfold tree_leave. destruct (shared t !! k) as [e|] eqn:E; [|by split]. split; [done..|].
  intros k' e'. cbn. destruct (decide (k' = k)) as [->|Hne]; [intros _; by eapply Hk|].
  destruct (_ && _); rewrite ?lookup_delete_ne, ?lookup_insert_ne by done; apply Hk.
Qed.

Lemma tables_clear c t : tables_inv t → tables_inv (tree_clear c t).
Proof.
  intros [Hwf Hp Hk]. split; cbn; [by apply node_wf_remove_all| |done].
  intros segs c' q. rewrite sub_at_remove_all, lookup_delete_Some. intros [_ ?]. by eapply Hp.
Qed.

Lemma tables_groups_clear c keys t : tables_inv t → tables_inv (groups_clear c keys t).
Proof.
  intros [Hwf Hp Hk]. split; [done..|]. cbn. intros k e. rewrite foldl_remove_shared.
  destruct (decide _); [|apply Hk]. destruct (shared t !! k) as [e1|] eqn:E; [|done]. intros _. by eapply Hk.
Qed.

Lemma tables_index t f : tables_inv t → tables_inv (t <| reverse ::= f |>).
Proof. by intros [Hwf Hp Hk]. Qed.

Lemma tables_shared t topic : tables_inv t → tables_inv (matches_shared t topic).1.
Proof.
  intros [Hwf Hp Hk]. destruct (decide (topic = ""%string)) as [->|Ht]; [done|].
  destruct (matches_shared_eq t topic Ht) as (_ & Hr & _ & Hsh). split; rewrite ?Hr; [done..|].
  intros k e. rewrite Hsh. destruct (shared t !! k) as [e0|] eqn:E; [|done]. intros _. by eapply Hk.
Qed.

(** ** What a section does to the subscriptions *)

Lemma lookup_insert_tree c f q t c' f' :
  parse_shared_filter f = None →
  sub_lookup (tree_insert c f q t) c' f' = if decide (c' = c ∧ f' = f) then Some q else sub_lookup t c' f'.
Proof.
  intros Ef. unfold sub_lookup, tree_insert. cbn. destruct (parse_shared_filter f') as [k|] eqn:Ef'.
  { rewrite decide_False; [done|]. naive_solver. }
  rewrite sub_at_insert_path. destruct (decide (_ = _)) as [Hs%str_split_inj|Hs].
  - subst f'. destruct (decide (c' = c)) as [->|Hne].
    + rewrite decide_True by done. apply lookup_insert_eq.
    + rewrite decide_False by naive_solver. by apply lookup_insert_ne.
  - rewrite decide_False; [done|]. naive_solver.
Qed.

Lemma lookup_join c f k q t c' f' :
  parse_shared_filter f = Some k →
  sub_lookup (tree_join c k q t) c' f' = if decide (c' = c ∧ f' = f) then Some q else sub_lookup t c' f'.
Proof.
  intros Ef. unfold sub_lookup, tree_join. cbn. destruct (parse_shared_filter f') as [k'|] eqn:Ef'.
  2:{ rewrite decide_False; [done|]. naive_solver. }
  destruct (decide (k' = k)) as [->|Hk].
  - assert (f' = f) as -> by by eapply parse_shared_filter_inj. rewrite lookup_insert_eq. cbn.
    destruct (decide (c' = c)) as [->|Hne].
    + rewrite decide_True by done. apply lookup_insert_eq.
    + rewrite decide_False by naive_solver. rewrite lookup_insert_ne by done.
      destruct (shared t !! k); cbn; [done|]. apply lookup_empty.
  - rewrite decide_False by naive_solver. by rewrite lookup_insert_ne.
Qed.

Lemma lookup_remove c f t c' f' :
  parse_shared_filter f = None →
  (tree_remove c f t).1 = bool_decide (is_Some (sub_lookup t c f)) ∧
  sub_lookup (tree_remove c f t).2 c' f' = if decide (c' = c ∧ f' = f) then None else sub_lookup t c' f'.
Proof.
  intros Ef. unfold sub_lookup, tree_remove. destruct (remove_recursive (root t) (str_split slash f) c) as [r node] eqn:E.
  apply remove_recursive_spec in E as [-> Hs]. rewrite Ef. split; [done|]. cbn.
  destruct (parse_shared_filter f') as [k|] eqn:Ef'.
  { rewrite decide_False; [done|]. naive_solver. }
  rewrite Hs. destruct (decide (_ = _)) as [Hss%str_split_inj|Hss].
  - subst f'. destruct (decide (c' = c)) as [->|Hne].
    + rewrite decide_True by done. apply lookup_delete_eq.
    + rewrite decide_False by naive_solver. by apply lookup_delete_ne.
  - rewrite decide_False; [done|]. naive_solver.
Qed.

Lemma lookup_leave c f k t c' f' :
  parse_shared_filter f = Some k →
  (tree_leave c k t).1 = bool_decide (is_Some (sub_lookup t c f)) ∧
  sub_lookup (tree_leave c k t).2 c' f' = if decide (c' = c ∧ f' = f) then None else sub_lookup t c' f'.
Proof.
  intros Ef. unfold sub_lookup, tree_leave. rewrite Ef. destruct (shared t !! k) as [e|] eqn:Ee.
  2:{ split; [done|]. cbn. destruct (decide (c' = c ∧ f' = f)) as [[-> ->]|]; [|done]. by rewrite Ef, Ee. }
  split; [done|]. cbn. destruct (parse_shared_filter f') as [k'|] eqn:Ef'.
  2:{ rewrite decide_False; [done|]. naive_solver. }
  set (sh := if _ && bool_decide (_ = ∅) then delete k else _).
  destruct (decide (k' = k)) as [->|Hk].
  - assert (f' = f) as -> by by eapply parse_shared_filter_inj. rewrite Ee. cbn.
    assert (Hm : (e ← sh (shared t) !! k; members e !! c') = delete c (members e) !! c').
    { subst sh. destruct (_ && _) eqn:Eb; simplify_map_eq; [|done].
      apply andb_prop in Eb as [_ ->%bool_decide_eq_true]. done. }
    rewrite Hm. destruct (decide (c' = c)) as [->|Hne].
    + rewrite decide_True by done. apply lookup_delete_eq.
    + rewrite decide_False by naive_solver. by apply lookup_delete_ne.
  - rewrite decide_False by naive_solver. subst sh. by destruct (_ && _); simplify_map_eq.
Qed.

Lemma lookup_clear c t c' f' :
  sub_lookup (tree_clear c t) c' f' =
  if decide (c' = c ∧ parse_shared_filter f' = None) then None else sub_lookup t c' f'.
Proof.
  unfold sub_lookup, tree_clear. cbn. destruct (parse_shared_filter f') as [k|] eqn:Ef.
  { rewrite decide_False; [done|]. naive_solver. }
  rewrite sub_at_remove_all. destruct (decide (c' = c)) as [->|Hne].
  - rewrite decide_True by done. apply lookup_delete_eq.
  - rewrite decide_False by naive_solver. by apply lookup_delete_ne.
Qed.

Lemma drop_member_lookup c e c' :
  (e ← drop_member c e; members e !! c') = if decide (c' = c) then None else members e !! c'.
Proof.
  unfold drop_member. cbn. case_bool_decide as Hem; cbn; destruct (decide (c' = c)) as [->|Hne]; try done.
  - by rewrite <-(lookup_delete_ne _ c c'), Hem, lookup_empty by done.
  - apply lookup_delete_eq.
  - by apply lookup_delete_ne.
Qed.

(** The filter is that of one of these groups. *)
Definition in_keys (keys : list (string * string)) (f : string) : bool :=
  match parse_shared_filter f with Some k => bool_decide (k ∈ keys) | None => false end.

Lemma lookup_groups_clear c keys t c' f' :
  sub_lookup (groups_clear c keys t) c' f' =
  if decide (c' = c ∧ in_keys keys f' = true) then None else sub_lookup t c' f'.
Proof.
  unfold sub_lookup, groups_clear, in_keys. cbn. destruct (parse_shared_filter f') as [k|].
  2:{ rewrite decide_False; [done|]. naive_solver. }
  rewrite foldl_remove_shared. destruct (decide (k ∈ keys)) as [Hin|Hin].
  - rewrite (bool_decide_eq_true_2 _ Hin). destruct (shared t !! k) as [e|]; cbn; [rewrite drop_member_lookup|by destruct (decide _)].
    destruct (decide (c' = c)) as [->|Hne]; [by rewrite decide_True|]. rewrite decide_False; [done|]. naive_solver.
  - rewrite (bool_decide_eq_false_2 _ Hin), decide_False; [done|]. naive_solver.
Qed.

Lemma lookup_shared t topic c f : sub_lookup (matches_shared t topic).1 c f = sub_lookup t c f.
Proof.
  destruct (decide (topic = ""%string)) as [->|Ht]; [done|].
  destruct (matches_shared_eq t topic Ht) as (_ & Hr & _ & Hsh). unfold sub_lookup. rewrite Hr.
  destruct (parse_shared_filter f) as [k|]; [|done]. rewrite Hsh. destruct (shared t !! k) as [e|]; [|done]. cbn.
  unfold group_bump. by destruct (_ && _).
Qed.

(** ** What a client is sent *)

(** The plain matches of a client depend on its own subscriptions. *)
Lemma matches_own t1 t2 d topic :
  tables_inv t1 → tables_inv t2 → (∀ f, sub_lookup t1 d f = sub_lookup t2 d f) →
  filter (λ m, m.1 = d) (matches t1 topic) = filter (λ m, m.1 = d) (matches t2 topic).
Proof.
  intros [Hw1 Hp1 _] [Hw2 Hp2 _] Hl. destruct (decide (topic = ""%string)) as [->|Ht]; [done|].
  destruct (matches_spec t1 topic Hw1 Hp1 Ht) as [H1 Hn1], (matches_spec t2 topic Hw2 Hp2 Ht) as [H2 Hn2].
  assert (Heq : ∀ q, (d, q) ∈ matches t1 topic ↔ (d, q) ∈ matches t2 topic).
  { intros q. rewrite H1, H2. by setoid_rewrite Hl. }
  assert (Hone : ∀ l : list (string * QoS), NoDup l.*1 →
            filter (λ m, m.1 = d) l = [] ∨ ∃ q, filter (λ m, m.1 = d) l = [(d, q)]).
  { clear. induction l as [|[c q] l IH]; intros Hn; [by left|]. apply NoDup_cons in Hn as [Hnot Hn].
    destruct (decide (c = d)) as [->|Hne]; [|by rewrite filter_cons_False; [apply IH|]]. right. exists q.
    rewrite filter_cons_True by done. f_equal.
    destruct (IH Hn) as [->|[q' Hq]]; [done|]. exfalso. apply Hnot. apply list_elem_of_fmap. exists (d, q').
    split; [done|]. assert (Hin : (d, q') ∈ filter (λ m, m.1 = d) l) by (rewrite Hq; left).
    by apply list_elem_of_filter in Hin as [_ ?]. }
  assert (Hin : ∀ l : list (string * QoS), ∀ q, (d, q) ∈ filter (λ m, m.1 = d) l ↔ (d, q) ∈ l).
  { intros l q. rewrite list_elem_of_filter. naive_solver. }
  destruct (Hone _ Hn1) as [E1|[q1 E1]], (Hone _ Hn2) as [E2|[q2 E2]]; rewrite E1, E2; [done|..].
  - assert (H : (d, q2) ∈ filter (λ m, m.1 = d) (matches t1 topic)) by (rewrite Hin, Heq, <-Hin, E2; left).
    by rewrite E1, elem_of_nil in H.
  - assert (H : (d, q1) ∈ filter (λ m, m.1 = d) (matches t2 topic)) by (rewrite Hin, <-Heq, <-Hin, E1; left).
    by rewrite E2, elem_of_nil in H.
  - assert (H : (d, q1) ∈ filter (λ m, m.1 = d) (matches t2 topic)) by (rewrite Hin, <-Heq, <-Hin, E1; left).
    rewrite E2 in H. apply list_elem_of_singleton in H. congruence.
Qed.

(** A client that is in no group is not picked by one. *)
Lemma shared_not_picked t d topic :
  (∀ k e, shared t !! k = Some e → members e !! d = None) →
  filter (λ m, m.1 = d) (matches_shared t topic).2 = [].
Proof.
  intros Hno. destruct (decide (topic = ""%string)) as [->|Ht]; [done|].
  destruct (matches_shared_eq t topic Ht) as (-> & _).
  destruct (filter _ _) as [|[c q] l] eqn:E; [done|]. exfalso.
  assert (Hin : (c, q) ∈ filter (λ m, m.1 = d) (omap (group_pick topic) (map_to_list (shared t)))) by (rewrite E; left).
  apply list_elem_of_filter in Hin as [Hc Hin]. cbn in Hc. subst c.
  apply list_elem_of_omap in Hin as ([k e] & Hke & Hp). apply elem_of_map_to_list in Hke. unfold group_pick in Hp.
  destruct (_ && _); [|done]. cbn in Hp. unfold select_member in Hp.
  apply list_elem_of_lookup_2 in Hp. rewrite sorted_members_perm, elem_of_map_to_list in Hp. by rewrite (Hno _ _ Hke) in Hp.
Qed.
