(* ===== verification/InterleaveProofs.v ===== *)
(** * The handlers, lock by lock: without interference

    Run on its own, a program of [Interleave] does what the handler in one piece
    does. *)

From S2P Require Import Prelude Packet Messages OfflineQueue Subscription Storage Metrics.
From S2P Require Import Retain Session Router Lifecycle Threads Interleave.

Section Alone.
Context {M : Mpsc} {R : MpscRx M} {S : Sled} {JR : Json RetainedMessage} {JS : Json SessionSnapshot}
  {JO : Json OutboundPublish}.
Implicit Types w : Shared M S.

(** A program that computes a function. *)
Abbreviation does p f := (∀ w, run_prog p w = (λ w', (tt, w')) <$> f w).

Lemma run_on_sessions {X} (f : SessionManager M → X * SessionManager M) w :
  run_prog (on_sessions (S := S) f) w = Some ((f (sh_sessions w)).1, w <| sh_sessions := (f (sh_sessions w)).2 |>).
Proof. unfold on_sessions. rewrite run_act. by destruct (f _). Qed.

Lemma run_on_tree {X} (f : SubscriptionTree → X * SubscriptionTree) w :
  run_prog (on_tree f) w = Some ((f (sh_subscriptions w)).1, w <| sh_subscriptions := (f (sh_subscriptions w)).2 |>).
Proof. unfold on_tree. rewrite run_act. by destruct (f _). Qed.

Lemma run_change_sessions f w : run_prog (change_sessions (S := S) f) w = Some (tt, w <| sh_sessions ::= f |>).
Proof. done. Qed.
Lemma run_change_tree f w : run_prog (change_tree f) w = Some (tt, w <| sh_subscriptions ::= f |>).
Proof. done. Qed.
Lemma run_metric f w : run_prog (metric f) w = Some (tt, w <| sh_metrics ::= f |>).
Proof. done. Qed.
Lemma run_storage {B} (op : SE (Storage S * Metrics) BrokerError B) w : run_prog (storage op) w = Some (tt, try_storage op w).
Proof. done. Qed.

Lemma run_mret {X} (x : X) w : run_prog (mret x) w = Some (x, w).
Proof. done. Qed.

Lemma run_for_all {X} (f : X → Prog (Shared M S) unit) (g : X → Shared M S → option (Shared M S)) l w :
  (∀ x w, run_prog (f x) w = (tt,.) <$> g x w) →
  run_prog (for_all f l) w = (tt,.) <$> foldl (λ o x, w ← o; g x w) (Some w) l.
Proof.
  intros H. revert w. induction l as [|x l IH]; intros w; cbn [for_all foldl]; [done|].
  rewrite run_bind, H. cbn [mbind option_bind]. destruct (g x w) as [w1|]; cbn [fmap option_fmap option_map mbind option_bind]; [apply IH|].
  clear. induction l as [|y l IH]; [done|]. exact IH.
Qed.

Ltac sections := repeat (rewrite ?run_bind, ?run_on_sessions, ?run_on_tree, ?run_ask, ?run_change_sessions, ?run_change_tree,
    ?run_metric, ?run_storage, ?run_mret, ?run_act; cbn [mbind option_bind]).

(** ** Delivery *)

Lemma run_enqueue_or cid e msg now o w :
  sessions (sh_sessions w) !! cid = Some e →
  run_prog (enqueue_or_p ((λ _, mkHandle cid (epoch e)) <$> offline_queue e) msg now o) w =
  '(o, sess, ch) ← enqueue_or (sh_sessions w) cid e msg now (sh_chans w) o;
  Some (o, w <| sh_sessions := sess |> <| sh_chans := ch |>).
Proof.
  intros E. unfold enqueue_or_p, enqueue_or. destruct (offline_queue e) as [q|] eqn:Eq; cbn [fmap option_fmap option_map].
  2:{ cbn. by destruct w. }
  sections. unfold enqueue_at. cbn [h_client h_epoch]. rewrite E, Z.eqb_refl, Eq.
  destruct (enqueue_into _ _ _ _ _) as [self|]; [|done]. cbn. by destruct w.
Qed.

Lemma run_deliver cid msg now w :
  run_prog (deliver_or_enqueue_p cid msg now) w =
  '(o, sess, ch) ← deliver_or_enqueue (sh_sessions w) cid msg now (sh_chans w);
  Some (o, w <| sh_sessions := sess |> <| sh_chans := ch |>).
Proof.
  unfold deliver_or_enqueue_p, deliver_or_enqueue. sections. unfold read_handles.
  destruct (sessions (sh_sessions w) !! cid) as [e|] eqn:E; cbn [mbind option_bind]; [|cbn; by destruct w].
  destruct (connected e); [|by rewrite run_enqueue_or].
  sections. unfold send_on. destruct (try_send (sh_chans w) (tx e) msg) as [r ch]. cbn [mbind option_bind].
  destruct r as [|m|m]; [cbn; by destruct w|..].
  all: rewrite run_enqueue_or by done; cbn [sh_sessions sh_chans upd]; by destruct (enqueue_or _ _ _ _ _ _ _) as [[[o s] ch']|].
Qed.

Lemma run_deliver_one c topic payload pub sub now :
  does (deliver_one_p c topic payload pub now sub) (λ w, deliver_one w c topic payload pub sub now).
Proof.
  intros w. unfold deliver_one_p, deliver_one. rewrite run_bind, run_deliver.
  destruct (deliver_or_enqueue _ _ _ _ _) as [[[o s] ch]|]; [|done]. cbn [mbind option_bind]. by destruct o.
Qed.

Lemma run_targets exclude topic payload qos now targets :
  does (for_all (deliver_target exclude topic payload qos now) targets)
    (λ w, deliver_each w targets exclude topic payload qos now).
Proof.
  intros w. revert w. induction targets as [|[c q] targets IH]; intros w; cbn [for_all deliver_each]; [done|].
  rewrite run_bind. change (deliver_target exclude topic payload qos now (c, q)) with
    (if bool_decide (exclude = Some c) then mret tt else deliver_one_p (S := S) c topic payload qos now q).
  case_bool_decide; [apply IH|]. rewrite run_deliver_one. destruct (deliver_one _ _ _ _ _ _ _) as [w1|]; [apply IH|done].
Qed.

Lemma run_publish topic payload qos retain exclude now :
  does (publish_p topic payload qos retain exclude now) (λ w, publish w topic payload qos retain exclude now).
Proof.
  intros w. unfold publish_p, publish. rewrite run_bind.
  replace (run_prog _ w) with (Some (tt, store_retained w topic payload qos retain)) by by destruct retain.
  sections. rewrite run_targets. by destruct (matches_shared _ topic).
Qed.

(** ** Subscriptions *)

Lemma run_subscribe c f q w :
  run_prog (subscribe_p c f q) w =
  Some (match subscribe (sh_subscriptions w) c f q with Ok _ => Ok tt | Err e => Err e end,
        match subscribe (sh_subscriptions w) c f q with Ok t => w <| sh_subscriptions := t |> | Err _ => w end).
Proof.
  unfold subscribe_p, subscribe. destruct (parse_shared_filter f) as [[g rf]|].
  - destruct (validate_filter rf); [|done]. sections. done.
  - destruct (validate_filter f); [|done]. sections. done.
Qed.

Lemma run_unsubscribe c f w :
  run_prog (unsubscribe_p c f) w =
  Some ((unsubscribe (sh_subscriptions w) c f).1, w <| sh_subscriptions ::= λ t, (unsubscribe t c f).2 |>).
Proof.
  unfold unsubscribe_p, unsubscribe. sections. destruct (parse_shared_filter f) as [[g rf]|].
  - unfold tree_leave. cbn. destruct (shared _ !! (g, rf)) as [e|]; [|by destruct w as [[]]]. cbn.
    by case_bool_decide; cbn; [case_bool_decide|].
  - unfold tree_remove. cbn. destruct (remove_recursive _ _ _) as [[] r]; cbn; by destruct w as [[]].
Qed.

Lemma run_unsubscribe_all c :
  does (unsubscribe_all_p c) (λ w, Some (w <| sh_subscriptions ::= λ t, unsubscribe_all t c |>)).
Proof. intros w. unfold unsubscribe_all_p. sections. done. Qed.

(** ** Sessions *)

Lemma run_forget c : does (forget_p c) (λ w, Some (forget_session w c)).
Proof. intros w. unfold forget_p. rewrite run_bind, run_unsubscribe_all. done. Qed.

Lemma run_persist c : does (persist_p c) (λ w, Some (persist_session_snapshot w c)).
Proof.
  intros w. unfold persist_p, persist_session_snapshot. sections. destruct (sh_storage w) eqn:Es; [|done].
  sections. destruct (is_clean_session _ _); [done|]. sections. by destruct (subscriptions_of _ _).
Qed.

Lemma run_remove_session c ep :
  does (remove_session_p c ep) (λ w, Some match remove_if_epoch (sh_sessions w) c ep with
                                          | (None, _) => w
                                          | (Some _, sess) => forget_session (w <| sh_sessions := sess |>) c
                                          end).
Proof.
  intros w. unfold remove_session_p, remove_if_epoch_p. sections. unfold take_entry, remove_if_epoch.
  destruct (sessions _ !! c) as [v|]; [|cbn; by destruct w]. destruct (epoch v =? ep); [|cbn; by destruct w].
  cbn [fst snd]. destruct (connected v); sections; exact (run_forget _ _).
Qed.

Lemma run_cleanup c ep clean now : does (cleanup_p c ep clean now) (λ w, Some (cleanup w c ep clean now)).
Proof.
  intros w. unfold cleanup_p, cleanup. destruct clean; [apply run_remove_session|]. sections.
  set (w1 := w <| sh_sessions ::= _ |>). change (upd sh_sessions _ w) with w1. cbn zeta.
  destruct (owns (sh_sessions w1) c ep); cbn [negb]; [|done]. sections.
  destruct (is_session_expired (sh_sessions w1) c now); [apply run_remove_session|apply run_persist].
Qed.

Lemma run_fire_will c ep now : does (fire_will_p c ep now) (λ w, fire_will w c ep now).
Proof.
  intros w. unfold fire_will_p, fire_will. sections. destruct (owns _ _ _); [|done]. sections.
  destruct (take_will _ _ _) as [[will|] sess]; cbn [fst snd]; [apply run_publish|done].
Qed.

Lemma run_abnormal c ep clean now :
  does (on_abnormal_disconnect_p c ep clean now) (λ w, on_abnormal_disconnect w c ep clean now).
Proof.
  intros w. unfold on_abnormal_disconnect_p, on_abnormal_disconnect. rewrite run_bind, run_fire_will.
  destruct (fire_will _ _ _ _) as [w1|]; [|done]. cbn [fmap option_fmap option_map mbind option_bind]. apply run_cleanup.
Qed.

Lemma run_register c clean_ tx_ will_ level peer expiry now w :
  run_prog (register_p c clean_ tx_ will_ level peer expiry now) w =
  Some ((register (sh_sessions w) c clean_ tx_ will_ level peer expiry now).1,
        w <| sh_sessions ::= λ s, (register s c clean_ tx_ will_ level peer expiry now).2 |>).
Proof.
  unfold register_p. sections. unfold insert_entry, register, next_epoch. cbn.
  destruct (sessions (sh_sessions w) !! c) as [old|]; [|by destruct clean_]. cbn.
  destruct clean_, (clean_session old), (connected old); cbn; by destruct (offline_queue old).
Qed.

Lemma run_remove_expired ids now removed w :
  run_prog (remove_expired_p ids now) w =
  let st := foldl (cleanup_one now) (sh_sessions w, removed) ids in
  Some (drop (length removed) st.2, w <| sh_sessions := st.1 |>).
Proof.
  cbn zeta. revert removed w. induction ids as [|id ids IH]; intros removed w; cbn [remove_expired_p foldl].
  { cbn. rewrite drop_all. by destruct w. }
  sections. unfold cleanup_one at 2 4. destruct (is_still_expired (sh_sessions w) id now); sections.
  - rewrite (IH (removed ++ [id])). cbn [mbind option_bind sh_sessions upd]. cbn.
    enough (H : ∀ st, removed ++ [id] `prefix_of` st.2 → removed ++ [id] `prefix_of` (foldl (cleanup_one now) st ids).2).
    { destruct (H (remove_entry (sh_sessions w) id, removed ++ [id])) as [l E]; [done|]. cbn in E. rewrite E.
      rewrite drop_app_length, <-app_assoc, drop_app_length. done. }
    clear. induction ids as [|i ids IH]; intros st Hst; cbn [foldl]; [done|]. apply IH. destruct st as [s r]. cbn.
    destruct (is_still_expired _ _ _); [|done]. cbn. by apply prefix_app_r.
  - rewrite (IH removed). done.
Qed.

Lemma run_sweep now : does (sweep_p now) (λ w, Some (sweep w now)).
Proof.
  intros w. unfold sweep_p, sweep, cleanup_expired. sections. rewrite (run_remove_expired _ _ []). cbn zeta.
  destruct (foldl (cleanup_one now) _ _) as [sess expired]. cbn [fst snd length mbind option_bind]. rewrite drop_0.
  rewrite (run_for_all _ (λ c w, Some (sweep_one w c))).
  - f_equal. generalize (w <| sh_sessions := sess |>). induction expired as [|c l IH]; intros w'; [done|]. apply IH.
  - intros c w'. rewrite run_bind, run_forget. done.
Qed.
End Alone.
