(* ===== verification/InterleaveTheorems.v ===== *)
(** * Concurrent handlers: equivalence and isolation

    A handler that is not disturbed does what it does in one piece; and whatever
    the handlers of others do between its sections, a client's subscriptions are
    what its own commands make of them. *)

From S2P Require Import Prelude Packet Messages OfflineQueue Subscription SubscriptionProofs.
From S2P Require Import SubscriptionTheorems Storage StorageProofs Metrics Retain Session SessionProofs SessionTheorems.
From S2P Require Import Router RouterTheorems Lifecycle LifecycleTheorems Threads Interleave InterleaveTree InterleaveProofs.

Section Concurrent.
Context {M : Mpsc} {R : MpscRx M} {S : Sled} {JR : Json RetainedMessage} {JS : Json SessionSnapshot}
  {JO : Json OutboundPublish}.
Implicit Types w : Shared M S.

(** C7: The handlers, split into their sections under locks, compose to the
    handlers in one piece: run without interference, the program of every job
    (publish, subscribe, unsubscribe, join, leave, persist, sweep) does to the
    shared state what the job does in one step, and returns when and only when
    that does; registration, subscription and unsubscription give the same
    answers. *)
Theorem sections_compose w :
  (∀ j, run_prog (job_prog j) w = (tt,.) <$> job_step j w) ∧
  (∀ c clean_ tx_ will_ level peer expiry now,
     fst <$> run_prog (register_p c clean_ tx_ will_ level peer expiry now) w =
     Some (register (sh_sessions w) c clean_ tx_ will_ level peer expiry now).1) ∧
  (∀ c f q, fst <$> run_prog (subscribe_p c f q) w =
     Some match subscribe (sh_subscriptions w) c f q with Ok _ => Ok tt | Err e => Err e end) ∧
  (∀ c f, fst <$> run_prog (unsubscribe_p c f) w = Some (unsubscribe (sh_subscriptions w) c f).1).
Proof.
  split; [|split; [|split]].
  - intros []; cbn [job_prog job_step]; [apply run_publish|..].
    + rewrite run_bind, run_subscribe. done.
    + rewrite run_bind, run_unsubscribe. done.
    + rewrite run_bind, run_act. unfold open_channel. destruct (channel _ _) as [tx ch]. cbn [mbind option_bind].
      rewrite run_bind, run_register. done.
    + apply run_abnormal.
    + apply run_persist.
    + apply run_sweep.
  - intros. by rewrite run_register.
  - intros. by rewrite run_subscribe.
  - intros. by rewrite run_unsubscribe.
Qed.

(** ** Isolation *)

(** Two trees agree on the subscriptions of a client. *)
Definition same_subs (c : string) (t1 t2 : SubscriptionTree) : Prop :=
  (∀ f, sub_lookup t1 c f = sub_lookup t2 c f) ∧ reverse t1 !! c = reverse t2 !! c.

#[export] Instance same_subs_equiv c : Equivalence (same_subs c).
Proof.
  split; [done| |].
  - intros t1 t2 [H1 H2]. by split.
  - intros t1 t2 t3 [H1 H2] [H3 H4]. split; [intros f; by rewrite H1|by rewrite H2].
Qed.

Definition sim c w1 w2 : Prop := same_subs c (sh_subscriptions w1) (sh_subscriptions w2).
#[export] Instance sim_equiv c : Equivalence (sim c).
Proof.
  unfold sim. split; [by intros w|by intros w1 w2 ->|]. intros w1 w2 w3 H1 H2. by rewrite H1.
Qed.

(** A job that does not touch the subscriptions of the client. *)
Definition spares (c : string) (j : Job) : Prop :=
  match j with
  | JSubscribe c' _ _ | JUnsubscribe c' _ | JLeave c' _ _ _ => c' ≠ c
  | JSweep _ => False
  | JPublish _ _ _ _ _ _ | JJoin _ _ _ _ _ _ _ _ | JPersist _ => True
  end.

(** *** The sections of others *)

Abbreviation hidden c := (unseen (sim c)).

Lemma hidden_ask c {X} (f : Shared M S → X) : hidden c (ask f).
Proof. exact (unseen_ask (sim c) f). Qed.
Lemma hidden_sessions c {X} (f : SessionManager M → X * SessionManager M) : hidden c (on_sessions (S := S) f).
Proof. apply unseen_act. intros w x w'. destruct (f _). by intros [= _ <-]. Qed.
Lemma hidden_change_sessions c f : hidden c (change_sessions (S := S) f).
Proof. by apply unseen_change. Qed.
Lemma hidden_metric c f : hidden c (metric f).
Proof. by apply unseen_change. Qed.
Lemma hidden_storage c {B} (op : SE (Storage S * Metrics) BrokerError B) : hidden c (storage op).
Proof. by apply unseen_change. Qed.
Lemma hidden_tree c f : (∀ t, same_subs c t (f t)) → hidden c (change_tree f).
Proof. intros H. apply unseen_change. intros w. apply H. Qed.
Lemma hidden_on_tree c {X} (f : SubscriptionTree → X * SubscriptionTree) :
  (∀ t, same_subs c t (f t).2) → hidden c (on_tree f).
Proof.
  intros H. apply unseen_act. intros w x w'. pose proof (H (sh_subscriptions w)) as Hs.
  destruct (f (sh_subscriptions w)) as [y t]. by intros [= _ <-].
Qed.

Lemma hidden_enqueue_or c h msg now o : hidden c (enqueue_or_p (M := M) h msg now o).
Proof.
  unfold enqueue_or_p. destruct h as [h|]; [|done]. apply unseen_bind; [|done]. apply unseen_act. intros w x w'. unfold enqueue_at.
  assert (Ho : (if (max_offline_messages (sh_sessions w) =? 0)%nat then None else Some (tt, w)) = Some (x, w') → sim c w w').
  { destruct (_ =? _)%nat; [done|]. by intros [= _ <-]. }
  destruct (sessions _ !! _) as [e|]; [|done]. destruct (_ =? _); [|done]. destruct (offline_queue e); [|done].
  destruct (enqueue_into _ _ _ _ _); [|done]. by intros [= _ <-].
Qed.

Lemma hidden_deliver c cid msg now : hidden c (deliver_or_enqueue_p cid msg now).
Proof.
  unfold deliver_or_enqueue_p. apply unseen_bind; [apply hidden_ask|]. intros [[[b tx] q]|]; [destruct b|done]; [|apply hidden_enqueue_or].
  apply unseen_bind.
  - apply unseen_act. intros w x w'. unfold send_on. destruct (try_send _ _ _). by intros [= _ <-].
  - intros [|m|m]; [done|apply hidden_enqueue_or..].
Qed.

Lemma hidden_publish c topic payload qos retain exclude now : hidden c (publish_p topic payload qos retain exclude now).
Proof.
  unfold publish_p. apply unseen_bind.
  { destruct retain; [|done]. apply unseen_change. intros w. unfold store_retained. by destruct (Retain.set _ _ _ _ _). }
  intros _. apply unseen_bind; [apply hidden_ask|]. intros ms. apply unseen_bind.
  { apply hidden_on_tree. intros t. pose proof (lookup_shared t topic c) as Hl.
    destruct (decide (topic = ""%string)) as [->|Ht]; [done|]. destruct (matches_shared_eq t topic Ht) as (_ & _ & Hr & _).
    destruct (matches_shared t topic) as [t' sel]. cbn in *. split; [by intros f; rewrite Hl|by rewrite Hr]. }
  intros sm. apply unseen_for_all. intros [c' q] _. unfold deliver_target. cbn [fst snd]. case_bool_decide; [done|].
  unfold deliver_one_p. apply unseen_bind; [apply hidden_deliver|].
  intros []; first [done|apply hidden_metric|apply unseen_bind; [apply hidden_metric|intros _; apply hidden_storage]].
Qed.

(** The sections of another client on the tree. *)
Section Other.
Context (c c' : string).
Hypothesis Hne : c' ≠ c.

Ltac other := intros t; split; [intros f'|done]; symmetry.

Lemma other_insert f q : parse_shared_filter f = None → ∀ t, same_subs c t (tree_insert c' f q t).
Proof. intros Ef. other. rewrite lookup_insert_tree, decide_False; [done|naive_solver|done]. Qed.
Lemma other_join f k q : parse_shared_filter f = Some k → ∀ t, same_subs c t (tree_join c' k q t).
Proof. intros Ef. other. rewrite (lookup_join _ f), decide_False; [done|naive_solver|done]. Qed.
Lemma other_index_add f q t : same_subs c t (index_add c' f q t).
Proof. split; [done|]. cbn. unfold reverse_add. by rewrite lookup_insert_ne. Qed.
Lemma other_index_drop f t : same_subs c t (index_drop c' f t).
Proof.
  split; [done|]. cbn. unfold reverse_remove. destruct (reverse t !! c'); [|done].
  destruct (List.filter _ _); [by rewrite lookup_delete_ne|by rewrite lookup_insert_ne].
Qed.
Lemma other_remove f : parse_shared_filter f = None → ∀ t, same_subs c t (tree_remove c' f t).2.
Proof.
  intros Ef t. split; [|unfold tree_remove; by destruct (remove_recursive _ _ _)]. intros f'.
  destruct (lookup_remove c' f t c f' Ef) as [_ ->]. rewrite decide_False; [done|naive_solver].
Qed.
Lemma other_leave f k : parse_shared_filter f = Some k → ∀ t, same_subs c t (tree_leave c' k t).2.
Proof.
  intros Ef t. split; [|unfold tree_leave; by destruct (shared t !! k)]. intros f'.
  destruct (lookup_leave c' f k t c f' Ef) as [_ ->]. rewrite decide_False; [done|naive_solver].
Qed.
Lemma other_clear : ∀ t, same_subs c t (tree_clear c' t).
Proof. other. rewrite lookup_clear, decide_False; [done|naive_solver]. Qed.
Lemma other_groups_clear keys : ∀ t, same_subs c t (groups_clear c' keys t).
Proof. other. rewrite lookup_groups_clear, decide_False; [done|naive_solver]. Qed.
Lemma other_index_clear t : same_subs c t (index_clear c' t).
Proof. split; [done|]. cbn. by rewrite lookup_delete_ne. Qed.

Lemma hidden_subscribe f q : hidden c (subscribe_p (M := M) c' f q).
Proof.
  unfold subscribe_p. destruct (parse_shared_filter f) as [[g rf]|] eqn:Ef.
  - destruct (validate_filter rf); [|done]. apply unseen_bind; [apply hidden_tree; by eapply other_join|]. intros _.
    apply unseen_bind; [apply hidden_tree, other_index_add|done].
  - destruct (validate_filter f); [|done]. apply unseen_bind; [apply hidden_tree; by apply other_insert|]. intros _.
    apply unseen_bind; [apply hidden_tree, other_index_add|done].
Qed.

Lemma hidden_unsubscribe f : hidden c (unsubscribe_p (M := M) c' f).
Proof.
  unfold unsubscribe_p. apply unseen_bind.
  - apply hidden_on_tree. destruct (parse_shared_filter f) eqn:Ef; [by eapply other_leave|by apply other_remove].
  - intros []; (apply unseen_bind; [|done]); [|done]. apply hidden_tree, other_index_drop.
Qed.

Lemma hidden_forget : hidden c (forget_p c').
Proof.
  unfold forget_p, unsubscribe_all_p. apply unseen_bind; [|intros _; apply unseen_bind; [apply hidden_storage|intros _; apply hidden_storage]].
  apply unseen_bind; [apply hidden_tree, other_clear|]. intros _. apply unseen_bind; [apply hidden_ask|]. intros keys.
  apply unseen_bind; [apply hidden_tree, other_groups_clear|]. intros _. apply hidden_tree, other_index_clear.
Qed.

Lemma hidden_remove_session ep : hidden c (remove_session_p c' ep).
Proof.
  unfold remove_session_p, remove_if_epoch_p. apply unseen_bind; [|intros []; [apply hidden_forget|done]]. apply unseen_bind; [apply hidden_sessions|].
  intros [v|]; [|done]. apply unseen_bind; [|done]. destruct (connected v); [apply hidden_change_sessions|done].
Qed.

Lemma hidden_leave ep clean_ now : hidden c (on_abnormal_disconnect_p c' ep clean_ now).
Proof.
  unfold on_abnormal_disconnect_p, fire_will_p. apply unseen_bind.
  - apply unseen_bind; [apply hidden_ask|]. intros []; [|done]. apply unseen_bind; [apply hidden_sessions|].
    intros [will|]; [apply hidden_publish|done].
  - intros _. unfold cleanup_p, persist_p. destruct clean_; [apply hidden_remove_session|].
    apply unseen_bind; [apply hidden_change_sessions|]. intros _. apply unseen_bind; [apply hidden_ask|].
    intros []; cbn [negb]; [|done]. apply unseen_bind; [apply hidden_ask|]. intros []; [apply hidden_remove_session|].
    apply unseen_bind; [apply hidden_ask|]. intros [s|]; [|done]. apply unseen_bind; [apply hidden_ask|].
    intros []; [done|]. apply unseen_bind; [apply hidden_ask|]. intros [|]; [done|apply hidden_storage].
Qed.
End Other.

Lemma hidden_persist c c' : hidden c (persist_p c').
Proof.
  unfold persist_p. apply unseen_bind; [apply hidden_ask|]. intros [s|]; [|done]. apply unseen_bind; [apply hidden_ask|].
  intros []; [done|]. apply unseen_bind; [apply hidden_ask|]. intros [|]; [done|apply hidden_storage].
Qed.

Lemma hidden_job c j : spares c j → hidden c (job_prog j).
Proof.
  destruct j; cbn [spares job_prog]; intros Hs; [apply hidden_publish|..|done].
  - apply unseen_bind; [by apply hidden_subscribe|done].
  - apply unseen_bind; [by apply hidden_unsubscribe|done].
  - apply unseen_bind.
    { apply unseen_act. intros w x w'. unfold open_channel. destruct (channel _ _). by intros [= _ <-]. }
    intros tx. apply unseen_bind; [|done]. unfold register_p. apply unseen_bind; [apply hidden_sessions|]. intros ep.
    apply unseen_bind; [apply hidden_ask|]. intros lim. apply unseen_bind; [apply hidden_sessions|].
    intros [[pr dr] inc]. apply unseen_bind; [|done]. destruct inc; [apply hidden_change_sessions|done].
  - by apply hidden_leave.
  - apply hidden_persist.
Qed.

(** *** The sections of the client itself *)

(** The client's subscriptions are those of the tree [t]. *)
Definition agree c (t : SubscriptionTree) w : Prop := same_subs c (sh_subscriptions w) t.

Lemma agree_local c t : local (sim c) (agree c t).
Proof. intros w w' Hs H. unfold agree, sim in *. by rewrite <-Hs. Qed.

Section Self.
Context (c : string).
Implicit Types t : SubscriptionTree.

(** A section that sees no more of the tree than the client's subscriptions. *)
Definition own_section (g : SubscriptionTree → SubscriptionTree) : Prop :=
  ∀ t1 t2, same_subs c t1 t2 → same_subs c (g t1) (g t2).

Lemma own_insert f q : parse_shared_filter f = None → own_section (tree_insert c f q).
Proof. intros Ef t1 t2 [H1 H2]. split; [|done]. intros f'. by rewrite !lookup_insert_tree, H1. Qed.
Lemma own_join f k q : parse_shared_filter f = Some k → own_section (tree_join c k q).
Proof. intros Ef t1 t2 [H1 H2]. split; [|done]. intros f'. by rewrite !(lookup_join _ f), H1. Qed.
Lemma own_index_add f q : own_section (index_add c f q).
Proof. intros t1 t2 [H1 H2]. split; [done|]. cbn. unfold reverse_add. by rewrite !lookup_insert_eq, H2. Qed.
Lemma own_index_drop f : own_section (index_drop c f).
Proof.
  intros t1 t2 [H1 H2]. split; [done|]. cbn. unfold reverse_remove. rewrite <-H2.
  destruct (reverse t1 !! c) as [l|] eqn:E; [|congruence].
  destruct (List.filter _ _); [by rewrite !lookup_delete_eq|by rewrite !lookup_insert_eq].
Qed.

Definition leave_section (f : string) : SubscriptionTree → bool * SubscriptionTree :=
  match parse_shared_filter f with Some k => tree_leave c k | None => tree_remove c f end.

Lemma leave_section_reverse f t : reverse (leave_section f t).2 = reverse t.
Proof.
  unfold leave_section, tree_leave, tree_remove. destruct (parse_shared_filter f) as [k|].
  - by destruct (shared t !! k).
  - by destruct (remove_recursive _ _ _).
Qed.

Lemma leave_section_spec f t c' f' :
  (leave_section f t).1 = bool_decide (is_Some (sub_lookup t c f)) ∧
  sub_lookup (leave_section f t).2 c' f' = if decide (c' = c ∧ f' = f) then None else sub_lookup t c' f'.
Proof.
  unfold leave_section. destruct (parse_shared_filter f) as [k|] eqn:Ef; [by apply lookup_leave|by apply lookup_remove].
Qed.

Lemma own_leave f t1 t2 :
  same_subs c t1 t2 →
  (leave_section f t1).1 = (leave_section f t2).1 ∧ same_subs c (leave_section f t1).2 (leave_section f t2).2.
Proof.
  intros [H1 H2]. destruct (leave_section_spec f t1 c f) as [-> _], (leave_section_spec f t2 c f) as [-> _].
  rewrite H1. split; [done|]. split; [|by rewrite !leave_section_reverse].
  intros f'. destruct (leave_section_spec f t1 c f') as [_ ->], (leave_section_spec f t2 c f') as [_ ->]. by rewrite H1.
Qed.

Lemma unsubscribe_sections f t :
  unsubscribe t c f =
  let '(removed, t') := leave_section f t in (removed, if removed then index_drop c f t' else t').
Proof.
  unfold unsubscribe, leave_section, tree_leave, tree_remove. destruct (parse_shared_filter f) as [[g rf]|].
  - by destruct (shared t !! (g, rf)).
  - by destruct (remove_recursive _ _ _).
Qed.

Abbreviation owns_triple J p Q := (triple (sim c) J p Q).

Lemma triple_section g t : own_section g → owns_triple (agree c t) (change_tree g) (λ _, agree c (g t)).
Proof. intros Hg. apply triple_change; [apply agree_local|]. intros w H. by apply Hg. Qed.

Lemma own_subscribe f q t :
  owns_triple (agree c t) (job_prog (JSubscribe c f q)) (λ _, agree c (tree_step t (CSubscribe c f q)).1).
Proof.
  cbn [job_prog tree_step]. eapply (triple_bind _ _ _ _ (λ _, agree c (tree_step t (CSubscribe c f q)).1)); [|intros v2 w2 Hw; exact Hw].
  cbn [tree_step]. unfold subscribe_p, subscribe.
  destruct (parse_shared_filter f) as [[g rf]|] eqn:Ef.
  - destruct (validate_filter rf); [|intros w2 Hw; exact Hw]. eapply triple_bind; [by eapply triple_section, own_join|]. intros u.
    eapply triple_bind; [by apply triple_section, own_index_add|]. intros v2 w2 Hw; exact Hw.
  - destruct (validate_filter f); [|intros w2 Hw; exact Hw]. eapply triple_bind; [by apply triple_section, own_insert|]. intros u.
    eapply triple_bind; [by apply triple_section, own_index_add|]. intros v2 w2 Hw; exact Hw.
Qed.

Lemma own_unsubscribe f t :
  owns_triple (agree c t) (job_prog (JUnsubscribe c f)) (λ _, agree c (tree_step t (CUnsubscribe c f)).1).
Proof.
  cbn [job_prog tree_step]. rewrite unsubscribe_sections. destruct (leave_section f t) as [r t1] eqn:El. cbn [fst].
  eapply (triple_bind _ _ _ _ (λ _, agree c (if r then index_drop c f t1 else t1))); [|intros v2 w2 Hw; exact Hw].
  unfold unsubscribe_p. fold (leave_section f). eapply (triple_bind _ _ _ _ (λ b w, agree c t1 w ∧ b = r)).
  - apply triple_act.
    + intros b w w' Hs [H ->]. split; [by eapply agree_local|done].
    + intros w b w' H. destruct (own_leave f _ _ H) as [Hb Ht]. rewrite El in Hb, Ht.
      destruct (leave_section f (sh_subscriptions w)) as [b' t']. intros [= <- <-]. by split.
  - intros b. eapply triple_bind; [|intros v2 w2 Hw; exact Hw].
    destruct (decide (b = r)) as [->|Hne].
    + eapply (triple_weaken _ _ (agree c t1)); [|by intros w [? _]|intros v2 w2 H2; exact H2].
      destruct r; [apply triple_section, own_index_drop|intros w2 Hw; exact Hw].
    + eapply (triple_weaken _ _ (λ _, False)); [|intros w [_ ?]; congruence|intros a w H; exact H].
      destruct b; [|intros w2 []]. apply triple_change; [apply agree_local|done].
Qed.

(** What a connection does for its client: its subscriptions, and anything that
    does not touch them. *)
Definition own_job (j : Job) : Prop :=
  match j with
  | JSubscribe c' _ _ | JUnsubscribe c' _ => c' = c
  | _ => spares c j
  end.

Definition job_cmd (j : Job) : option SubCmd :=
  match j with
  | JSubscribe c f q => Some (CSubscribe c f q)
  | JUnsubscribe c f => Some (CUnsubscribe c f)
  | _ => None
  end.

Lemma run_cons_fst cmd cmds t : (run tree_step t (cmd :: cmds)).1 = (run tree_step (tree_step t cmd).1 cmds).1.
Proof. cbn [run]. destruct (tree_step t cmd) as [t1 r]. cbn [fst]. by destruct (run tree_step t1 cmds). Qed.

Lemma own_thread js t :
  Forall own_job js →
  owns_triple (agree c t) (for_all job_prog js) (λ _, agree c (run tree_step t (omap job_cmd js)).1).
Proof.
  intros Hjs. revert t. induction Hjs as [|j js Hj _ IH]; intros t; cbn [for_all]; [intros w2 Hw; exact Hw|].
  assert (Hun : spares c j → job_cmd j = None →
    owns_triple (agree c t) (job_prog j ≫= λ _, for_all job_prog js) (λ _, agree c (run tree_step t (omap job_cmd (j :: js))).1)).
  { intros Hs Hc. eapply triple_bind; [apply triple_unseen; [by apply hidden_job|apply agree_local]|]. intros u.
    cbn [omap list_omap]. rewrite Hc. apply IH. }
  destruct j; try (by apply Hun); cbn in Hj; subst; cbn [omap list_omap job_cmd]; rewrite run_cons_fst.
  - eapply triple_bind; [apply own_subscribe|]. intros u. apply IH.
  - eapply triple_bind; [apply own_unsubscribe|]. intros u. apply IH.
Qed.
End Self.

(** ** The theorem *)

(** Somebody receives from the channel [rx]. *)
Definition take_from (rx : Sender) w : option (OutboundPublish * Shared M S) :=
  '(m, ch) ← recv (sh_chans w) rx; Some (m, w <| sh_chans := ch |>).

(** A thread does one job after the other. *)
Definition thread (js : list Job) : Prog (Shared M S) unit := for_all job_prog js.

(** C6: Isolation of the subscriptions.  Threads run lists of jobs, lock section by
    lock section, in any order.  If the subscriptions of a client are only
    touched by its own thread, then, once that thread is done, whatever the
    others do before, in between and afterwards (publish, subscribe, join, leave,
    in the middle of a handler or not), they are exactly what the abstract table
    makes of the client's own commands in their order: in the tables that
    publications are matched with and in the index that is saved and listed. *)
Theorem subscriptions_isolated rx threads w got ts w' i c js m :
  refines (sh_subscriptions w) m → threads !! i = Some js → Forall (own_job c) js →
  (∀ j js', j ≠ i → threads !! j = Some js' → Forall (spares c) js') →
  pool_run (take_from rx) got (thread <$> threads, w) (ts, w') → ts !! i = Some (Ret tt) →
  let m' := (run spec_step m (omap job_cmd js)).1 in
  (∀ f, sub_lookup (sh_subscriptions w') c f = m' !! (c, f)) ∧
  (∀ f q, (f, q) ∈ subscriptions_of (sh_subscriptions w') c ↔ m' !! (c, f) = Some q) ∧
  NoDup (subscriptions_of (sh_subscriptions w') c).*1.
Proof.
  intros Hm Hi Hjs Hothers Hrun Hdone m'. set (t := sh_subscriptions w) in *.
  assert (Hag : agree c (run tree_step t (omap job_cmd js)).1 w').
  { assert (Htake : ∀ w1 v w2, take_from rx w1 = Some (v, w2) → sim c w1 w2).
    { intros w1 v w2. unfold take_from. destruct (recv _ _) as [[v' ch]|]; [|done]. by intros [= _ <-]. }
    assert (Hrest : others (sim c) (λ j, j = i) (thread <$> threads)).
    { intros j q Hj Hq. rewrite list_lookup_fmap in Hq. destruct (threads !! j) as [js'|] eqn:Ej; [|done].
      injection Hq as <-. apply unseen_for_all. intros job Hin. apply hidden_job.
      pose proof (Hothers _ _ Hj Ej) as Hf. rewrite Forall_forall in Hf. by apply Hf. }
    assert (Hthis : (thread <$> threads) !! i = Some (thread js)) by by rewrite list_lookup_fmap, Hi.
    apply (pool_triple (take_from rx) (sim c) Htake got _ w ts w' i (thread js) (agree c t)
             (λ _, agree c (run tree_step t (omap job_cmd js)).1) tt Hrun Hthis Hrest); try done.
    - apply agree_local.
    - intros a. apply agree_local.
    - by apply own_thread. }
  pose proof (run_refines (omap job_cmd js) t m Hm) as Hr. subst m'.
  destruct (run tree_step t (omap job_cmd js)) as [t' rs], (run spec_step m (omap job_cmd js)) as [m' rs'].
  destruct Hr as [[Hinv Hl] _], Hag as [H1 H2]. cbn [fst] in *. destruct (inv_index _ Hinv) as (Hidx & Hnd & _).
  unfold subscriptions_of. rewrite H2. split; [intros f; by rewrite H1|]. split; [|apply Hnd].
  intros f q. by rewrite Hidx, Hl.
Qed.
End Concurrent.

(** ** Concrete schedules *)

Import ListChan MapDb Demo.

Module ScheduleDemo.
Abbreviation State := (list (Prog (Shared list_mpsc map_sled) unit) * Shared list_mpsc map_sled)%type.

(** The state after a schedule of the threads, with a receiver on the channel [rx]. *)
Definition after (rx : nat) (threads : list (list Job)) (l : list Turn) : list OutboundPublish * State :=
  default ([], (thread <$> threads, broker)) (schedule (take_from rx) l (thread <$> threads, broker)).
Definition ended (s : list OutboundPublish * State) : bool :=
  forallb (λ p, match p with Ret _ => true | Act _ _ => false end) s.2.1.

Definition moves (n i : nat) : list Turn := replicate n (Move i).

Lemma after_runs rx threads l :
  match schedule (take_from rx) l (thread <$> threads, broker) with Some _ => true | None => false end = true →
  pool_run (take_from rx) (after rx threads l).1 (thread <$> threads, broker) (after rx threads l).2.
Proof.
  intros H. apply (schedule_runs _ l). unfold after. destruct (schedule _ l _) as [[got c]|]; [reflexivity|discriminate H].
Qed.

Lemma ended_finished s : ended s = true → finished s.2.1.
Proof.
  unfold ended, finished. intros H. apply Is_true_eq_left, forallb_True in H.
  eapply Forall_impl; [exact H|]. by intros [[]|].
Qed.

Definition publication : Job := JPublish (Some "c2"%string) "a/b" [7] QoS.AtLeastOnce false 5.

(** "c2" subscribes twice and unsubscribes, while a message is published, "c1" gives
    up its subscription and "c3" comes back. *)
Definition mixed : list (list Job) :=
  [[JSubscribe "c2" "b/c" QoS.AtMostOnce; publication; JSubscribe "c2" "$share/g/b/+" QoS.AtLeastOnce; JUnsubscribe "c2" "b/c"];
   [JUnsubscribe "c1" "a/+"; JJoin "c3" false 8 None 4 addr None 6]].
Definition mixed_turns : list Turn := moves 1 0 ++ moves 1 1 ++ moves 7 0 ++ moves 4 1 ++ moves 4 0 ++ moves 2 1.

Definition table : SubTable :=
  {[("c1", "a/+") := QoS.AtLeastOnce; ("c3", "a/#") := QoS.ExactlyOnce]}.

Lemma refines_new : refines SubscriptionTree_new ∅.
Proof.
  split; [apply tree_inv_new|]. intros c f. rewrite lookup_empty. unfold sub_lookup.
  destruct (parse_shared_filter f); cbn; by rewrite ?sub_at_default, ?lookup_empty.
Qed.

Lemma refines_table : refines (sh_subscriptions broker) table.
Proof.
  assert (E : (run spec_step ∅ [CSubscribe "c1" "a/+" QoS.AtLeastOnce; CSubscribe "c3" "a/#" QoS.ExactlyOnce]).1 = table)
    by (vm_compute; reflexivity).
  rewrite <-E. pose proof (run_refines [CSubscribe "c1" "a/+" QoS.AtLeastOnce; CSubscribe "c3" "a/#" QoS.ExactlyOnce] _ _ refines_new) as H.
  destruct (run tree_step _ _) as [t rs] eqn:Et, (run spec_step _ _) as [m rs']. destruct H as [H _].
  assert (t = sh_subscriptions broker) as <-; [|exact H].
  change t with (t, rs).1. rewrite <-Et. vm_compute. reflexivity.
Qed.
End ScheduleDemo.
Import ScheduleDemo.

Lemma subscriptions_isolated_witness :
  ∃ got ts w', pool_run (take_from 0%nat) got (thread <$> mixed, broker) (ts, w') ∧
    sub_lookup (sh_subscriptions w') "c2" "b/c" = None ∧
    sub_lookup (sh_subscriptions w') "c2" "$share/g/b/+" = Some QoS.AtLeastOnce ∧
    ("$share/g/b/+"%string, QoS.AtLeastOnce) ∈ subscriptions_of (sh_subscriptions w') "c2".
Proof.
  pose proof (after_runs 0%nat mixed mixed_turns ltac:(vm_compute; reflexivity)) as Hrun.
  assert (Hend : finished (after 0%nat mixed mixed_turns).2.1) by (apply ended_finished; vm_compute; reflexivity).
  destruct (after 0%nat mixed mixed_turns) as [got [ts w']] eqn:Es. cbn [fst snd] in Hrun, Hend.
  assert (Hlt : length ts = 2%nat) by (change ts with (got, (ts, w')).2.1; rewrite <-Es; vm_compute; reflexivity).
  assert (Hts : ts !! 0%nat = Some (Ret tt)).
  { destruct ts as [|p ts]; [discriminate Hlt|]. exact (f_equal Some (Forall_inv Hend)). }
  destruct (subscriptions_isolated (M := list_mpsc) (0%nat : @Sender list_mpsc) mixed broker got ts w' 0 "c2"
              [JSubscribe "c2" "b/c" QoS.AtMostOnce; publication; JSubscribe "c2" "$share/g/b/+" QoS.AtLeastOnce; JUnsubscribe "c2" "b/c"]
              table refines_table eq_refl) as (H1 & H2 & _).
  - repeat constructor.
  - intros j js' Hj E. destruct j as [|[|j]]; [destruct Hj; reflexivity| |discriminate E]. injection E as <-.
    repeat constructor; discriminate.
  - exact Hrun.
  - exact Hts.
  - exists got, ts, w'. split; [exact Hrun|]. split; [exact (eq_trans (H1 _) eq_refl)|].
    split; [exact (eq_trans (H1 _) eq_refl)|]. apply H2. reflexivity.
Defined.
