(* ===== verification/InterleaveDelivery.v ===== *)
(** * Delivery between concurrent handlers

    Publications of any number of threads, lock section by lock section, among
    clients that come, go and change their subscriptions: a client that stays
    connected is sent exactly the messages it subscribes to. *)

From S2P Require Import Prelude Packet Messages OfflineQueue Subscription SubscriptionProofs.
From S2P Require Import SubscriptionTheorems Storage StorageProofs Metrics Retain Session SessionProofs SessionTheorems.
From S2P Require Import Router RouterTheorems Lifecycle LifecycleTheorems Threads Interleave InterleaveTree.
From S2P Require Import InterleaveProofs InterleaveTheorems.

Section Delivery.
Context {M : Mpsc} {L : MpscLaws M} {R : MpscRx M} {LR : MpscRxLaws M L R} {S : Sled} {JR : Json RetainedMessage}
  {JS : Json SessionSnapshot} {JO : Json OutboundPublish}.
Implicit Types (w : Shared M S) (self : SessionManager M) (e : SessionEntry M).

(** ** The client and what the others leave alone *)

(** The client [d], connected on the channel [chan], with the plain subscriptions it
    has in the tree [tree0]. *)
Context (d : string) (chan : Sender) (tree0 : SubscriptionTree).

Definition entry_calm self (c : string) e : Prop :=
  client_id e = c ∧ (c ≠ d → connected e = true → tx e ≠ chan) ∧
  ∀ q, offline_queue e = Some q → (0 < max_messages q)%nat.

Record sessions_calm self : Prop := {
  sc_client : ∃ e, sessions self !! d = Some e ∧ connected e = true ∧ tx e = chan;
  sc_entries c e : sessions self !! c = Some e → entry_calm self c e;
  sc_max : (0 < max_offline_messages self)%nat;
}.

Record tree_calm (t : SubscriptionTree) : Prop := {
  tc_tables : tables_inv t;
  tc_look f : sub_lookup t d f = sub_lookup tree0 d f;
}.

Record calm w : Prop := {
  cm_sessions : sessions_calm (sh_sessions w);
  cm_tree : tree_calm (sh_subscriptions w);
  cm_created : created (sh_chans w) chan;
}.

Hypothesis tables0 : tables_inv tree0.
(** The client is in no shared group. *)
Hypothesis solo : ∀ f k, parse_shared_filter f = Some k → sub_lookup tree0 d f = None.

Abbreviation queue w := (queued (sh_chans w) chan).
Abbreviation space w := (room (sh_chans w) chan).
Abbreviation mute p P := (silent calm (λ w, queue w) (λ w, space w) p P).
Abbreviation sends n p P := (gives calm (λ w, queue w) (λ w, space w) n p P).

(** ** Sections that say nothing to the client *)

Lemma calm_insert self self' c e :
  sessions_calm self → c ≠ d → sessions self' = <[c := e]> (sessions self) →
  max_offline_messages self' = max_offline_messages self → entry_calm self c e → sessions_calm self'.
Proof.
  intros [(ed & Hd & Hc & Ht) He Hm] Hne Hs Hmax Hcalm. split.
  - exists ed. by rewrite Hs, lookup_insert_ne.
  - intros c' e'. rewrite Hs. intros [[<- <-]|[_ H]]%lookup_insert_Some; [done|by apply He].
  - by rewrite Hmax.
Qed.

Lemma calm_delete self self' c :
  sessions_calm self → c ≠ d → sessions self' = delete c (sessions self) →
  max_offline_messages self' = max_offline_messages self → sessions_calm self'.
Proof.
  intros [(ed & Hd & Hc & Ht) He Hm] Hne Hs Hmax. split.
  - exists ed. by rewrite Hs, lookup_delete_ne.
  - intros c' e'. rewrite Hs. intros [_ H]%lookup_delete_Some. by apply He.
  - by rewrite Hmax.
Qed.

Lemma calm_same self self' :
  sessions_calm self → sessions self' = sessions self → max_offline_messages self' = max_offline_messages self →
  sessions_calm self'.
Proof. intros [Hd He Hm] Hs Hmax. split; [by rewrite Hs|intros c e; rewrite Hs; apply He|by rewrite Hmax]. Qed.

Lemma mute_sessions {X} (f : SessionManager M → X * SessionManager M) (P : X → Prop) :
  (∀ self, sessions_calm self → sessions_calm (f self).2 ∧ P (f self).1) → mute (on_sessions f) P.
Proof.
  intros H. apply silent_act. intros w [Hs Ht Hc]. destruct (H _ Hs) as [Hs' HP].
  destruct (f (sh_sessions w)) as [x s]. exists x, (w <| sh_sessions := s |>). split; [done|]. split; [by split|]. done.
Qed.

Lemma mute_change_sessions f : (∀ self, sessions_calm self → sessions_calm (f self)) → mute (change_sessions f) (λ _, True).
Proof. intros H. apply silent_change. intros w [Hs Ht Hc]. split; [split; [by apply H|done..]|done]. Qed.

Lemma mute_tree f : (∀ t, tree_calm t → tree_calm (f t)) → mute (change_tree f) (λ _, True).
Proof. intros H. apply silent_change. intros w [Hs Ht Hc]. split; [split; [done|by apply H|done]|done]. Qed.

Lemma mute_on_tree {X} (f : SubscriptionTree → X * SubscriptionTree) (P : X → Prop) :
  (∀ t, tree_calm t → tree_calm (f t).2 ∧ P (f t).1) → mute (on_tree f) P.
Proof.
  intros H. apply silent_act. intros w [Hs Ht Hc]. destruct (H _ Ht) as [Ht' HP].
  destruct (f (sh_subscriptions w)) as [x t]. exists x, (w <| sh_subscriptions := t |>). split; [done|]. split; [by split|]. done.
Qed.

Lemma mute_metric f : mute (metric f) (λ _, True).
Proof. apply silent_change. by intros w [Hs Ht Hc]. Qed.
Lemma mute_storage {B} (op : SE (Storage S * Metrics) BrokerError B) : mute (storage op) (λ _, True).
Proof. apply silent_change. by intros w [Hs Ht Hc]. Qed.
Lemma mute_ask {X} (f : Shared M S → X) : mute (ask f) (λ _, True).
Proof. by apply silent_ask. Qed.
Lemma mute_ret {X} (x : X) (P : X → Prop) : P x → mute (mret x) P.
Proof. apply silent_ret. Qed.

(** ** Delivery *)

(** What a lookup of a session tells about the client's channel. *)
Definition handles_ok (c : string) (h : option (bool * Sender * option Handle)) : Prop :=
  match h with
  | Some (on, t, q) =>
      (on = true → t ≠ chan ↔ c ≠ d) ∧ (c = d → on = true) ∧ ∀ hd, q = Some hd → h_client hd = c
  | None => c ≠ d
  end.

Lemma mute_handles c : mute (ask (read_handles c)) (handles_ok c).
Proof.
  apply silent_ask. intros w [[(ed & Hd & Hc & Ht) He _] _ _]. unfold read_handles.
  destruct (sessions (sh_sessions w) !! c) as [e|] eqn:E; cbn; [|by intros ->; congruence].
  destruct (He _ _ E) as (_ & Hne & _). split; [intros Hon|split].
  - split; [|by auto]. intros H ->. congruence.
  - intros ->. congruence.
  - intros hd. destruct (offline_queue e); [|done]. by intros [= <-].
Qed.

Lemma mute_enqueue_or h msg now o :
  (∀ hd, h = Some hd → h_client hd ≠ d) → mute (enqueue_or_p h msg now o) (λ _, True).
Proof.
  intros Hh. destruct h as [h|]; [|by apply mute_ret]. unfold enqueue_or_p. specialize (Hh h eq_refl).
  eapply (silent_bind _ _ _ _ _ _ (λ _, True)); [|intros; by apply mute_ret]. apply silent_act.
  intros w Hw. pose proof Hw as [Hs Ht Hc]. unfold enqueue_at.
  assert (Ho : (if (max_offline_messages (sh_sessions w) =? 0)%nat then None else Some (tt, w)) = Some (tt, w)).
  { destruct (Nat.eqb_spec (max_offline_messages (sh_sessions w)) 0); [|done]. pose proof (sc_max _ Hs). lia. }
  rewrite Ho. destruct (sessions _ !! _) as [e|] eqn:E; [|by exists tt, w]. destruct (_ =? _); [|by exists tt, w].
  destruct (offline_queue e) as [q|] eqn:Eq; [|by exists tt, w].
  destruct (sc_entries _ Hs _ _ E) as (Hid & Hne & Hq). unfold enqueue_into. rewrite enqueue_eq by by apply Hq.
  set (q' := q <| inner := _ |>). eexists tt, _. split; [reflexivity|]. split; [|done]. split; [|done..].
  apply (calm_insert _ _ _ (e <| offline_queue := Some q' |>) Hs Hh); [|done|].
  - cbn. apply map_eq. intros c. destruct (decide (c = h_client h)) as [->|Hc']; [by rewrite lookup_alter_eq, E, lookup_insert_eq|].
    by rewrite lookup_alter_ne, lookup_insert_ne.
  - split; [done|]. split; [done|]. intros q2 [= <-]. cbn. by apply Hq.
Qed.

Lemma mute_send t msg : t ≠ chan → mute (act (send_on t msg)) (λ _, True).
Proof.
  intros Hne. apply silent_act. intros w [Hs Ht Hc]. unfold send_on. destruct (try_send (sh_chans w) t msg) as [r ch] eqn:E.
  eexists r, _. split; [done|]. split; [split; [done..|]|].
  - cbn. by eapply created_send.
  - cbn. rewrite (try_send_other _ _ _ _ _ _ E), (try_send_room_other _ _ _ _ _ _ E) by congruence. done.
Qed.

Lemma mute_deliver c msg now : c ≠ d → mute (deliver_or_enqueue_p c msg now) (λ _, True).
Proof.
  intros Hne. unfold deliver_or_enqueue_p. eapply silent_bind; [apply mute_handles|].
  intros [[[on t] q]|] Hh; [|by apply mute_ret]. destruct Hh as (Ht & _ & Hq).
  assert (Hq' : ∀ hd, q = Some hd → h_client hd ≠ d) by (intros hd Hhd; by rewrite (Hq _ Hhd)).
  destruct on; [|by apply mute_enqueue_or]. eapply silent_bind; [apply mute_send; by apply Ht|].
  intros [|m|m] _; [by apply mute_ret|by apply mute_enqueue_or..].
Qed.

Lemma mute_outcome c req o :
  mute (match o with
         | DeliveryOutcome.Sent => metric inc_sent
         | DeliveryOutcome.Enqueued => _ ← metric inc_sent; storage (push_offline c req)
         | DeliveryOutcome.ChannelFull => metric inc_message_dropped
         | DeliveryOutcome.Dropped | DeliveryOutcome.NoSession => mret tt
         end) (λ _, True).
Proof.
  destruct o; try apply mute_metric; try by apply mute_ret.
  eapply silent_bind; [apply mute_metric|]. intros _ _. apply mute_storage.
Qed.

(** The client itself, with room in its channel. *)
Lemma sends_single topic payload qos now q :
  sends 1 (deliver_one_p d topic payload qos now q)
    (λ out _, out = [mkOutboundPublish topic payload (delivery_qos qos q) false]).
Proof.
  set (req := mkOutboundPublish _ _ _ _). unfold deliver_one_p, deliver_or_enqueue_p. fold req.
  eapply (gives_bind _ _ _ _ _ _ (λ out _, out = [req])).
  - eapply silent_bind; [apply mute_handles|]. intros [[[on t] h]|] Hh; [|by destruct Hh].
    destruct Hh as (Ht & Hon & _). rewrite (Hon eq_refl) in *. specialize (Ht eq_refl).
    assert (t = chan) as ->. { destruct (decide (t = chan)) as [|Hne]; [done|]. by apply Ht in Hne. }
    intros w [Hs Htr Hc] Hroom. cbn in Hroom. unfold send_on.
    destruct (try_send_room (sh_chans w) chan req) as (ch & E & Hr); [lia|]. rewrite E.
    exists TrySent, (w <| sh_chans := ch |>), [req]. split; [done|]. split; [split; [done..|]|].
    { cbn. by eapply created_send. }
    cbn. split; [by apply try_send_sent|]. split; [lia|]. split; [lia|done].
  - intros out o -> _. cbn [length Nat.sub]. eapply gives_weaken; [done| |apply mute_outcome].
    intros out' u [-> _]. done.
Qed.

Lemma copies_filter topic payload qos l l' :
  filter (λ m, m.1 = d) l = filter (λ m, m.1 = d) l' → copies d topic payload qos l = copies d topic payload qos l'.
Proof. unfold copies. by intros ->. Qed.

(** The loop of [publish]. *)
Lemma sends_targets exclude topic payload qos now l n :
  (length (copies d topic payload qos l) ≤ n)%nat →
  sends n (for_all (deliver_target exclude topic payload qos now) l)
    (λ out _, out = if decide (exclude = Some d) then [] else copies d topic payload qos l).
Proof.
  revert n. induction l as [|[c q] l IH]; intros n Hn; cbn [for_all].
  { cbn. by destruct (decide _). }
  change (deliver_target exclude topic payload qos now (c, q)) with
    (if bool_decide (exclude = Some c) then mret tt else deliver_one_p (S := S) c topic payload qos now q).
  destruct (decide (c = d)) as [->|Hne].
  - rewrite copies_same in *. cbn [length] in Hn. destruct (decide (exclude = Some d)) as [Hx|Hx].
    + rewrite bool_decide_eq_true_2 by done. cbn [mbind prog_bind]. eapply gives_weaken; [| |apply (IH n)]; [done| |lia].
      intros out u ->. by destruct (decide (exclude = Some d)).
    + rewrite bool_decide_eq_false_2 by done.
      eapply gives_bind; [eapply (gives_weaken _ _ _ 1); [lia| |apply sends_single]; intros out u H; exact H|].
      intros out u -> Hl. eapply gives_weaken; [| |apply (IH (n - 1)%nat); lia]; [done|].
      intros out' v ->. by destruct (decide (exclude = Some d)).
  - rewrite copies_other in * by done. case_bool_decide.
    + cbn [mbind prog_bind]. by apply IH.
    + eapply silent_bind; [|intros u _; by apply IH]. unfold deliver_one_p.
      eapply silent_bind; [by apply mute_deliver|]. intros o _. apply mute_outcome.
Qed.

(** ** Publications *)

(** What a publication sends to the client: its plain match. *)
Definition copies0 (topic : string) (payload : list Z) (qos : QoS) : list OutboundPublish :=
  copies d topic payload qos (Subscription.matches tree0 topic).

Lemma copies0_length topic payload qos : (length (copies0 topic payload qos) ≤ 1)%nat.
Proof.
  unfold copies0, copies. rewrite length_fmap. destruct (decide (topic = ""%string)) as [->|Ht]; [cbn; lia|].
  destruct (matches_spec tree0 topic (tb_wf _ tables0) (tb_paths _ tables0) Ht) as [_ Hnd].
  induction (Subscription.matches tree0 topic) as [|[c q] l IH]; [cbn; lia|]. apply NoDup_cons in Hnd as [Hno Hnd].
  destruct (decide (c = d)) as [->|Hne]; [|rewrite filter_cons_False by done; by apply IH].
  rewrite filter_cons_True by done. cbn [length]. destruct (filter _ l) as [|[c' q'] l'] eqn:E; [cbn; lia|]. exfalso.
  assert (Hin : (c', q') ∈ filter (λ m, m.1 = d) l) by (rewrite E; left). apply list_elem_of_filter in Hin as [Hc Hin].
  apply Hno. apply list_elem_of_fmap. exists (c', q'). by split.
Qed.

Lemma calm_solo t k (e : SharedEntry) : tree_calm t → shared t !! k = Some e → members e !! d = None.
Proof.
  intros [Htb Hl] He. destruct (tb_keys _ Htb _ _ He) as [f Ef]. pose proof (Hl f) as H. rewrite (solo _ _ Ef) in H.
  unfold sub_lookup in H. by rewrite Ef, He in H.
Qed.

Lemma sends_publish topic payload qos retain exclude now :
  sends 1 (publish_p topic payload qos retain exclude now)
    (λ out _, out = if decide (exclude = Some d) then [] else copies0 topic payload qos).
Proof.
  unfold publish_p. eapply (silent_bind _ _ _ _ _ _ (λ _, True)).
  { destruct retain; [|by apply mute_ret]. apply silent_change. intros w [Hs Ht Hc]. unfold store_retained.
    destruct (Retain.set _ _ _ _ _) as [r env]. by split; [split|]. }
  intros _ _. eapply (silent_bind _ _ _ _ _ _ (λ l, filter (λ m, m.1 = d) l = filter (λ m, m.1 = d) (Subscription.matches tree0 topic))).
  { apply silent_ask. intros w [_ [Htb Hl] _]. by apply matches_own. }
  intros ms Hms. eapply (silent_bind _ _ _ _ _ _ (λ l, filter (λ m, m.1 = d) l = [])).
  { apply mute_on_tree. intros t Ht. pose proof (shared_not_picked t d topic ltac:(intros k e; by apply calm_solo)) as Hp.
    pose proof (tables_shared t topic (tc_tables _ Ht)) as Htb. pose proof (lookup_shared t topic d) as Hl.
    destruct (matches_shared t topic) as [t' sel]. cbn in *. split; [|done]. split; [done|]. intros f. by rewrite Hl, (tc_look _ Ht). }
  intros sm Hsm. assert (Hc : copies d topic payload qos (ms ++ sm) = copies0 topic payload qos).
  { unfold copies0. apply copies_filter. by rewrite filter_app, Hms, Hsm, app_nil_r. }
  rewrite <-Hc. apply sends_targets. rewrite Hc. apply copies0_length.
Qed.

(** ** The jobs of other clients *)

Section Other.
Context (c : string).
Hypothesis Hne : c ≠ d.

Lemma tree_calm_step t t' : tree_calm t → tables_inv t' → same_subs d t t' → tree_calm t'.
Proof. intros [_ Hl] Htb [Hs _]. split; [done|]. intros f. by rewrite <-Hs. Qed.

Lemma mute_subscribe f q : mute (subscribe_p c f q) (λ _, True).
Proof.
  assert (Hidx : mute (change_tree (index_add c f q)) (λ _, True)).
  { apply mute_tree. intros t Ht. eapply tree_calm_step; [done|apply tables_index, Ht|by apply other_index_add]. }
  unfold subscribe_p. destruct (parse_shared_filter f) as [[g rf]|] eqn:Ef.
  - destruct (validate_filter rf) as [[]|] eqn:Ev; [|by apply mute_ret].
    eapply (silent_bind _ _ _ _ _ _ (λ _, True)); [|intros _ _; eapply silent_bind; [exact Hidx|intros _ _; by apply mute_ret]].
    apply mute_tree. intros t Ht. eapply tree_calm_step; [done|eapply tables_join; [done|apply Ht]|by eapply other_join].
  - destruct (validate_filter f) as [[]|] eqn:Ev; [|by apply mute_ret].
    eapply (silent_bind _ _ _ _ _ _ (λ _, True)); [|intros _ _; eapply silent_bind; [exact Hidx|intros _ _; by apply mute_ret]].
    apply mute_tree. intros t Ht. eapply tree_calm_step; [done|apply tables_insert; [done..|apply Ht]|by apply other_insert].
Qed.

Lemma mute_unsubscribe f : mute (unsubscribe_p c f) (λ _, True).
Proof.
  unfold unsubscribe_p. eapply (silent_bind _ _ _ _ _ _ (λ _, True)).
  - apply mute_on_tree. intros t Ht. split; [|done]. destruct (parse_shared_filter f) eqn:Ef.
    + eapply tree_calm_step; [done|apply tables_leave, Ht|by eapply other_leave].
    + eapply tree_calm_step; [done|apply tables_remove, Ht|by apply other_remove].
  - intros r _. eapply (silent_bind _ _ _ _ _ _ (λ _, True)); [|intros _ _; by apply mute_ret].
    destruct r; [|by apply mute_ret]. apply mute_tree. intros t Ht.
    eapply tree_calm_step; [done|apply tables_index, Ht|by apply other_index_drop].
Qed.

Lemma mute_forget : mute (forget_p c) (λ _, True).
Proof.
  unfold forget_p, unsubscribe_all_p.
  eapply silent_bind; [|intros _ _; eapply silent_bind; [apply mute_storage|intros _ _; apply mute_storage]].
  eapply silent_bind.
  { apply mute_tree. intros t Ht. eapply tree_calm_step; [done|apply tables_clear, Ht|by apply other_clear]. }
  intros _ _. eapply silent_bind; [apply mute_ask|]. intros keys _. eapply silent_bind.
  { apply mute_tree. intros t Ht. eapply tree_calm_step; [done|apply tables_groups_clear, Ht|by apply other_groups_clear]. }
  intros _ _. apply mute_tree. intros t Ht. eapply tree_calm_step; [done|apply tables_index, Ht|by apply other_index_clear].
Qed.

Lemma mute_persist : mute (persist_p c) (λ _, True).
Proof.
  unfold persist_p. eapply silent_bind; [apply mute_ask|]. intros [s|] _; [|by apply mute_ret].
  eapply silent_bind; [apply mute_ask|]. intros [] _; [by apply mute_ret|]. eapply silent_bind; [apply mute_ask|].
  intros [|] _; [by apply mute_ret|apply mute_storage].
Qed.

Lemma mute_remove_session ep : mute (remove_session_p c ep) (λ _, True).
Proof.
  unfold remove_session_p, remove_if_epoch_p. eapply (silent_bind _ _ _ _ _ _ (λ _, True)).
  - eapply (silent_bind _ _ _ _ _ _ (λ _, True)).
    + apply mute_sessions. intros self Hs. split; [|done]. unfold take_entry. destruct (sessions self !! c); [|done].
      destruct (_ =? _); [|done]. by eapply calm_delete.
    + intros [v|] _; [|by apply mute_ret]. eapply (silent_bind _ _ _ _ _ _ (λ _, True)); [|intros _ _; by apply mute_ret].
      destruct (connected v); [|by apply mute_ret]. apply mute_change_sessions. intros self Hs. by eapply calm_same.
  - intros [] _; [apply mute_forget|by apply mute_ret].
Qed.

Lemma mute_cleanup ep clean_ now : mute (cleanup_p c ep clean_ now) (λ _, True).
Proof.
  unfold cleanup_p. destruct clean_; [apply mute_remove_session|]. eapply silent_bind.
  { apply mute_change_sessions. intros self Hs. unfold mark_offline. destruct (sessions self !! c) as [e|] eqn:E; [|done].
    destruct (_ && _); [|done]. destruct (sc_entries _ Hs _ _ E) as (Hid & _ & Hq).
    eapply (calm_insert _ _ _ _ Hs Hne); [reflexivity|done|]. by split; [|split]. }
  intros _ _. eapply silent_bind; [apply mute_ask|]. intros [] _; cbn [negb]; [|by apply mute_ret].
  eapply silent_bind; [apply mute_ask|]. intros [] _; [apply mute_remove_session|apply mute_persist].
Qed.

(** The last will of another client may be published. *)
Lemma sends_leave ep clean_ now :
  sends 1 (on_abnormal_disconnect_p c ep clean_ now)
    (λ out _, out = [] ∨ ∃ will, out = copies0 (wm_topic will) (wm_message will) (wm_qos will)).
Proof.
  unfold on_abnormal_disconnect_p, fire_will_p.
  eapply (gives_bind _ _ _ _ _ _ (λ out _, out = [] ∨ ∃ will, out = copies0 (wm_topic will) (wm_message will) (wm_qos will))).
  - eapply silent_bind; [apply mute_ask|]. intros [] _; [|by left]. eapply silent_bind.
    + apply (mute_sessions _ (λ _, True)). intros self Hs. split; [|done]. unfold take_will.
      destruct (sessions self !! c) as [e|] eqn:E; [|done]. destruct (_ =? _); [|done].
      destruct (sc_entries _ Hs _ _ E) as (Hid & Ht & Hq). eapply (calm_insert _ _ _ _ Hs Hne); [reflexivity|done|]. by split.
    + intros [will|] _; [|by left]. eapply gives_weaken; [done| |apply sends_publish].
      intros out u ->. rewrite decide_False by congruence. right. by exists will.
  - intros out u Ho Hl. eapply (gives_weaken _ _ _ 0); [lia| |apply mute_cleanup]. intros out' v [-> _].
    by rewrite app_nil_r.
Qed.

Lemma mute_register clean_ tx_ will_ level peer expiry now :
  tx_ ≠ chan → mute (register_p c clean_ tx_ will_ level peer expiry now) (λ _, True).
Proof.
  intros Htx. unfold register_p. eapply (silent_bind _ _ _ _ _ _ (λ _, True)).
  { apply mute_sessions. intros self Hs. split; [|done]. by eapply calm_same. }
  intros ep _. eapply (silent_bind _ _ _ _ _ _ (λ lim, (0 < lim.1)%nat)).
  { apply silent_ask. intros w [Hs _ _]. exact (sc_max _ Hs). }
  intros [max ttl_] Hmax. cbn [fst snd] in *. eapply (silent_bind _ _ _ _ _ _ (λ _, True)).
  { apply mute_sessions. intros self Hs. split; [|done]. unfold insert_entry.
    set (e := if clean_ then _ else _).
    assert (He : entry_calm self c e).
    { subst e. destruct clean_; (split; [done|split; [done|]]); [done|]. by intros q [= <-]. }
    destruct (sessions self !! c); cbn [snd]; by eapply (calm_insert _ _ _ _ Hs Hne). }
  intros [[pr dr] inc] _. eapply (silent_bind _ _ _ _ _ _ (λ _, True)); [|intros _ _; by apply mute_ret].
  destruct inc; [|by apply mute_ret]. apply mute_change_sessions. intros self Hs. by eapply calm_same.
Qed.

Lemma mute_join clean_ cap will_ level peer expiry now :
  mute (job_prog (JJoin c clean_ cap will_ level peer expiry now)) (λ _, True).
Proof.
  cbn [job_prog]. eapply (silent_bind _ _ _ _ _ _ (λ t, t ≠ chan)).
  - apply silent_act. intros w [Hs Ht Hc]. unfold open_channel. destruct (channel (sh_chans w) cap) as [t ch] eqn:E.
    destruct (channel_fresh _ _ _ _ E) as [Hf _]. assert (Hnt : t ≠ chan) by by intros ->.
    exists t, (w <| sh_chans := ch |>). split; [done|]. split; [split; [done..|by eapply created_channel]|].
    destruct (channel_other _ _ _ _ chan E) as [Hq Hr]; [congruence|]. cbn. by rewrite Hq, Hr.
  - intros t Ht. eapply silent_bind; [by apply mute_register|]. intros _ _. by apply mute_ret.
Qed.
End Other.

(** ** The sweeper *)

Lemma mute_remove_expired ids now : d ∉ ids → mute (remove_expired_p ids now) (λ removed, d ∉ removed).
Proof.
  induction ids as [|id ids IH]; intros Hd; cbn [remove_expired_p]; [apply mute_ret; apply not_elem_of_nil|].
  apply not_elem_of_cons in Hd as [Hid Hd]. eapply silent_bind; [apply mute_ask|]. intros still _.
  eapply (silent_bind _ _ _ _ _ _ (λ _, True)).
  { destruct still; [|by apply mute_ret]. apply mute_change_sessions. intros self Hs. by eapply calm_delete. }
  intros _ _. eapply silent_bind; [by apply IH|]. intros removed Hr. apply mute_ret.
  destruct still; [|done]. by apply not_elem_of_cons.
Qed.

Lemma mute_sweep now : mute (sweep_p now) (λ _, True).
Proof.
  unfold sweep_p. eapply (silent_bind _ _ _ _ _ _ (λ ids, d ∉ ids)).
  { apply silent_ask. intros w [[(e & Hd & Hon & _) He _] _ _]. unfold expired_ids. rewrite list_elem_of_omap.
    intros ([c' e'] & Hin%elem_of_map_to_list & H). cbn in H. destruct (is_expired e' now) eqn:Ex; [|done]. injection H as H.
    destruct (He _ _ Hin) as [Hid _]. assert (c' = d) as -> by congruence. rewrite Hd in Hin. injection Hin as <-.
    unfold is_expired in Ex. by rewrite Hon in Ex. }
  intros ids Hids. eapply silent_bind; [by apply mute_remove_expired|]. intros removed Hr.
  apply silent_for_all. intros c Hc. eapply silent_bind; [apply mute_forget; by intros ->|]. intros _ _. apply mute_metric.
Qed.

(** ** Threads *)

(** A job that does not end, take over or change the client's own session and
    subscriptions. *)
Definition keeps_client (j : Job) : Prop :=
  match j with
  | JSubscribe c _ _ | JUnsubscribe c _ | JJoin c _ _ _ _ _ _ _ | JLeave c _ _ _ => c ≠ d
  | JPublish _ _ _ _ _ _ | JPersist _ | JSweep _ => True
  end.

(** The messages a job has for the client. *)
Definition job_sends (j : Job) (out : list OutboundPublish) : Prop :=
  match j with
  | JPublish publisher topic payload qos _ _ =>
      out = if decide (publisher = Some d) then [] else copies0 topic payload qos
  | JLeave _ _ _ _ => out = [] ∨ ∃ will, out = copies0 (wm_topic will) (wm_message will) (wm_qos will)
  | _ => out = []
  end.

Definition job_budget (j : Job) : nat :=
  match j with JPublish _ _ _ _ _ _ | JLeave _ _ _ _ => 1 | _ => 0 end.

Lemma sends_job j : keeps_client j → sends (job_budget j) (job_prog j) (λ out _, job_sends j out).
Proof.
  assert (Hquiet : ∀ p : Prog (Shared M S) unit, mute p (λ _, True) → sends 0 p (λ out _, out = [])).
  { intros p H. eapply gives_weaken; [done| |exact H]. by intros out u [-> _]. }
  assert (Hbind : ∀ A (p : Prog (Shared M S) A), mute p (λ _, True) → mute (_ ← p; mret tt) (λ _, True)).
  { intros A p H. eapply silent_bind; [exact H|]. intros; by apply mute_ret. }
  destruct j; cbn [keeps_client job_budget job_sends]; intros Hk.
  - apply sends_publish.
  - by apply Hquiet, Hbind, mute_subscribe.
  - by apply Hquiet, Hbind, mute_unsubscribe.
  - by apply Hquiet, mute_join.
  - by apply sends_leave.
  - apply Hquiet, mute_persist.
  - apply Hquiet, mute_sweep.
Qed.

(** The messages a thread has for the client, job after job. *)
Definition thread_sends (js : list Job) (out : list OutboundPublish) : Prop :=
  ∃ outs, Forall2 job_sends js outs ∧ out = concat outs.

Definition thread_budget (js : list Job) : nat := sum_list_with job_budget js.

Lemma sends_thread js :
  Forall keeps_client js → sends (thread_budget js) (thread js) (λ out _, thread_sends js out).
Proof.
  induction 1 as [|j js Hj _ IH]; unfold thread; cbn [for_all].
  { by exists []. }
  eapply gives_bind; [eapply (gives_weaken _ _ _ (job_budget j)); [cbn; lia| |by apply sends_job]; intros out u H; exact H|].
  intros out u Ho Hl. assert (Hlo : (length out ≤ job_budget j)%nat).
  { destruct j; cbn in Ho |- *; try (subst; done).
    - subst. destruct (decide _); [cbn; lia|apply copies0_length].
    - destruct Ho as [->|[will ->]]; [cbn; lia|apply copies0_length]. }
  eapply (gives_weaken _ _ _ (thread_budget js)); [unfold thread_budget; cbn; lia| |exact IH].
  intros out' v (outs & Hf & ->). exists (out :: outs). split; [by constructor|done].
Qed.

Lemma take_calm w m w' :
  calm w → take_from chan w = Some (m, w') → calm w' ∧ queue w = m :: queue w' ∧ (space w ≤ space w')%nat.
Proof.
  intros [Hs Ht Hc]. unfold take_from. destruct (recv (sh_chans w) chan) as [[m' ch]|] eqn:E; [|done]. intros [= <- <-].
  split; [split; [done..|by eapply created_recv]|]. pose proof (recv_queued (sh_chans w) chan) as H. rewrite E in H.
  split; [done|]. by eapply recv_room.
Qed.

Lemma delivery threads w got ts w' :
  calm w → Forall (Forall keeps_client) threads → (sum_list_with thread_budget threads ≤ space w)%nat →
  pool_run (take_from chan) got (thread <$> threads, w) (ts, w') →
  (finished ts → ∃ outs sent, got ++ queue w' = queue w ++ sent ∧ interleaving outs sent ∧ Forall2 thread_sends threads outs) ∧
  ∃ ts2 w2, pool_run (take_from chan) [] (ts, w') (ts2, w2) ∧ finished ts2.
Proof.
  intros Hw Hth Hroom Hrun. set (prs := (λ js, (thread_budget js, thread_sends js)) <$> threads).
  assert (Hkeep : Forall2 (λ pr p, sends pr.1 p (λ out _, pr.2 out)) prs (thread <$> threads)).
  { subst prs. apply Forall2_fmap. clear -Hth tables0 solo. induction Hth as [|js threads Hjs _ IH]; constructor; [|done]. by apply sends_thread. }
  assert (Howed : (owed prs ≤ space w)%nat).
  { subst prs. unfold owed. rewrite <-list_fmap_compose. clear -Hroom. revert Hroom. generalize (space w).
    induction threads as [|js l IH]; cbn; [lia|]. intros n Hn. assert (H := IH (n - thread_budget js)%nat ltac:(lia)). cbn in H. lia. }
  destruct (pool_gives (take_from chan) calm (λ w, queue w) (λ w, space w) take_calm _ _ _ _ _ _ Hrun Hkeep Hw Howed)
    as (outs & sent & prs' & Hseq & Hil & Hw' & Hsp' & Hk' & Hlen & Hall).
  split; [|by eapply pool_finishes].
  intros Hfin. exists outs, sent. split; [done|]. split; [done|]. apply Forall2_same_length_lookup_2.
  { rewrite Hlen. subst prs. by rewrite length_fmap. }
  intros i js out Hi Ho. destruct (Hall i (thread_budget js, thread_sends js)) as (m & out' & Q & Ho' & Hp' & HQ).
  { subst prs. by rewrite list_lookup_fmap, Hi. }
  assert (out' = out) as -> by congruence. rewrite <-(app_nil_r out). apply HQ.
  destruct (Forall2_lookup_l _ _ _ _ _ Hk' Hp') as (p & Hp & Hg). rewrite (Forall_lookup_1 _ _ _ _ Hfin Hp) in Hg. exact Hg.
Qed.
End Delivery.

Section Concurrent.
Context {M : Mpsc} {L : MpscLaws M} {R : MpscRx M} {LR : MpscRxLaws M L R} {S : Sled} {JR : Json RetainedMessage}
  {JS : Json SessionSnapshot} {JO : Json OutboundPublish}.
Implicit Types w : Shared M S.

(** C5: Delivery between concurrent handlers.  Any number of threads run lists of
    jobs (publications, subscriptions, connections, disconnections with their last
    wills, sweeps), one section under a lock at a time, in any order.  For a client
    that stays connected and whose subscriptions, none of them shared, stay as
    they are, with room in its channel for one message per publication: no
    interleaving leaves a thread stuck, the threads can always be run to their
    end; and when they have ended, what the client has received and what waits
    for it are what waited before, followed by an interleaving of what the threads
    had for it: each publication that matches exactly once, with the smaller of
    the two QoS, and in the order of its thread. *)
Theorem interleaved_delivery w d e threads got ts w' :
  tree_inv (sh_subscriptions w) → sess_inv (sh_sessions w) → (0 < max_offline_messages (sh_sessions w))%nat →
  own_channel (sh_sessions w) d e → connected e = true → created (sh_chans w) (tx e) →
  (∀ f k, parse_shared_filter f = Some k → sub_lookup (sh_subscriptions w) d f = None) →
  Forall (Forall (keeps_client d)) threads →
  (sum_list_with thread_budget threads ≤ room (sh_chans w) (tx e))%nat →
  pool_run (take_from (tx e)) got (thread <$> threads, w) (ts, w') →
  (finished ts → ∃ outs sent,
     got ++ queued (sh_chans w') (tx e) = queued (sh_chans w) (tx e) ++ sent ∧
     interleaving outs sent ∧ Forall2 (thread_sends d (sh_subscriptions w)) threads outs) ∧
  ∃ ts2 w2, pool_run (take_from (tx e)) [] (ts, w') (ts2, w2) ∧ finished ts2.
Proof.
  intros Ht Hs Hm [Hd Hown] Hon Hcr Hsolo Hth Hroom Hrun.
  assert (Hcalm : calm d (tx e) (sh_subscriptions w) w).
  { split; [|by split; [apply tree_tables|]|done]. split; [by exists e| |done]. intros c e' He'.
    destruct (inv_entries _ Hs _ _ He') as (Hid & _ & Hq). split; [done|]. split; [by eauto|].
    intros q Eq. rewrite Eq in Hq. destruct Hq as (_ & -> & _). done. }
  exact (delivery d (tx e) (sh_subscriptions w) (tree_tables _ Ht) Hsolo threads w got ts w' Hcalm Hth Hroom Hrun).
Qed.
End Concurrent.

(** ** Concrete runs *)

Import ListChan MapDb Demo ScheduleDemo.

Module RaceDemo.
Definition copy : OutboundPublish := mkOutboundPublish "a/b" [7] QoS.AtLeastOnce false.
Definition come_back : Job := JJoin "c3" false 8 None 4 addr None 6.

(** The offline queue of "c3" and what waits for it on its new channel. *)
Definition offline_of (s : list OutboundPublish * State) : option (list OfflineMessage) :=
  e ← sessions (sh_sessions s.2.2) !! "c3"; inner <$> offline_queue e.
Definition online_of (s : list OutboundPublish * State) : list OutboundPublish := queued (sh_chans s.2.2) 3%nat.

(** Two publications, while "c2" subscribes and "c3" comes back. *)
Definition busy : list (list Job) := [[publication; publication]; [JSubscribe "c2" "b/c" QoS.AtMostOnce; come_back]].
Definition busy_turns : list Turn := moves 4 0 ++ moves 3 1 ++ moves 7 0 ++ [Take] ++ moves 4 1 ++ moves 6 0.
End RaceDemo.
Import RaceDemo.

(** Two publications, one of them received in between, while others subscribe and
    connect. *)
Lemma interleaved_delivery_witness :
  ∃ got ts w' outs sent, pool_run (take_from 0%nat) got (thread <$> busy, broker) (ts, w') ∧ finished ts ∧
    got ++ queued (sh_chans w') 0%nat = [] ++ sent ∧ interleaving outs sent ∧
    got = [copy] ∧ queued (sh_chans w') 0%nat = [copy].
Proof.
  pose proof (after_runs 0%nat busy busy_turns ltac:(vm_compute; reflexivity)) as Hrun.
  assert (Hend : finished (after 0%nat busy busy_turns).2.1) by (apply ended_finished; vm_compute; reflexivity).
  set (s := after 0%nat busy busy_turns) in *. destruct s as [got [ts w']] eqn:Es. cbn [fst snd] in Hrun, Hend.
  destruct (interleaved_delivery broker "c1" (@clean list_mpsc "c1" 0%nat None 4 addr 1 0) busy got ts w') as [H _].
  - apply ok_tree_subscribe, ok_tree_subscribe, tree_inv_new.
  - apply manager_inv.
  - apply Nat.ltb_lt. reflexivity.
  - split; [reflexivity|]. intros c' e' Hne E' _.
    exact (or_ind (λ Hc, False_ind _ (Hne Hc)) (λ Ht, Ht) (senders_distinct c' e' E')).
  - reflexivity.
  - vm_compute. eauto.
  - intros f k Ef. unfold sub_lookup. rewrite Ef. reflexivity.
  - repeat constructor; discriminate.
  - apply Nat.leb_le. vm_compute. reflexivity.
  - exact Hrun.
  - destruct (H Hend) as (outs & sent & Hq & Hil & _). exists got, ts, w', outs, sent.
    split; [exact Hrun|]. split; [exact Hend|]. split; [exact Hq|]. split; [exact Hil|].
    split; [change got with (got, (ts, w')).1|change w' with (got, (ts, w')).2.2]; rewrite <-Es; vm_compute; reflexivity.
Defined.

(** A publication that has read the handles of an offline session puts its message
    into the queue of a session that has been taken over in the meantime: the queue
    was empty when it was drained for the client, and in the end the message is
    neither in its new queue nor on its channel, though it was counted as sent. *)
Example takeover_loses_message :
  offline_of (after 3%nat [[publication]; [come_back]] (moves 3 0)) = Some [] ∧
  let s := after 3%nat [[publication]; [come_back]] (moves 3 0 ++ moves 5 1 ++ moves 6 0) in
  ended s = true ∧ offline_of s = Some [] ∧ online_of s = [] ∧
  messages_sent (sh_metrics s.2.2) = messages_sent (sh_metrics broker) + 2.
Proof. vm_compute. auto. Qed.

(** One after the other, in either order, the client gets it. *)
Example takeover_in_order :
  match offline_of (after 3%nat [[publication]; [come_back]] (moves 9 0)) with
  | Some [m] => om_payload m = copy
  | _ => False
  end ∧
  online_of (after 3%nat [[publication]; [come_back]] (moves 5 1 ++ moves 8 0)) = [copy].
Proof. vm_compute. auto. Qed.

(** The old connection of "c1" has removed its session when the client comes back
    and subscribes; its [unsubscribe_all] then takes the new subscription away. *)
Example leave_takes_new_subscription :
  let s := after 0%nat [[JLeave "c1" 1 true 5]; [JJoin "c1" true 8 None 4 addr None 6; JSubscribe "c1" "x" QoS.AtMostOnce]]
             (moves 4 0 ++ moves 7 1 ++ moves 6 0) in
  ended s = true ∧ is_online (sh_sessions s.2.2) "c1" = true ∧ subscriptions_of (sh_subscriptions s.2.2) "c1" = [].
Proof. vm_compute. auto. Qed.
