(* ===== verification/StartTheorems.v ===== *)
(** * Correctness of the start

    A configuration that loads starts the process: exactly the enabled services,
    and a broker that meets the premises of the invariant of the running system,
    whatever the storage holds. *)

From S2P Require Import Prelude Packet Messages NetAddr OfflineQueue Subscription SubscriptionProofs.
From S2P Require Import SubscriptionTheorems Storage StorageProofs Metrics Retain Session.
From S2P Require Import SessionProofs SessionTheorems Qos Router RouterTheorems Auth IpFilter.
From S2P Require Import Limiter Security Plugin PluginTheorems Lifecycle LifecycleTheorems Config.
From S2P Require Import Loader ConfigTheorems Handlers HandlersProofs HandlersTheorems Connection.
From S2P Require Import ConnectionTheorems Admin AdminTheorems SystemProofs SystemTheorems TlsLoad Start.

(** ** Recovery of the sessions *)

Section Recovery.
Context {M : Mpsc} {L : MpscLaws M} {S : Sled} {JR : Json RetainedMessage} {JS : Json SessionSnapshot}
  {JO : Json OutboundPublish}.
Implicit Types w : Shared M S.

(** During the recovery: nobody is connected, and at most [n] epochs are used. *)
Record recovering (n : Z) w : Prop := {
  rec_shared : shared_inv (0, 0) w;
  rec_offline c ep rx : ¬ online_at (sh_sessions w) c ep rx;
  rec_epoch : epoch_counter (sh_sessions w) ≤ n;
}.

Lemma restore_subscription_inv cid t fq : tree_inv t → tree_inv (restore_subscription cid t fq).
Proof.
  intros Ht. unfold restore_subscription. destruct (subscribe t cid fq.1 fq.2) eqn:E; [|done].
  by eapply subscribe_inv.
Qed.

Lemma restore_subscriptions_inv cid t fqs : tree_inv t → tree_inv (foldl (restore_subscription cid) t fqs).
Proof. revert t. induction fqs as [|fq fqs IH]; intros t Ht; cbn [foldl]; [done|]. by apply IH, restore_subscription_inv. Qed.

Lemma refill_recovering n w cid msgs now :
  recovering n w → ∃ w', refill_queue w cid msgs now = Some w' ∧ recovering n w'.
Proof.
  revert w. induction msgs as [|m msgs IH]; intros w Hw; cbn [refill_queue]; [by eexists|].
  destruct Hw as [[H1 H2 H3 H4] Hoff Hep].
  destruct (deliver_total (sh_sessions w) cid m now (sh_chans w) H1 H2) as (o & s' & ch' & E & Hs').
  pose proof (frame_max _ _ _ _ _ (deliver_framed _ _ _ _ _ _ _ _ E)) as Hmax.
  destruct (fades_deliver _ _ _ _ _ _ _ _ E) as [Hf _]. pose proof Hf as [Hcnt _]. rewrite E. cbn [mbind option_bind]. apply IH.
  split; [split; cbn; [done|lia|done..]| |cbn; lia]. intros c ep rx Hon%(fades_online _ _ _ _ _ Hf). by apply Hoff in Hon.
Qed.

Lemma restore_recovering n w snap now :
  n + 1 < u64_mod → recovering n w → ∃ w', restore_session w snap now = Some w' ∧ recovering (n + 1) w'.
Proof.
  intros Hn [[H1 H2 H3 H4] Hoff Hep]. unfold restore_session. set (cid := ss_client_id snap).
  destruct (channel _ 1) as [dummy ch]. cbn [sh_sessions].
  assert (Hlt : epoch_counter (sh_sessions w) + 1 < u64_mod) by lia.
  pose proof (inv_counter _ H1) as Hc0.
  pose proof (register_inv _ cid false dummy None MQTT_3_1_1_LEVEL dummy_addr None now H1 Hlt) as Hr.
  pose proof (register_step_ok _ cid false dummy None MQTT_3_1_1_LEVEL dummy_addr None now Hlt ltac:(lia)) as (Hm & _ & _).
  change (sh_sessions (w <| sh_subscriptions ::= _ |>)) with (sh_sessions w).
  destruct (register (sh_sessions w) cid false dummy None MQTT_3_1_1_LEVEL dummy_addr None now) as [[[ep pr] ms] s1] eqn:Er.
  apply register_online in Er as (Hep1 & Hcnt & _ & Hon). cbn [fst snd] in *.
  unfold wrap_u64 in Hep1, Hcnt, Hon. rewrite Z.mod_small in Hep1, Hcnt, Hon by lia.
  destruct (fades_mark_offline s1 cid ep now) as [Hf Hno]. pose proof Hf as [Hcm _].
  set (s2 := mark_offline s1 cid ep now) in *.
  set (w2 := _ <| sh_sessions := s2 |>).
  assert (Hw2 : recovering (n + 1) w2).
  { split; [split|..]; cbn.
    - by apply mark_offline_inv.
    - unfold s2. rewrite mark_offline_max. lia.
    - by apply restore_subscriptions_inv.
    - done.
    - intros c e rx Hc. destruct (Hon c e rx (fades_online _ _ _ _ _ Hf Hc)) as [(-> & -> & ->)|Ho]; [|by apply Hoff in Ho].
      subst ep. by apply Hno in Hc.
    - lia. }
  pose proof (with_storage_gauges (drain_offline cid) (env_of w2) (gs_drain cid)) as Hg.
  destruct (with_storage (drain_offline cid) (env_of w2)) as [r env]. cbn [snd] in Hg.
  assert (Hw3 : recovering (n + 1) (set_env w2 env)).
  { destruct Hw2 as [[W1 W2 W3 W4] Wo We]. split; [split; [done..|]|done..]. rewrite <-W4. exact Hg. }
  destruct r as [[msgs|e]|]; [by apply refill_recovering|by eexists..].
Qed.

Lemma restore_all_recovering n w snaps now :
  n + Z.of_nat (length snaps) < u64_mod → recovering n w →
  ∃ w', restore_all w snaps now = Some w' ∧ recovering (n + Z.of_nat (length snaps)) w'.
Proof.
  revert n w. induction snaps as [|snap snaps IH]; intros n w Hn Hw; cbn [restore_all length].
  { exists w. by rewrite Z.add_0_r. }
  cbn [length] in Hn. destruct (restore_recovering n w snap now) as (w1 & -> & Hw1); [lia|done|].
  cbn [mbind option_bind]. replace (n + Z.of_nat (Datatypes.S (length snaps))) with (n + 1 + Z.of_nat (length snaps)) by lia.
  apply IH; [lia|done].
Qed.
End Recovery.

(** ** The broker *)

Section Boot.
Context {M : Mpsc} {L : MpscLaws M} {S : Sled} {JR : Json RetainedMessage} {JS : Json SessionSnapshot}
  {JO : Json OutboundPublish} {F : ForwardEnv}.

(** At most [n] sessions on disk. *)
Definition disk_bound (n : Z) (cfg : Settings) : Prop :=
  ∀ s snaps, storage_enabled (s_storage cfg) = true → Storage.open (storage_path (s_storage cfg)) = Ok s →
    load_all_sessions s = Ok snaps → Z.of_nat (length snaps) ≤ n.

(** What the types of the configuration ([u32] and [usize]) guarantee, and a
    queue for offline messages that can hold one. *)
Record usable (cfg : Settings) : Prop := {
  us_queue : (0 < cfg_max_offline_messages (s_storage cfg))%nat;
  us_retries : 0 ≤ default 3 (max_retries (s_broker cfg));
  us_per_ip : 0 ≤ sc_max_connections_per_ip (s_security cfg);
}.

Lemma load_persistent_recovering n w now :
  0 ≤ n < u64_mod → recovering 0 w →
  (∀ s snaps, sh_storage w = Some s → load_all_sessions s = Ok snaps → Z.of_nat (length snaps) ≤ n) →
  ∃ r w', load_persistent_sessions w now = Some (r, w') ∧ recovering n w'.
Proof.
  intros Hn Hw Hd. assert (H0 : ∀ m w', m ≤ n → recovering m w' → recovering n w').
  { intros m w' Hm [H1 H2 H3]. split; [done..|lia]. }
  unfold load_persistent_sessions. destruct (sh_storage w) as [s|]; [|do 2 eexists; split; [done|by eapply H0, Hw; lia]].
  destruct (load_all_sessions s) as [snaps|e] eqn:E; [|do 2 eexists; split; [done|by eapply H0, Hw; lia]].
  specialize (Hd s snaps eq_refl E).
  destruct (restore_all_recovering 0 w snaps now) as (w' & -> & Hw'); [lia|done|].
  cbn [mbind option_bind]. do 2 eexists. split; [done|]. eapply H0; [|exact Hw']. lia.
Qed.

Lemma guard_started (cfg : SecurityConfig) :
  0 ≤ sc_max_connections_per_ip cfg →
  let g := match guard_new cfg with Ok g => g | Err _ => guard_disabled end in
  ip_counter g = ∅ ∧ 0 ≤ max_connections_per_ip (policy g).
Proof.
  intros H. unfold guard_new, build_policy. destruct (filter_new (ip_blacklist cfg)) as [bl|]; [|done].
  cbn [mbind result_bind]. by destruct (filter_new (ip_whitelist cfg)).
Qed.

Lemma broker_started n cfg ch fw now :
  usable cfg → 0 ≤ n < u64_mod → disk_bound n cfg →
  ∃ b : Broker M S F, BrokerState_new cfg METRICS ch fw now = Some b ∧ starting b ∧ b_config b = s_broker cfg ∧
    b_auth b = s_auth cfg ∧ epoch_counter (sh_sessions (b_shared b)) ≤ n.
Proof.
  intros [Hq Hr Hip] Hn Hd. unfold BrokerState_new.
  set (st := if storage_enabled (s_storage cfg) then _ else None).
  set (retain := match st with Some s => _ | None => _ end). clearbody retain.
  pose proof (guard_started _ Hip) as Hg. cbv zeta in Hg.
  set (g := match guard_new (s_security cfg) with Ok g => g | Err _ => guard_disabled end) in *.
  destruct (plugin_new (s_plugin cfg) fw) as [pl fw'].
  set (w := mkShared _ _ _ _ _ _).
  destruct (load_persistent_recovering n w now) as (r & w' & -> & Hw'); [done| | |].
  - split; [split|..]; cbn; [apply sess_inv_new|done|apply tree_inv_new|done| |done].
    by intros c ep rx (e & He & _).
  - intros s snaps Hs. cbn in Hs. unfold st in Hs. destruct (storage_enabled _) eqn:Een; [|done].
    destruct (Storage.open _) as [s0|] eqn:Eo; [|done]. injection Hs as ->. by apply Hd.
  - cbn [mbind option_bind]. eexists. split; [done|]. destruct Hw' as [W1 W2 W3].
    split; [|done]. split; cbn; [done| |apply Hg|done|apply Hg].
    intros c e He. destruct (connected e) eqn:Hc; [|done]. destruct (W2 c (epoch e) (tx e)). by exists e.
Qed.
End Boot.

(** ** The services *)

Section Services.
Context {R : Rustls}.
Variable open_file : string → Result string (list Z).

(** When each service runs, with what. *)
Definition wanted (s : Settings) (svc : Service) : Prop :=
  match svc with
  | TcpServer a n =>
      tcp_enabled (s_tcp s) = true ∧ parse_socket_addr (tcp_bind (s_tcp s)) = Some a ∧ n = max_connections (s_broker s)
  | TlsServer a n acc =>
      tls_enabled (s_tls s) = true ∧ parse_socket_addr (tls_bind (s_tls s)) = Some a ∧ n = max_connections (s_broker s) ∧
      load_tls_acceptor open_file (s_tls s) = Ok acc
  | WsServer a n path =>
      ws_enabled (s_websocket s) = true ∧ parse_socket_addr (ws_bind (s_websocket s)) = Some a ∧
      n = max_connections (s_broker s) ∧
      path = (if str_is_empty (ws_path (s_websocket s)) then "/mqtt" else ws_path (s_websocket s))
  | MqttSnServer a n =>
      sn_enabled (s_mqtt_sn s) = true ∧ parse_socket_addr (sn_bind (s_mqtt_sn s)) = Some a ∧ n = max_connections (s_broker s)
  | AdminServer a =>
      admin_enabled (s_admin s) = true ∧ parse_socket_addr (admin_bind (s_admin s)) = Some a
  end.

Definition kind (svc : Service) : nat :=
  match svc with
  | TcpServer _ _ => 0 | TlsServer _ _ _ => 1 | WsServer _ _ _ => 2 | MqttSnServer _ _ => 3 | AdminServer _ => 4
  end.

(** The step that starts the services of kind [k] in a valid configuration. *)
Definition starts (s : Settings) (k : nat) (r : option (list Service)) : Prop :=
  ∃ l, r = Some l ∧ NoDup l ∧ ∀ svc, svc ∈ l ↔ kind svc = k ∧ wanted s svc.

Lemma starts_bind s k (en : bool) bind (mk : SocketAddr → Service) :
  (en = true → bind_ok bind) →
  (∀ svc, kind svc = k ∧ wanted s svc ↔ ∃ a, en = true ∧ parse_socket_addr bind = Some a ∧ svc = mk a) →
  starts s k (when en (a ← parse_bind bind; Some [mk a])).
Proof.
  intros Hb Hk. destruct en; cbn [when].
  - destruct (Hb eq_refl) as (a & Ha & _). unfold parse_bind. rewrite Ha. cbn. eexists. split; [done|].
    split; [apply NoDup_singleton|]. intros svc. rewrite Hk, list_elem_of_singleton. naive_solver.
  - eexists. split; [done|]. split; [constructor|]. intros svc. rewrite Hk, elem_of_nil. naive_solver.
Qed.

Lemma tls_starts s :
  (tls_enabled (s_tls s) = true → bind_ok (tls_bind (s_tls s))) → starts s 1 (tls_service open_file s).
Proof.
  intros Hb. unfold tls_service. destruct (load_tls_acceptor open_file (s_tls s)) as [acc|e] eqn:E.
  - apply (starts_bind s 1 _ _ (λ a, TlsServer a _ acc)); [done|].
    intros []; cbn; try naive_solver. rewrite E. naive_solver.
  - exists []. split; [by destruct (tls_enabled _)|]. split; [constructor|].
    intros []; rewrite elem_of_nil; cbn; try naive_solver. rewrite E. naive_solver.
Qed.

Lemma starts_app s ks k (hs l : list Service) :
  k ∉ ks → NoDup hs → (∀ svc, svc ∈ hs ↔ kind svc ∈ ks ∧ wanted s svc) →
  NoDup l → (∀ svc, svc ∈ l ↔ kind svc = k ∧ wanted s svc) →
  NoDup (l ++ hs) ∧ ∀ svc, svc ∈ l ++ hs ↔ kind svc ∈ k :: ks ∧ wanted s svc.
Proof.
  intros Hk Hn Hin Hnl Hl. split.
  - apply NoDup_app. split; [done|]. split; [|done]. intros svc [E _]%Hl [Hks _]%Hin. by rewrite E in Hks.
  - intros svc. rewrite elem_of_app, Hl, Hin, elem_of_cons. tauto.
Qed.

Lemma services_started s :
  settings_ok s → ∃ hs, start_services open_file s = Some hs ∧ NoDup hs ∧ ∀ svc, svc ∈ hs ↔ wanted s svc.
Proof.
  intros [H1 H2 H3 H4 H5 _ _ _ _].
  assert (A0 : starts s 0 (tcp_service s)).
  { apply (starts_bind s 0 _ _ (λ a, TcpServer a _)); [done|]. intros []; cbn; naive_solver. }
  assert (A1 : starts s 1 (tls_service open_file s)) by (apply tls_starts; intros E; by apply H2).
  assert (A2 : starts s 2 (ws_service s)).
  { unfold ws_service. cbv zeta. eapply (starts_bind s 2 _ _ (λ a, WsServer a _ _)); [done|]. intros []; cbn; naive_solver. }
  assert (A3 : starts s 3 (sn_service s)).
  { apply (starts_bind s 3 _ _ (λ a, MqttSnServer a _)); [done|]. intros []; cbn; naive_solver. }
  assert (A4 : starts s 4 (admin_service s)).
  { apply (starts_bind s 4 _ _ AdminServer); [intros E; by apply H5|]. intros []; cbn; naive_solver. }
  destruct A0 as (l0 & E0 & N0 & M0), A1 as (l1 & E1 & N1 & M1), A2 as (l2 & E2 & N2 & M2), A3 as (l3 & E3 & N3 & M3),
    A4 as (l4 & E4 & N4 & M4).
  unfold start_services. rewrite E0, E1, E2, E3, E4. cbn [mbind option_bind]. eexists. split; [done|].
  assert (M4' : ∀ svc, svc ∈ l4 ↔ kind svc ∈ [4%nat] ∧ wanted s svc).
  { intros svc. rewrite M4, list_elem_of_singleton. done. }
  destruct (starts_app s [4%nat] 3 l4 l3) as [P3 Q3]; [set_solver|done..|].
  destruct (starts_app s [3%nat; 4%nat] 2 _ l2 ltac:(set_solver) P3 Q3 N2 M2) as [P2 Q2].
  destruct (starts_app s [2%nat; 3%nat; 4%nat] 1 _ l1 ltac:(set_solver) P2 Q2 N1 M1) as [P1 Q1].
  destruct (starts_app s [1%nat; 2%nat; 3%nat; 4%nat] 0 _ l0 ltac:(set_solver) P1 Q1 N0 M0) as [P0 Q0].
  split; [done|]. intros svc. rewrite Q0. split; [tauto|]. intros Hw. split; [|done].
  rewrite !elem_of_cons. destruct svc; cbn; tauto.
Qed.
End Services.

(** ** TLS *)

(** What [rustls] documents: a new store is empty and [add] adds the root it is
    given; a verifier checks against the store it was built with; the acceptor
    presents the chain and key it was given, and asks for client certificates with
    the verifier it was built with, or does not. *)
Class RustlsLaws (R : Rustls) := {
  store_certs : RootCertStore → list CertificateDer;
  verifier_store : ClientVerifier → RootCertStore;
  client_auth : TlsAcceptor → option ClientVerifier;
  presents : TlsAcceptor → list CertificateDer * PrivateKeyDer;
  store_certs_empty : store_certs store_empty = [];
  store_certs_add s c s' : store_add s c = Ok s' → store_certs s' = store_certs s ++ [c];
  store_is_empty_certs s : store_is_empty s = true ↔ store_certs s = [];
  verifier_store_build s v : build_verifier s = Ok v → verifier_store v = s;
  acceptor_mutual v cs k acc : with_client_cert_verifier v cs k = Ok acc → client_auth acc = Some v ∧ presents acc = (cs, k);
  acceptor_one_way cs k acc : with_no_client_auth cs k = Ok acc → client_auth acc = None ∧ presents acc = (cs, k);
}.

Section Tls.
Context {R : Rustls} {RL : RustlsLaws R}.
Variable open_file : string → Result string (list Z).

Lemma storage_ok {A} label (r : Result string A) a : storage_err label r = Ok a → r = Ok a.
Proof. destruct r; cbn; congruence. Qed.

Lemma result_bind_ok {E A B} (m : Result E A) (k : A → Result E B) b :
  (x ← m; k x) = Ok b → ∃ a, m = Ok a ∧ k a = Ok b.
Proof. destruct m as [a|e]; cbn; [eauto|done]. Qed.

Lemma add_certs_certs store cs store' : add_certs store cs = Ok store' → store_certs store' = store_certs store ++ cs.
Proof using RL.
  revert store. induction cs as [|c cs IH]; intros store; cbn [add_certs].
  - intros [= <-]. by rewrite app_nil_r.
  - intros (s1 & Hs1%storage_ok & H)%result_bind_ok. apply IH in H. apply store_certs_add in Hs1.
    rewrite H, Hs1. by rewrite <-(assoc_L (++)).
Qed.

Lemma load_certs_ok path cs : load_certs open_file path = Ok cs → ∃ file, open_file path = Ok file ∧ certs file = Ok cs.
Proof. unfold load_certs. intros (file & Hf%storage_ok & Hc%storage_ok)%result_bind_ok. eauto. Qed.

Lemma load_private_key_ok path k :
  load_private_key open_file path = Ok k → ∃ file, open_file path = Ok file ∧ private_key file = Ok (Some k).
Proof.
  unfold load_private_key. intros (file & Hf%storage_ok & (key & Hk%storage_ok & H)%result_bind_ok)%result_bind_ok.
  destruct key as [k'|]; [|done]. injection H as ->. eauto.
Qed.

Lemma load_ca_store_ok path store :
  load_ca_store open_file path = Ok store →
  ∃ file, open_file path = Ok file ∧ certs file = Ok (store_certs store) ∧ store_certs store ≠ [].
Proof using RL.
  unfold load_ca_store. intros (cas & (file & Hf & Hc)%load_certs_ok & (st & Hadd%add_certs_certs & H)%result_bind_ok)%result_bind_ok.
  destruct (store_is_empty st) eqn:He; [done|]. injection H as ->. rewrite store_certs_empty in Hadd. cbn in Hadd.
  exists file. rewrite Hadd. split_and!; [done..|]. intros Hnil. rewrite <-Hadd in Hnil.
  apply store_is_empty_certs in Hnil. congruence.
Qed.

(** C28: TLS modes.  An acceptor that is built presents the certificates of the
    configured certificate file with the key of the configured key file.  It asks for
    no client certificates only if [mutual] is off; with [mutual], every handshake is
    checked by a verifier whose roots are exactly the certificates of the configured
    CA file, of which there is at least one.  So a file that cannot be read or
    parsed, a key file without a key or a CA file without certificates, and whatever
    [rustls] refuses, leave no acceptor; then the listener stays off, never in the
    weaker mode. *)
Theorem tls_mode_enforced cfg :
  match load_tls_acceptor open_file cfg with
  | Ok acc =>
      (∃ cert_file cs key_file k,
         open_file (tls_cert cfg) = Ok cert_file ∧ certs cert_file = Ok cs ∧
         open_file (tls_key cfg) = Ok key_file ∧ private_key key_file = Ok (Some k) ∧ presents acc = (cs, k)) ∧
      if tls_mutual cfg then
        ∃ ca_file v, client_auth acc = Some v ∧ open_file (tls_ca cfg) = Ok ca_file ∧
          certs ca_file = Ok (store_certs (verifier_store v)) ∧ store_certs (verifier_store v) ≠ []
      else client_auth acc = None
  | Err e => ∀ s, s_tls s = cfg → tls_service open_file s = Some []
  end.
Proof using RL.
  destruct (load_tls_acceptor open_file cfg) as [acc|e] eqn:E.
  2:{ intros s Hs. unfold tls_service. rewrite Hs, E. by destruct (tls_enabled cfg). }
  unfold load_tls_acceptor in E.
  apply result_bind_ok in E as (cs & (cert_file & Hcf & Hcs)%load_certs_ok & E).
  apply result_bind_ok in E as (k & (key_file & Hkf & Hk)%load_private_key_ok & E).
  assert (Hacc : presents acc = (cs, k) ∧ if tls_mutual cfg then
            ∃ ca_file v, client_auth acc = Some v ∧ open_file (tls_ca cfg) = Ok ca_file ∧
              certs ca_file = Ok (store_certs (verifier_store v)) ∧ store_certs (verifier_store v) ≠ []
          else client_auth acc = None).
  { destruct (tls_mutual cfg).
    - apply result_bind_ok in E as (store & (ca_file & Hf & Hc & Hne)%load_ca_store_ok & E).
      apply result_bind_ok in E as (v & Hv%storage_ok & E%storage_ok).
      apply acceptor_mutual in E as [Ha Hp]. apply verifier_store_build in Hv. split; [done|].
      exists ca_file, v. by rewrite Hv.
    - apply storage_ok, acceptor_one_way in E as [Ha Hp]. done. }
  destruct Hacc as [Hp Hm]. split; [|exact Hm]. exists cert_file, cs, key_file, k. done.
Qed.
End Tls.

(** ** The process *)

Section Process.
Context {M : Mpsc} {L : MpscLaws M} {S : Sled} {JR : Json RetainedMessage} {JS : Json SessionSnapshot}
  {JO : Json OutboundPublish} {F : ForwardEnv} {T : Toml} {R : Rustls}.

(** C23: The start of the process.  A configuration that does not load ends it with
    code 1 before anything is started.  One that loads, and whose offline queue can
    hold at least one message (with none the recovery of stored messages may never
    end), does not: the broker comes up, whatever the database holds or fails to
    read, as one that serves nobody and meets the premises of the system's
    invariant; exactly the enabled
    services run, each once, on its configured address (TLS only if its
    certificates load); and an admin API without a token listens on a loopback
    address only. *)
Theorem main_start_correct e open_file ch fw now n :
  0 ≤ n < u64_mod →
  match load (from_env e) e with
  | Err _ => main_start (M := M) (S := S) (F := F) e open_file ch fw now = Some (Exited 1)
  | Ok s =>
      usable s → disk_bound n s →
      ∃ b hs, main_start e open_file ch fw now = Some (Running b hs) ∧
        starting b ∧ b_config b = s_broker s ∧ b_auth b = s_auth s ∧ epoch_counter (sh_sessions (b_shared b)) ≤ n ∧
        NoDup hs ∧ (∀ svc, svc ∈ hs ↔ wanted open_file s svc) ∧
        (∀ a, AdminServer a ∈ hs → admin_token (s_admin s) ≠ "" ∨ is_loopback (sa_ip a) = true)
  end.
Proof.
  intros Hn. unfold main_start. destruct (load (from_env e) e) as [s|err] eqn:El; [|done]. intros Hu Hd.
  assert (Hok : settings_ok s).
  { unfold load in El. apply result_bind_ok in El as (v & _ & El). apply result_bind_ok in El as (s' & _ & El).
    apply result_bind_ok in El as ([] & Hv & El). injection El as ->. by apply validate_ok. }
  destruct (broker_started n s ch fw now Hu Hn Hd) as (b & -> & Hst & Hcfg & Hauth & Hep).
  destruct (services_started open_file s Hok) as (hs & -> & Hnd & Hin). cbn [mbind option_bind].
  exists b, hs. split; [done|]. do 4 (split; [done|]). split; [done|]. split; [done|].
  intros a [Hen Ha]%Hin. destruct (ok_admin _ Hok Hen) as [_ [Ht|Hl]]; [by left|]. right.
  unfold is_loopback_bind in Hl. rewrite Ha in Hl. exact Hl.
Qed.
End Process.

(** ** A concrete start *)

Import ListChan MapDb ListForward Demo HandlerDemo TomlDemo.

Import TlsDemo.

Module StartDemo.
#[export] Program Instance demo_rustls_laws : RustlsLaws demo_rustls :=
  {| store_certs s := s; verifier_store v := v; client_auth := fst; presents := snd |}.
Next Obligation. done. Qed.
Next Obligation. by intros s c s' [= <-]. Qed.
Next Obligation. intros s. apply bool_decide_eq_true. Qed.
Next Obligation. by intros s v [= <-]. Qed.
Next Obligation. by intros v cs k acc [= <-]. Qed.
Next Obligation. by intros cs k acc [= <-]. Qed.

Definition files (path : string) : Result string (list Z) :=
  if String.eqb path "cert.pem" then Ok [1] else if String.eqb path "key.pem" then Ok [2]
  else if String.eqb path "ca.pem" then Ok [3; 4] else Err "not found".
End StartDemo.
Import StartDemo.

Lemma tls_mode_enforced_witness :
  ∃ acc v, load_tls_acceptor files (mkTlsConfig true "0.0.0.0:8883" "cert.pem" "key.pem" "ca.pem" true) = Ok acc ∧
    client_auth acc = Some v ∧ Ok (E := string) [3; 4] = Ok (store_certs (verifier_store v)).
Proof.
  pose proof (tls_mode_enforced files (mkTlsConfig true "0.0.0.0:8883" "cert.pem" "key.pem" "ca.pem" true)) as H.
  destruct (load_tls_acceptor files _) as [acc|e] eqn:E; [|discriminate E].
  destruct H as (_ & ca_file & v & Hv & Hf & Hc & _). exists acc, v. split; [reflexivity|]. split; [exact Hv|].
  injection Hf as <-. exact Hc.
Defined.

Lemma main_start_correct_witness :
  ∃ (b : Broker list_mpsc map_sled list_forward) hs, main_start TomlDemo.env files ∅ ∅ 0 = Some (Running b hs) ∧ starting b.
Proof.
  pose proof (main_start_correct (M := list_mpsc) (S := map_sled) (F := list_forward) TomlDemo.env files ∅ ∅ 0 0
    ltac:(split; [discriminate|reflexivity])) as H.
  rewrite TomlDemo.loads in H. destruct H as (b & hs & E & Hs & _).
  - split; [apply Nat.ltb_lt; reflexivity|cbn; lia|cbn; lia].
  - intros s snaps Hen. discriminate Hen.
  - exists b, hs. split; [exact E|exact Hs].
Defined.
